(** * The asynchronous task coordinator of [src/async.ts]

    A shallow embedding of the class [Async]: the registry
    ([cache : kind -> {root, groups}], every [LocalCacheObject] holding a
    [labels] record and a [links] Map), the generic engine [setAsync] /
    [clearAsync], the synthesised single-shot wrapper, the promise-clear
    factory [onPromiseClear], the destructors, and the adapters built on
    them.

    Conventions of the embedding.
    - JavaScript objects that the code mutates through several references
      (the [AsyncLink] records, which are reachable from [links], from a
      cancel context and from the wrapper closure) live in a heap and are
      named by their allocation index.
    - A [Map] is the entry list of the ECMAScript specification: [delete]
      empties the slot and [set] of a new key appends, so that the live
      iterator returned by [links.values()] is an index into that list.
    - User functions (payloads, [onClear] hooks, worker methods) are scripts
      over the coordinator's own operations; the program environment [prog]
      gives the script and the returned value of user function [n].
    - The host primitives ([setTimeout], ...) issue increasing numeric
      handles and never call back synchronously; the firing of a wrapper is
      a separate call [KCallFn (FWrapped k)].
    - Re-entrant calls are bounded by a fuel argument; [OutOfFuel] is not a
      result of the program.
    - A group is named by a property key, written as a string; a key that
      is a symbol behaves as a string key does, except that [Object.keys]
      does not list it.  The [RegExp] branch of [clearAsync] goes through
      the external [collection.js] iterator and is not modelled; so are
      [objName] (diagnostics only) and the timer arguments [args]. *)

From stdpp Require Import base option list gmap strings.
From Stdlib Require Import ZArith Lia.

Open Scope string_scope.
Open Scope list_scope.
Open Scope nat_scope.

(** ** Values *)

Inductive fn : Type :=
| FUser (n : nat)
| FResolve (p : nat)
| FReject (p : nat)
| FPromiseClear (resolve reject : fn)
| FWrapped (k : nat).

Inductive value : Type :=
| VUndef
| VNum (n : Z)
| VObj (r : nat)
| VFn (f : fn).

#[global] Instance fn_eq_dec : EqDecision fn.
Proof. solve_decision. Defined.

#[global] Instance value_eq_dec : EqDecision value.
Proof. solve_decision. Defined.

Definition truthy (v : value) : bool :=
  match v with
  | VUndef => false
  | VNum n => negb (n =? 0)%Z
  | VObj _ | VFn _ => true
  end.

Definition isFunction (v : value) : bool :=
  match v with VFn _ => true | _ => false end.

Definition notNull (v : value) : bool :=
  match v with VUndef => false | _ => true end.

(** [a || b] on values. *)
Definition orElse (a b : value) : value := if truthy a then a else b.

(** A string used as a condition: the empty string is falsy. *)
Definition truthyStr (s : option string) : option string :=
  match s with
  | Some s => if decide (s = "") then None else Some s
  | None => None
  end.

(** The property key of [labels[p.label]]: an absent label reads the
    property named "undefined". *)
Definition labelKey (s : option string) : string :=
  match s with Some s => s | None => "undefined" end.

(** ** Descriptors, links, contexts *)

Inductive join_t : Type := JoinTrue | JoinFalse | JoinReplace.

Inductive wrapper_t : Type :=
| WHost (prim : string)   (* setImmediate, setTimeout, setInterval, ... *)
| WThen                    (* (fn, req) => req.then(fn, fn) *)
| WIdentity.               (* (fn) => fn *)

Inductive destructor_t : Type :=
| DHost (prim : string)   (* clearImmediate, clearTimeout, ... *)
| DWorker                  (* workerDestructor *)
| DRequest.                (* requestDestructor *)

Record params : Type := Params {
  p_name : string;
  p_obj : value;
  p_wrapper : option wrapper_t;
  p_clearFn : option destructor_t;
  p_linkByWrapper : bool;
  p_interval : bool;
  p_needCall : bool;
  p_join : option join_t;
  p_label : option string;
  p_group : option string;
  p_onClear : list fn;
  p_id : value;
  p_replacedBy : option nat
}.

Definition with_id (p : params) (v : value) : params :=
  Params (p_name p) (p_obj p) (p_wrapper p) (p_clearFn p) (p_linkByWrapper p)
    (p_interval p) (p_needCall p) (p_join p) (p_label p) (p_group p)
    (p_onClear p) v (p_replacedBy p).

Definition with_replacedBy (p : params) (l : nat) : params :=
  Params (p_name p) (p_obj p) (p_wrapper p) (p_clearFn p) (p_linkByWrapper p)
    (p_interval p) (p_needCall p) (p_join p) (p_label p) (p_group p)
    (p_onClear p) (p_id p) (Some l).

Record AsyncLink : Type := Link {
  l_id : value;
  l_obj : value;
  l_label : option string;
  l_onComplete : list (fn * fn);
  l_onClear : list fn
}.

Record AsyncCtx : Type := Ctx {
  ctx_p : params;
  ctx_link : nat;
  ctx_type : string
}.

Inductive error : Type :=
| ReferenceError (msg : string)
| TypeError (msg : string)
| UserError (msg : string).

Inductive arg : Type :=
| AVal (v : value)
| ACtx (c : AsyncCtx)
| AErr (e : error).

#[global] Instance join_eq_dec : EqDecision join_t.
Proof. solve_decision. Defined.
#[global] Instance wrapper_eq_dec : EqDecision wrapper_t.
Proof. solve_decision. Defined.
#[global] Instance destructor_eq_dec : EqDecision destructor_t.
Proof. solve_decision. Defined.
#[global] Instance params_eq_dec : EqDecision params.
Proof. solve_decision. Defined.
#[global] Instance ctx_eq_dec : EqDecision AsyncCtx.
Proof. solve_decision. Defined.
#[global] Instance error_eq_dec : EqDecision error.
Proof. solve_decision. Defined.
#[global] Instance arg_eq_dec : EqDecision arg.
Proof. solve_decision. Defined.

(** ** The registry *)

(** [Map<any, AsyncLink>]: the entry list, a deleted entry being an empty
    slot. *)
Definition JsMap : Type := list (option (value * nat)).

Fixpoint Map_get (k : value) (m : JsMap) : option nat :=
  match m with
  | [] => None
  | Some (k', v) :: m' => if decide (k' = k) then Some v else Map_get k m'
  | None :: m' => Map_get k m'
  end.

Fixpoint Map_set (k : value) (v : nat) (m : JsMap) : JsMap :=
  match m with
  | [] => [Some (k, v)]
  | Some (k', v') :: m' =>
      if decide (k' = k) then Some (k, v) :: m'
      else Some (k', v') :: Map_set k v m'
  | None :: m' => None :: Map_set k v m'
  end.

Fixpoint Map_delete (k : value) (m : JsMap) : JsMap :=
  match m with
  | [] => []
  | Some (k', v') :: m' =>
      if decide (k' = k) then None :: m'
      else Some (k', v') :: Map_delete k m'
  | None :: m' => None :: Map_delete k m'
  end.

(** [values.next()] of the live iterator standing at slot [i]: the next
    occupied slot at or after [i], with the position after it. *)
Fixpoint Map_next (i : nat) (m : JsMap) : option (nat * nat) :=
  match m with
  | [] => None
  | e :: m' =>
      match i with
      | S i' =>
          match Map_next i' m' with
          | Some (v, j) => Some (v, S j)
          | None => None
          end
      | O =>
          match e with
          | Some (_, v) => Some (v, 1)
          | None =>
              match Map_next 0 m' with
              | Some (v, j) => Some (v, S j)
              | None => None
              end
          end
      end
  end.

(** The values of the occupied slots, in insertion order. *)
Definition Map_values (m : JsMap) : list nat :=
  omap (fun e : option (value * nat) => snd <$> e) m.

Record LocalCacheObject : Type := LocalCache {
  labels : gmap string value;
  links : JsMap
}.

Record CacheObject : Type := Cache {
  root : LocalCacheObject;
  groups : gmap string LocalCacheObject
}.

Definition emptyLocal : LocalCacheObject := LocalCache ∅ [].
Definition emptyCache : CacheObject := Cache emptyLocal ∅.

(** [labels[key]] *)
Definition labels_get (lc : LocalCacheObject) (key : string) : value :=
  default VUndef (labels lc !! key).

(** ** Objects of the host: workers, requests *)

Record jsobj : Type := JsObj {
  o_terminate : value;
  o_destroy : value;
  o_close : value;
  o_abort : value;
  o_promiseLike : bool;   (* a Promise, or [then] and [catch] are functions *)
  o_then : bool           (* [then] is a function, of an object that is not promise-like *)
}.

Inductive pstate : Type :=
| Pending
| Resolved (args : list arg)
| Rejected (args : list arg).

(** The closure synthesised by [setAsync]: the variables it captured. *)
Record closure : Type := Closure {
  c_name : string;
  c_group : option string;
  c_id : value;
  c_label : option string;
  c_interval : bool;
  c_finalObj : value
}.

Inductive event : Type :=
| EStart (w : wrapper_t) (name : string) (cb ret : value)
| EPayload (f : fn) (args : list arg)
| EComplete (f : fn) (args : list arg)
| EHook (f : fn) (c : AsyncCtx)
| EDestroy (d : destructor_t) (id : value) (c : AsyncCtx)
| ELinksDelete (name : string) (g : option string) (id : value)
| ELinksSet (name : string) (g : option string) (id : value) (l : nat)
| EThen (req : value) (l : nat).

#[global] Instance event_eq_dec : EqDecision event.
Proof. solve_decision. Defined.

Record state : Type := State {
  cache : gmap string CacheObject;
  heap : list AsyncLink;
  closures : list closure;
  objects : gmap nat jsobj;
  promises : list pstate;
  next_handle : Z;
  next_object : nat;
  trace : list event
}.

Definition emptyState : state := State ∅ [] [] ∅ [] 1%Z 0 [].

(** ** State access *)

Definition set_cache (c : gmap string CacheObject) (st : state) : state :=
  State c (heap st) (closures st) (objects st) (promises st)
    (next_handle st) (next_object st) (trace st).

Definition set_heap (h : list AsyncLink) (st : state) : state :=
  State (cache st) h (closures st) (objects st) (promises st)
    (next_handle st) (next_object st) (trace st).

Definition set_promises (ps : list pstate) (st : state) : state :=
  State (cache st) (heap st) (closures st) (objects st) ps
    (next_handle st) (next_object st) (trace st).

Definition push_closure (c : closure) (st : state) : state :=
  State (cache st) (heap st) (closures st ++ [c]) (objects st) (promises st)
    (next_handle st) (next_object st) (trace st).

Definition log (e : event) (st : state) : state :=
  State (cache st) (heap st) (closures st) (objects st) (promises st)
    (next_handle st) (next_object st) (trace st ++ [e]).

(** The host issues the next numeric handle. *)
Definition issue_handle (st : state) : state :=
  State (cache st) (heap st) (closures st) (objects st) (promises st)
    (next_handle st + 1)%Z (next_object st) (trace st).

(** The host creates a new object (the promise derived by [then]). *)
Definition new_object (o : jsobj) (st : state) : state :=
  State (cache st) (heap st) (closures st) (<[next_object st := o]> (objects st))
    (promises st) (next_handle st) (S (next_object st)) (trace st).

Definition noProps : jsobj := JsObj VUndef VUndef VUndef VUndef false false.
Definition getObject (st : state) (r : nat) : jsobj :=
  default noProps (objects st !! r).

Definition noLink : AsyncLink := Link VUndef VUndef None [] [].
Definition getLink (st : state) (l : nat) : AsyncLink :=
  default noLink (heap st !! l).

(** The [LocalCacheObject] of a kind and group ([None] is [root]). *)
Definition getLocal (name : string) (g : option string) (st : state)
  : LocalCacheObject :=
  match cache st !! name with
  | None => emptyLocal
  | Some co =>
      match g with
      | None => root co
      | Some g => default emptyLocal (groups co !! g)
      end
  end.

Definition putLocal (name : string) (g : option string)
    (lc : LocalCacheObject) (st : state) : state :=
  let co := default emptyCache (cache st !! name) in
  let co' :=
    match g with
    | None => Cache lc (groups co)
    | Some g => Cache (root co) (<[g := lc]> (groups co))
    end in
  set_cache (<[name := co']> (cache st)) st.

(** [this.cache[name] = this.cache[name] || {root: ..., groups: ...}] *)
Definition initCache (name : string) (st : state) : state :=
  match cache st !! name with
  | Some _ => st
  | None => set_cache (<[name := emptyCache]> (cache st)) st
  end.

(** [baseCache.groups[g] = baseCache.groups[g] || {labels: ..., links: ...}]
    of [setAsync]; nothing for the root. *)
Definition initGroup (name : string) (g : option string) (st : state) : state :=
  match g with
  | None => st
  | Some g' =>
      match cache st !! name with
      | None => st
      | Some co =>
          match groups co !! g' with
          | Some _ => st
          | None => putLocal name g emptyLocal st
          end
      end
  end.

Definition hasGroup (name g : string) (st : state) : bool :=
  match cache st !! name with
  | None => false
  | Some co => bool_decide (is_Some (groups co !! g))
  end.

(** [links.set(id, link)] *)
Definition links_set (name : string) (g : option string) (id : value) (l : nat)
    (st : state) : state :=
  let lc := getLocal name g st in
  log (ELinksSet name g id l)
    (putLocal name g (LocalCache (labels lc) (Map_set id l (links lc))) st).

(** [links.delete(id)] *)
Definition links_delete (name : string) (g : option string) (id : value)
    (st : state) : state :=
  let lc := getLocal name g st in
  log (ELinksDelete name g id)
    (putLocal name g (LocalCache (labels lc) (Map_delete id (links lc))) st).

(** [labels[key] = v] *)
Definition labels_set (name : string) (g : option string) (key : string)
    (v : value) (st : state) : state :=
  let lc := getLocal name g st in
  putLocal name g (LocalCache (<[key := v]> (labels lc)) (links lc)) st.

Definition push_link (l : AsyncLink) (st : state) : state :=
  set_heap (heap st ++ [l]) st.

Definition push_onComplete (l : nat) (pair : fn * fn) (st : state) : state :=
  set_heap
    (alter (fun k => Link (l_id k) (l_obj k) (l_label k)
                       (l_onComplete k ++ [pair]) (l_onClear k)) l (heap st)) st.

Definition push_onClear (l : nat) (fs : list fn) (st : state) : state :=
  set_heap
    (alter (fun k => Link (l_id k) (l_obj k) (l_label k)
                       (l_onComplete k) (l_onClear k ++ fs)) l (heap st)) st.

(** A promise settles once. *)
Definition settle (p : nat) (s : pstate) (st : state) : state :=
  match promises st !! p with
  | Some Pending => set_promises (<[p := s]> (promises st)) st
  | _ => st
  end.

(** ** Results *)

Inductive outcome (A : Type) : Type :=
| Ok (a : A) (st : state)
| Throw (e : error) (st : state)
| OutOfFuel.
Arguments Ok {A} a st.
Arguments Throw {A} e st.
Arguments OutOfFuel {A}.

Definition andThen {A B : Type} (o : outcome A) (k : A -> state -> outcome B)
  : outcome B :=
  match o with
  | Ok a st => k a st
  | Throw e st => Throw e st
  | OutOfFuel => OutOfFuel
  end.

Notation "'let!' ( x , s ) ':=' o 'in' k" :=
  (andThen o (fun x s => k))
  (at level 10, x name, s name, o at level 100, k at level 200).

(** ** User code and the calls of the engine *)

Inductive cmd : Type :=
| CSetAsync (p : params)
| CClearAsync (p : params)
| CThrow (e : error).

Record ufun : Type := UFun { u_body : list cmd; u_ret : value }.

Inductive call : Type :=
| KSetAsync (p : params)
| KClearAsync (p : params)
| KBulk (p : params) (i : nat)
| KHooks (l : nat) (i : nat) (c : AsyncCtx)
| KCallFn (f : fn) (args : list arg)
| KExecTasks (i : nat) (l : nat) (j : nat) (args : list arg).

(** ** The engine

    The bodies below are the methods of the class; [rec] stands for a call
    of a method or of a function value (the interpreter with the fuel that
    is left). *)

Section Engine.

Variable prog : nat -> ufun.
Variable rec : call -> state -> outcome value.

(** [p.wrapper.apply(null, [wrappedObj].concat(p.needCall ? id : [], p.args))] *)
Definition callWrapper (w : wrapper_t) (name : string) (cb : value)
    (req : option value) (st : state) : outcome value :=
  match w with
  | WHost _ =>
      let h := VNum (next_handle st) in
      Ok h (log (EStart w name cb h) (issue_handle st))
  | WIdentity => Ok cb st
  | WThen =>
      match req with
      | Some (VObj r) =>
          if o_promiseLike (getObject st r) || o_then (getObject st r) then
            let d := VObj (next_object st) in
            Ok d (log (EStart w name cb d)
                    (new_object (JsObj VUndef VUndef VUndef VUndef true false) st))
          else Throw (TypeError "req.then is not a function") st
      | _ => Throw (TypeError "req.then is not a function") st
      end
  end.

(** [if (p.wrapper) { const link = p.wrapper.apply(...);
                      if (p.linkByWrapper) id = link; }]: the id of the task. *)
Definition startPrimitive (p : params) (wrappedObj finalObj : value) (st : state)
  : outcome value :=
  match p_wrapper p with
  | Some w =>
      let! (link, st) :=
        callWrapper w (p_name p) wrappedObj
          (if p_needCall p then Some finalObj else None) st in
      Ok (if p_linkByWrapper p then link else finalObj) st
  | None => Ok finalObj st
  end.

(** [if (!p.interval || Object.isFunction(wrappedObj)) wrappedObj = function ...]:
    whether the payload is wrapped, the value of [wrappedObj] that results
    (the closure is the next one allocated), and the allocation. *)
Definition isWrapped (p : params) (finalObj : value) : bool :=
  negb (p_interval p) || isFunction finalObj.

Definition wrapperRef (p : params) (finalObj : value) (st : state) : value :=
  if isWrapped p finalObj then VFn (FWrapped (length (closures st))) else finalObj.

Definition allocClosure (p : params) (g : option string) (id finalObj : value)
    (st : state) : state :=
  if isWrapped p finalObj then
    push_closure (Closure (p_name p) g id (p_label p) (p_interval p) finalObj) st
  else st.

Definition setAsync (p : params) (st : state) : outcome value :=
  let g := truthyStr (p_group p) in
  let st := initGroup (p_name p) g (initCache (p_name p) st) in
  let labelCache := labels_get (getLocal (p_name p) g st) (labelKey (p_label p)) in
  if truthy labelCache && bool_decide (p_join p = Some JoinTrue) then
    Ok labelCache st
  else
    let! (finalObj, st) :=
      match p_obj p with
      | VFn f => if p_needCall p then rec (KCallFn f []) st else Ok (p_obj p) st
      | _ => Ok (p_obj p) st
      end in
    let wrappedObj := wrapperRef p finalObj st in
    let! (id, st) := startPrimitive p wrappedObj finalObj st in
    (* the closure reads its captured [id] only when it fires *)
    let st := allocClosure p g id finalObj st in
    if notNull (p_obj p) then
      let l := length (heap st) in
      let st := push_link (Link id (p_obj p) (p_label p) [] (p_onClear p)) st in
      let! (_, st) :=
        if truthy labelCache then rec (KClearAsync (with_replacedBy p l)) st
        else Ok VUndef st in
      let st := links_set (p_name p) g id l st in
      let st :=
        match truthyStr (p_label p) with
        | Some key => labels_set (p_name p) g key id st
        | None => st
        end in
      Ok id st
    else Throw (TypeError "Cannot read property 'name' of undefined") st.

(** The property [which] of [worker], for any value that is not
    [undefined]. *)
Definition workerMethod (st : state) (worker : value) : value :=
  match worker with
  | VObj r =>
      let o := getObject st r in
      orElse (o_terminate o) (orElse (o_destroy o) (o_close o))
  | _ => VUndef
  end.

Definition workerDestructor (worker : value) (st : state) : outcome value :=
  match workerMethod st worker with
  | VFn f => rec (KCallFn f []) st
  | _ => Throw (ReferenceError "Destructor function for the worker is not defined") st
  end.

Definition requestDestructor (request : value) (c : AsyncCtx) (st : state)
  : outcome value :=
  match (match request with VObj r => o_abort (getObject st r) | _ => VUndef end) with
  | VFn f =>
      let reason :=
        if bool_decide (p_join (ctx_p c) = Some JoinReplace) then
          match p_replacedBy (ctx_p c) with
          | Some r => l_id (getLink st r)
          | None => VUndef
          end
        else VUndef in
      rec (KCallFn f [AVal reason]) st
  | _ => Throw (ReferenceError "Abort function for the request is not defined") st
  end.

(** [p.clearFn.call(null, link.id, ctx)] *)
Definition callDestructor (d : destructor_t) (id : value) (c : AsyncCtx)
    (st : state) : outcome value :=
  let st := log (EDestroy d id c) st in
  match d with
  | DHost _ => Ok VUndef st
  | DWorker => workerDestructor id st
  | DRequest => requestDestructor id c st
  end.

(** [if (p.label) { const tmp = labels[p.label];
       if (p.id != null && p.id !== tmp) return this; p.id = tmp; }]:
    the descriptor with its id resolved, or [None] for the early return. *)
Definition resolveId (p : params) (lc : LocalCacheObject) : option params :=
  match truthyStr (p_label p) with
  | Some key =>
      let tmp := labels_get lc key in
      if notNull (p_id p) && negb (bool_decide (p_id p = tmp)) then None
      else Some (with_id p tmp)
  | None => Some p
  end.

Definition clearAsync (p : params) (st : state) : outcome value :=
  let st := initCache (p_name p) st in
  let g := truthyStr (p_group p) in
  if match g with Some g' => hasGroup (p_name p) g' st | None => true end then
    let lc := getLocal (p_name p) g st in
    match resolveId p lc with
    | None => Ok VUndef st
    | Some p =>
        if notNull (p_id p) then
          match Map_get (p_id p) (links lc) with
          | Some l =>
              let link := getLink st l in
              let st := links_delete (p_name p) g (l_id link) st in
              let st := labels_set (p_name p) g (labelKey (l_label link)) VUndef st in
              let c := Ctx p l "clearAsync" in
              let! (_, st) := rec (KHooks l 0 c) st in
              match p_clearFn p with
              | Some d =>
                  let! (_, st) := callDestructor d (l_id link) c st in
                  Ok VUndef st
              | None => Ok VUndef st
              end
          | None => Ok VUndef st
          end
        else rec (KBulk p 0) st
    end
  else Ok VUndef st.

(** [for (let el = values.next(); !el.done; el = values.next())
       this.clearAsync({...p, id: el.value.id})]
    with the iterator standing at slot [i] of the live Map. *)
Definition bulk (p : params) (i : nat) (st : state) : outcome value :=
  let lc := getLocal (p_name p) (truthyStr (p_group p)) st in
  match Map_next i (links lc) with
  | None => Ok VUndef st
  | Some (l, j) =>
      let! (_, st) := rec (KClearAsync (with_id p (l_id (getLink st l)))) st in
      rec (KBulk p j) st
  end.

(** [for (let i = 0; i < clearHandlers.length; i++)
       clearHandlers[i].call(this.context || this, ctx)] from index [i]. *)
Definition hooks (l : nat) (i : nat) (c : AsyncCtx) (st : state) : outcome value :=
  match l_onClear (getLink st l) !! i with
  | None => Ok VUndef st
  | Some h =>
      let! (_, st) := rec (KCallFn h [ACtx c]) (log (EHook h c) st) in
      rec (KHooks l (S i) c) st
  end.

(** [execTasks(i)(...args)] from index [j] of [link.onComplete]. *)
Definition execTasks (i : nat) (l : nat) (j : nat) (args : list arg)
    (st : state) : outcome value :=
  match l_onComplete (getLink st l) !! j with
  | None => Ok VUndef st
  | Some (resolve, reject) =>
      let f := match i with O => resolve | S _ => reject end in
      let! (_, st) := rec (KCallFn f args) (log (EComplete f args) st) in
      rec (KExecTasks i l (S j) args) st
  end.

(** The handler returned by [onPromiseClear(resolve, reject)]. *)
Definition MAX_PROMISE_DEPTH : nat := 25.

Definition onPromiseClear (resolve reject : fn) (args : list arg) (st : state)
  : outcome value :=
  match args with
  | ACtx obj :: _ =>
      match p_replacedBy (ctx_p obj) with
      | Some replacedBy =>
          if bool_decide (p_join (ctx_p obj) = Some JoinReplace)
             && Nat.ltb (length (l_onClear (getLink st (ctx_link obj)))) MAX_PROMISE_DEPTH
          then
            let st := push_onComplete replacedBy (resolve, reject) st in
            let onClear := l_onClear (getLink st (ctx_link obj)) ++ [reject] in
            Ok VUndef (push_onClear replacedBy onClear st)
          else rec (KCallFn reject [ACtx obj]) st
      | None => rec (KCallFn reject [ACtx obj]) st
      end
  | AVal VUndef :: _ | [] =>
      Throw (TypeError "Cannot destructure 'replacedBy' of undefined") st
  | a :: _ => rec (KCallFn reject [a]) st
  end.

Definition isPromiseLike (st : state) (v : value) : bool :=
  match v with
  | VObj r => o_promiseLike (getObject st r)
  | _ => false
  end.

(** The function synthesised by [setAsync], when it is called. *)
Definition wrappedObj (cl : closure) (args : list arg) (st : state)
  : outcome value :=
  let lc := getLocal (c_name cl) (c_group cl) st in
  match Map_get (c_id cl) (links lc) with
  | None => Ok VUndef st
  | Some l =>
      let st :=
        if c_interval cl then st
        else labels_set (c_name cl) (c_group cl) (labelKey (c_label cl)) VUndef
               (links_delete (c_name cl) (c_group cl) (c_id cl) st) in
      let! (res, st) :=
        match c_finalObj cl with
        | VFn f => rec (KCallFn f args) (log (EPayload f args) st)
        | v => Ok v st
        end in
      if isPromiseLike st (c_finalObj cl) then
        Ok res (log (EThen (c_finalObj cl) l) st)
      else
        let! (_, st) := rec (KExecTasks 0 l 0 args) st in
        Ok res st
  end.

Definition runCmd (c : cmd) (st : state) : outcome value :=
  match c with
  | CSetAsync p => rec (KSetAsync p) st
  | CClearAsync p => rec (KClearAsync p) st
  | CThrow e => Throw e st
  end.

Fixpoint runScript (cs : list cmd) (st : state) : outcome value :=
  match cs with
  | [] => Ok VUndef st
  | c :: cs => let! (_, st) := runCmd c st in runScript cs st
  end.

Definition callFn (f : fn) (args : list arg) (st : state) : outcome value :=
  match f with
  | FUser n =>
      let! (_, st) := runScript (u_body (prog n)) st in
      Ok (u_ret (prog n)) st
  | FResolve p => Ok VUndef (settle p (Resolved args) st)
  | FReject p => Ok VUndef (settle p (Rejected args) st)
  | FPromiseClear resolve reject => onPromiseClear resolve reject args st
  | FWrapped k =>
      match closures st !! k with
      | Some cl => wrappedObj cl args st
      | None => Ok VUndef st
      end
  end.

Definition step (c : call) (st : state) : outcome value :=
  match c with
  | KSetAsync p => setAsync p st
  | KClearAsync p => clearAsync p st
  | KBulk p i => bulk p i st
  | KHooks l i c => hooks l i c st
  | KCallFn f args => callFn f args st
  | KExecTasks i l j args => execTasks i l j args st
  end.

End Engine.

Fixpoint run (prog : nat -> ufun) (fuel : nat) (c : call) (st : state)
  : outcome value :=
  match fuel with
  | O => OutOfFuel
  | S n => step prog (run prog n) c st
  end.

(** ** The adapters *)

Record AsyncCbOpts : Type := Opts {
  o_join : option join_t;
  o_label : option string;
  o_group : option string;
  o_onClear : list fn
}.

Definition noOpts : AsyncCbOpts := Opts None None None [].

Definition setTimeoutParams (f : value) (o : AsyncCbOpts) : params :=
  Params "timeout" f (Some (WHost "setTimeout")) (Some (DHost "clearTimeout"))
    true false false (o_join o) (o_label o) (o_group o) (o_onClear o) VUndef None.

Definition setIntervalParams (f : value) (o : AsyncCbOpts) : params :=
  Params "interval" f (Some (WHost "setInterval")) (Some (DHost "clearInterval"))
    true true false (o_join o) (o_label o) (o_group o) (o_onClear o) VUndef None.

Definition setImmediateParams (f : value) (o : AsyncCbOpts) : params :=
  Params "immediate" f (Some (WHost "setImmediate")) (Some (DHost "clearImmediate"))
    true false false (o_join o) (o_label o) (o_group o) (o_onClear o) VUndef None.

Definition workerParams (w : value) (o : AsyncCbOpts) : params :=
  Params "worker" w None (Some DWorker)
    false true false (o_join o) (o_label o) (o_group o) (o_onClear o) VUndef None.

Definition requestParams (r : value) (o : AsyncCbOpts) : params :=
  Params "request" r (Some WThen) (Some DRequest)
    false false true (o_join o) (o_label o) (o_group o) (o_onClear o) VUndef None.

Definition proxyParams (cb : value) (o : AsyncCbOpts) : params :=
  Params "proxy" cb (Some WIdentity) None
    true false false (o_join o) (o_label o) (o_group o) (o_onClear o) VUndef None.

(** The argument of a [clearX] method: an id, or an options object
    [{id?, label?, group?}]. *)
Definition clearParams (name : string) (d : option destructor_t)
    (id : value) (label group : option string) : params :=
  Params name VUndef None d false false false None label group [] id None.

Section Adapters.

Variable prog : nat -> ufun.
Variable fuel : nat.

Definition setTimeout (f : value) (o : AsyncCbOpts) : state -> outcome value :=
  run prog fuel (KSetAsync (setTimeoutParams f o)).

Definition setInterval (f : value) (o : AsyncCbOpts) : state -> outcome value :=
  run prog fuel (KSetAsync (setIntervalParams f o)).

Definition worker (w : value) (o : AsyncCbOpts) : state -> outcome value :=
  run prog fuel (KSetAsync (workerParams w o)).

Definition request (r : value) (o : AsyncCbOpts) : state -> outcome value :=
  run prog fuel (KSetAsync (requestParams r o)).

Definition proxy (cb : value) (o : AsyncCbOpts) : state -> outcome value :=
  run prog fuel (KSetAsync (proxyParams cb o)).

Definition clearTimeout (id : value) (label group : option string)
  : state -> outcome value :=
  run prog fuel
    (KClearAsync (clearParams "timeout" (Some (DHost "clearTimeout")) id label group)).

Definition terminateWorker (id : value) (label group : option string)
  : state -> outcome value :=
  run prog fuel (KClearAsync (clearParams "worker" (Some DWorker) id label group)).

(** [new Promise((resolve, reject) => this.setTimeout(resolve, timer,
      {...params, onClear: this.onPromiseClear(resolve, reject)}))];
    an exception of the executor rejects the promise. *)
Definition sleep (o : AsyncCbOpts) (st : state) : outcome nat :=
  let pr := length (promises st) in
  let st := set_promises (promises st ++ [Pending]) st in
  let o' := Opts (o_join o) (o_label o) (o_group o)
              [FPromiseClear (FResolve pr) (FReject pr)] in
  match setTimeout (VFn (FResolve pr)) o' st with
  | Ok _ st => Ok pr st
  | Throw e st => Ok pr (settle pr (Rejected [AErr e]) st)
  | OutOfFuel => OutOfFuel
  end.

End Adapters.

(** ** Predicates of the statements *)

(** The keys of the occupied slots; a Map never holds a key twice. *)
Definition Map_keys (m : JsMap) : list value :=
  omap (fun e : option (value * nat) => fst <$> e) m.

Definition Map_wf (m : JsMap) : Prop := NoDup (Map_keys m).

(** Functions that return normally and do not call back into the
    coordinator: the settle functions of a promise, the promise-clear
    handlers built on them, and user functions with an empty script. *)
Fixpoint quietFn (prog : nat -> ufun) (f : fn) : bool :=
  match f with
  | FUser n => bool_decide (u_body (prog n) = [])
  | FResolve _ | FReject _ => true
  | FPromiseClear resolve reject => quietFn prog resolve && quietFn prog reject
  | FWrapped _ => false
  end.

(** The state of a result. *)
Definition stateOf {A : Type} (o : outcome A) (dflt : state) : state :=
  match o with
  | Ok _ st | Throw _ st => st
  | OutOfFuel => dflt
  end.

(** [e1] occurs before [e2] in a trace. *)
Definition before (e1 e2 : event) (t : list event) : Prop :=
  ∃ i j, i < j ∧ t !! i = Some e1 ∧ t !! j = Some e2.

(** The events of one clear: the removal, the hooks in order, the
    destructor. *)
Definition hookEvents (c : AsyncCtx) (hs : list fn) : list event :=
  (fun h => EHook h c) <$> hs.

(** The depth of the calls a quiet function makes. *)
Fixpoint fnDepth (f : fn) : nat :=
  match f with
  | FPromiseClear _ reject => S (fnDepth reject)
  | _ => 0
  end.

(** What a quiet function may change: the promises, and the [onComplete]
    and [onClear] lists of the successor [r] of the context. *)
Definition quietRel (r : option nat) (st st' : state) : Prop :=
  cache st' = cache st
  ∧ closures st' = closures st
  ∧ objects st' = objects st
  ∧ next_handle st' = next_handle st
  ∧ next_object st' = next_object st
  ∧ length (heap st') = length (heap st)
  ∧ ∀ l, (Some l ≠ r → getLink st' l = getLink st l)
         ∧ l_id (getLink st' l) = l_id (getLink st l)
         ∧ l_label (getLink st' l) = l_label (getLink st l).

(** ** Example programs and states *)

(** Every user function does nothing. *)
Definition quietProg : nat -> ufun := fun _ => UFun [] VUndef.

(** User function 1 throws; the others do nothing. *)
Definition throwingProg : nat -> ufun :=
  fun n =>
    match n with
    | 1 => UFun [CThrow (UserError "boom")] VUndef
    | _ => UFun [] VUndef
    end.

Definition labelled (l : string) (hs : list fn) : AsyncCbOpts :=
  Opts None (Some l) None hs.

Definition hooked (hs : list fn) : AsyncCbOpts := Opts None None None hs.

(** After [setTimeout(f1, 10, {label: "t", onClear: h7})]. *)
Definition oneTimeout : state :=
  stateOf (setTimeout quietProg 1 (VFn (FUser 1)) (labelled "t" [FUser 7]) emptyState)
    emptyState.

(** After [setTimeout(f3, 10, {onClear: [h1, h2]})]. *)
Definition twoHooks : state :=
  stateOf (setTimeout throwingProg 1 (VFn (FUser 3)) (hooked [FUser 1; FUser 2]) emptyState)
    emptyState.

(** After [worker(w, {onClear: h7})] for a worker [w] that has none of
    [terminate], [destroy], [close]. *)
Definition bareWorker : state :=
  stateOf (worker quietProg 1 (VObj 0) (hooked [FUser 7]) emptyState) emptyState.

(** A state with one promise and two Links, and a context that clears the
    first Link in favour of the second. *)
Definition bridged : state :=
  State ∅ [Link (VNum 1) (VFn (FResolve 0)) (Some "s") []
             [FPromiseClear (FResolve 0) (FReject 0)];
           Link (VNum 2) (VFn (FResolve 1)) (Some "s") [] []]
    [] ∅ [Pending; Pending] 3%Z 0 [].

Definition replaceCtx : AsyncCtx :=
  Ctx (with_id
         (with_replacedBy
            (setTimeoutParams (VFn (FResolve 1)) (Opts (Some JoinReplace) (Some "s") None []))
            1)
         (VNum 1))
    0 "clearAsync".

(** The payload itself is registered: [needCall] is off, or the payload is
    not a function. *)
Definition usesPayload (p : params) : Prop :=
  p_needCall p = false ∨ isFunction (p_obj p) = false.

(** [links.set(id, link)] followed by [if (p.label) labels[p.label] = id]. *)
Definition install (p : params) (id : value) (l : nat) (st : state) : state :=
  let st := links_set (p_name p) (truthyStr (p_group p)) id l st in
  match truthyStr (p_label p) with
  | Some key => labels_set (p_name p) (truthyStr (p_group p)) key id st
  | None => st
  end.

(** The events of the destructor call of a clear. *)
Definition destroyEvents (d : option destructor_t) (id : value) (c : AsyncCtx)
  : list event :=
  match d with
  | Some d => [EDestroy d id c]
  | None => []
  end.


(** The cache object of a kind and group has been created. *)
Definition cacheExists (name : string) (g : option string) (st : state) : Prop :=
  match cache st !! name with
  | Some co =>
      match g with
      | Some s => is_Some (groups co !! s)
      | None => True
      end
  | None => False
  end.

(** User function 1 registers a timeout under the label "t" again, with
    itself as the payload. *)
Definition rearmProg : nat -> ufun :=
  fun n =>
    match n with
    | 1 => UFun [CSetAsync (setTimeoutParams (VFn (FUser 1)) (labelled "t" []))] VUndef
    | _ => UFun [] VUndef
    end.


(** The ids handed to a destructor, in the order of the calls. *)
Definition destroyed (t : list event) : list value :=
  omap (fun e => match e with EDestroy _ id _ => Some id | _ => None end) t.

(** User function 1 registers one more timeout, without a label. *)
Definition addingProg : nat -> ufun :=
  fun n =>
    match n with
    | 1 => UFun [CSetAsync (setTimeoutParams (VFn (FUser 9)) noOpts)] VUndef
    | _ => UFun [] VUndef
    end.

(** After [setTimeout(f, 10, {onClear: h1})] and [setTimeout(g, 10)]. *)
Definition twoTimeouts : state :=
  stateOf (setTimeout addingProg 1 (VFn (FUser 8)) noOpts
             (stateOf (setTimeout addingProg 1 (VFn (FUser 7)) (hooked [FUser 1]) emptyState)
                emptyState))
    emptyState.

(** The events of the clear of one Link by a bulk clear with descriptor
    [p]. *)
Definition clearEvents (name : string) (g : option string) (p : params)
    (st : state) (l : nat) : list event :=
  let link := getLink st l in
  let c := Ctx (with_id p (l_id link)) l "clearAsync" in
  ELinksDelete name g (l_id link)
    :: hookEvents c (l_onClear link) ++ destroyEvents (p_clearFn p) (l_id link) c.

(** A Link of the registry whose clear hooks are quiet: it is stored under
    its own id, which is not [undefined]. *)
Definition quietLink (prog : nat -> ufun) (D H : nat) (st : state)
    (k : value) (l : nat) : Prop :=
  l_id (getLink st l) = k
  ∧ notNull k = true
  ∧ Forall (fun h => quietFn prog h = true ∧ fnDepth h ≤ D) (l_onClear (getLink st l))
  ∧ length (l_onClear (getLink st l)) ≤ H.

(** ** A Link that the registry no longer holds *)

(** The Link [l1] exists and no [links] Map refers to it. *)
Definition lost (l1 : nat) (st : state) : Prop :=
  l1 < length (heap st)
  ∧ ∀ name g, l1 ∉ Map_values (links (getLocal name g st)).

(** An event that is not the call of a clear hook or of a destructor for
    the Link [l1]. *)
Definition notAbout (l1 : nat) (e : event) : Prop :=
  match e with
  | EHook _ c | EDestroy _ _ c => ctx_link c ≠ l1
  | _ => True
  end.

(** A call other than the hook loop of a clear of [l1]. *)
Definition notClearing (l1 : nat) (c : call) : Prop :=
  match c with
  | KHooks _ _ ctx => ctx_link ctx ≠ l1
  | _ => True
  end.

(** A sequence of calls made by the host, one after the other; an
    exception of one call leaves the state to the next. *)
Fixpoint runAll (prog : nat -> ufun) (fuel : nat) (cs : list call) (st : state)
  : option state :=
  match cs with
  | [] => Some st
  | c :: cs =>
      match run prog fuel c st with
      | Ok _ st' | Throw _ st' => runAll prog fuel cs st'
      | OutOfFuel => None
      end
  end.

(** From [st] to [st']: [l1] stays lost and the events added are not about
    it. *)
Definition safe (l1 : nat) (st st' : state) : Prop :=
  lost l1 st'
  ∧ ∃ t, trace st' = trace st ++ t ∧ Forall (notAbout l1) t.

Definition osafe (l1 : nat) (st : state) (o : outcome value) : Prop :=
  match o with
  | Ok _ st' | Throw _ st' => safe l1 st st'
  | OutOfFuel => True
  end.

(** ** More of the class: the clear methods, the remaining adapters

    The methods [clearImmediate], [clearInterval], ... take nothing, a value
    that is not a plain object, or a plain object.  [Object.isObject] tells
    the last two apart, and [clearArg] records its answer:
    - [ArgValue v] is a value for which [Object.isObject] is false (a
      handle, a function, an instance of a class such as [Worker]); it has
      no properties [id], [label], [group] of its own;
    - [ArgOptions id label group] is a plain object, of which the methods
      read these three properties.  A worker or a request that is itself an
      object literal is passed as such an object, its three properties
      being absent: the call is then a bulk clear.
    [value] has no [null]: [clearX(null)], a [TypeError] of the source, is
    outside the model. *)

Inductive clearArg : Type :=
| ArgUndefined
| ArgValue (v : value)
| ArgOptions (id : value) (label group : option string).

(** [Object.isObject(value) ? undefined : value] *)
Definition getIfNotObject (a : clearArg) : value :=
  match a with
  | ArgValue v => v
  | ArgUndefined | ArgOptions _ _ _ => VUndef
  end.

(** [{...p, name, clearFn, id: p.id || this.getIfNotObject(p)}] *)
Definition clearDescriptor (name : string) (d : option destructor_t)
    (a : clearArg) : params :=
  match a with
  | ArgOptions id label group =>
      clearParams name d (orElse id (getIfNotObject a)) label group
  | ArgUndefined | ArgValue _ =>
      clearParams name d (orElse VUndef (getIfNotObject a)) None None
  end.

(** [{...p, group: g}] *)
Definition with_group (p : params) (g : string) : params :=
  Params (p_name p) (p_obj p) (p_wrapper p) (p_clearFn p) (p_linkByWrapper p)
    (p_interval p) (p_needCall p) (p_join p) (p_label p) (Some g)
    (p_onClear p) (p_id p) (p_replacedBy p).

(** The object [p] after [this.clearAsync(p)]: [clearAsync] assigns
    [p.id = tmp] on the object it was given when it gets past the label
    test. *)
Definition afterClear (p : params) (st : state) : params :=
  let st := initCache (p_name p) st in
  let g := truthyStr (p_group p) in
  if match g with Some g' => hasGroup (p_name p) g' st | None => true end then
    match resolveId p (getLocal (p_name p) g st) with
    | Some p' => p'
    | None => p
    end
  else p.

Definition requestAnimationFrameParams (f : value) (o : AsyncCbOpts) : params :=
  Params "animationFrame" f (Some (WHost "requestAnimationFrame"))
    (Some (DHost "cancelAnimationFrame"))
    true false false (o_join o) (o_label o) (o_group o) (o_onClear o) VUndef None.

Definition requestIdleCallbackParams (f : value) (o : AsyncCbOpts) : params :=
  Params "idleCallback" f (Some (WHost "requestIdleCallback"))
    (Some (DHost "cancelIdleCallback"))
    true false false (o_join o) (o_label o) (o_group o) (o_onClear o) VUndef None.

(** [{...params, onClear: this.onPromiseClear(resolve, reject)}] for the
    promise [pr]. *)
Definition bridgeOpts (o : AsyncCbOpts) (pr : nat) : AsyncCbOpts :=
  Opts (o_join o) (o_label o) (o_group o) [FPromiseClear (FResolve pr) (FReject pr)].

Section MoreMethods.

Variable prog : nat -> ufun.
Variable fuel : nat.

(** [Object.keys] of the record of groups: the order is the host's, and
    the keys that are symbols are left out.  ([p.group] may be a symbol as
    well as a string; a key of the record [groups] stands for either.) *)
Variable objectKeys : gmap string LocalCacheObject -> list string.

(** [for (let i = 0; i < keys.length; i++) this.clearAsync({...p, group: keys[i]})] *)
Fixpoint clearGroups (p : params) (keys : list string) (st : state)
  : outcome value :=
  match keys with
  | [] => Ok VUndef st
  | k :: keys =>
      let! (_, st) := run prog fuel (KClearAsync (with_group p k)) st in
      clearGroups p keys st
  end.

Definition clearAllAsync (p : params) (st : state) : outcome value :=
  let! (_, st1) := run prog fuel (KClearAsync p) st in
  let p := afterClear p st in
  let st2 := initCache (p_name p) st1 in
  let keys := objectKeys (groups (default emptyCache (cache st2 !! p_name p))) in
  clearGroups p keys st2.

(** [clearImmediate(p)], [clearInterval(p)], [clearTimeout(p)],
    [cancelAnimationFrame(p)], [cancelIdleCallback(p)],
    [terminateWorker(p)], [cancelRequest(p)], [cancelProxy(p)]: the kind
    and its destructor are the only difference. *)
Definition clearBy (name : string) (d : option destructor_t) (a : clearArg)
    (st : state) : outcome value :=
  match a with
  | ArgUndefined => clearAllAsync (clearParams name d VUndef None None) st
  | _ => run prog fuel (KClearAsync (clearDescriptor name d a)) st
  end.

Definition clearImmediate : clearArg -> state -> outcome value :=
  clearBy "immediate" (Some (DHost "clearImmediate")).
Definition clearInterval : clearArg -> state -> outcome value :=
  clearBy "interval" (Some (DHost "clearInterval")).
Definition clearTimeoutBy : clearArg -> state -> outcome value :=
  clearBy "timeout" (Some (DHost "clearTimeout")).
Definition cancelAnimationFrame : clearArg -> state -> outcome value :=
  clearBy "animationFrame" (Some (DHost "cancelAnimationFrame")).
Definition cancelIdleCallback : clearArg -> state -> outcome value :=
  clearBy "idleCallback" (Some (DHost "cancelIdleCallback")).
Definition terminateWorkerBy : clearArg -> state -> outcome value :=
  clearBy "worker" (Some DWorker).
Definition cancelRequest : clearArg -> state -> outcome value :=
  clearBy "request" (Some DRequest).
Definition cancelProxy : clearArg -> state -> outcome value :=
  clearBy "proxy" None.

Definition setImmediate (f : value) (o : AsyncCbOpts) : state -> outcome value :=
  run prog fuel (KSetAsync (setImmediateParams f o)).

Definition requestAnimationFrame (f : value) (o : AsyncCbOpts)
  : state -> outcome value :=
  run prog fuel (KSetAsync (requestAnimationFrameParams f o)).

Definition requestIdleCallback (f : value) (o : AsyncCbOpts)
  : state -> outcome value :=
  run prog fuel (KSetAsync (requestIdleCallbackParams f o)).

(** The promise bridges: [new Promise((resolve, reject) =>
      this.setX(resolve, {...params, onClear: this.onPromiseClear(resolve, reject)}))],
    for the adapter whose descriptor is [mk]. *)
Definition bridge (mk : value -> AsyncCbOpts -> params) (o : AsyncCbOpts)
    (st : state) : outcome nat :=
  let pr := length (promises st) in
  let st := set_promises (promises st ++ [Pending]) st in
  match run prog fuel (KSetAsync (mk (VFn (FResolve pr)) (bridgeOpts o pr))) st with
  | Ok _ st => Ok pr st
  | Throw e st => Ok pr (settle pr (Rejected [AErr e]) st)
  | OutOfFuel => OutOfFuel
  end.

Definition nextTick : AsyncCbOpts -> state -> outcome nat := bridge setImmediateParams.
Definition idle : AsyncCbOpts -> state -> outcome nat := bridge requestIdleCallbackParams.
Definition animationFrame : AsyncCbOpts -> state -> outcome nat :=
  bridge requestAnimationFrameParams.

End MoreMethods.

(** ** The invariant of the registry *)

(** Some [links] Map holds the Link [l]. *)
Definition stored (st : state) (l : nat) : Prop :=
  ∃ name g k, Some (k, l) ∈ links (getLocal name g st).

(** Every [links] Map has each key once; every entry holds an allocated
    Link, under the id of that Link; no Link is held by two caches. *)
Definition regOk (st : state) : Prop :=
  (∀ name g, Map_wf (links (getLocal name g st)))
  ∧ (∀ name g k l, Some (k, l) ∈ links (getLocal name g st) →
                   l < length (heap st) ∧ l_id (getLink st l) = k)
  ∧ (∀ name g k name' g' k' l,
       Some (k, l) ∈ links (getLocal name g st) →
       Some (k', l) ∈ links (getLocal name' g' st) →
       name = name' ∧ g = g').

(** From [a] to [b]: Links are only added to the heap, a Link keeps its id,
    and a Link held by the registry in [b] was held in [a] or is new. *)
Definition grows (a b : state) : Prop :=
  length (heap a) ≤ length (heap b)
  ∧ (∀ l, l < length (heap a) → l_id (getLink b l) = l_id (getLink a l))
  ∧ (∀ l, stored b l → stored a l ∨ length (heap a) ≤ l).

Definition keeps (a b : state) : Prop := grows a b ∧ (regOk a → regOk b).

Definition okeeps (a : state) (o : outcome value) : Prop :=
  match o with
  | Ok _ b | Throw _ b => keeps a b
  | OutOfFuel => True
  end.

(** The Link [l] is in no [links] Map after the call. *)
Definition olost (l : nat) (o : outcome value) : Prop :=
  match o with
  | Ok _ s | Throw _ s => lost l s
  | OutOfFuel => True
  end.

(** The state in which [setAsync] returns, [st1] being the state in which
    the primitive has been started: the wrapper closure, the Link,
    [links.set(id, link)], [labels[p.label] = id]. *)
Definition registered (p : params) (id : value) (st1 : state) : state :=
  install p id (length (heap st1))
    (push_link (Link id (p_obj p) (p_label p) [] (p_onClear p))
       (allocClosure p (truthyStr (p_group p)) id (p_obj p) st1)).

(** The cache objects as [setAsync] finds or creates them. *)
Definition prepared (p : params) (st : state) : state :=
  initGroup (p_name p) (truthyStr (p_group p)) (initCache (p_name p) st).

(** After [setInterval(f1, 10)]. *)
Definition oneInterval : state :=
  stateOf (setInterval quietProg 1 (VFn (FUser 1)) noOpts emptyState) emptyState.

(** ** The effect of quiet clear hooks *)

(** The state after a quiet function was called with the cancel context
    [c]. *)
Fixpoint quietEffect (f : fn) (c : AsyncCtx) (st : state) : state :=
  match f with
  | FUser _ | FWrapped _ => st
  | FResolve q => settle q (Resolved [ACtx c]) st
  | FReject q => settle q (Rejected [ACtx c]) st
  | FPromiseClear resolve reject =>
      match p_replacedBy (ctx_p c) with
      | Some r =>
          if bool_decide (p_join (ctx_p c) = Some JoinReplace)
             && Nat.ltb (length (l_onClear (getLink st (ctx_link c)))) MAX_PROMISE_DEPTH
          then
            let st1 := push_onComplete r (resolve, reject) st in
            push_onClear r (l_onClear (getLink st1 (ctx_link c)) ++ [reject]) st1
          else quietEffect reject c st
      | None => quietEffect reject c st
      end
  end.

(** The state after the loop over the quiet clear hooks [hs]. *)
Definition hooksEffect (hs : list fn) (c : AsyncCtx) (st : state) : state :=
  foldl (fun s h => quietEffect h c (log (EHook h c) s)) st hs.

(** The state after [clearAsync] has cleared the Link [l] under the
    resolved descriptor [p'], the hooks being quiet and the destructor a
    function of the host. *)
Definition cleared (p' : params) (l : nat) (st : state) : state :=
  let link := getLink st l in
  let c := Ctx p' l "clearAsync" in
  let name := p_name p' in
  let g := truthyStr (p_group p') in
  let s := hooksEffect (l_onClear link) c
             (labels_set name g (labelKey (l_label link)) VUndef
                (links_delete name g (l_id link) st)) in
  match p_clearFn p' with
  | Some d => log (EDestroy d (l_id link) c) s
  | None => s
  end.

(** The adapters a promise bridge is built on: single-shot, the payload
    registered as it is, under the id that the wrapper returns, with a
    destructor of the host or none. *)
Definition oneShot (mk : value -> AsyncCbOpts -> params) : Prop :=
  ∀ f o,
    p_name (mk f o) = p_name (mk VUndef noOpts)
    ∧ p_obj (mk f o) = f
    ∧ p_join (mk f o) = o_join o
    ∧ p_label (mk f o) = o_label o
    ∧ p_group (mk f o) = o_group o
    ∧ p_onClear (mk f o) = o_onClear o
    ∧ p_interval (mk f o) = false
    ∧ p_needCall (mk f o) = false
    ∧ p_linkByWrapper (mk f o) = true
    ∧ p_id (mk f o) = VUndef
    ∧ p_replacedBy (mk f o) = None
    ∧ (∃ w, p_wrapper (mk f o) = Some w ∧ w ≠ WThen)
    ∧ (∀ d, p_clearFn (mk f o) = Some d → ∃ prim, d = DHost prim).

(** ** Promise bridges *)

(** The clear hook of the bridge for the promise [pr], and the [onComplete]
    entries of the bridges for the promises [qs]. *)
Definition promiseClear (pr : nat) : fn := FPromiseClear (FResolve pr) (FReject pr).

Definition resolvers (qs : list nat) : list (fn * fn) :=
  (fun q => (FResolve q, FReject q)) <$> qs.

(** The state after [execTasks()] has called the resolve functions of the
    promises [qs] with [args]. *)
Definition execEffect (qs : list nat) (args : list arg) (st : state) : state :=
  foldl (fun s q => settle q (Resolved args) (log (EComplete (FResolve q) args) s)) st qs.

(** The registry holds the task of a bridge: the Link [l] under [id] in the
    cache object of [name] and [g], with the wrapper closure [k] that
    resolves the promise [pr], the forwarded bridges [qs] in [onComplete]
    and the clear hooks [hs]. *)
Definition holdsBridge (name : string) (g lab : option string) (id : value)
    (l k pr : nat) (qs : list nat) (hs : list fn) (st : state) : Prop :=
  closures st !! k = Some (Closure name g id lab false (VFn (FResolve pr)))
  ∧ Map_get id (links (getLocal name g st)) = Some l
  ∧ Map_wf (links (getLocal name g st))
  ∧ l < length (heap st)
  ∧ getLink st l = Link id (VFn (FResolve pr)) lab (resolvers qs) hs
  ∧ truthy id = true
  ∧ (∀ key, truthyStr lab = Some key → labels_get (getLocal name g st) key = id).

(** The clear hooks that bridges put on a Link: [(true, q)] stands for the
    handler [onPromiseClear(resolve, reject)] of the promise [q],
    [(false, q)] for its bare [reject]. *)
Definition hookOf (b : bool * nat) : fn :=
  if b.1 then promiseClear b.2 else FReject b.2.

Definition qsOf (bs : list (bool * nat)) : list nat :=
  omap (fun b : bool * nat => if b.1 then Some b.2 else None) bs.

Definition rejOf (bs : list (bool * nat)) : list nat :=
  omap (fun b : bool * nat => if b.1 then None else Some b.2) bs.

(** The clear hooks of the successor, once the hooks [bs] of the replaced
    Link have run: its own handler, then for every handler among [bs] the
    whole of [bs] followed by the [reject] of that handler. *)
Definition nextHooks (pr : nat) (bs : list (bool * nat)) : list (bool * nat) :=
  (true, pr) :: concat ((fun q => bs ++ [(false, q)]) <$> qsOf bs).

(** ** Clearing a whole kind *)

(** From [st] to [s], while the cache objects of the kind [name] are
    cleared one after the other with quiet hooks: the Links and the other
    kinds are untouched, and every cache object of the kind is as it was or
    has been emptied. *)
Definition bulkInv (name : string) (st s : state) : Prop :=
  (∀ l, getLink s l = getLink st l)
  ∧ (∀ name' g', name' ≠ name → getLocal name' g' s = getLocal name' g' st)
  ∧ (∀ g, (Map_values (links (getLocal name g s)) = []
           ∧ Map_wf (links (getLocal name g s))
           ∧ length (links (getLocal name g s)) = length (links (getLocal name g st)))
          ∨ getLocal name g s = getLocal name g st).

(** [Object.keys] of a record whose keys are the strings [m] holds. *)
Definition keysOf (m : gmap string LocalCacheObject) : list string :=
  (map_to_list m).*1.

(** After [setTimeout(f1, 10, {onClear: h7})] and
    [setTimeout(f2, 10, {group: "G"})]. *)
Definition groupedTimeouts : state :=
  State
    {[ "timeout" :=
         Cache (LocalCache ∅ [Some (VNum 1, 0)])
           {[ "G" := LocalCache ∅ [Some (VNum 2, 1)] ]} ]}
    [Link (VNum 1) (VFn (FUser 1)) None [] [FUser 7];
     Link (VNum 2) (VFn (FUser 2)) None [] []]
    [Closure "timeout" None (VNum 1) None false (VFn (FUser 1));
     Closure "timeout" (Some "G") (VNum 2) None false (VFn (FUser 2))]
    ∅ [] 3%Z 0
    [EStart (WHost "setTimeout") "timeout" (VFn (FWrapped 0)) (VNum 1);
     ELinksSet "timeout" None (VNum 1) 0;
     EStart (WHost "setTimeout") "timeout" (VFn (FWrapped 1)) (VNum 2);
     ELinksSet "timeout" (Some "G") (VNum 2) 1].

(** After a third [setTimeout(f3, 10, {group: s})] for a symbol [s]; the
    key of its group is written "Symbol(s)". *)
Definition symbolGrouped : state :=
  State
    {[ "timeout" :=
         Cache (LocalCache ∅ [Some (VNum 1, 0)])
           (<[ "G" := LocalCache ∅ [Some (VNum 2, 1)] ]>
              {[ "Symbol(s)" := LocalCache ∅ [Some (VNum 3, 2)] ]}) ]}
    [Link (VNum 1) (VFn (FUser 1)) None [] [FUser 7];
     Link (VNum 2) (VFn (FUser 2)) None [] [];
     Link (VNum 3) (VFn (FUser 3)) None [] []]
    [Closure "timeout" None (VNum 1) None false (VFn (FUser 1));
     Closure "timeout" (Some "G") (VNum 2) None false (VFn (FUser 2));
     Closure "timeout" (Some "Symbol(s)") (VNum 3) None false (VFn (FUser 3))]
    ∅ [] 4%Z 0
    [EStart (WHost "setTimeout") "timeout" (VFn (FWrapped 0)) (VNum 1);
     ELinksSet "timeout" None (VNum 1) 0;
     EStart (WHost "setTimeout") "timeout" (VFn (FWrapped 1)) (VNum 2);
     ELinksSet "timeout" (Some "G") (VNum 2) 1;
     EStart (WHost "setTimeout") "timeout" (VFn (FWrapped 2)) (VNum 3);
     ELinksSet "timeout" (Some "Symbol(s)") (VNum 3) 2].

(** [Object.keys] of a record that holds that symbol. *)
Definition stringKeys (m : gmap string LocalCacheObject) : list string :=
  filter (fun s => s ≠ "Symbol(s)") (keysOf m).

(** A state of the host with one request object, which is promise-like and
    has an [abort] method. *)
Definition withRequest : state :=
  State ∅ [] [] {[ 0 := JsObj VUndef VUndef VUndef (VFn (FUser 3)) true false ]} [] 1%Z 1 [].

(** ** Who holds the settle functions of a promise *)

(** The function [f] is, or is built on, [resolve] or [reject] of the
    promise [pr]. *)
Fixpoint mentions (pr : nat) (f : fn) : bool :=
  match f with
  | FResolve q | FReject q => bool_decide (q = pr)
  | FPromiseClear resolve reject => mentions pr resolve || mentions pr reject
  | FUser _ | FWrapped _ => false
  end.

Definition valueMentions (pr : nat) (v : value) : bool :=
  match v with
  | VFn f => mentions pr f
  | _ => false
  end.

Definition linkClean (pr : nat) (k : AsyncLink) : Prop :=
  valueMentions pr (l_obj k) = false
  ∧ Forall (fun pair : fn * fn => mentions pr pair.1 = false ∧ mentions pr pair.2 = false)
      (l_onComplete k)
  ∧ Forall (fun h => mentions pr h = false) (l_onClear k).

Definition paramsClean (pr : nat) (p : params) : Prop :=
  valueMentions pr (p_obj p) = false
  ∧ Forall (fun h => mentions pr h = false) (p_onClear p).

Definition cmdClean (pr : nat) (c : cmd) : Prop :=
  match c with
  | CSetAsync p => paramsClean pr p
  | CClearAsync _ | CThrow _ => True
  end.

(** No user function passes the settle functions of [pr] on, or returns
    one of them. *)
Definition progClean (pr : nat) (prog : nat -> ufun) : Prop :=
  ∀ u, Forall (cmdClean pr) (u_body (prog u))
       ∧ valueMentions pr (u_ret (prog u)) = false.

Definition callClean (pr : nat) (c : call) : Prop :=
  match c with
  | KSetAsync p => paramsClean pr p
  | KCallFn f _ => mentions pr f = false
  | KClearAsync _ | KBulk _ _ | KHooks _ _ _ | KExecTasks _ _ _ _ => True
  end.

Definition objClean (pr : nat) (o : jsobj) : Prop :=
  valueMentions pr (o_terminate o) = false
  ∧ valueMentions pr (o_destroy o) = false
  ∧ valueMentions pr (o_close o) = false
  ∧ valueMentions pr (o_abort o) = false.

(** The promise [pr] is pending and neither a Link, nor a wrapper closure,
    nor an object of the host holds one of its settle functions. *)
Definition unheld (pr : nat) (st : state) : Prop :=
  (∀ l, linkClean pr (getLink st l))
  ∧ (∀ k cl, closures st !! k = Some cl → valueMentions pr (c_finalObj cl) = false)
  ∧ (∀ r, objClean pr (getObject st r))
  ∧ promises st !! pr = Some Pending.

Definition ounheld (pr : nat) (c : call) (o : outcome value) : Prop :=
  match o with
  | Ok v st' =>
      unheld pr st'
      ∧ match c with
        | KCallFn _ _ => valueMentions pr v = false
        | _ => True
        end
  | Throw _ st' => unheld pr st'
  | OutOfFuel => True
  end.

(** After [sleep(10, {label: "s", join: true})]. *)
Definition joinedOnce : state :=
  stateOf (sleep quietProg 1 (Opts (Some JoinTrue) (Some "s") None []) emptyState)
    emptyState.

(** After a second [sleep(10, {label: "s", join: true})], and after the
    timer of the first has fired. *)
Definition joinedTwice : state :=
  set_promises (promises joinedOnce ++ [Pending]) joinedOnce.

Definition joinedFired : state :=
  stateOf (run quietProg 3 (KCallFn (FWrapped 0) []) joinedTwice) emptyState.

(** ** How often the destructor is called for a Link *)

Definition isDestroyOf (l : nat) (e : event) : bool :=
  match e with
  | EDestroy _ _ c => bool_decide (ctx_link c = l)
  | _ => false
  end.

Fixpoint destroyCount (l : nat) (t : list event) : nat :=
  match t with
  | [] => 0
  | e :: t => (if isDestroyOf l e then 1 else 0) + destroyCount l t
  end.

(** From [st] to the state of the result: the Link [l] is in no Map, and
    the events added hold [k] destructor calls for it. *)
Definition odestroys (l k : nat) (st : state) (o : outcome value) : Prop :=
  match o with
  | Ok _ s | Throw _ s =>
      lost l s ∧ ∃ t, trace s = trace st ++ t ∧ destroyCount l t = k
  | OutOfFuel => True
  end.

(** User function 1 clears the timeout 1 by its id. *)
Definition reenteringProg : nat -> ufun :=
  fun n =>
    match n with
    | 1 => UFun [CClearAsync (clearParams "timeout" (Some (DHost "clearTimeout"))
                                (VNum 1) None None)] VUndef
    | _ => UFun [] VUndef
    end.

(** After [setTimeout(f, 10, {onClear: h1})], where [h1] clears the
    timeout again. *)
Definition reentering : state :=
  stateOf (setTimeout reenteringProg 1 (VFn (FUser 7)) (hooked [FUser 1]) emptyState)
    emptyState.

(** ** The order of the calls of one clear *)

(** From [a] to [b] the [onClear] list of every Link has only been
    appended to. *)
Definition appends (a b : state) : Prop :=
  ∀ l, l_onClear (getLink a l) `prefix_of` l_onClear (getLink b l).

(** The state of a result is related to [a] by [R]. *)
Definition opreserved (R : state -> state -> Prop) (a : state) (o : outcome value)
  : Prop :=
  match o with
  | Ok _ b | Throw _ b => R a b
  | OutOfFuel => True
  end.

Definition oappends (a : state) (o : outcome value) : Prop := opreserved appends a o.

(** The calls of a clear hook or of a destructor for the Link [l] among
    the events [t], in order. *)
Definition isAbout (l : nat) (e : event) : bool :=
  match e with
  | EHook _ c | EDestroy _ _ c => bool_decide (ctx_link c = l)
  | _ => false
  end.

Fixpoint aboutOf (l : nat) (t : list event) : list event :=
  match t with
  | [] => []
  | e :: t => if isAbout l e then e :: aboutOf l t else aboutOf l t
  end.

(** What one clear of the Link [l] has done when it ends in the state [s],
    [st1] being the state in which the Link had just been removed: the
    Link is in no Map, and the calls made for it are those of [calls], all
    of them or the first of them. *)
Definition clearedIn (all : bool) (l : nat) (c : AsyncCtx) (hs0 : list fn)
    (d : option destructor_t) (id : value) (st1 s : state) : Prop :=
  lost l s
  ∧ ∃ t hs,
      trace s = trace st1 ++ t
      ∧ hs0 `prefix_of` hs
      ∧ hs `prefix_of` l_onClear (getLink s l)
      ∧ if all then aboutOf l t = hookEvents c hs ++ destroyEvents d id c
        else aboutOf l t `prefix_of` hookEvents c hs ++ destroyEvents d id c.

(** User function 1 registers a timeout under the label "t" with
    [join: true]. *)
Definition rejoinProg : nat -> ufun :=
  fun n =>
    match n with
    | 1 => UFun [CSetAsync (setTimeoutParams (VFn (FUser 9))
                              (Opts (Some JoinTrue) (Some "t") None []))] VUndef
    | _ => UFun [] VUndef
    end.

(** After [setTimeout(f7, 10, {label: "t", onClear: h1})], where [h1] joins
    the label. *)
Definition rejoining : state :=
  stateOf (setTimeout rejoinProg 1 (VFn (FUser 7)) (labelled "t" [FUser 1]) emptyState)
    emptyState.

(** A state of the host with one worker, which has a [terminate] method,
    and after [worker(w, {onClear: [h1, h2]})] for it. *)
Definition withWorker : state :=
  State ∅ [] [] {[ 0 := JsObj (VFn (FUser 5)) VUndef VUndef VUndef false false ]} [] 1%Z 1 [].

Definition liveWorker : state :=
  stateOf (worker throwingProg 1 (VObj 0) (hooked [FUser 1; FUser 2]) withWorker)
    emptyState.




(** From [a] to [b], no [links] Map gets shorter and a slot that is empty
    stays empty: a deleted entry is never filled again, a new entry comes
    at the end. *)
Definition slotsKept (a b : state) : Prop :=
  ∀ name g,
    length (links (getLocal name g a)) ≤ length (links (getLocal name g b))
    ∧ ∀ j, links (getLocal name g a) !! j = Some None →
           links (getLocal name g b) !! j = Some None.

(** Every slot of the [links] Map before the iterator position [i] is
    empty. *)
Definition emptiedBelow (name : string) (g : option string) (i : nat) (st : state)
  : Prop :=
  ∀ y, y < i → links (getLocal name g st) !! y = Some None.




(** ** Basic facts *)

Lemma run_S prog n c st : run prog (S n) c st = step prog (run prog n) c st.
Proof. reflexivity. Qed.

Section MapFacts.

Implicit Types (m : JsMap) (k : value) (v : nat).

Lemma Map_get_set_eq k v m : Map_get k (Map_set k v m) = Some v.
Proof.
  induction m as [|[[k' v']|] m IH]; simpl.
  - by rewrite decide_True.
  - destruct (decide (k' = k)) as [->|Hne]; simpl.
    + by rewrite decide_True.
    + by rewrite decide_False.
  - done.
Qed.

Lemma Map_get_set_ne k k' v m :
  k ≠ k' → Map_get k' (Map_set k v m) = Map_get k' m.
Proof.
  intros Hne. induction m as [|[[k0 v0]|] m IH]; simpl.
  - by rewrite decide_False.
  - destruct (decide (k0 = k)) as [->|Hne0]; simpl.
    + by rewrite !decide_False.
    + destruct (decide (k0 = k')); [done | exact IH].
  - exact IH.
Qed.

Lemma Map_get_None_keys k m : Map_get k m = None ↔ k ∉ Map_keys m.
Proof.
  unfold Map_keys. induction m as [|[[k' v']|] m IH]; simpl.
  - split; [intros _; apply not_elem_of_nil | done].
  - destruct (decide (k' = k)) as [->|Hne].
    + split; [done | intros H; exfalso; apply H; left].
    + rewrite IH, not_elem_of_cons. split; [intros ?; split; [congruence | done] | by intros [_ ?]].
  - exact IH.
Qed.

Lemma Map_get_delete_eq k m : Map_wf m → Map_get k (Map_delete k m) = None.
Proof.
  unfold Map_wf, Map_keys.
  induction m as [|[[k' v']|] m IH]; simpl; intros Hwf.
  - done.
  - destruct (decide (k' = k)) as [->|Hne]; simpl.
    + apply NoDup_cons in Hwf as [Hnin _]. by apply Map_get_None_keys.
    + rewrite decide_False by done. apply IH. by apply NoDup_cons in Hwf as [_ ?].
  - by apply IH.
Qed.

Lemma Map_get_delete_ne k k' m :
  k ≠ k' → Map_get k' (Map_delete k m) = Map_get k' m.
Proof.
  intros Hne. induction m as [|[[k0 v0]|] m IH]; simpl.
  - done.
  - destruct (decide (k0 = k)) as [->|Hne0]; simpl.
    + by rewrite decide_False.
    + destruct (decide (k0 = k')); [done | exact IH].
  - exact IH.
Qed.

Lemma Map_keys_delete k m : Map_keys (Map_delete k m) ⊆ Map_keys m.
Proof.
  unfold Map_keys. induction m as [|[[k' v']|] m IH]; simpl.
  - done.
  - destruct (decide (k' = k)); simpl.
    + intros x Hx. by right.
    + intros x. rewrite !elem_of_cons. intros [?|?]; [by left | right; by apply IH].
  - exact IH.
Qed.

Lemma Map_wf_delete k m : Map_wf m → Map_wf (Map_delete k m).
Proof.
  unfold Map_wf, Map_keys.
  induction m as [|[[k' v']|] m IH]; simpl; intros Hwf.
  - done.
  - apply NoDup_cons in Hwf as [Hnin Hwf].
    destruct (decide (k' = k)); simpl; [done|].
    apply NoDup_cons. split; [|by apply IH].
    intros Hin. apply Hnin. by apply (Map_keys_delete k m).
  - by apply IH.
Qed.

Lemma Map_values_delete k m : Map_values (Map_delete k m) ⊆ Map_values m.
Proof.
  unfold Map_values. induction m as [|[[k' v']|] m IH]; simpl.
  - done.
  - destruct (decide (k' = k)); simpl.
    + intros x Hx. by right.
    + intros x. rewrite !elem_of_cons. intros [?|?]; [by left | right; by apply IH].
  - exact IH.
Qed.

Lemma Map_values_set k v m x :
  x ∈ Map_values (Map_set k v m) → x = v ∨ x ∈ Map_values m.
Proof.
  unfold Map_values. induction m as [|[[k' v']|] m IH]; simpl.
  - rewrite list_elem_of_singleton. auto.
  - destruct (decide (k' = k)); simpl; rewrite !elem_of_cons; intuition.
  - exact IH.
Qed.

Lemma Map_get_values k v m : Map_get k m = Some v → v ∈ Map_values m.
Proof.
  unfold Map_values. induction m as [|[[k' v']|] m IH]; simpl.
  - done.
  - destruct (decide (k' = k)).
    + intros [= ->]. left.
    + intros H. right. by apply IH.
  - exact IH.
Qed.

End MapFacts.

Section StateFacts.

Implicit Types (st : state) (name : string) (g : option string).

Lemma getLocal_putLocal name g lc st name' g' :
  getLocal name' g' (putLocal name g lc st)
  = if decide (name' = name ∧ g' = g) then lc else getLocal name' g' st.
Proof.
  unfold getLocal, putLocal; simpl.
  destruct (decide (name' = name)) as [->|Hn].
  - rewrite lookup_insert_eq.
    destruct (cache st !! name) as [co|] eqn:Hco; simpl;
      destruct g as [s|], g' as [s'|]; simpl;
      repeat case_decide; try naive_solver;
      try (destruct (decide (s' = s)) as [->|];
           [rewrite lookup_insert_eq | rewrite lookup_insert_ne by done];
           naive_solver).
  - rewrite lookup_insert_ne by done.
    rewrite decide_False by naive_solver. done.
Qed.

Lemma getLocal_putLocal_eq name g lc st :
  getLocal name g (putLocal name g lc st) = lc.
Proof. rewrite getLocal_putLocal. by rewrite decide_True. Qed.

Lemma getLocal_initCache name st name' g' :
  getLocal name' g' (initCache name st) = getLocal name' g' st.
Proof.
  unfold initCache. destruct (cache st !! name) eqn:Hc; [done|].
  unfold getLocal; simpl.
  destruct (decide (name' = name)) as [->|Hn].
  - rewrite lookup_insert_eq, Hc. by destruct g'.
  - by rewrite lookup_insert_ne.
Qed.

Lemma getLocal_initGroup name g st name' g' :
  getLocal name' g' (initGroup name g st) = getLocal name' g' st.
Proof.
  unfold initGroup. destruct g as [s|]; [|done].
  destruct (cache st !! name) as [co|] eqn:Hc; [|done].
  destruct (groups co !! s) eqn:Hg; [done|].
  rewrite getLocal_putLocal. case_decide as Hd; [|done].
  destruct Hd as [-> ->]. unfold getLocal. by rewrite Hc, Hg.
Qed.

Lemma getLocal_cache st st' name g :
  cache st = cache st' → getLocal name g st = getLocal name g st'.
Proof. unfold getLocal. by intros ->. Qed.

(** A cache that holds a label exists already. *)
Lemma init_occupied name g st key :
  labels_get (getLocal name g st) key ≠ VUndef →
  initGroup name g (initCache name st) = st.
Proof.
  unfold labels_get, getLocal, initCache, initGroup.
  destruct (cache st !! name) as [co|] eqn:Hc; simpl; [|done].
  destruct g as [s|]; [|done]. rewrite Hc.
  destruct (groups co !! s); [done|]. simpl. done.
Qed.

Lemma truthy_notUndef v : truthy v = true → v ≠ VUndef.
Proof. by destruct v. Qed.

Lemma truthy_notNull v : truthy v = true → notNull v = true.
Proof. by destruct v. Qed.

Lemma labels_get_labels_set name g key v st key' :
  labels_get (getLocal name g (labels_set name g key v st)) key'
  = if decide (key' = key) then v else labels_get (getLocal name g st) key'.
Proof.
  unfold labels_set. rewrite getLocal_putLocal_eq. unfold labels_get; simpl.
  case_decide as Hk; [subst; by rewrite lookup_insert_eq|].
  by rewrite lookup_insert_ne.
Qed.

Lemma links_labels_set name g key v st :
  links (getLocal name g (labels_set name g key v st)) = links (getLocal name g st).
Proof. unfold labels_set. by rewrite getLocal_putLocal_eq. Qed.

Lemma links_links_delete name g id st :
  links (getLocal name g (links_delete name g id st))
  = Map_delete id (links (getLocal name g st)).
Proof.
  unfold links_delete.
  rewrite (getLocal_cache (log _ _) (putLocal name g
    (LocalCache (labels (getLocal name g st)) (Map_delete id (links (getLocal name g st)))) st))
    by done.
  by rewrite getLocal_putLocal_eq.
Qed.

Lemma labels_links_delete name g id st :
  labels (getLocal name g (links_delete name g id st)) = labels (getLocal name g st).
Proof.
  unfold links_delete.
  rewrite (getLocal_cache (log _ _) (putLocal name g
    (LocalCache (labels (getLocal name g st)) (Map_delete id (links (getLocal name g st)))) st))
    by done.
  by rewrite getLocal_putLocal_eq.
Qed.

Lemma links_links_set name g id l st :
  links (getLocal name g (links_set name g id l st))
  = Map_set id l (links (getLocal name g st)).
Proof.
  unfold links_set.
  rewrite (getLocal_cache (log _ _) (putLocal name g
    (LocalCache (labels (getLocal name g st)) (Map_set id l (links (getLocal name g st)))) st))
    by done.
  by rewrite getLocal_putLocal_eq.
Qed.

Lemma labels_links_set name g id l st :
  labels (getLocal name g (links_set name g id l st)) = labels (getLocal name g st).
Proof.
  unfold links_set.
  rewrite (getLocal_cache (log _ _) (putLocal name g
    (LocalCache (labels (getLocal name g st)) (Map_set id l (links (getLocal name g st)))) st))
    by done.
  by rewrite getLocal_putLocal_eq.
Qed.

End StateFacts.

Section IteratorFacts.

Implicit Types (m : JsMap) (i j l : nat).

Lemma Map_next_bounds m i l j :
  Map_next i m = Some (l, j) → i < j ∧ j ≤ length m ∧ l ∈ Map_values m.
Proof.
  unfold Map_values. revert i l j.
  induction m as [|e m IH]; intros i l j; simpl; [done|].
  destruct i as [|i].
  - destruct e as [[k v]|]; simpl.
    + intros [= <- <-]. split; [lia|]. split; [lia|]. left.
    + destruct (Map_next 0 m) as [[v j']|] eqn:Hn; [|done].
      intros [= <- <-]. destruct (IH _ _ _ Hn) as (?&?&?).
      split; [lia|]. split; [lia|]. done.
  - destruct (Map_next i m) as [[v j']|] eqn:Hn; [|done].
    intros [= <- <-]. destruct (IH _ _ _ Hn) as (?&?&?).
    split; [lia|]. split; [lia|].
    destruct e as [[k v']|]; simpl; [by right | done].
Qed.

End IteratorFacts.

Section CacheFacts.

Implicit Types (st : state) (name : string) (g : option string).

Lemma initCache_idem name st : initCache name (initCache name st) = initCache name st.
Proof.
  unfold initCache. destruct (cache st !! name) eqn:Hc; simpl.
  - by rewrite Hc.
  - by rewrite lookup_insert_eq.
Qed.

Lemma links_nonempty_group name g st :
  links (getLocal name g st) ≠ [] →
  match g with Some g' => hasGroup name g' st = true | None => True end.
Proof.
  unfold getLocal, hasGroup. destruct g as [s|]; [|done].
  destruct (cache st !! name) as [co|]; [|done].
  destruct (groups co !! s) eqn:Hg; simpl; [done|].
  intros H. by destruct H.
Qed.

Lemma hasGroup_initCache name s st :
  hasGroup name s (initCache name st) = hasGroup name s st.
Proof.
  unfold hasGroup, initCache. destruct (cache st !! name) eqn:Hc.
  - by rewrite Hc.
  - simpl. rewrite lookup_insert_eq. simpl.
    apply bool_decide_eq_false_2. rewrite lookup_empty. by intros [? ?].
Qed.

Lemma trace_initCache name st : trace (initCache name st) = trace st.
Proof. unfold initCache. by destruct (cache st !! name). Qed.

Lemma heap_initCache name st : heap (initCache name st) = heap st.
Proof. unfold initCache. by destruct (cache st !! name). Qed.

Lemma getLink_initCache name st l : getLink (initCache name st) l = getLink st l.
Proof. unfold getLink. by rewrite heap_initCache. Qed.

End CacheFacts.

Section HeapFacts.

Implicit Types (st : state) (l r : nat).

Lemma getLink_push_onComplete st r pair l :
  getLink (push_onComplete r pair st) l
  = if decide (l = r ∧ r < length (heap st)) then
      Link (l_id (getLink st r)) (l_obj (getLink st r)) (l_label (getLink st r))
        (l_onComplete (getLink st r) ++ [pair]) (l_onClear (getLink st r))
    else getLink st l.
Proof.
  unfold getLink, push_onComplete; simpl.
  destruct (decide (l = r)) as [->|Hne].
  - rewrite list_lookup_alter_eq.
    destruct (heap st !! r) as [k|] eqn:Hk; simpl.
    + rewrite decide_True; [done|]. split; [done|]. by eapply lookup_lt_Some.
    + rewrite decide_False; [done|]. apply lookup_ge_None in Hk. lia.
  - rewrite list_lookup_alter_ne by done. rewrite decide_False; [done|]. tauto.
Qed.

Lemma getLink_push_onClear st r fs l :
  getLink (push_onClear r fs st) l
  = if decide (l = r ∧ r < length (heap st)) then
      Link (l_id (getLink st r)) (l_obj (getLink st r)) (l_label (getLink st r))
        (l_onComplete (getLink st r)) (l_onClear (getLink st r) ++ fs)
    else getLink st l.
Proof.
  unfold getLink, push_onClear; simpl.
  destruct (decide (l = r)) as [->|Hne].
  - rewrite list_lookup_alter_eq.
    destruct (heap st !! r) as [k|] eqn:Hk; simpl.
    + rewrite decide_True; [done|]. split; [done|]. by eapply lookup_lt_Some.
    + rewrite decide_False; [done|]. apply lookup_ge_None in Hk. lia.
  - rewrite list_lookup_alter_ne by done. rewrite decide_False; [done|]. tauto.
Qed.

Lemma length_heap_push_onComplete st r pair :
  length (heap (push_onComplete r pair st)) = length (heap st).
Proof. unfold push_onComplete; simpl. apply length_alter. Qed.

Lemma length_heap_push_onClear st r fs :
  length (heap (push_onClear r fs st)) = length (heap st).
Proof. unfold push_onClear; simpl. apply length_alter. Qed.

Lemma getLink_push_link_old st k l :
  l < length (heap st) → getLink (push_link k st) l = getLink st l.
Proof. intros Hl. unfold getLink, push_link; simpl. by rewrite lookup_app_l. Qed.

Lemma getLink_push_link_new st k :
  getLink (push_link k st) (length (heap st)) = k.
Proof.
  unfold getLink, push_link; simpl.
  rewrite lookup_app_r by lia. by rewrite Nat.sub_diag.
Qed.

End HeapFacts.

Section QuietFacts.

Variable prog : nat -> ufun.

Lemma quietRel_refl r st : quietRel r st st.
Proof. unfold quietRel. repeat split; done. Qed.

Lemma quietRel_trans r st1 st2 st3 :
  quietRel r st1 st2 → quietRel r st2 st3 → quietRel r st1 st3.
Proof.
  unfold quietRel.
  intros (H1 & H2 & H3 & H4 & H5 & H6 & H7) (K1 & K2 & K3 & K4 & K5 & K6 & K7).
  repeat split; try congruence.
  - intros Hl. destruct (H7 l) as [Ha _], (K7 l) as [Kb _].
    rewrite Kb, Ha; done.
  - destruct (H7 l) as (_ & Ha & _), (K7 l) as (_ & Kb & _). congruence.
  - destruct (H7 l) as (_ & _ & Ha), (K7 l) as (_ & _ & Kb). congruence.
Qed.

Lemma quietRel_settle r p s st : quietRel r st (settle p s st).
Proof.
  unfold settle. destruct (promises st !! p) as [[| |]|]; try apply quietRel_refl.
  unfold quietRel. repeat split; done.
Qed.

Lemma trace_settle p s st : trace (settle p s st) = trace st.
Proof. unfold settle. by destruct (promises st !! p) as [[| |]|]. Qed.

Lemma quietRel_push_onComplete r pair st :
  quietRel (Some r) st (push_onComplete r pair st).
Proof.
  unfold quietRel. repeat split; try done.
  - apply length_heap_push_onComplete.
  - intros Hl. rewrite getLink_push_onComplete.
    case_decide as Hd; [|done]. destruct Hd as [-> _]. done.
  - rewrite getLink_push_onComplete. case_decide as Hd; [|done].
    destruct Hd as [-> _]. done.
  - rewrite getLink_push_onComplete. case_decide as Hd; [|done].
    destruct Hd as [-> _]. done.
Qed.

Lemma quietRel_push_onClear r fs st :
  quietRel (Some r) st (push_onClear r fs st).
Proof.
  unfold quietRel. repeat split; try done.
  - apply length_heap_push_onClear.
  - intros Hl. rewrite getLink_push_onClear.
    case_decide as Hd; [|done]. destruct Hd as [-> _]. done.
  - rewrite getLink_push_onClear. case_decide as Hd; [|done].
    destruct Hd as [-> _]. done.
  - rewrite getLink_push_onClear. case_decide as Hd; [|done].
    destruct Hd as [-> _]. done.
Qed.

(** A quiet function called with a cancel context returns normally. *)
Lemma quiet_call f c :
  quietFn prog f = true →
  ∀ n st, fnDepth f ≤ n →
    ∃ v st', run prog (S n) (KCallFn f [ACtx c]) st = Ok v st'
             ∧ trace st' = trace st
             ∧ quietRel (p_replacedBy (ctx_p c)) st st'.
Proof.
  induction f as [u|p|p|resolve _ reject IH|k]; intros Hq n st Hn;
    simpl in Hq, Hn.
  - apply bool_decide_eq_true_1 in Hq.
    exists (u_ret (prog u)), st. rewrite run_S. unfold step, callFn.
    rewrite Hq. simpl. split; [done|]. split; [done|]. apply quietRel_refl.
  - eexists _, _. rewrite run_S. unfold step, callFn.
    split; [reflexivity|]. split; [apply trace_settle | apply quietRel_settle].
  - eexists _, _. rewrite run_S. unfold step, callFn.
    split; [reflexivity|]. split; [apply trace_settle | apply quietRel_settle].
  - apply andb_true_iff in Hq as [_ Hq].
    destruct n as [|n]; [lia|].
    rewrite run_S. unfold step, callFn, onPromiseClear.
    destruct (p_replacedBy (ctx_p c)) as [r|] eqn:Hr.
    + destruct (bool_decide _ && _).
      * eexists _, _. split; [reflexivity|]. split; [done|].
        eapply quietRel_trans;
          [apply quietRel_push_onComplete | apply quietRel_push_onClear].
      * apply IH; [done | lia].
    + apply IH; [done | lia].
  - done.
Qed.

Lemma quiet_call_lt f c n st :
  quietFn prog f = true →
  fnDepth f < n →
  ∃ v st', run prog n (KCallFn f [ACtx c]) st = Ok v st'
           ∧ trace st' = trace st
           ∧ quietRel (p_replacedBy (ctx_p c)) st st'.
Proof.
  intros Hq Hn. destruct n as [|n]; [lia|]. apply quiet_call; [done | lia].
Qed.

(** The loop over the clear hooks of a Link, all of them quiet. *)
Lemma hooks_quiet c l hs D :
  p_replacedBy (ctx_p c) ≠ Some l →
  Forall (fun h => quietFn prog h = true ∧ fnDepth h ≤ D) hs →
  ∀ n i st,
    l_onClear (getLink st l) = hs →
    length hs - i + D + 2 ≤ n →
    ∃ st', run prog n (KHooks l i c) st = Ok VUndef st'
           ∧ trace st' = trace st ++ hookEvents c (drop i hs)
           ∧ quietRel (p_replacedBy (ctx_p c)) st st'.
Proof.
  intros Hrep Hall. induction n as [|n IH]; intros i st Hhs Hn; [lia|].
  rewrite run_S. unfold step, hooks. rewrite Hhs.
  destruct (hs !! i) as [h|] eqn:Hh.
  - rewrite (drop_S _ _ _ Hh).
    apply lookup_lt_Some in Hh as Hlt.
    rewrite Forall_forall in Hall.
    destruct (Hall h) as [Hq Hd]; [by eapply list_elem_of_lookup_2|].
    destruct n as [|n]; [lia|].
    destruct (quiet_call h c Hq n (log (EHook h c) st)) as (v & st1 & Hrun & Htr & Hrel);
      [lia|].
    rewrite Hrun. simpl.
    destruct (IH (S i) st1) as (st2 & Hrun2 & Htr2 & Hrel2).
    { destruct Hrel as (_ & _ & _ & _ & _ & _ & Hl).
      destruct (Hl l) as [Hsame _]. rewrite Hsame by congruence. done. }
    { lia. }
    exists st2. split; [done|]. split.
    + rewrite Htr2, Htr. simpl. by rewrite <- app_assoc.
    + eapply quietRel_trans; [|exact Hrel2].
      eapply quietRel_trans; [|exact Hrel]. unfold quietRel. repeat split; done.
  - exists st. split; [done|]. split; [|apply quietRel_refl].
    apply lookup_ge_None in Hh. rewrite drop_ge by done. simpl.
    by rewrite app_nil_r.
Qed.

End QuietFacts.

Section ClearFacts.

Variable prog : nat -> ufun.

Lemma links_nonempty_initCache name g st :
  links (getLocal name g st) ≠ [] → initCache name st = st.
Proof.
  unfold getLocal, initCache. destruct (cache st !! name); [done|].
  intros H. by destruct H.
Qed.

Lemma Map_get_nonempty k (m : JsMap) l : Map_get k m = Some l → m ≠ [].
Proof. by destruct m. Qed.

Lemma resolveId_fields p lc p' :
  resolveId p lc = Some p' →
  p_name p' = p_name p ∧ p_group p' = p_group p ∧ p_label p' = p_label p
  ∧ p_clearFn p' = p_clearFn p ∧ p_replacedBy p' = p_replacedBy p
  ∧ p_join p' = p_join p.
Proof.
  unfold resolveId. destruct (truthyStr (p_label p)).
  - destruct (_ && _); [done|]. intros [= <-]. done.
  - intros [= <-]. done.
Qed.

(** The state in which the clear hooks of a Link start running. *)
Definition removed (name : string) (g : option string) (link : AsyncLink)
    (st : state) : state :=
  labels_set name g (labelKey (l_label link)) VUndef
    (links_delete name g (l_id link) st).

(** [clearAsync] on a descriptor that resolves to a live Link. *)
Lemma clearAsync_live n p p' l st :
  resolveId p (getLocal (p_name p) (truthyStr (p_group p)) st) = Some p' →
  notNull (p_id p') = true →
  Map_get (p_id p') (links (getLocal (p_name p) (truthyStr (p_group p)) st)) = Some l →
  run prog (S n) (KClearAsync p) st
  = let c := Ctx p' l "clearAsync" in
    let! (_, st2) :=
      run prog n (KHooks l 0 c)
        (removed (p_name p) (truthyStr (p_group p)) (getLink st l) st) in
    match p_clearFn p' with
    | Some d =>
        let! (_, st3) := callDestructor (run prog n) d (l_id (getLink st l)) c st2 in
        Ok VUndef st3
    | None => Ok VUndef st2
    end.
Proof.
  intros Hres Hnn Hget. rewrite run_S. unfold step, clearAsync.
  pose proof (Map_get_nonempty _ _ _ Hget) as Hne.
  rewrite (links_nonempty_initCache _ _ _ Hne).
  pose proof (links_nonempty_group _ _ _ Hne) as Hg.
  destruct (resolveId_fields _ _ _ Hres) as (Hn' & Hg' & _).
  replace (match truthyStr (p_group p) with
           | Some g' => hasGroup (p_name p) g' st
           | None => true
           end) with true by (by destruct (truthyStr (p_group p))).
  rewrite Hres, Hnn, Hget. unfold removed. rewrite Hn'. done.
Qed.

Lemma removed_absent name g link st k :
  Map_wf (links (getLocal name g st)) →
  l_id link = k →
  Map_get k (links (getLocal name g (removed name g link st))) = None.
Proof.
  intros Hwf <-. unfold removed.
  rewrite links_labels_set, links_links_delete. by apply Map_get_delete_eq.
Qed.

Lemma removed_label name g link st :
  labels_get (getLocal name g (removed name g link st)) (labelKey (l_label link))
  = VUndef.
Proof. unfold removed. rewrite labels_get_labels_set. by rewrite decide_True. Qed.

Lemma trace_removed name g link st :
  trace (removed name g link st) = trace st ++ [ELinksDelete name g (l_id link)].
Proof. done. Qed.

Lemma getLink_removed name g link st l :
  getLink (removed name g link st) l = getLink st l.
Proof. done. Qed.

End ClearFacts.

Section ThrowingHook.

Variable prog : nat -> ufun.

(** The loop over the clear hooks runs through a quiet stretch of [d]
    hooks and goes on after it. *)
Lemma hooks_prefix c l hs D :
  p_replacedBy (ctx_p c) ≠ Some l →
  ∀ d i st m,
    Forall (fun h => quietFn prog h = true ∧ fnDepth h ≤ D) (take d (drop i hs)) →
    l_onClear (getLink st l) = hs →
    i + d ≤ length hs →
    D + 1 ≤ m →
    ∃ st', run prog (d + m) (KHooks l i c) st = run prog m (KHooks l (i + d) c) st'
           ∧ trace st' = trace st ++ hookEvents c (take d (drop i hs))
           ∧ l_onClear (getLink st' l) = hs
           ∧ quietRel (p_replacedBy (ctx_p c)) st st'.
Proof.
  intros Hrep. induction d as [|d IH]; intros i st m Hall Hhs Hlen Hm.
  - exists st. rewrite Nat.add_0_r. simpl. rewrite app_nil_r.
    repeat split; try done.
  - assert (Hi : i < length hs) by lia.
    destruct (lookup_lt_is_Some_2 hs i Hi) as [h Hh].
    rewrite (drop_S _ _ _ Hh) in Hall. rewrite (drop_S _ _ _ Hh).
    simpl in Hall. apply Forall_cons in Hall as [[Hq Hd] Hall].
    replace (S d + m) with (S (d + m)) by lia.
    rewrite run_S. unfold step, hooks. rewrite Hhs, Hh.
    destruct (quiet_call_lt prog h c (d + m) (log (EHook h c) st) Hq)
      as (v & st1 & Hrun & Htr & Hrel); [lia|].
    rewrite Hrun. simpl.
    assert (Hhs1 : l_onClear (getLink st1 l) = hs).
    { destruct Hrel as (_ & _ & _ & _ & _ & _ & Hl).
      destruct (Hl l) as [Hsame _]. rewrite Hsame by congruence. done. }
    destruct (IH (S i) st1 m Hall Hhs1) as (st2 & Hrun2 & Htr2 & Hhs2 & Hrel2);
      [lia | lia |].
    exists st2. replace (i + S d) with (S i + d) by lia.
    split; [done|]. split; [|split; [done|]].
    + rewrite Htr2, Htr. simpl. by rewrite <- app_assoc.
    + eapply quietRel_trans; [|exact Hrel2].
      eapply quietRel_trans; [|exact Hrel]. unfold quietRel. repeat split; done.
Qed.

(** A hook whose script starts with a [throw]. *)
Lemma hooks_throw c l i u e rest st m :
  l_onClear (getLink st l) !! i = Some (FUser u) →
  u_body (prog u) = CThrow e :: rest →
  run prog (S (S m)) (KHooks l i c) st = Throw e (log (EHook (FUser u) c) st).
Proof.
  intros Hh Hbody. rewrite run_S. unfold step, hooks. rewrite Hh.
  rewrite run_S. unfold step, callFn. rewrite Hbody. done.
Qed.

End ThrowingHook.

Section SetFacts.

Variable prog : nat -> ufun.

Lemma startPrimitive_frame p w f st id st1 :
  startPrimitive p w f st = Ok id st1 →
  cache st1 = cache st ∧ heap st1 = heap st ∧ closures st1 = closures st
  ∧ promises st1 = promises st ∧ ∃ t, trace st1 = trace st ++ t.
Proof.
  unfold startPrimitive, callWrapper.
  destruct (p_wrapper p) as [[prim| |]|]; simpl.
  - intros [= <- <-]. repeat split; try done. by eexists.
  - destruct (if p_needCall p then Some f else None) as [[| |r|]|]; try done.
    destruct (o_promiseLike (getObject st r) || o_then (getObject st r)); [|done].
    simpl. intros [= <- <-]. repeat split; try done. by eexists.
  - intros [= <- <-]. repeat split; try done. exists []. by rewrite app_nil_r.
  - intros [= <- <-]. repeat split; try done. exists []. by rewrite app_nil_r.
Qed.

Lemma cache_allocClosure p g id f st : cache (allocClosure p g id f st) = cache st.
Proof. unfold allocClosure. by destruct (isWrapped p f). Qed.

Lemma heap_allocClosure p g id f st : heap (allocClosure p g id f st) = heap st.
Proof. unfold allocClosure. by destruct (isWrapped p f). Qed.

Lemma trace_allocClosure p g id f st : trace (allocClosure p g id f st) = trace st.
Proof. unfold allocClosure. by destruct (isWrapped p f). Qed.

(** [setAsync] past the join test, for a payload that is registered as it
    is. *)
Lemma setAsync_unfold n p st id st1 :
  let name := p_name p in
  let g := truthyStr (p_group p) in
  let st0 := initGroup name g (initCache name st) in
  let labelCache := labels_get (getLocal name g st0) (labelKey (p_label p)) in
  truthy labelCache && bool_decide (p_join p = Some JoinTrue) = false →
  usesPayload p →
  notNull (p_obj p) = true →
  startPrimitive p (wrapperRef p (p_obj p) st0) (p_obj p) st0 = Ok id st1 →
  run prog (S n) (KSetAsync p) st
  = let stA := push_link (Link id (p_obj p) (p_label p) [] (p_onClear p))
                 (allocClosure p g id (p_obj p) st1) in
    let! (_, st2) :=
      if truthy labelCache then
        run prog n (KClearAsync (with_replacedBy p (length (heap st1)))) stA
      else Ok VUndef stA in
    Ok id (install p id (length (heap st1)) st2).
Proof.
  intros name g st0 labelCache Hjoin Hpay Hobj Hstart.
  rewrite run_S. unfold step, setAsync. fold name g st0 labelCache.
  rewrite Hjoin.
  assert (Hfinal : match p_obj p with
                   | VFn f => if p_needCall p then run prog n (KCallFn f []) st0
                              else Ok (p_obj p) st0
                   | _ => Ok (p_obj p) st0
                   end = Ok (p_obj p) st0).
  { destruct Hpay as [Hnc|Hnf].
    - rewrite Hnc. by destruct (p_obj p).
    - by destruct (p_obj p). }
  rewrite Hfinal. simpl. rewrite Hstart. simpl. rewrite Hobj.
  rewrite heap_allocClosure. fold name g.
  destruct (truthy labelCache); simpl.
  - destruct (run prog n _ _); simpl; try done.
  - done.
Qed.

End SetFacts.

Section QuietClear.

Variable prog : nat -> ufun.

(** A clear of a live Link whose hooks are quiet: the state [st2] in which
    the destructor is called. *)
Lemma clearAsync_quiet n p p' l st D :
  let name := p_name p in
  let g := truthyStr (p_group p) in
  let link := getLink st l in
  let c := Ctx p' l "clearAsync" in
  resolveId p (getLocal name g st) = Some p' →
  notNull (p_id p') = true →
  Map_get (p_id p') (links (getLocal name g st)) = Some l →
  Forall (fun h => quietFn prog h = true ∧ fnDepth h ≤ D) (l_onClear link) →
  p_replacedBy p ≠ Some l →
  length (l_onClear link) + D + 2 ≤ n →
  ∃ st2,
    trace st2
    = trace st ++ ELinksDelete name g (l_id link) :: hookEvents c (l_onClear link)
    ∧ quietRel (p_replacedBy p) (removed name g link st) st2
    ∧ run prog (S n) (KClearAsync p) st
      = match p_clearFn p with
        | Some d =>
            let! (_, st3) := callDestructor (run prog n) d (l_id link) c st2 in
            Ok VUndef st3
        | None => Ok VUndef st2
        end.
Proof.
  intros name g link c Hres Hnn Hget Hquiet Hrep Hn.
  destruct (resolveId_fields _ _ _ Hres) as (_ & _ & _ & Hcf & Hrb & _).
  destruct (hooks_quiet prog c l (l_onClear link) D) with
    (n := n) (i := 0) (st := removed name g link st)
    as (st2 & Hrun & Htr & Hrel); try done.
  { simpl. by rewrite Hrb. }
  { lia. }
  exists st2. split; [|split].
  - rewrite Htr, trace_removed, drop_0. by rewrite <- app_assoc.
  - simpl in Hrel. by rewrite Hrb in Hrel.
  - rewrite (clearAsync_live prog n p p' l st Hres Hnn Hget). simpl.
    fold name g link c. rewrite Hrun. simpl. by rewrite Hcf.
Qed.

Lemma truthyStr_Some s key : truthyStr s = Some key → s = Some key.
Proof.
  unfold truthyStr. destruct s as [s|]; [|done].
  destruct (decide (s = "")); [done|]. by intros [= <-].
Qed.

End QuietClear.

Section ExistsFacts.

Implicit Types (st : state) (name : string) (g : option string).


Lemma cacheExists_putLocal name g lc st : cacheExists name g (putLocal name g lc st).
Proof.
  unfold cacheExists, putLocal; simpl. rewrite lookup_insert_eq.
  destruct g as [s|]; [|done]. simpl. rewrite lookup_insert_eq. by eexists.
Qed.

Lemma cacheExists_cache name g st st' :
  cache st = cache st' → cacheExists name g st → cacheExists name g st'.
Proof. unfold cacheExists. by intros ->. Qed.

Lemma cacheExists_removed name g link st : cacheExists name g (removed name g link st).
Proof. unfold removed, labels_set. apply cacheExists_putLocal. Qed.

End ExistsFacts.

Section LiveIterator.

Implicit Types (m pre post : JsMap) (k : value) (l i j : nat).

Lemma Map_next_end m i : length m ≤ i → Map_next i m = None.
Proof.
  revert i. induction m as [|e m IH]; intros i Hi; simpl; [done|].
  simpl in Hi. destruct i as [|i]; [lia|]. rewrite IH by lia. done.
Qed.

Lemma Map_next_here pre k l post :
  Map_next (length pre) (pre ++ Some (k, l) :: post) = Some (l, S (length pre)).
Proof.
  induction pre as [|e pre IH]; simpl; [done|]. by rewrite IH.
Qed.

Lemma Map_next_skip pre post :
  Map_next (length pre) (pre ++ None :: post)
  = Map_next (S (length pre)) (pre ++ None :: post).
Proof.
  induction pre as [|e pre IH]; simpl.
  - done.
  - by rewrite IH.
Qed.

Lemma Map_keys_app pre post : Map_keys (pre ++ post) = Map_keys pre ++ Map_keys post.
Proof. unfold Map_keys. apply omap_app. Qed.

Lemma Map_values_app pre post :
  Map_values (pre ++ post) = Map_values pre ++ Map_values post.
Proof. unfold Map_values. apply omap_app. Qed.

Lemma Map_wf_middle pre k l post :
  Map_wf (pre ++ Some (k, l) :: post) → k ∉ Map_keys pre.
Proof.
  unfold Map_wf. rewrite Map_keys_app. simpl.
  intros Hnd Hin. apply NoDup_app in Hnd as (_ & Hdisj & _).
  apply (Hdisj k Hin). left.
Qed.

Lemma Map_get_middle pre k l post :
  k ∉ Map_keys pre → Map_get k (pre ++ Some (k, l) :: post) = Some l.
Proof.
  unfold Map_keys. induction pre as [|[[k' v']|] pre IH]; simpl; intros Hnin.
  - by rewrite decide_True.
  - apply not_elem_of_cons in Hnin as [Hne Hnin].
    rewrite decide_False by done. by apply IH.
  - by apply IH.
Qed.

Lemma Map_delete_middle pre k l post :
  k ∉ Map_keys pre →
  Map_delete k (pre ++ Some (k, l) :: post) = pre ++ None :: post.
Proof.
  unfold Map_keys. induction pre as [|[[k' v']|] pre IH]; simpl; intros Hnin.
  - by rewrite decide_True.
  - apply not_elem_of_cons in Hnin as [Hne Hnin].
    rewrite decide_False by done. by rewrite IH.
  - by rewrite IH.
Qed.

Lemma Map_wf_emptied pre k l post :
  Map_wf (pre ++ Some (k, l) :: post) → Map_wf (pre ++ None :: post).
Proof.
  unfold Map_wf. rewrite !Map_keys_app. simpl.
  intros Hnd. apply NoDup_app in Hnd as (H1 & H2 & H3).
  apply NoDup_app. split; [done|]. split.
  - intros x Hx Hin. apply (H2 x Hx). by right.
  - by apply NoDup_cons in H3 as [_ ?].
Qed.

End LiveIterator.

Section BulkQuiet.

Variable prog : nat -> ufun.

Lemma quietLink_ext D H st st' k l :
  getLink st' l = getLink st l → quietLink prog D H st k l → quietLink prog D H st' k l.
Proof. unfold quietLink. by intros ->. Qed.

Lemma clearEvents_ext_helper name g p st st' l :
  getLink st' l = getLink st l → clearEvents name g p st' l = clearEvents name g p st l.
Proof. unfold clearEvents. by intros ->. Qed.

Lemma bulk_skip p n st i :
  Map_next i (links (getLocal (p_name p) (truthyStr (p_group p)) st))
  = Map_next (S i) (links (getLocal (p_name p) (truthyStr (p_group p)) st)) →
  run prog n (KBulk p i) st = run prog n (KBulk p (S i)) st.
Proof.
  intros Heq. destruct n as [|n]; [done|].
  rewrite !run_S. unfold step, bulk. by rewrite Heq.
Qed.

(** The loop of a bulk clear over a Map whose Links have quiet hooks:
    [done] is the part of the entry list behind the iterator. *)
Lemma bulk_quiet p D H :
  let name := p_name p in
  let g := truthyStr (p_group p) in
  truthyStr (p_label p) = None →
  p_replacedBy p = None →
  (∀ d, p_clearFn p = Some d → ∃ prim, d = DHost prim) →
  ∀ todo done n st,
    links (getLocal name g st) = done ++ todo →
    Map_wf (done ++ todo) →
    (∀ k l, Some (k, l) ∈ todo → quietLink prog D H st k l) →
    length todo + H + D + 3 ≤ n →
    ∃ st',
      run prog n (KBulk p (length done)) st = Ok VUndef st'
      ∧ trace st' = trace st ++ concat (clearEvents name g p st <$> Map_values todo)
      ∧ Map_values (links (getLocal name g st')) = Map_values done
      ∧ (∀ l, getLink st' l = getLink st l).
Proof.
  intros name g Hlabel Hrb Hcf.
  induction todo as [|[[k l]|] todo IH]; intros done n st Hm Hwf Hok Hn.
  - destruct n as [|n]; [lia|]. rewrite run_S. unfold step, bulk. fold name g.
    rewrite Hm, Map_next_end by (rewrite app_nil_r; lia).
    exists st. split; [done|]. split; [simpl; by rewrite app_nil_r|].
    split; [by rewrite Hm, app_nil_r | done].
  - destruct n as [|[|n]]; [lia | lia |].
    destruct (Hok k l) as (Hid & Hnn & Hq & Hlen); [left|].
    assert (Hget : Map_get k (links (getLocal name g st)) = Some l).
    { rewrite Hm. apply Map_get_middle. by eapply Map_wf_middle. }
    destruct (clearAsync_quiet prog n (with_id p k) (with_id p k) l st D)
      as (st2 & Htr & Hrel & Hrun).
    { unfold resolveId. simpl. by rewrite Hlabel. }
    { done. }
    { done. }
    { done. }
    { simpl. by rewrite Hrb. }
    { simpl in Hn. cbv zeta. lia. }
    assert (Hrel' : quietRel None (removed name g (getLink st l) st) st2)
      by (rewrite <- Hrb; exact Hrel).
    destruct Hrel' as (Hc2 & _ & _ & _ & _ & _ & Hl2).
    assert (Hlink2 : ∀ l', getLink st2 l' = getLink st l').
    { intros l'. destruct (Hl2 l') as [Hsame _]. by rewrite Hsame. }
    assert (Hdestroy : ∃ st3,
      match p_clearFn p with
      | Some d =>
          let! (_, s) := callDestructor (run prog n) d k
                           (Ctx (with_id p k) l "clearAsync") st2 in
          Ok VUndef s
      | None => Ok VUndef st2
      end = Ok VUndef st3
      ∧ cache st3 = cache st2 ∧ heap st3 = heap st2
      ∧ trace st3 = trace st2
                    ++ destroyEvents (p_clearFn p) k (Ctx (with_id p k) l "clearAsync")).
    { destruct (p_clearFn p) as [d|] eqn:Hd.
      - destruct (Hcf d eq_refl) as [prim ->]. eexists. split; [reflexivity|]. done.
      - exists st2. simpl. by rewrite app_nil_r. }
    destruct Hdestroy as (st3 & Hd3 & Hc3 & Hh3 & Ht3).
    assert (Hlink3 : ∀ l', getLink st3 l' = getLink st l').
    { intros l'. unfold getLink. rewrite Hh3. apply Hlink2. }
    destruct (IH (done ++ [None]) (S n) st3) as (st' & Hrun' & Htr' & Hvals & Hlinks).
    { rewrite (getLocal_cache st3 (removed name g (getLink st l) st)) by congruence.
      unfold removed. rewrite links_labels_set, links_links_delete.
      rewrite Hm, Hid, Map_delete_middle by (by eapply Map_wf_middle).
      by rewrite <- app_assoc. }
    { rewrite <- app_assoc. by eapply Map_wf_emptied. }
    { intros k' l' Hin. apply (quietLink_ext D H st); [apply Hlink3|].
      apply Hok. by right. }
    { simpl in Hn. lia. }
    rewrite length_app in Hrun'. simpl in Hrun'. rewrite Nat.add_1_r in Hrun'.
    exists st'. split; [|split; [|split]].
    + rewrite run_S. unfold step, bulk. fold name g.
      rewrite Hm, Map_next_here, Hid.
      change (run prog (S n) (KClearAsync (with_id p k)) st)
        with (run prog (S n) (KClearAsync (with_id p k)) st).
      rewrite Hrun. simpl p_clearFn. rewrite Hid, Hd3. simpl. exact Hrun'.
    + rewrite Htr', Ht3, Htr.
      rewrite (list_fmap_ext (clearEvents name g p st3) (clearEvents name g p st)
                 (Map_values todo))
        by (intros ? l' _; apply clearEvents_ext_helper, Hlink3).
      change (Map_values (Some (k, l) :: todo)) with (l :: Map_values todo).
      rewrite fmap_cons. simpl concat. unfold clearEvents at 2. rewrite Hid.
      fold name g. rewrite <- !app_assoc. simpl. by rewrite <- ?app_assoc.
    + rewrite Hvals, Map_values_app. simpl. by rewrite app_nil_r.
    + intros l'. rewrite Hlinks. apply Hlink3.
  - destruct (IH (done ++ [None]) n st) as (st' & Hrun' & Htr' & Hvals & Hlinks).
    { by rewrite <- app_assoc. }
    { by rewrite <- app_assoc. }
    { intros k' l' Hin. apply Hok. by right. }
    { simpl in Hn. lia. }
    rewrite length_app in Hrun'. simpl in Hrun'. rewrite Nat.add_1_r in Hrun'.
    exists st'. split; [|split; [|split]]; try done.
    + rewrite bulk_skip; [done|]. fold name g. rewrite Hm. apply Map_next_skip.
    + rewrite Hvals, Map_values_app. simpl. by rewrite app_nil_r.
Qed.

End BulkQuiet.

Section LostLink.

Variable prog : nat -> ufun.
Variable l1 : nat.

Lemma safe_refl st : lost l1 st → safe l1 st st.
Proof. intros H. split; [done|]. exists []. by rewrite app_nil_r. Qed.

Lemma safe_trans a b c : safe l1 a b → safe l1 b c → safe l1 a c.
Proof.
  intros [_ (t1 & Ht1 & Hf1)] [Hc (t2 & Ht2 & Hf2)]. split; [done|].
  exists (t1 ++ t2). rewrite Ht2, Ht1, app_assoc. split; [done|].
  by apply Forall_app.
Qed.

Lemma safe_lost a b : safe l1 a b → lost l1 b.
Proof. by intros [? _]. Qed.

(** A state update that keeps the trace, the heap size, and adds no Link
    to any Map. *)
Lemma safe_quiet_update a b b' :
  safe l1 a b →
  trace b' = trace b →
  length (heap b) ≤ length (heap b') →
  (∀ name g x, x ∈ Map_values (links (getLocal name g b')) →
               x ∈ Map_values (links (getLocal name g b))) →
  safe l1 a b'.
Proof.
  intros [[Hlen Hnone] (t & Ht & Hf)] Htr Hheap Hvals. split.
  - split; [lia|]. intros name g Hin. by apply (Hnone name g), Hvals.
  - exists t. by rewrite Htr.
Qed.

Lemma safe_log a b e : notAbout l1 e → safe l1 a b → safe l1 a (log e b).
Proof.
  intros He [[Hlen Hnone] (t & Ht & Hf)]. split; [done|].
  exists (t ++ [e]). simpl. rewrite Ht, app_assoc. split; [done|].
  apply Forall_app. split; [done|]. by apply Forall_singleton.
Qed.

Lemma values_putLocal name g lc st name' g' x :
  x ∈ Map_values (links (getLocal name' g' (putLocal name g lc st))) →
  x ∈ Map_values (links lc) ∨ x ∈ Map_values (links (getLocal name' g' st)).
Proof. rewrite getLocal_putLocal. case_decide; auto. Qed.

Lemma safe_labels_set a b name g key v :
  safe l1 a b → safe l1 a (labels_set name g key v b).
Proof.
  intros H. apply (safe_quiet_update a b); try done.
  intros name' g' x Hin. unfold labels_set in Hin.
  rewrite getLocal_putLocal in Hin. case_decide as Hd; [|done].
  destruct Hd as [-> ->]. done.
Qed.

Lemma safe_links_delete a b name g id :
  safe l1 a b → safe l1 a (links_delete name g id b).
Proof.
  intros H. unfold links_delete. apply safe_log; [done|].
  apply (safe_quiet_update a b); try done.
  intros name' g' x Hin. rewrite getLocal_putLocal in Hin.
  case_decide as Hd; [|done]. destruct Hd as [-> ->].
  simpl in Hin. by apply (Map_values_delete id).
Qed.

Lemma safe_links_set a b name g id l :
  l ≠ l1 → safe l1 a b → safe l1 a (links_set name g id l b).
Proof.
  intros Hne [[Hlen Hnone] (t & Ht & Hf)]. unfold links_set.
  apply safe_log; [done|]. split.
  - split; [done|]. intros name' g' Hin. rewrite getLocal_putLocal in Hin.
    case_decide as Hd; [|by apply (Hnone name' g')]. destruct Hd as [-> ->].
    simpl in Hin. apply Map_values_set in Hin as [?|Hin]; [congruence|].
    by apply (Hnone name g).
  - by exists t.
Qed.

Lemma safe_initCache a b name : safe l1 a b → safe l1 a (initCache name b).
Proof.
  intros H. apply (safe_quiet_update a b); try done.
  - apply trace_initCache.
  - by rewrite heap_initCache.
  - intros name' g' x. by rewrite getLocal_initCache.
Qed.

Lemma safe_initGroup a b name g : safe l1 a b → safe l1 a (initGroup name g b).
Proof.
  intros H. apply (safe_quiet_update a b); try done.
  - unfold initGroup. destruct g; [|done]. destruct (cache b !! name) as [co|]; [|done].
    by destruct (groups co !! s).
  - unfold initGroup. destruct g; [|done]. destruct (cache b !! name) as [co|]; [|done].
    by destruct (groups co !! s).
  - intros name' g' x. by rewrite getLocal_initGroup.
Qed.

Lemma safe_cache_same a b b' :
  safe l1 a b →
  cache b' = cache b → trace b' = trace b → length (heap b) ≤ length (heap b') →
  safe l1 a b'.
Proof.
  intros H Hc Htr Hh. apply (safe_quiet_update a b); try done.
  intros name g x. by rewrite (getLocal_cache b' b).
Qed.

Lemma safe_settle a b p s : safe l1 a b → safe l1 a (settle p s b).
Proof.
  intros H. apply (safe_cache_same a b); try done.
  - unfold settle. by destruct (promises b !! p) as [[| |]|].
  - apply trace_settle.
  - unfold settle. by destruct (promises b !! p) as [[| |]|].
Qed.

Lemma safe_allocClosure a b p g id f :
  safe l1 a b → safe l1 a (allocClosure p g id f b).
Proof.
  intros H. apply (safe_cache_same a b); try done.
  - apply cache_allocClosure.
  - apply trace_allocClosure.
  - by rewrite heap_allocClosure.
Qed.

Lemma safe_push_link a b k : safe l1 a b → safe l1 a (push_link k b).
Proof.
  intros H. apply (safe_cache_same a b); try done.
  simpl. rewrite length_app. lia.
Qed.

Lemma safe_push_onComplete a b r pair :
  safe l1 a b → safe l1 a (push_onComplete r pair b).
Proof.
  intros H. apply (safe_cache_same a b); try done.
  by rewrite length_heap_push_onComplete.
Qed.

Lemma safe_push_onClear a b r fs :
  safe l1 a b → safe l1 a (push_onClear r fs b).
Proof.
  intros H. apply (safe_cache_same a b); try done.
  by rewrite length_heap_push_onClear.
Qed.

Lemma osafe_andThen a b o k :
  safe l1 a b →
  osafe l1 b o →
  (∀ v b', safe l1 a b' → osafe l1 a (k v b')) →
  osafe l1 a (andThen o k).
Proof.
  intros Hab Ho Hk. destruct o as [v b'|e b'|]; simpl in *; try done.
  - apply Hk. by eapply safe_trans.
  - by eapply safe_trans.
Qed.

End LostLink.

Section LostLinkStep.

Variable prog : nat -> ufun.
Variable l1 : nat.
Variable rec : call -> state -> outcome value.

Hypothesis rec_safe :
  ∀ c st, lost l1 st → notClearing l1 c → osafe l1 st (rec c st).

Ltac safe_prims :=
  unfold osafe;
  repeat lazymatch goal with
    | H : safe ?l ?a ?b |- safe ?l ?a ?b => exact H
    | |- safe _ _ (labels_set _ _ _ _ _) => apply safe_labels_set
    | |- safe _ _ (links_delete _ _ _ _) => apply safe_links_delete
    | |- safe _ _ (links_set _ _ _ _ _) => apply safe_links_set; [assumption|]
    | |- safe _ _ (initCache _ _) => apply safe_initCache
    | |- safe _ _ (initGroup _ _ _) => apply safe_initGroup
    | |- safe _ _ (settle _ _ _) => apply safe_settle
    | |- safe _ _ (allocClosure _ _ _ _ _) => apply safe_allocClosure
    | |- safe _ _ (push_link _ _) => apply safe_push_link
    | |- safe _ _ (push_onComplete _ _ _) => apply safe_push_onComplete
    | |- safe _ _ (push_onClear _ _ _) => apply safe_push_onClear
    | |- safe _ _ (log _ _) => apply safe_log; [exact I|]
    end.

Lemma osafe_weaken a b o : safe l1 a b → osafe l1 b o → osafe l1 a o.
Proof.
  intros Hab Ho. destruct o as [v b'|e b'|]; simpl in *; try done;
    by eapply safe_trans.
Qed.

Lemma rec_safe_from a b c :
  safe l1 a b → notClearing l1 c → osafe l1 a (rec c b).
Proof.
  intros Hab Hc. apply (osafe_weaken a b); [done|].
  apply rec_safe; [by eapply safe_lost | done].
Qed.

Lemma osafe_bind a o k :
  osafe l1 a o →
  (∀ v b, safe l1 a b → osafe l1 a (k v b)) →
  osafe l1 a (andThen o k).
Proof.
  intros Ho Hk. destruct o as [v b|e b|]; simpl in *; try done. by apply Hk.
Qed.

Lemma callWrapper_safe a b w name cb req :
  safe l1 a b → osafe l1 a (callWrapper w name cb req b).
Proof.
  intros Hab. unfold callWrapper. destruct w as [prim| |]; simpl.
  - apply safe_log; [done|]. by apply (safe_cache_same l1 a b).
  - destruct req as [[| |r|]|]; try done.
    destruct (o_promiseLike (getObject b r) || o_then (getObject b r)); [|done]. simpl.
    apply safe_log; [done|]. by apply (safe_cache_same l1 a b).
  - done.
Qed.

Lemma startPrimitive_safe a b p w f :
  safe l1 a b → osafe l1 a (startPrimitive p w f b).
Proof.
  intros Hab. unfold startPrimitive. destruct (p_wrapper p) as [w'|]; [|done].
  apply osafe_bind; [by apply callWrapper_safe|]. intros v b' Hb'. done.
Qed.

Lemma setAsync_safe a b p :
  safe l1 a b → osafe l1 a (setAsync rec p b).
Proof.
  intros Hab. unfold setAsync.
  set (st0 := initGroup (p_name p) (truthyStr (p_group p)) (initCache (p_name p) b)).
  assert (H0 : safe l1 a st0) by (unfold st0; safe_prims).
  destruct (truthy _ && _); [done|].
  apply osafe_bind.
  { destruct (p_obj p); try done. destruct (p_needCall p); [|done].
    by apply rec_safe_from. }
  intros finalObj b1 Hb1. apply osafe_bind; [by apply startPrimitive_safe|].
  intros id b2 Hb2.
  set (b3 := allocClosure p (truthyStr (p_group p)) id finalObj b2).
  assert (H3 : safe l1 a b3) by (unfold b3; safe_prims).
  destruct (notNull (p_obj p)); [|done].
  assert (Hfresh : length (heap b3) ≠ l1).
  { destruct (safe_lost l1 a b3 H3) as [Hlen _]. lia. }
  apply osafe_bind.
  { destruct (truthy _); [|safe_prims].
    apply rec_safe_from; [safe_prims | done]. }
  intros v b4 Hb4. cbv zeta.
  destruct (truthyStr (p_label p)); safe_prims.
Qed.

Lemma callDestructor_safe a b d id c :
  safe l1 a b → ctx_link c ≠ l1 → osafe l1 a (callDestructor rec d id c b).
Proof.
  intros Hab Hc. unfold callDestructor.
  assert (Hlog : safe l1 a (log (EDestroy d id c) b)) by (apply safe_log; done).
  destruct d as [prim| |]; simpl.
  - done.
  - unfold workerDestructor. destruct (workerMethod _ id); try done.
    by apply rec_safe_from.
  - unfold requestDestructor.
    destruct (match id with VObj r => _ | _ => _ end); try done.
    by apply rec_safe_from.
Qed.

Lemma clearAsync_safe a b p :
  safe l1 a b → osafe l1 a (clearAsync rec p b).
Proof.
  intros Hab. unfold clearAsync.
  set (st0 := initCache (p_name p) b).
  assert (H0 : safe l1 a st0) by (unfold st0; safe_prims).
  destruct (match truthyStr (p_group p) with Some _ => _ | None => _ end); [|done].
  destruct (resolveId p _) as [p'|]; [|done].
  destruct (notNull (p_id p')); [|by apply rec_safe_from].
  destruct (Map_get _ _) as [l|] eqn:Hget; [|done].
  assert (Hl : l ≠ l1).
  { intros ->. destruct (safe_lost l1 a st0 H0) as [_ Hnone].
    eapply Hnone. eapply Map_get_values. exact Hget. }
  apply osafe_bind.
  { apply rec_safe_from; [safe_prims | done]. }
  intros v b2 Hb2. destruct (p_clearFn p') as [d|]; [|done].
  apply osafe_bind; [by apply callDestructor_safe|]. done.
Qed.

Lemma bulk_safe a b p i : safe l1 a b → osafe l1 a (bulk rec p i b).
Proof.
  intros Hab. unfold bulk. destruct (Map_next _ _) as [[l j]|]; [|done].
  apply osafe_bind; [by apply rec_safe_from|].
  intros v b2 Hb2. by apply rec_safe_from.
Qed.

Lemma hooks_safe a b l i c :
  safe l1 a b → ctx_link c ≠ l1 → osafe l1 a (hooks rec l i c b).
Proof.
  intros Hab Hc. unfold hooks. destruct (_ !! i) as [h|]; [|done].
  apply osafe_bind.
  { apply rec_safe_from; [|done]. by apply safe_log. }
  intros v b2 Hb2. by apply rec_safe_from.
Qed.

Lemma execTasks_safe a b i l j args :
  safe l1 a b → osafe l1 a (execTasks rec i l j args b).
Proof.
  intros Hab. unfold execTasks. destruct (_ !! j) as [[resolve reject]|]; [|done].
  apply osafe_bind.
  { apply rec_safe_from; [|done]. by apply safe_log. }
  intros v b2 Hb2. by apply rec_safe_from.
Qed.

Lemma onPromiseClear_safe a b resolve reject args :
  safe l1 a b → osafe l1 a (onPromiseClear rec resolve reject args b).
Proof.
  intros Hab. unfold onPromiseClear.
  destruct args as [|[v|c|e] args]; try done.
  - destruct v; try done; by apply rec_safe_from.
  - destruct (p_replacedBy (ctx_p c)) as [r|]; [|by apply rec_safe_from].
    destruct (_ && _); [|by apply rec_safe_from].
    safe_prims.
  - by apply rec_safe_from.
Qed.

Lemma wrappedObj_safe a b cl args :
  safe l1 a b → osafe l1 a (wrappedObj rec cl args b).
Proof.
  intros Hab. unfold wrappedObj. destruct (Map_get _ _) as [l|]; [|done].
  set (b1 := if c_interval cl then b else _).
  assert (H1 : safe l1 a b1) by (unfold b1; destruct (c_interval cl); safe_prims).
  apply osafe_bind.
  { destruct (c_finalObj cl); try done.
    apply rec_safe_from; [|done]. by apply safe_log. }
  intros res b2 Hb2. destruct (isPromiseLike b2 _).
  - simpl. by apply safe_log.
  - apply osafe_bind; [by apply rec_safe_from|]. done.
Qed.

Lemma runScript_safe cs : ∀ a b, safe l1 a b → osafe l1 a (runScript rec cs b).
Proof.
  induction cs as [|c cs IH]; intros a b Hab; simpl; [done|].
  apply osafe_bind.
  - destruct c; simpl; try done; by apply rec_safe_from.
  - intros v b2 Hb2. by apply IH.
Qed.

Lemma callFn_safe a b f args :
  safe l1 a b → osafe l1 a (callFn prog rec f args b).
Proof.
  intros Hab. unfold callFn. destruct f as [u|p|p|resolve reject|k].
  - apply osafe_bind; [by apply runScript_safe|]. done.
  - safe_prims.
  - safe_prims.
  - by apply onPromiseClear_safe.
  - destruct (closures b !! k); [|done]. by apply wrappedObj_safe.
Qed.

Lemma step_safe c st :
  lost l1 st → notClearing l1 c → osafe l1 st (step prog rec c st).
Proof.
  intros Hlost Hc. pose proof (safe_refl l1 st Hlost) as Hrefl.
  destruct c; simpl.
  - by apply setAsync_safe.
  - by apply clearAsync_safe.
  - by apply bulk_safe.
  - by apply hooks_safe.
  - by apply callFn_safe.
  - by apply execTasks_safe.
Qed.

End LostLinkStep.

(** No call brings a lost Link back or runs its hooks or destructor. *)
Lemma run_safe prog l1 fuel :
  ∀ c st, lost l1 st → notClearing l1 c → osafe l1 st (run prog fuel c st).
Proof.
  induction fuel as [|n IH]; intros c st Hlost Hc; [done|].
  rewrite run_S. by apply step_safe.
Qed.

Lemma runAll_safe prog l1 fuel cs :
  ∀ st st', lost l1 st → Forall (notClearing l1) cs →
    runAll prog fuel cs st = Some st' → safe l1 st st'.
Proof.
  induction cs as [|c cs IH]; intros st st' Hlost Hcs; simpl.
  - intros [= <-]. by apply safe_refl.
  - apply Forall_cons in Hcs as [Hc Hcs].
    pose proof (run_safe prog l1 fuel c st Hlost Hc) as Hrun.
    destruct (run prog fuel c st) as [v b|e b|]; simpl in Hrun; [| |done].
    + intros Hall. eapply safe_trans; [exact Hrun|].
      apply IH; [by eapply safe_lost | done | done].
    + intros Hall. eapply safe_trans; [exact Hrun|].
      apply IH; [by eapply safe_lost | done | done].
Qed.

(** ** The claims *)

(** A registration under a non-empty label that returns leaves its id in
    the slot of the label. *)
Lemma setAsync_names_label prog n p key id st st1 :
  truthyStr (p_label p) = Some key →
  run prog n (KSetAsync p) st = Ok id st1 →
  labels_get (getLocal (p_name p) (truthyStr (p_group p)) st1) key = id.
Proof.
  intros Hkey Hrun. apply truthyStr_Some in Hkey as Hlabel.
  destruct n as [|n]; [done|]. rewrite run_S in Hrun. unfold step, setAsync in Hrun.
  rewrite Hkey, Hlabel in Hrun. change (labelKey (Some key)) with key in Hrun.
  set (st0 := initGroup (p_name p) (truthyStr (p_group p)) (initCache (p_name p) st)) in *.
  destruct (truthy (labels_get _ key) && bool_decide (p_join p = Some JoinTrue)).
  { by injection Hrun as <- <-. }
  destruct (match p_obj p with
            | VFn f => if p_needCall p then run prog n (KCallFn f []) st0 else Ok (p_obj p) st0
            | _ => Ok (p_obj p) st0
            end) as [finalObj sA|?|]; simpl in Hrun; try done.
  destruct (startPrimitive p _ finalObj sA) as [id' sB|?|]; simpl in Hrun; try done.
  destruct (notNull (p_obj p)); [|done].
  destruct (if truthy (labels_get (getLocal (p_name p) (truthyStr (p_group p)) st0) key)
            then _ else _) as [? sC|?|]; simpl in Hrun; try done.
  injection Hrun as <- <-.
  rewrite labels_get_labels_set. by rewrite decide_True.
Qed.

(** C5 (as the code has it). A [setAsync] call with [join === true] looks
    at the slot [labels[label]] of the cache object, not at the Links: when
    the slot holds a truthy id, the call returns that id at once and the
    state is the one before the call, so no Link was created, no primitive
    was started and the payload was not called.  The slot holds the id of
    a registration under a non-empty label from the moment that
    registration returns: a [join: true] call made then returns its id.
    (A live task whose slot has been vacated is not found:
    C5_counterexample.) *)
Theorem C5_join_true_returns_label_holder prog fuel p st :
  let name := p_name p in
  let g := truthyStr (p_group p) in
  p_join p = Some JoinTrue →
  (truthy (labels_get (getLocal name g st) (labelKey (p_label p))) = true →
   run prog (S fuel) (KSetAsync p) st
   = Ok (labels_get (getLocal name g st) (labelKey (p_label p))) st)
  ∧ (∀ n p1 key id st0,
       p_name p1 = name → truthyStr (p_group p1) = g →
       p_label p1 = p_label p → truthyStr (p_label p) = Some key →
       run prog n (KSetAsync p1) st0 = Ok id st →
       truthy id = true →
       run prog (S fuel) (KSetAsync p) st = Ok id st).
Proof.
  intros name g Hjoin.
  assert (HA : truthy (labels_get (getLocal name g st) (labelKey (p_label p))) = true →
    run prog (S fuel) (KSetAsync p) st
    = Ok (labels_get (getLocal name g st) (labelKey (p_label p))) st).
  { intros Hlive. rewrite run_S. unfold step, setAsync. fold name g.
    rewrite (init_occupied _ _ _ (labelKey (p_label p)))
      by (by apply truthy_notUndef).
    rewrite Hlive, Hjoin. by rewrite bool_decide_eq_true_2. }
  split; [exact HA|].
  intros n p1 key id st0 Hname Hgroup Hlabel Hkey Hrun Htruthy.
  rewrite <- Hlabel in Hkey.
  pose proof (setAsync_names_label prog n p1 key id st0 st Hkey Hrun) as Hslot.
  rewrite Hname, Hgroup in Hslot.
  apply truthyStr_Some in Hkey. rewrite Hlabel in Hkey.
  assert (Hk : labelKey (p_label p) = key) by (by rewrite Hkey).
  rewrite <- Hk in Hslot.
  rewrite <- Hslot. apply HA. by rewrite Hslot.
Qed.

(** The loop of a bulk clear issued under a label that resolves to nothing:
    every recursive call returns at the id test. *)
Lemma bulk_vacant_label prog p key st :
  truthyStr (p_label p) = Some key →
  p_id p = VUndef →
  initCache (p_name p) st = st →
  labels_get (getLocal (p_name p) (truthyStr (p_group p)) st) key = VUndef →
  (∀ l, l ∈ Map_values (links (getLocal (p_name p) (truthyStr (p_group p)) st)) →
        notNull (l_id (getLink st l)) = true) →
  ∀ n i,
    length (links (getLocal (p_name p) (truthyStr (p_group p)) st)) - i + 2 ≤ n →
    run prog n (KBulk p i) st = Ok VUndef st.
Proof.
  intros Hkey Hid Hinit Hvacant Hids.
  induction n as [|n IH]; intros i Hn; [lia|].
  rewrite run_S. unfold step, bulk.
  destruct (Map_next i _) as [[l j]|] eqn:Hnext; [|done].
  apply Map_next_bounds in Hnext as Hb. destruct Hb as (Hij & Hj & Hl).
  destruct n as [|n]; [lia|].
  rewrite (run_S _ n). unfold step at 1. unfold clearAsync. simpl.
  rewrite Hinit.
  assert (Hgrp : match truthyStr (p_group p) with
                 | Some g' => hasGroup (p_name p) g' st
                 | None => true
                 end = true).
  { pose proof (links_nonempty_group (p_name p) (truthyStr (p_group p)) st) as Hg.
    destruct (truthyStr (p_group p)); [|done]. apply Hg.
    intros Hnil. rewrite Hnil in Hl. by apply elem_of_nil in Hl. }
  rewrite Hgrp. unfold resolveId. simpl. rewrite Hkey, Hvacant.
  rewrite (Hids l Hl). simpl.
  rewrite bool_decide_eq_false_2.
  2:{ specialize (Hids l Hl). intros Heq. by rewrite Heq in Hids. }
  simpl. apply IH. lia.
Qed.

(** C9. [clearAsync] called with a label and no id, when [labels[label]]
    holds no live id, is a no-op: every [LocalCacheObject] keeps its labels
    and links (a missing cache object of the kind is created empty), and
    the trace is the one before the call, so no hook and no destructor was
    invoked. *)
Theorem C9_clear_vacant_label prog fuel p key st :
  truthyStr (p_label p) = Some key →
  p_id p = VUndef →
  labels_get (getLocal (p_name p) (truthyStr (p_group p)) st) key = VUndef
  ∨ Map_get (labels_get (getLocal (p_name p) (truthyStr (p_group p)) st) key)
      (links (getLocal (p_name p) (truthyStr (p_group p)) st)) = None →
  (∀ l, l ∈ Map_values (links (getLocal (p_name p) (truthyStr (p_group p)) st)) →
        notNull (l_id (getLink st l)) = true) →
  length (links (getLocal (p_name p) (truthyStr (p_group p)) st)) + 3 ≤ fuel →
  run prog fuel (KClearAsync p) st = Ok VUndef (initCache (p_name p) st)
  ∧ (∀ name g, getLocal name g (initCache (p_name p) st) = getLocal name g st)
  ∧ trace (initCache (p_name p) st) = trace st
  ∧ heap (initCache (p_name p) st) = heap st.
Proof.
  intros Hkey Hid Hvacant Hids Hfuel.
  split; [|split; [|split]];
    [| intros; apply getLocal_initCache | apply trace_initCache | apply heap_initCache].
  destruct fuel as [|n]; [lia|].
  rewrite run_S. unfold step, clearAsync.
  destruct (match truthyStr (p_group p) with
            | Some g' => hasGroup (p_name p) g' (initCache (p_name p) st)
            | None => true
            end) eqn:Hgrp; [|done].
  unfold resolveId. rewrite Hkey, Hid. simpl.
  rewrite getLocal_initCache.
  destruct (labels_get _ key) as [| | |] eqn:Htmp.
  - (* labels[label] is undefined: the bulk branch *)
    simpl. apply bulk_vacant_label with (key := key); simpl; try done.
    + apply initCache_idem.
    + by rewrite getLocal_initCache.
    + intros l. rewrite getLocal_initCache, getLink_initCache. apply Hids.
    + rewrite getLocal_initCache. lia.
  - destruct Hvacant as [?|Hv]; [done|]. simpl. by rewrite Hv.
  - destruct Hvacant as [?|Hv]; [done|]. simpl. by rewrite Hv.
  - destruct Hvacant as [?|Hv]; [done|]. simpl. by rewrite Hv.
Qed.

(** C2. The handler built by [onPromiseClear(resolve, reject)], called with
    a cancel context: when the context carries a successor [replacedBy],
    [join === "replace"], and the cleared Link has fewer than 25 clear
    hooks, it pushes [[resolve, reject]] onto the successor's [onComplete]
    and appends the cleared Link's [onClear] chain followed by [reject] to
    the successor's [onClear], calling nothing; in every other case it
    calls [reject] with the context. *)
Theorem C2_promise_clear_forwards_or_rejects prog fuel resolve reject c st :
  (∀ r,
      p_replacedBy (ctx_p c) = Some r →
      p_join (ctx_p c) = Some JoinReplace →
      length (l_onClear (getLink st (ctx_link c))) < MAX_PROMISE_DEPTH →
      r < length (heap st) →
      ∃ st',
        run prog (S fuel) (KCallFn (FPromiseClear resolve reject) [ACtx c]) st
        = Ok VUndef st'
        ∧ l_onComplete (getLink st' r)
          = l_onComplete (getLink st r) ++ [(resolve, reject)]
        ∧ l_onClear (getLink st' r)
          = l_onClear (getLink st r)
            ++ l_onClear (getLink st (ctx_link c)) ++ [reject]
        ∧ (∀ l, l ≠ r → getLink st' l = getLink st l)
        ∧ promises st' = promises st
        ∧ trace st' = trace st
        ∧ cache st' = cache st)
  ∧ (p_replacedBy (ctx_p c) = None
     ∨ p_join (ctx_p c) ≠ Some JoinReplace
     ∨ MAX_PROMISE_DEPTH ≤ length (l_onClear (getLink st (ctx_link c))) →
     run prog (S fuel) (KCallFn (FPromiseClear resolve reject) [ACtx c]) st
     = run prog fuel (KCallFn reject [ACtx c]) st).
Proof.
  split.
  - intros r Hr Hjoin Hlen Hheap.
    rewrite run_S. unfold step, callFn, onPromiseClear. rewrite Hr, Hjoin.
    rewrite bool_decide_eq_true_2 by done.
    apply Nat.ltb_lt in Hlen as Hlt. rewrite Hlt. simpl.
    eexists. split; [reflexivity|].
    rewrite !getLink_push_onClear, !length_heap_push_onComplete.
    rewrite !getLink_push_onComplete.
    rewrite !decide_True by done. simpl.
    split; [done|]. split.
    + f_equal. case_decide as Hd; [|done]. destruct Hd as [-> _]. done.
    + split; [|done]. intros l Hne.
      rewrite getLink_push_onClear.
      case_decide as Hd; [by destruct Hd|].
      rewrite getLink_push_onComplete.
      case_decide as Hd'; [by destruct Hd'|done].
  - intros Hcase. rewrite run_S. unfold step, callFn, onPromiseClear.
    destruct (p_replacedBy (ctx_p c)) as [r|]; [|done].
    destruct Hcase as [?|[Hj|Hlen]]; [done| |].
    + by rewrite bool_decide_eq_false_2.
    + apply Nat.ltb_ge in Hlen. rewrite Hlen. by rewrite andb_false_r.
Qed.

(** C8 (as the code has it). An exception thrown by a clear hook leaves
    [clearAsync] at once: the hooks registered before it have run, the
    hooks registered after it and the destructor are not called, and the
    Link is already out of the registry. *)
Theorem C8_throwing_hook_aborts_clear prog n p p' l st D pre u e rest post :
  let name := p_name p in
  let g := truthyStr (p_group p) in
  let link := getLink st l in
  let c := Ctx p' l "clearAsync" in
  resolveId p (getLocal name g st) = Some p' →
  notNull (p_id p') = true →
  Map_get (p_id p') (links (getLocal name g st)) = Some l →
  l_id link = p_id p' →
  Map_wf (links (getLocal name g st)) →
  l_onClear link = pre ++ FUser u :: post →
  u_body (prog u) = CThrow e :: rest →
  Forall (fun h => quietFn prog h = true ∧ fnDepth h ≤ D) pre →
  p_replacedBy p ≠ Some l →
  length pre + D + 3 ≤ n →
  ∃ st',
    run prog (S n) (KClearAsync p) st = Throw e st'
    ∧ trace st'
      = trace st ++ ELinksDelete name g (p_id p') :: hookEvents c (pre ++ [FUser u])
    ∧ Map_get (p_id p') (links (getLocal name g st')) = None
    ∧ labels_get (getLocal name g st') (labelKey (l_label link)) = VUndef.
Proof.
  intros name g link c Hres Hnn Hget Hkey Hwf Hhooks Hbody Hquiet Hrep Hn.
  destruct (resolveId_fields _ _ _ Hres) as (_ & _ & _ & Hcf & Hrb & _).
  rewrite (clearAsync_live prog n p p' l st Hres Hnn Hget). simpl.
  fold name g link c.
  destruct (hooks_prefix prog c l (l_onClear link) D) with
    (d := length pre) (i := 0) (st := removed name g link st)
    (m := n - length pre)
    as (st1 & Hrun & Htr & Hhs & Hrel).
  { simpl. by rewrite Hrb. }
  { rewrite drop_0, Hhooks. by rewrite take_app_length. }
  { done. }
  { rewrite Hhooks, length_app. simpl. lia. }
  { lia. }
  replace (length pre + (n - length pre)) with n in Hrun by lia.
  rewrite Hrun. simpl.
  destruct (n - length pre) as [|[|m]] eqn:Hm; [lia | lia |].
  rewrite (hooks_throw prog c l (length pre) u e rest st1 m); [|
    rewrite Hhs, Hhooks; by rewrite list_lookup_middle | done].
  simpl. eexists. split; [reflexivity|].
  destruct Hrel as (Hcache & _).
  assert (Hloc : getLocal name g (log (EHook (FUser u) c) st1)
                 = getLocal name g (removed name g link st))
    by (by apply getLocal_cache).
  split; [|split].
  - simpl. rewrite Htr, trace_removed, drop_0, Hhooks, take_app_length, Hkey.
    unfold hookEvents. rewrite fmap_app. simpl. by rewrite <- !app_assoc.
  - rewrite Hloc. by apply removed_absent.
  - rewrite Hloc. apply removed_label.
Qed.
(** ** Instances on concrete inputs *)

Lemma C5_witness :
  run quietProg 1
    (KSetAsync (setTimeoutParams (VFn (FUser 2)) (Opts (Some JoinTrue) (Some "t") None [])))
    oneTimeout
  = Ok (VNum 1) oneTimeout.
Proof.
  refine (proj2 (C5_join_true_returns_label_holder quietProg 0
           (setTimeoutParams (VFn (FUser 2)) (Opts (Some JoinTrue) (Some "t") None []))
           oneTimeout eq_refl) 1
           (setTimeoutParams (VFn (FUser 1)) (labelled "t" [FUser 7])) "t" (VNum 1)
           emptyState eq_refl eq_refl eq_refl eq_refl _ eq_refl).
  vm_compute. reflexivity.
Defined.

(** C5 as the specification states it fails: the clear hook of the first
    timeout registers a timeout under the label "t" while the second
    registration replaces the first; when the second has fired, that
    timeout (id 3) is live under the label, but the slot of the label is
    vacant, and [setTimeout] with [join: true] starts a new primitive and
    installs a new Link (id 4) instead of returning 3. *)
Lemma C5_counterexample :
  ∃ st l st',
    runAll rearmProg 6
      [KSetAsync (setTimeoutParams (VFn (FUser 7)) (labelled "t" [FUser 1]));
       KSetAsync (setTimeoutParams (VFn (FUser 8)) (labelled "t" []));
       KCallFn (FWrapped 1) []]
      emptyState = Some st
    ∧ Map_get (VNum 3) (links (getLocal "timeout" None st)) = Some l
    ∧ l_label (getLink st l) = Some "t"
    ∧ labels_get (getLocal "timeout" None st) "t" = VUndef
    ∧ run rearmProg 6
        (KSetAsync (setTimeoutParams (VFn (FUser 6)) (Opts (Some JoinTrue) (Some "t") None [])))
        st = Ok (VNum 4) st'
    ∧ trace st'
      = trace st ++ [EStart (WHost "setTimeout") "timeout" (VFn (FWrapped 3)) (VNum 4);
                     ELinksSet "timeout" None (VNum 4) (length (heap st))]
    ∧ Map_keys (links (getLocal "timeout" None st')) = [VNum 3; VNum 4].
Proof.
  eexists _, _, _. split; [vm_compute; reflexivity|].
  split; [vm_compute; reflexivity|].
  split; [vm_compute; reflexivity|].
  split; [vm_compute; reflexivity|].
  split; [vm_compute; reflexivity|].
  split; vm_compute; reflexivity.
Qed.

Lemma C9_witness :
  run quietProg 4 (KClearAsync (clearParams "timeout" (Some (DHost "clearTimeout"))
                                  VUndef (Some "other") None)) oneTimeout
  = Ok VUndef (initCache "timeout" oneTimeout).
Proof.
  refine (proj1 (C9_clear_vacant_label quietProg 4
                   (clearParams "timeout" (Some (DHost "clearTimeout"))
                      VUndef (Some "other") None)
                   "other" oneTimeout _ _ _ _ _)).
  - reflexivity.
  - reflexivity.
  - left. vm_compute. reflexivity.
  - intros l Hl. vm_compute in Hl. apply list_elem_of_singleton in Hl. subst l.
    vm_compute. reflexivity.
  - vm_compute. lia.
Defined.

(** C9 as the specification states it fails for the empty label:
    [clearTimeout({label: ""})] supplies a label under which [labels] holds
    nothing, and the call clears both live timeouts, calling a clear hook
    and the destructor twice; the empty string fails the test
    [if (p.label)], and the call is a bulk clear. *)
Lemma C9_counterexample :
  ∃ st',
    p_label (clearParams "timeout" (Some (DHost "clearTimeout")) VUndef (Some "") None)
    = Some ""
    ∧ labels_get (getLocal "timeout" None twoTimeouts) "" = VUndef
    ∧ Map_keys (links (getLocal "timeout" None twoTimeouts)) = [VNum 1; VNum 2]
    ∧ run quietProg 6
        (KClearAsync (clearParams "timeout" (Some (DHost "clearTimeout")) VUndef (Some "") None))
        twoTimeouts = Ok VUndef st'
    ∧ Map_keys (links (getLocal "timeout" None st')) = []
    ∧ destroyed (drop (length (trace twoTimeouts)) (trace st')) = [VNum 1; VNum 2]
    ∧ (∃ c, EHook (FUser 1) c ∈ drop (length (trace twoTimeouts)) (trace st')).
Proof.
  eexists. split; [reflexivity|]. split; [vm_compute; reflexivity|].
  split; [vm_compute; reflexivity|]. split; [vm_compute; reflexivity|].
  split; [vm_compute; reflexivity|]. split; [vm_compute; reflexivity|].
  eexists. vm_compute. apply list_elem_of_lookup. exists 1. reflexivity.
Qed.

Lemma C2_witness :
  ∃ st',
    run quietProg 1 (KCallFn (FPromiseClear (FResolve 0) (FReject 0)) [ACtx replaceCtx])
      bridged = Ok VUndef st'
    ∧ l_onComplete (getLink st' 1) = [(FResolve 0, FReject 0)]
    ∧ l_onClear (getLink st' 1)
      = [FPromiseClear (FResolve 0) (FReject 0); FReject 0].
Proof.
  destruct (proj1 (C2_promise_clear_forwards_or_rejects quietProg 0
                     (FResolve 0) (FReject 0) replaceCtx bridged) 1)
    as (st' & Hrun & Hcomplete & Hclear & _).
  - reflexivity.
  - reflexivity.
  - vm_compute. lia.
  - vm_compute. lia.
  - exists st'. split; [exact Hrun|]. split; [exact Hcomplete | exact Hclear].
Defined.

Lemma C8_witness :
  ∃ st',
    clearTimeout throwingProg 4 (VNum 1) None None twoHooks
    = Throw (UserError "boom") st'
    ∧ Map_get (VNum 1) (links (getLocal "timeout" None st')) = None.
Proof.
  destruct (C8_throwing_hook_aborts_clear throwingProg 3
              (clearParams "timeout" (Some (DHost "clearTimeout")) (VNum 1) None None)
              (clearParams "timeout" (Some (DHost "clearTimeout")) (VNum 1) None None)
              0 twoHooks 0 [] 1 (UserError "boom") [] [FUser 2])
    as (st' & Hrun & _ & Habsent & _).
  - vm_compute. reflexivity.
  - reflexivity.
  - vm_compute. reflexivity.
  - vm_compute. reflexivity.
  - unfold Map_wf. compute_done.
  - vm_compute. reflexivity.
  - reflexivity.
  - constructor.
  - discriminate.
  - simpl. lia.
  - exists st'. split; [exact Hrun | exact Habsent].
Defined.

(** C8 as the specification states it fails: the first hook of the Link
    throws, and the second hook and the destructor [clearTimeout] are never
    called. *)
Lemma C8_counterexample :
  ∃ st',
    clearTimeout throwingProg 5 (VNum 1) None None twoHooks
    = Throw (UserError "boom") st'
    ∧ l_onClear (getLink twoHooks 0) = [FUser 1; FUser 2]
    ∧ (∀ c, EHook (FUser 2) c ∉ trace st')
    ∧ (∀ d id c, EDestroy d id c ∉ trace st').
Proof.
  eexists. split; [vm_compute; reflexivity|]. split; [reflexivity|].
  split.
  - intros c Hin. simpl in Hin.
    repeat (apply elem_of_cons in Hin as [Hin|Hin]; [discriminate Hin|]).
    by apply elem_of_nil in Hin.
  - intros d id c Hin. simpl in Hin.
    repeat (apply elem_of_cons in Hin as [Hin|Hin]; [discriminate Hin|]).
    by apply elem_of_nil in Hin.
Qed.
(** C4 as the specification states it fails: the label "t" holds the
    timeout 1 when a second timeout is registered under it; the Link of
    timeout 1 is deleted (and its hook and destructor are called) before
    the new Link is put into [links], and never after it. *)
Lemma C4_counterexample :
  ∃ st',
    labels_get (getLocal "timeout" None oneTimeout) "t" = VNum 1
    ∧ Map_get (VNum 1) (links (getLocal "timeout" None oneTimeout)) = Some 0
    ∧ run quietProg 5 (KSetAsync (setTimeoutParams (VFn (FUser 2)) (labelled "t" [])))
        oneTimeout = Ok (VNum 2) st'
    ∧ before (ELinksDelete "timeout" None (VNum 1))
        (ELinksSet "timeout" None (VNum 2) 1) (trace st')
    ∧ ¬ before (ELinksSet "timeout" None (VNum 2) 1)
          (ELinksDelete "timeout" None (VNum 1)) (trace st').
Proof.
  eexists. split; [vm_compute; reflexivity|]. split; [vm_compute; reflexivity|].
  split; [vm_compute; reflexivity|]. split.
  - exists 3, 6. split; [lia|]. split; reflexivity.
  - intros (i & j & Hij & Hi & Hj). simpl in Hi, Hj.
    do 7 (destruct i as [|i]; [try discriminate Hi|]; simpl in Hi).
    + do 7 (destruct j as [|j]; [lia|]; simpl in Hj). discriminate Hj.
    + discriminate Hi.
Qed.
(** C7 as the specification states it fails: the first Link's clear hook
    registers a third timeout while the bulk clear is walking the Map, and
    the bulk clear reaches and destroys that Link too, although the Map
    held the ids 1 and 2 when the call was made. *)
Lemma C7_counterexample :
  ∃ st',
    Map_keys (links (getLocal "timeout" None twoTimeouts)) = [VNum 1; VNum 2]
    ∧ clearTimeout addingProg 10 VUndef None None twoTimeouts = Ok VUndef st'
    ∧ destroyed (drop (length (trace twoTimeouts)) (trace st'))
      = [VNum 1; VNum 2; VNum 3]
    ∧ Map_values (links (getLocal "timeout" None st')) = [].
Proof.
  eexists. split; [vm_compute; reflexivity|].
  split; [vm_compute; reflexivity|].
  split; vm_compute; reflexivity.
Qed.

(** ** The registry invariant is kept by every call *)

Section MapEntries.

Implicit Types (m : JsMap) (k : value) (l : nat).

Lemma Map_delete_entry k m k' l' :
  Some (k', l') ∈ Map_delete k m → Some (k', l') ∈ m.
Proof.
  induction m as [|[[k0 v0]|] m IH]; simpl; [done| |].
  - destruct (decide (k0 = k)).
    + rewrite !elem_of_cons. intros [?|?]; [done | by right].
    + rewrite !elem_of_cons. intros [?|?]; [by left | right; by apply IH].
  - rewrite !elem_of_cons. intros [?|?]; [done | right; by apply IH].
Qed.

Lemma Map_set_entry k l m k' l' :
  Some (k', l') ∈ Map_set k l m → (k' = k ∧ l' = l) ∨ Some (k', l') ∈ m.
Proof.
  induction m as [|[[k0 v0]|] m IH]; simpl.
  - rewrite list_elem_of_singleton. intros [= -> ->]. by left.
  - destruct (decide (k0 = k)).
    + rewrite !elem_of_cons. intros [[= -> ->]|?]; [by left | right; by right].
    + rewrite !elem_of_cons. intros [?|Hin]; [right; by left|].
      destruct (IH Hin) as [?|?]; [by left | right; by right].
  - rewrite !elem_of_cons. intros [?|Hin]; [done|].
    destruct (IH Hin) as [?|?]; [by left | right; by right].
Qed.

Lemma Map_keys_entry k l m : Some (k, l) ∈ m → k ∈ Map_keys m.
Proof.
  unfold Map_keys. intros Hin. apply list_elem_of_omap. exists (Some (k, l)). done.
Qed.

Lemma Map_keys_set k l m :
  Map_keys (Map_set k l m)
  = if decide (k ∈ Map_keys m) then Map_keys m else Map_keys m ++ [k].
Proof.
  induction m as [|[[k0 v0]|] m IH].
  - done.
  - change (Map_keys (Some (k0, v0) :: m)) with (k0 :: Map_keys m).
    simpl Map_set. destruct (decide (k0 = k)) as [->|Hne].
    + change (Map_keys (Some (k, l) :: m)) with (k :: Map_keys m).
      destruct (decide (k ∈ k :: Map_keys m)) as [|H]; [done|].
      exfalso. apply H. left.
    + change (Map_keys (Some (k0, v0) :: Map_set k l m))
        with (k0 :: Map_keys (Map_set k l m)).
      rewrite IH. destruct (decide (k ∈ Map_keys m)) as [Hin|Hnin].
      * destruct (decide (k ∈ k0 :: Map_keys m)) as [|H]; [done|].
        exfalso. apply H. by right.
      * destruct (decide (k ∈ k0 :: Map_keys m)) as [H|]; [|done].
        apply elem_of_cons in H as [?|?]; congruence.
  - exact IH.
Qed.

Lemma Map_wf_set k l m : Map_wf m → Map_wf (Map_set k l m).
Proof.
  unfold Map_wf. rewrite Map_keys_set. case_decide as Hin; [done|].
  intros Hnd. apply NoDup_app. split; [done|]. split.
  - intros x Hx Hx'. apply list_elem_of_singleton in Hx'. by subst.
  - apply NoDup_singleton.
Qed.

Lemma Map_wf_entry_get k l m : Map_wf m → Some (k, l) ∈ m → Map_get k m = Some l.
Proof.
  unfold Map_wf, Map_keys. induction m as [|[[k0 v0]|] m IH]; simpl; intros Hwf Hin.
  - by apply elem_of_nil in Hin.
  - apply NoDup_cons in Hwf as [Hnin Hwf].
    apply elem_of_cons in Hin as [[= -> ->]|Hin].
    + by rewrite decide_True.
    + rewrite decide_False; [by apply IH|].
      intros ->. apply Hnin. by eapply Map_keys_entry.
  - apply elem_of_cons in Hin as [?|Hin]; [done|]. by apply IH.
Qed.

Lemma Map_get_entry k l m : Map_get k m = Some l → Some (k, l) ∈ m.
Proof.
  induction m as [|[[k0 v0]|] m IH]; simpl; [done| |].
  - destruct (decide (k0 = k)) as [->|].
    + intros [= ->]. left.
    + intros H. right. by apply IH.
  - intros H. right. by apply IH.
Qed.

Lemma Map_delete_entry_ne k m l' :
  Map_wf m → Some (k, l') ∈ Map_delete k m → False.
Proof.
  intros Hwf Hin. apply (Map_wf_delete k) in Hwf as Hwf'.
  apply Map_wf_entry_get in Hin; [|done].
  by rewrite Map_get_delete_eq in Hin.
Qed.

End MapEntries.

Section Keeps.

Implicit Types (a b c : state) (l : nat).

Lemma stored_cache a b : cache a = cache b → ∀ l, stored a l → stored b l.
Proof.
  intros Hc l (name & g & k & Hin). exists name, g, k.
  by rewrite <- (getLocal_cache a b).
Qed.

Lemma grows_refl a : grows a a.
Proof. split; [done|]. split; [done|]. intros l Hl. by left. Qed.

Lemma grows_trans a b c : grows a b → grows b c → grows a c.
Proof.
  intros (H1 & H2 & H3) (K1 & K2 & K3). split; [lia|]. split.
  - intros l Hl. rewrite K2 by lia. by apply H2.
  - intros l Hl. destruct (K3 l Hl) as [Hb|Hb].
    + destruct (H3 l Hb) as [?|?]; [by left | by right].
    + right. lia.
Qed.

Lemma keeps_refl a : keeps a a.
Proof. split; [apply grows_refl | done]. Qed.

Lemma keeps_trans a b c : keeps a b → keeps b c → keeps a c.
Proof.
  intros [H1 H2] [K1 K2]. split; [by eapply grows_trans|]. auto.
Qed.

(** A state update that adds no entry to any Map and keeps the ids of the
    Links. *)
Lemma keeps_update b b' :
  length (heap b) ≤ length (heap b') →
  (∀ l, l < length (heap b) → l_id (getLink b' l) = l_id (getLink b l)) →
  (∀ name g, Map_wf (links (getLocal name g b)) →
             Map_wf (links (getLocal name g b'))) →
  (∀ name g k l, Some (k, l) ∈ links (getLocal name g b') →
                 Some (k, l) ∈ links (getLocal name g b)) →
  keeps b b'.
Proof.
  intros Hlen Hid Hwf Hsub. split.
  - split; [done|]. split; [done|].
    intros l (name & g & k & Hin). left. exists name, g, k. by apply Hsub.
  - intros (R1 & R2 & R3). split; [|split].
    + intros name g. apply Hwf, R1.
    + intros name g k l Hin. apply Hsub in Hin.
      destruct (R2 name g k l Hin) as [Hl Hk]. split; [lia|].
      by rewrite Hid.
    + intros name g k name' g' k' l Hin Hin'.
      apply Hsub in Hin. apply Hsub in Hin'. by eapply R3.
Qed.

(** An update of the heap, the closures, the promises or the trace. *)
Lemma keeps_cache_same b b' :
  cache b' = cache b →
  length (heap b) ≤ length (heap b') →
  (∀ l, l < length (heap b) → l_id (getLink b' l) = l_id (getLink b l)) →
  keeps b b'.
Proof.
  intros Hc Hlen Hid. apply keeps_update; try done.
  - intros name g. by rewrite (getLocal_cache b' b).
  - intros name g k l. by rewrite (getLocal_cache b' b).
Qed.

Lemma keeps_log e b : keeps b (log e b).
Proof. by apply keeps_cache_same. Qed.

Lemma keeps_settle p s b : keeps b (settle p s b).
Proof.
  unfold settle. destruct (promises b !! p) as [[| |]|]; try apply keeps_refl.
  by apply keeps_cache_same.
Qed.

Lemma keeps_allocClosure p g id f b : keeps b (allocClosure p g id f b).
Proof.
  unfold allocClosure. destruct (isWrapped p f); [|apply keeps_refl].
  by apply keeps_cache_same.
Qed.

Lemma keeps_push_link k b : keeps b (push_link k b).
Proof.
  apply keeps_cache_same; [done | |].
  - simpl. rewrite length_app. lia.
  - intros l Hl. by rewrite getLink_push_link_old.
Qed.

Lemma keeps_push_onComplete r pair b : keeps b (push_onComplete r pair b).
Proof.
  apply keeps_cache_same; [done | |].
  - by rewrite length_heap_push_onComplete.
  - intros l Hl. rewrite getLink_push_onComplete.
    case_decide as Hd; [|done]. by destruct Hd as [-> _].
Qed.

Lemma keeps_push_onClear r fs b : keeps b (push_onClear r fs b).
Proof.
  apply keeps_cache_same; [done | |].
  - by rewrite length_heap_push_onClear.
  - intros l Hl. rewrite getLink_push_onClear.
    case_decide as Hd; [|done]. by destruct Hd as [-> _].
Qed.

Lemma keeps_initCache name b : keeps b (initCache name b).
Proof.
  apply keeps_update.
  - by rewrite heap_initCache.
  - intros l _. by rewrite getLink_initCache.
  - intros name' g'. by rewrite getLocal_initCache.
  - intros name' g' k l. by rewrite getLocal_initCache.
Qed.

Lemma heap_initGroup name g b : heap (initGroup name g b) = heap b.
Proof.
  unfold initGroup. destruct g as [s|]; [|done].
  destruct (cache b !! name) as [co|]; [|done]. by destruct (groups co !! s).
Qed.

Lemma keeps_initGroup name g b : keeps b (initGroup name g b).
Proof.
  apply keeps_update.
  - by rewrite heap_initGroup.
  - intros l _. unfold getLink. by rewrite heap_initGroup.
  - intros name' g'. by rewrite getLocal_initGroup.
  - intros name' g' k l. by rewrite getLocal_initGroup.
Qed.

Lemma keeps_labels_set name g key v b : keeps b (labels_set name g key v b).
Proof.
  apply keeps_update; try done.
  - intros name' g'. unfold labels_set. rewrite getLocal_putLocal.
    case_decide as Hd; [|done]. by destruct Hd as [-> ->].
  - intros name' g' k l. unfold labels_set. rewrite getLocal_putLocal.
    case_decide as Hd; [|done]. by destruct Hd as [-> ->].
Qed.

Lemma getLocal_links_delete name g id b name' g' :
  getLocal name' g' (links_delete name g id b)
  = if decide (name' = name ∧ g' = g) then
      LocalCache (labels (getLocal name g b)) (Map_delete id (links (getLocal name g b)))
    else getLocal name' g' b.
Proof.
  unfold links_delete.
  rewrite (getLocal_cache (log _ _) (putLocal name g
    (LocalCache (labels (getLocal name g b)) (Map_delete id (links (getLocal name g b)))) b))
    by done.
  apply getLocal_putLocal.
Qed.

Lemma getLocal_links_set name g id l b name' g' :
  getLocal name' g' (links_set name g id l b)
  = if decide (name' = name ∧ g' = g) then
      LocalCache (labels (getLocal name g b)) (Map_set id l (links (getLocal name g b)))
    else getLocal name' g' b.
Proof.
  unfold links_set.
  rewrite (getLocal_cache (log _ _) (putLocal name g
    (LocalCache (labels (getLocal name g b)) (Map_set id l (links (getLocal name g b)))) b))
    by done.
  apply getLocal_putLocal.
Qed.

Lemma getLocal_labels_set name g key v b name' g' :
  getLocal name' g' (labels_set name g key v b)
  = if decide (name' = name ∧ g' = g) then
      LocalCache (<[key := v]> (labels (getLocal name g b))) (links (getLocal name g b))
    else getLocal name' g' b.
Proof. unfold labels_set. apply getLocal_putLocal. Qed.

Lemma keeps_links_delete name g id b : keeps b (links_delete name g id b).
Proof.
  apply keeps_update; try done.
  - intros name' g'. rewrite getLocal_links_delete.
    case_decide as Hd; [|done]. destruct Hd as [-> ->]. apply Map_wf_delete.
  - intros name' g' k l. rewrite getLocal_links_delete.
    case_decide as Hd; [|done]. destruct Hd as [-> ->]. apply Map_delete_entry.
Qed.

(** [links.set(id, link)] for a Link allocated since [a], under its own
    id, that no Map holds yet. *)
Lemma keeps_links_set a b name g id l :
  keeps a b →
  length (heap a) ≤ l →
  l < length (heap b) →
  (regOk a → l_id (getLink b l) = id ∧ ¬ stored b l) →
  keeps a (links_set name g id l b).
Proof.
  intros [(G1 & G2 & G3) Hreg] Hal Hlb Hnew. split.
  - split; [done|]. split; [done|].
    intros l' (name' & g' & k & Hin). rewrite getLocal_links_set in Hin.
    case_decide as Hd.
    + simpl in Hin. apply Map_set_entry in Hin as [[-> ->]|Hin]; [by right|].
      apply G3. by exists name, g, k.
    + apply G3. by exists name', g', k.
  - intros Ha. destruct (Hreg Ha) as (R1 & R2 & R3).
    destruct (Hnew Ha) as [Hid Hns]. split; [|split].
    + intros name' g'. rewrite getLocal_links_set.
      case_decide as Hd; [|done]. simpl. apply Map_wf_set, R1.
    + intros name' g' k l' Hin. rewrite getLocal_links_set in Hin.
      change (heap (links_set name g id l b)) with (heap b).
      change (getLink (links_set name g id l b) l') with (getLink b l').
      case_decide as Hd; [|by apply (R2 name' g')].
      simpl in Hin. apply Map_set_entry in Hin as [[-> ->]|Hin]; [done|].
      by apply (R2 name g).
    + intros name1 g1 k1 name2 g2 k2 l' Hin1 Hin2.
      rewrite getLocal_links_set in Hin1, Hin2.
      destruct (decide (name1 = name ∧ g1 = g)) as [[-> ->]|Hd1];
        destruct (decide (name2 = name ∧ g2 = g)) as [[-> ->]|Hd2]; [done | | |].
      * simpl in Hin1. apply Map_set_entry in Hin1 as [[-> ->]|Hin1].
        -- exfalso. apply Hns. by exists name2, g2, k2.
        -- by eapply R3.
      * simpl in Hin2. apply Map_set_entry in Hin2 as [[-> ->]|Hin2].
        -- exfalso. apply Hns. by exists name1, g1, k1.
        -- by eapply R3.
      * by eapply R3.
Qed.

Lemma okeeps_weaken a b o : keeps a b → okeeps b o → okeeps a o.
Proof.
  intros Hab Ho. destruct o as [v b'|e b'|]; simpl in *; try done;
    by eapply keeps_trans.
Qed.

Lemma okeeps_bind a o k :
  okeeps a o →
  (∀ v b, keeps a b → okeeps a (k v b)) →
  okeeps a (andThen o k).
Proof.
  intros Ho Hk. destruct o as [v b|e b|]; simpl in *; try done. by apply Hk.
Qed.

Lemma okeeps_bind_from a b o k :
  keeps a b →
  okeeps b o →
  (∀ v b', keeps b b' → okeeps a (k v b')) →
  okeeps a (andThen o k).
Proof.
  intros Hab Ho Hk. destruct o as [v b'|e b'|]; simpl in *; try done.
  - by apply Hk.
  - by eapply keeps_trans.
Qed.

End Keeps.

Section KeepsStep.

Variable prog : nat -> ufun.
Variable rec : call -> state -> outcome value.

Hypothesis rec_keeps : ∀ c st, okeeps st (rec c st).

Ltac keeps_prims :=
  unfold okeeps;
  repeat lazymatch goal with
    | H : keeps ?a ?b |- keeps ?a ?b => exact H
    | |- keeps ?a (labels_set ?n ?g ?k ?v ?b) =>
        apply (keeps_trans a b); [|apply keeps_labels_set]
    | |- keeps ?a (links_delete ?n ?g ?i ?b) =>
        apply (keeps_trans a b); [|apply keeps_links_delete]
    | |- keeps ?a (initCache ?n ?b) =>
        apply (keeps_trans a b); [|apply keeps_initCache]
    | |- keeps ?a (initGroup ?n ?g ?b) =>
        apply (keeps_trans a b); [|apply keeps_initGroup]
    | |- keeps ?a (settle ?p ?s ?b) =>
        apply (keeps_trans a b); [|apply keeps_settle]
    | |- keeps ?a (allocClosure ?p ?g ?i ?f ?b) =>
        apply (keeps_trans a b); [|apply keeps_allocClosure]
    | |- keeps ?a (push_link ?k ?b) =>
        apply (keeps_trans a b); [|apply keeps_push_link]
    | |- keeps ?a (push_onComplete ?r ?x ?b) =>
        apply (keeps_trans a b); [|apply keeps_push_onComplete]
    | |- keeps ?a (push_onClear ?r ?x ?b) =>
        apply (keeps_trans a b); [|apply keeps_push_onClear]
    | |- keeps ?a (log ?e ?b) =>
        apply (keeps_trans a b); [|apply keeps_log]
    end.

Lemma rec_keeps_from a b c : keeps a b → okeeps a (rec c b).
Proof. intros Hab. apply (okeeps_weaken a b); [done | apply rec_keeps]. Qed.

Lemma callWrapper_keeps a b w name cb req :
  keeps a b → okeeps a (callWrapper w name cb req b).
Proof.
  intros Hab. unfold callWrapper. destruct w as [prim| |]; simpl.
  - apply (keeps_trans a b); [done|]. by apply keeps_cache_same.
  - destruct req as [[| |r|]|]; try done.
    destruct (o_promiseLike (getObject b r) || o_then (getObject b r)); [|done]. simpl.
    apply (keeps_trans a b); [done|]. by apply keeps_cache_same.
  - done.
Qed.

Lemma startPrimitive_keeps a b p w f :
  keeps a b → okeeps a (startPrimitive p w f b).
Proof.
  intros Hab. unfold startPrimitive. destruct (p_wrapper p) as [w'|]; [|done].
  apply okeeps_bind; [by apply callWrapper_keeps|]. intros v b' Hb'. done.
Qed.

Lemma setAsync_keeps a b p : keeps a b → okeeps a (setAsync rec p b).
Proof.
  intros Hab. unfold setAsync.
  set (g := truthyStr (p_group p)).
  set (st0 := initGroup (p_name p) g (initCache (p_name p) b)).
  assert (H0 : keeps a st0) by (unfold st0; keeps_prims).
  destruct (truthy _ && _); [done|].
  apply okeeps_bind.
  { destruct (p_obj p); try done. destruct (p_needCall p); [|done].
    by apply rec_keeps_from. }
  intros finalObj b1 Hb1. apply okeeps_bind; [by apply startPrimitive_keeps|].
  intros id b2 Hb2.
  set (b3 := allocClosure p g id finalObj b2).
  assert (H3 : keeps a b3) by (unfold b3; keeps_prims).
  destruct (notNull (p_obj p)); [|done].
  set (l := length (heap b3)).
  set (b3' := push_link (Link id (p_obj p) (p_label p) [] (p_onClear p)) b3).
  assert (H3' : keeps a b3') by (unfold b3'; keeps_prims).
  assert (Hlen' : length (heap b3') = S l).
  { unfold b3', l. simpl. rewrite length_app. simpl. lia. }
  assert (Hnew : l_id (getLink b3' l) = id).
  { unfold b3', l. by rewrite getLink_push_link_new. }
  assert (Hns : regOk a → ¬ stored b3' l).
  { intros Ha Hst. destruct H3 as [_ H3]. destruct (H3 Ha) as (_ & R2 & _).
    apply (stored_cache b3' b3) in Hst; [|done].
    destruct Hst as (name & g' & k & Hin).
    destruct (R2 name g' k l Hin) as [Hlt _]. unfold l in Hlt. lia. }
  assert (Hal : length (heap a) ≤ l).
  { destruct H3 as [(Hle & _) _]. exact Hle. }
  apply (okeeps_bind_from a b3'); [done | |].
  { destruct (truthy _); [apply rec_keeps | apply keeps_refl]. }
  intros v b4 Hb4. cbv zeta.
  assert (Hset : keeps a (links_set (p_name p) g id l b4)); [|
    destruct (truthyStr (p_label p)); keeps_prims].
  destruct Hb4 as [(K1 & K2 & K3) Hreg4].
  apply keeps_links_set; [|done|lia|].
  - apply (keeps_trans a b3'); [done|]. by split.
  - intros Ha. split.
    + rewrite K2 by lia. done.
    + intros Hst. destruct (K3 l Hst) as [Hst'|Hge]; [by apply Hns | lia].
Qed.

Lemma callDestructor_keeps a b d id c :
  keeps a b → okeeps a (callDestructor rec d id c b).
Proof.
  intros Hab. unfold callDestructor.
  assert (Hlog : keeps a (log (EDestroy d id c) b)) by keeps_prims.
  destruct d as [prim| |]; simpl.
  - done.
  - unfold workerDestructor. destruct (workerMethod _ id); try done.
    by apply rec_keeps_from.
  - unfold requestDestructor.
    destruct (match id with VObj r => _ | _ => _ end); try done.
    by apply rec_keeps_from.
Qed.

Lemma clearAsync_keeps a b p : keeps a b → okeeps a (clearAsync rec p b).
Proof.
  intros Hab. unfold clearAsync.
  set (st0 := initCache (p_name p) b).
  assert (H0 : keeps a st0) by (unfold st0; keeps_prims).
  destruct (match truthyStr (p_group p) with Some _ => _ | None => _ end); [|done].
  destruct (resolveId p _) as [p'|]; [|done].
  destruct (notNull (p_id p')); [|by apply rec_keeps_from].
  destruct (Map_get _ _) as [l|] eqn:Hget; [|done].
  apply okeeps_bind.
  { apply rec_keeps_from. keeps_prims. }
  intros v b2 Hb2. destruct (p_clearFn p') as [d|]; [|done].
  apply okeeps_bind; [by apply callDestructor_keeps|]. done.
Qed.

Lemma bulk_keeps a b p i : keeps a b → okeeps a (bulk rec p i b).
Proof.
  intros Hab. unfold bulk. destruct (Map_next _ _) as [[l j]|]; [|done].
  apply okeeps_bind; [by apply rec_keeps_from|].
  intros v b2 Hb2. by apply rec_keeps_from.
Qed.

Lemma hooks_keeps a b l i c : keeps a b → okeeps a (hooks rec l i c b).
Proof.
  intros Hab. unfold hooks. destruct (_ !! i) as [h|]; [|done].
  apply okeeps_bind.
  { apply rec_keeps_from. keeps_prims. }
  intros v b2 Hb2. by apply rec_keeps_from.
Qed.

Lemma execTasks_keeps a b i l j args :
  keeps a b → okeeps a (execTasks rec i l j args b).
Proof.
  intros Hab. unfold execTasks. destruct (_ !! j) as [[resolve reject]|]; [|done].
  apply okeeps_bind.
  { apply rec_keeps_from. keeps_prims. }
  intros v b2 Hb2. by apply rec_keeps_from.
Qed.

Lemma onPromiseClear_keeps a b resolve reject args :
  keeps a b → okeeps a (onPromiseClear rec resolve reject args b).
Proof.
  intros Hab. unfold onPromiseClear.
  destruct args as [|[v|c|e] args]; try done.
  - destruct v; try done; by apply rec_keeps_from.
  - destruct (p_replacedBy (ctx_p c)) as [r|]; [|by apply rec_keeps_from].
    destruct (_ && _); [|by apply rec_keeps_from].
    keeps_prims.
  - by apply rec_keeps_from.
Qed.

Lemma wrappedObj_keeps a b cl args :
  keeps a b → okeeps a (wrappedObj rec cl args b).
Proof.
  intros Hab. unfold wrappedObj. destruct (Map_get _ _) as [l|]; [|done].
  set (b1 := if c_interval cl then b else _).
  assert (H1 : keeps a b1) by (unfold b1; destruct (c_interval cl); keeps_prims).
  apply okeeps_bind.
  { destruct (c_finalObj cl); try done.
    apply rec_keeps_from. keeps_prims. }
  intros res b2 Hb2. destruct (isPromiseLike b2 _).
  - keeps_prims.
  - apply okeeps_bind; [by apply rec_keeps_from|]. done.
Qed.

Lemma runScript_keeps cs : ∀ a b, keeps a b → okeeps a (runScript rec cs b).
Proof.
  induction cs as [|c cs IH]; intros a b Hab; simpl; [done|].
  apply okeeps_bind.
  - destruct c; simpl; try done; by apply rec_keeps_from.
  - intros v b2 Hb2. by apply IH.
Qed.

Lemma callFn_keeps a b f args :
  keeps a b → okeeps a (callFn prog rec f args b).
Proof.
  intros Hab. unfold callFn. destruct f as [u|p|p|resolve reject|k].
  - apply okeeps_bind; [by apply runScript_keeps|]. done.
  - keeps_prims.
  - keeps_prims.
  - by apply onPromiseClear_keeps.
  - destruct (closures b !! k); [|done]. by apply wrappedObj_keeps.
Qed.

Lemma step_keeps c st : okeeps st (step prog rec c st).
Proof.
  pose proof (keeps_refl st) as Hrefl. destruct c; simpl.
  - by apply setAsync_keeps.
  - by apply clearAsync_keeps.
  - by apply bulk_keeps.
  - by apply hooks_keeps.
  - by apply callFn_keeps.
  - by apply execTasks_keeps.
Qed.

End KeepsStep.

Lemma run_keeps prog fuel : ∀ c st, okeeps st (run prog fuel c st).
Proof.
  induction fuel as [|n IH]; intros c st; [done|].
  rewrite run_S. by apply step_keeps.
Qed.

Lemma runAll_keeps prog fuel cs :
  ∀ st st', runAll prog fuel cs st = Some st' → keeps st st'.
Proof.
  induction cs as [|c cs IH]; intros st st'; simpl.
  - intros [= <-]. apply keeps_refl.
  - pose proof (run_keeps prog fuel c st) as Hrun.
    destruct (run prog fuel c st) as [v b|e b|]; simpl in Hrun; [| |done].
    + intros Hall. eapply keeps_trans; [exact Hrun | by apply IH].
    + intros Hall. eapply keeps_trans; [exact Hrun | by apply IH].
Qed.

Lemma regOk_empty : regOk emptyState.
Proof.
  split; [|split].
  - intros name g. unfold Map_wf. destruct g; apply NoDup_nil_2.
  - intros name g k l Hin. destruct g; by apply elem_of_nil in Hin.
  - intros name g k name' g' k' l Hin. destruct g; by apply elem_of_nil in Hin.
Qed.

(** X1. Every call keeps the registry well formed: each [links] Map holds
    a key once, every entry holds an allocated Link under that Link's own
    id, and no Link is held by two caches.  This holds for any user code
    run by payloads and hooks, and whether the calls return or throw. *)
Theorem registry_invariant prog fuel cs st st' :
  regOk st → runAll prog fuel cs st = Some st' → regOk st'.
Proof.
  intros Hreg Hrun. by apply (runAll_keeps prog fuel cs st st' Hrun).
Qed.

(** X2. No call changes the id of a Link or removes a Link object, and a
    Link that the registry holds after a call was held before it or was
    created during it. *)
Theorem links_keep_their_ids prog fuel c st :
  match run prog fuel c st with
  | Ok _ st' | Throw _ st' => grows st st'
  | OutOfFuel => True
  end.
Proof.
  pose proof (run_keeps prog fuel c st) as H.
  by destruct (run prog fuel c st) as [v b|e b|]; simpl in H; try destruct H.
Qed.

(** ** A Link that has left the registry *)

Section Gone.

Variable prog : nat -> ufun.

Lemma Map_values_entry l (m : JsMap) : l ∈ Map_values m ↔ ∃ k, Some (k, l) ∈ m.
Proof.
  unfold Map_values. rewrite list_elem_of_omap. split.
  - intros ([[k v]|] & Hin & Hv); simpl in Hv; [|done].
    injection Hv as ->. by exists k.
  - intros (k & Hin). by exists (Some (k, l)).
Qed.

Lemma lost_ext l st st' :
  cache st' = cache st → length (heap st) ≤ length (heap st') →
  lost l st → lost l st'.
Proof.
  intros Hc Hlen [Hl Hnone]. split; [lia|].
  intros name g. rewrite (getLocal_cache st' st) by done. apply Hnone.
Qed.

(** After [links.delete(link.id)] the Link is in no Map. *)
Lemma lost_removed name g k l link st :
  regOk st →
  Map_get k (links (getLocal name g st)) = Some l →
  l_id link = k →
  lost l (removed name g link st).
Proof.
  intros (R1 & R2 & R3) Hget Hk. apply Map_get_entry in Hget as Hin.
  destruct (R2 name g k l Hin) as [Hl Hid]. split; [done|].
  intros name' g' Hv. apply Map_values_entry in Hv as (k' & Hin').
  unfold removed in Hin'. rewrite getLocal_labels_set in Hin'.
  case_decide as Hd.
  - simpl in Hin'. rewrite links_links_delete, Hk in Hin'.
    apply Map_delete_entry in Hin' as Hin0.
    destruct (R2 name g k' l Hin0) as [_ Hid']. rewrite Hid in Hid'. subst k'.
    by eapply Map_delete_entry_ne.
  - rewrite getLocal_links_delete in Hin'. rewrite decide_False in Hin' by done.
    destruct (R3 name g k name' g' k' l Hin Hin') as [-> ->]. by apply Hd.
Qed.

Lemma osafe_olost l st o : osafe l st o → olost l o.
Proof. destruct o as [v s|e s|]; simpl; try done; by intros [? _]. Qed.

(** The loop over the clear hooks of a Link that has left the registry. *)
Lemma hooks_lost l c n : ∀ i st, lost l st → olost l (run prog n (KHooks l i c) st).
Proof.
  induction n as [|n IH]; intros i st Hlost; [done|].
  rewrite run_S. unfold step, hooks.
  destruct (l_onClear (getLink st l) !! i) as [h|]; [|done].
  pose proof (run_safe prog l n (KCallFn h [ACtx c]) (log (EHook h c) st)) as Hs.
  destruct (run prog n (KCallFn h [ACtx c]) (log (EHook h c) st)) as [v s|e s|];
    simpl in *; try done.
  - apply IH. by apply Hs.
  - by apply Hs.
Qed.

Lemma callDestructor_lost l n d id c st :
  lost l st → olost l (callDestructor (run prog n) d id c st).
Proof.
  intros Hlost. unfold callDestructor.
  assert (Hlog : lost l (log (EDestroy d id c) st)) by done.
  destruct d as [prim| |]; simpl.
  - done.
  - unfold workerDestructor. destruct (workerMethod _ id); try done.
    by apply (osafe_olost l (log (EDestroy DWorker id c) st)), run_safe.
  - unfold requestDestructor.
    destruct (match id with VObj r => _ | _ => _ end); try done.
    by apply (osafe_olost l (log (EDestroy DRequest id c) st)), run_safe.
Qed.

(** [clearAsync] on a live Link leaves it out of the registry, whether the
    call returns or throws. *)
Lemma clearAsync_lost n p p' l st :
  regOk st →
  resolveId p (getLocal (p_name p) (truthyStr (p_group p)) st) = Some p' →
  notNull (p_id p') = true →
  Map_get (p_id p') (links (getLocal (p_name p) (truthyStr (p_group p)) st)) = Some l →
  olost l (run prog n (KClearAsync p) st).
Proof.
  intros Hreg Hres Hnn Hget. destruct n as [|n]; [done|].
  rewrite (clearAsync_live prog n p p' l st Hres Hnn Hget). cbv zeta.
  assert (Hlost : lost l (removed (p_name p) (truthyStr (p_group p)) (getLink st l) st)).
  { apply (lost_removed _ _ (p_id p')); try done.
    destruct Hreg as (_ & R2 & _). apply Map_get_entry in Hget.
    by destruct (R2 _ _ _ _ Hget). }
  pose proof (hooks_lost l (Ctx p' l "clearAsync") n 0 _ Hlost) as Hh.
  destruct (run prog n (KHooks l 0 _) _) as [v s|e s|]; simpl in *; try done.
  destruct (p_clearFn p') as [d|]; [|done].
  pose proof (callDestructor_lost l n d (l_id (getLink st l))
                (Ctx p' l "clearAsync") s Hh) as Hd.
  by destruct (callDestructor _ _ _ _ _) as [v' s'|e' s'|].
Qed.

End Gone.

(** X3. A Link that [clearAsync] has cleared stays cleared: whether the
    clear returned or threw, the Link is out of every [links] Map, and no
    later call puts it back or calls one of its clear hooks or the
    destructor for it again. *)
Theorem cleared_link_stays_cleared prog fuel p p' l st st' cs st'' :
  regOk st →
  resolveId p (getLocal (p_name p) (truthyStr (p_group p)) st) = Some p' →
  notNull (p_id p') = true →
  Map_get (p_id p') (links (getLocal (p_name p) (truthyStr (p_group p)) st)) = Some l →
  runAll prog fuel [KClearAsync p] st = Some st' →
  Forall (notClearing l) cs →
  runAll prog fuel cs st' = Some st'' →
  lost l st'
  ∧ lost l st''
  ∧ ∃ t, trace st'' = trace st' ++ t ∧ Forall (notAbout l) t.
Proof.
  intros Hreg Hres Hnn Hget Hrun Hcs Hrest.
  assert (Hlost : lost l st').
  { pose proof (clearAsync_lost prog fuel p p' l st Hreg Hres Hnn Hget) as H.
    simpl in Hrun.
    destruct (run prog fuel (KClearAsync p) st) as [v s|e s|]; simpl in *;
      try done; by injection Hrun as <-. }
  split; [done|].
  exact (runAll_safe prog l fuel cs st' st'' Hlost Hcs Hrest).
Qed.

(** X4. The wrapper of a single-shot task that fires while its Link is
    registered takes the Link out of the registry for good: neither the
    firing nor any later call runs a clear hook of that Link or calls the
    destructor for it. *)
Theorem fired_task_is_never_cleared prog fuel k cl l args st cs st' :
  regOk st →
  closures st !! k = Some cl →
  c_interval cl = false →
  Map_get (c_id cl) (links (getLocal (c_name cl) (c_group cl) st)) = Some l →
  Forall (notClearing l) cs →
  runAll prog fuel (KCallFn (FWrapped k) args :: cs) st = Some st' →
  lost l st'
  ∧ ∃ t, trace st' = trace st ++ t ∧ Forall (notAbout l) t.
Proof.
  intros Hreg Hcl Hint Hget Hcs Hrun.
  change (safe l st st').
  set (gone := Link (c_id cl) VUndef (c_label cl) [] []).
  set (st1 := removed (c_name cl) (c_group cl) gone st).
  assert (H1 : safe l st st1).
  { split; [by apply (lost_removed _ _ (c_id cl))|].
    exists [ELinksDelete (c_name cl) (c_group cl) (c_id cl)]. split; [done|].
    by apply Forall_singleton. }
  assert (Hfire : osafe l st (run prog fuel (KCallFn (FWrapped k) args) st)).
  { destruct fuel as [|n]; [done|].
    rewrite run_S. unfold step, callFn. rewrite Hcl. unfold wrappedObj.
    rewrite Hget, Hint. fold st1.
    apply osafe_bind.
    { destruct (c_finalObj cl); try done.
      apply (rec_safe_from l (run prog n) (run_safe prog l n)); [|done].
      by apply safe_log. }
    intros res b2 Hb2. destruct (isPromiseLike b2 _).
    - simpl. by apply safe_log.
    - apply osafe_bind; [|done].
      by apply (rec_safe_from l (run prog n) (run_safe prog l n)). }
  simpl in Hrun.
  destruct (run prog fuel (KCallFn (FWrapped k) args) st) as [v s|e s|];
    simpl in Hfire; try done.
  - eapply safe_trans; [exact Hfire|].
    apply (runAll_safe prog l fuel cs); [by eapply safe_lost | done | done].
  - eapply safe_trans; [exact Hfire|].
    apply (runAll_safe prog l fuel cs); [by eapply safe_lost | done | done].
Qed.

(** ** Registration on a vacant label, and the clear that undoes it *)

Section Registration.

Variable prog : nat -> ufun.

Implicit Types (p : params) (st : state).

Lemma closures_initCache name st : closures (initCache name st) = closures st.
Proof. unfold initCache. by destruct (cache st !! name). Qed.

Lemma prepared_frame p st :
  heap (prepared p st) = heap st
  ∧ closures (prepared p st) = closures st
  ∧ trace (prepared p st) = trace st
  ∧ promises (prepared p st) = promises st
  ∧ objects (prepared p st) = objects st
  ∧ next_handle (prepared p st) = next_handle st
  ∧ next_object (prepared p st) = next_object st
  ∧ ∀ name g, getLocal name g (prepared p st) = getLocal name g st.
Proof.
  unfold prepared. repeat split;
    try (intros; by rewrite getLocal_initGroup, getLocal_initCache);
    unfold initGroup, initCache;
    destruct (cache st !! p_name p) as [co|] eqn:Hc; simpl;
    destruct (truthyStr (p_group p)) as [s|]; simpl; try done;
    rewrite ?Hc, ?lookup_insert_eq; simpl; try done;
    try (destruct (groups co !! s); done).
Qed.

Lemma startPrimitive_host p prim cb f st :
  p_wrapper p = Some (WHost prim) →
  p_linkByWrapper p = true →
  startPrimitive p cb f st
  = Ok (VNum (next_handle st))
      (log (EStart (WHost prim) (p_name p) cb (VNum (next_handle st)))
         (issue_handle st)).
Proof. intros Hw Hl. unfold startPrimitive. rewrite Hw, Hl. done. Qed.

(** [setAsync] when the label holds nothing. *)
Lemma setAsync_vacant n p st id st1 :
  truthy (labels_get (getLocal (p_name p) (truthyStr (p_group p)) st)
            (labelKey (p_label p))) = false →
  usesPayload p →
  notNull (p_obj p) = true →
  startPrimitive p (wrapperRef p (p_obj p) (prepared p st)) (p_obj p) (prepared p st)
  = Ok id st1 →
  run prog (S n) (KSetAsync p) st = Ok id (registered p id st1).
Proof.
  intros Hvac Hpay Hobj Hstart.
  pose proof (setAsync_unfold prog n p st id st1) as Hu. cbv zeta in Hu.
  fold (prepared p st) in Hu.
  destruct (prepared_frame p st) as (_ & _ & _ & _ & _ & _ & _ & Hloc).
  rewrite Hloc, Hvac in Hu. specialize (Hu eq_refl Hpay Hobj Hstart).
  exact Hu.
Qed.

Lemma getLocal_alloc p g id f k st1 name' g' :
  getLocal name' g' (push_link k (allocClosure p g id f st1)) = getLocal name' g' st1.
Proof. apply getLocal_cache. simpl. apply cache_allocClosure. Qed.

Lemma links_registered p id st1 :
  links (getLocal (p_name p) (truthyStr (p_group p)) (registered p id st1))
  = Map_set id (length (heap st1))
      (links (getLocal (p_name p) (truthyStr (p_group p)) st1)).
Proof.
  unfold registered, install.
  destruct (truthyStr (p_label p)); rewrite ?links_labels_set, links_links_set;
    by rewrite getLocal_alloc.
Qed.

Lemma getLocal_registered_ne p id st1 name g :
  ¬ (name = p_name p ∧ g = truthyStr (p_group p)) →
  getLocal name g (registered p id st1) = getLocal name g st1.
Proof.
  intros Hne. unfold registered, install.
  destruct (truthyStr (p_label p));
    rewrite ?getLocal_labels_set, ?decide_False by done;
    rewrite getLocal_links_set, decide_False by done;
    apply getLocal_alloc.
Qed.

Lemma labels_registered p id st1 key :
  truthyStr (p_label p) = Some key →
  labels_get (getLocal (p_name p) (truthyStr (p_group p)) (registered p id st1)) key = id.
Proof.
  intros Hkey. unfold registered, install. rewrite Hkey.
  rewrite labels_get_labels_set. by rewrite decide_True.
Qed.

Lemma heap_registered p id st1 :
  heap (registered p id st1)
  = heap st1 ++ [Link id (p_obj p) (p_label p) [] (p_onClear p)].
Proof.
  unfold registered, install.
  destruct (truthyStr (p_label p)); simpl; by rewrite heap_allocClosure.
Qed.

Lemma getLink_registered_new p id st1 :
  getLink (registered p id st1) (length (heap st1))
  = Link id (p_obj p) (p_label p) [] (p_onClear p).
Proof.
  unfold getLink. rewrite heap_registered.
  rewrite lookup_app_r by lia. by rewrite Nat.sub_diag.
Qed.

Lemma getLink_registered_old p id st1 l :
  l < length (heap st1) → getLink (registered p id st1) l = getLink st1 l.
Proof.
  intros Hl. unfold getLink. rewrite heap_registered. by rewrite lookup_app_l.
Qed.

Lemma closures_registered p id st1 :
  closures (registered p id st1)
  = closures st1
    ++ (if isWrapped p (p_obj p) then
          [Closure (p_name p) (truthyStr (p_group p)) id (p_label p) (p_interval p)
             (p_obj p)]
        else []).
Proof.
  unfold registered, install, allocClosure.
  destruct (truthyStr (p_label p)); destruct (isWrapped p (p_obj p)); simpl;
    by rewrite ?app_nil_r.
Qed.

Lemma trace_registered p id st1 :
  trace (registered p id st1)
  = trace st1 ++ [ELinksSet (p_name p) (truthyStr (p_group p)) id (length (heap st1))].
Proof.
  unfold registered, install.
  destruct (truthyStr (p_label p)); simpl; by rewrite trace_allocClosure.
Qed.

Lemma promises_registered p id st1 : promises (registered p id st1) = promises st1.
Proof.
  unfold registered, install, allocClosure.
  destruct (truthyStr (p_label p)); by destruct (isWrapped p (p_obj p)).
Qed.

Lemma cacheExists_registered p id st1 :
  cacheExists (p_name p) (truthyStr (p_group p)) (registered p id st1).
Proof.
  unfold registered, install.
  destruct (truthyStr (p_label p)).
  - unfold labels_set. apply cacheExists_putLocal.
  - unfold links_set.
    eapply cacheExists_cache; [|apply cacheExists_putLocal]. done.
Qed.

End Registration.

(** X5. A timer registered on a vacant label and then cleared by its id
    (with its group): the Link is found, removed, its hooks and the host's
    clear function are called once, the [links] Map answers for every other
    key as before the registration, no other cache object is touched, and
    the wrapper the host still holds does nothing when it is called. *)
Theorem set_then_clear_round_trip prog objectKeys n p prim d st D :
  let name := p_name p in
  let g := truthyStr (p_group p) in
  let id := VNum (next_handle st) in
  let l := length (heap st) in
  let c := Ctx (clearParams name (Some (DHost d)) id None (p_group p)) l "clearAsync" in
  p_wrapper p = Some (WHost prim) →
  p_linkByWrapper p = true →
  p_needCall p = false →
  isFunction (p_obj p) = true →
  next_handle st ≠ 0%Z →
  truthy (labels_get (getLocal name g st) (labelKey (p_label p))) = false →
  Map_wf (links (getLocal name g st)) →
  Forall (fun h => quietFn prog h = true ∧ fnDepth h ≤ D) (p_onClear p) →
  length (p_onClear p) + D + 2 ≤ n →
  ∃ st1 st2,
    run prog (S n) (KSetAsync p) st = Ok id st1
    ∧ Map_get id (links (getLocal name g st1)) = Some l
    ∧ clearBy prog (S n) objectKeys name (Some (DHost d))
        (ArgOptions id None (p_group p)) st1
      = Ok VUndef st2
    ∧ trace st2
      = trace st
        ++ [EStart (WHost prim) name (VFn (FWrapped (length (closures st)))) id;
            ELinksSet name g id l; ELinksDelete name g id]
        ++ hookEvents c (p_onClear p) ++ [EDestroy (DHost d) id c]
    ∧ (∀ k, Map_get k (links (getLocal name g st2))
            = if decide (k = id) then None else Map_get k (links (getLocal name g st)))
    ∧ labels_get (getLocal name g st2) (labelKey (p_label p)) = VUndef
    ∧ (∀ name' g', ¬ (name' = name ∧ g' = g) →
                   getLocal name' g' st2 = getLocal name' g' st)
    ∧ (∀ m args, run prog (S m) (KCallFn (FWrapped (length (closures st))) args) st2
                 = Ok VUndef st2).
Proof.
  intros name g id l c Hw Hlbw Hnc Hfn Hh Hvac Hwf Hquiet Hn.
  destruct (prepared_frame p st) as (Hh0 & Hc0 & Ht0 & _ & _ & Hn0 & _ & Hloc0).
  assert (Hwrapped : isWrapped p (p_obj p) = true).
  { unfold isWrapped. rewrite Hfn. apply orb_true_r. }
  set (st1 := log (EStart (WHost prim) name (VFn (FWrapped (length (closures st)))) id)
                (issue_handle (prepared p st))).
  assert (Hstart : startPrimitive p (wrapperRef p (p_obj p) (prepared p st)) (p_obj p)
                     (prepared p st) = Ok id st1).
  { rewrite (startPrimitive_host p prim) by done. unfold wrapperRef.
    rewrite Hwrapped, Hc0, Hn0. done. }
  assert (Hobj : notNull (p_obj p) = true) by (by destruct (p_obj p)).
  pose proof (setAsync_vacant prog n p st id st1 Hvac (or_introl Hnc) Hobj Hstart) as Hset.
  assert (Hl1 : length (heap st1) = l) by (unfold st1, l; simpl; by rewrite Hh0).
  assert (Hloc1 : ∀ name' g', getLocal name' g' st1 = getLocal name' g' st).
  { intros name' g'. rewrite <- Hloc0. by apply getLocal_cache. }
  set (sr := registered p id st1) in *.
  assert (Hlinks : links (getLocal name g sr) = Map_set id l (links (getLocal name g st))).
  { unfold sr, name, g. by rewrite links_registered, Hl1, Hloc1. }
  assert (Hget : Map_get id (links (getLocal name g sr)) = Some l).
  { rewrite Hlinks. apply Map_get_set_eq. }
  assert (Hlink : getLink sr l = Link id (p_obj p) (p_label p) [] (p_onClear p)).
  { unfold sr. rewrite <- Hl1. apply getLink_registered_new. }
  set (pc := clearParams name (Some (DHost d)) id None (p_group p)).
  assert (Htruthy : truthy id = true).
  { unfold id. simpl. apply negb_true_iff. by apply Z.eqb_neq. }
  destruct (clearAsync_quiet prog n pc pc l sr D) as (s3 & Htr & Hrel & Hrun).
  { done. }
  { by apply truthy_notNull. }
  { exact Hget. }
  { by rewrite Hlink. }
  { done. }
  { by rewrite Hlink. }
  rewrite Hlink in Htr, Hrel, Hrun. simpl in Htr, Hrun.
  change (p_name pc) with name in *. change (truthyStr (p_group pc)) with g in *.
  fold c in Htr, Hrun.
  destruct Hrel as (Hc3 & Hcl3 & _).
  assert (Hloc3 : ∀ name' g',
    getLocal name' g' s3
    = getLocal name' g' (removed name g (Link id (p_obj p) (p_label p) [] (p_onClear p)) sr)).
  { intros name' g'. by apply getLocal_cache. }
  exists sr, (log (EDestroy (DHost d) id c) s3).
  split; [exact Hset|]. split; [exact Hget|]. split.
  { unfold clearBy, clearDescriptor. simpl. unfold orElse. rewrite Htruthy.
    exact Hrun. }
  split.
  { simpl. rewrite Htr. unfold sr. rewrite trace_registered, Hl1.
    unfold st1. simpl. rewrite Ht0. fold name g. by rewrite <- !app_assoc. }
  split.
  { intros k. rewrite (getLocal_cache _ s3) by done. rewrite Hloc3.
    unfold removed. rewrite links_labels_set, links_links_delete, Hlinks. simpl.
    case_decide as Hk.
    - subst k. apply Map_get_delete_eq. by apply Map_wf_set.
    - rewrite Map_get_delete_ne by done. by rewrite Map_get_set_ne. }
  split.
  { rewrite (getLocal_cache _ s3) by done. rewrite Hloc3.
    apply (removed_label name g (Link id (p_obj p) (p_label p) [] (p_onClear p))). }
  split.
  { intros name' g' Hne. rewrite (getLocal_cache _ s3) by done. rewrite Hloc3.
    unfold removed. rewrite getLocal_labels_set, decide_False by done.
    rewrite getLocal_links_delete, decide_False by done.
    unfold sr. rewrite getLocal_registered_ne by done. apply Hloc1. }
  intros m args. rewrite run_S. unfold step, callFn.
  assert (Hcl : closures (log (EDestroy (DHost d) id c) s3) !! length (closures st)
                = Some (Closure name g id (p_label p) (p_interval p) (p_obj p))).
  { simpl. rewrite Hcl3. change (closures (removed _ _ _ sr)) with (closures sr).
    unfold sr. rewrite closures_registered, Hwrapped.
    change (closures st1) with (closures (prepared p st)). rewrite Hc0.
    rewrite lookup_app_r by lia. by rewrite Nat.sub_diag. }
  rewrite Hcl. unfold wrappedObj. simpl c_name. simpl c_group. simpl c_id.
  rewrite (getLocal_cache _ s3) by done. rewrite Hloc3.
  unfold removed. rewrite links_labels_set, links_links_delete, Hlinks. simpl.
  rewrite Map_get_delete_eq by (by apply Map_wf_set). done.
Qed.

Lemma initCache_exists name g st : cacheExists name g st → initCache name st = st.
Proof.
  unfold cacheExists, initCache. by destruct (cache st !! name).
Qed.

(** X6. A timer registered with a group is not cleared by its bare id: a
    clear method called with the id alone looks in the root cache object
    of the kind, finds nothing there, and leaves the state as it is; the
    Link stays registered in its group. *)
Theorem grouped_task_ignores_bare_id prog objectKeys n m p prim d s st :
  let name := p_name p in
  let id := VNum (next_handle st) in
  truthyStr (p_group p) = Some s →
  p_wrapper p = Some (WHost prim) →
  p_linkByWrapper p = true →
  p_needCall p = false →
  notNull (p_obj p) = true →
  truthy (labels_get (getLocal name (Some s) st) (labelKey (p_label p))) = false →
  Map_get id (links (getLocal name None st)) = None →
  ∃ st1,
    run prog (S n) (KSetAsync p) st = Ok id st1
    ∧ Map_get id (links (getLocal name (Some s) st1)) = Some (length (heap st))
    ∧ clearBy prog (S m) objectKeys name d (ArgValue id) st1 = Ok VUndef st1.
Proof.
  intros name id Hg Hw Hlbw Hnc Hobj Hvac Hroot.
  destruct (prepared_frame p st) as (Hh0 & Hc0 & Ht0 & _ & _ & Hn0 & _ & Hloc0).
  set (st1 := log (EStart (WHost prim) name (wrapperRef p (p_obj p) (prepared p st)) id)
                (issue_handle (prepared p st))).
  assert (Hstart : startPrimitive p (wrapperRef p (p_obj p) (prepared p st)) (p_obj p)
                     (prepared p st) = Ok id st1).
  { rewrite (startPrimitive_host p prim) by done. unfold st1, id. by rewrite Hn0. }
  rewrite <- Hg in Hvac.
  pose proof (setAsync_vacant prog n p st id st1 Hvac (or_introl Hnc) Hobj Hstart) as Hset.
  assert (Hl1 : length (heap st1) = length (heap st)) by (unfold st1; simpl; by rewrite Hh0).
  assert (Hloc1 : ∀ name' g', getLocal name' g' st1 = getLocal name' g' st).
  { intros name' g'. rewrite <- Hloc0. by apply getLocal_cache. }
  exists (registered p id st1). split; [exact Hset|]. split.
  { rewrite <- Hg. unfold name. rewrite links_registered, Hl1. apply Map_get_set_eq. }
  unfold clearBy, clearDescriptor. simpl getIfNotObject.
  change (orElse VUndef id) with id.
  rewrite run_S. unfold step, clearAsync. simpl p_name. simpl p_group. simpl truthyStr.
  rewrite (initCache_exists name (truthyStr (p_group p))) by apply cacheExists_registered.
  unfold resolveId. simpl.
  rewrite getLocal_registered_ne by (rewrite Hg; intros [_ ?]; done).
  rewrite Hloc1. fold name. by rewrite Hroot.
Qed.

(** ** Interval tasks *)

Section Interval.

Variable prog : nat -> ufun.

(** One firing of the wrapper of an interval task. *)
Lemma interval_fire k cl l u args m st :
  closures st !! k = Some cl →
  c_interval cl = true →
  Map_get (c_id cl) (links (getLocal (c_name cl) (c_group cl) st)) = Some l →
  c_finalObj cl = VFn (FUser u) →
  u_body (prog u) = [] →
  l_onComplete (getLink st l) = [] →
  run prog (S (S m)) (KCallFn (FWrapped k) args) st
  = Ok (u_ret (prog u)) (log (EPayload (FUser u) args) st).
Proof.
  intros Hcl Hint Hget Hfinal Hbody Hdone.
  rewrite run_S. unfold step, callFn. rewrite Hcl. unfold wrappedObj.
  rewrite Hget, Hint, Hfinal.
  rewrite run_S. unfold step at 1. unfold callFn. rewrite Hbody. simpl.
  unfold execTasks.
  change (getLink (log (EPayload (FUser u) args) st) l) with (getLink st l).
  by rewrite Hdone.
Qed.

Lemma runAll_cons fuel c cs st :
  runAll prog fuel (c :: cs) st
  = match run prog fuel c st with
    | Ok _ st' | Throw _ st' => runAll prog fuel cs st'
    | OutOfFuel => None
    end.
Proof. reflexivity. Qed.

End Interval.

(** X7. The wrapper of an interval task does not touch the registry: fired
    [N] times, it calls the payload [N] times with the arguments of the
    firing, and the Link, the label and every cache object are as before. *)
Theorem interval_task_stays_registered prog fuel k cl l u args N :
  c_interval cl = true →
  c_finalObj cl = VFn (FUser u) →
  u_body (prog u) = [] →
  2 ≤ fuel →
  ∀ st,
    closures st !! k = Some cl →
    Map_get (c_id cl) (links (getLocal (c_name cl) (c_group cl) st)) = Some l →
    l_onComplete (getLink st l) = [] →
    ∃ st',
      runAll prog fuel (replicate N (KCallFn (FWrapped k) args)) st = Some st'
      ∧ cache st' = cache st
      ∧ heap st' = heap st
      ∧ closures st' = closures st
      ∧ trace st' = trace st ++ replicate N (EPayload (FUser u) args).
Proof.
  intros Hint Hfinal Hbody Hfuel. destruct fuel as [|[|m]]; [lia | lia |].
  induction N as [|N IH]; intros st Hcl Hget Hdone.
  - exists st. simpl. by rewrite app_nil_r.
  - change (replicate (S N) (KCallFn (FWrapped k) args))
      with (KCallFn (FWrapped k) args :: replicate N (KCallFn (FWrapped k) args)).
    rewrite runAll_cons.
    rewrite (interval_fire prog k cl l u args m st Hcl Hint Hget Hfinal Hbody Hdone).
    destruct (IH (log (EPayload (FUser u) args) st)) as (st' & Hrun & Hc & Hh & Hcls & Htr);
      try done.
    exists st'. split; [exact Hrun|]. repeat split; try done.
    rewrite Htr. simpl. by rewrite <- app_assoc.
Qed.

(** ** Clears with quiet hooks, as state transformers *)

Section Effects.

Variable prog : nat -> ufun.

(** A quiet function called with a cancel context returns in the state
    [quietEffect]. *)
Lemma quiet_call_effect f c :
  quietFn prog f = true →
  ∀ n st, fnDepth f ≤ n →
    ∃ v, run prog (S n) (KCallFn f [ACtx c]) st = Ok v (quietEffect f c st).
Proof.
  induction f as [u|p|p|resolve _ reject IH|k]; intros Hq n st Hn;
    simpl in Hq, Hn.
  - apply bool_decide_eq_true_1 in Hq.
    exists (u_ret (prog u)). rewrite run_S. unfold step, callFn.
    rewrite Hq. done.
  - by eexists.
  - by eexists.
  - apply andb_true_iff in Hq as [_ Hq].
    destruct n as [|n]; [lia|].
    rewrite run_S. unfold step, callFn, onPromiseClear. simpl quietEffect.
    destruct (p_replacedBy (ctx_p c)) as [r|] eqn:Hr.
    + destruct (bool_decide _ && _).
      * by eexists.
      * apply IH; [done | lia].
    + apply IH; [done | lia].
  - done.
Qed.

Lemma quietRel_effect f c st :
  quietFn prog f = true →
  trace (quietEffect f c st) = trace st
  ∧ quietRel (p_replacedBy (ctx_p c)) st (quietEffect f c st).
Proof.
  intros Hq.
  destruct (quiet_call prog f c Hq (fnDepth f) st) as (v & st' & Hrun & Htr & Hrel);
    [done|].
  destruct (quiet_call_effect f c Hq (fnDepth f) st) as (v' & Hrun'); [done|].
  rewrite Hrun in Hrun'. injection Hrun' as _ ->. done.
Qed.

Lemma hooksEffect_snoc hs h c st :
  hooksEffect (hs ++ [h]) c st
  = quietEffect h c (log (EHook h c) (hooksEffect hs c st)).
Proof. unfold hooksEffect. by rewrite foldl_app. Qed.

Lemma hooksEffect_cons h hs c st :
  hooksEffect (h :: hs) c st = hooksEffect hs c (quietEffect h c (log (EHook h c) st)).
Proof. reflexivity. Qed.

(** The loop over the clear hooks of a Link, all of them quiet. *)
Lemma hooks_effect c l hs D :
  p_replacedBy (ctx_p c) ≠ Some l →
  Forall (fun h => quietFn prog h = true ∧ fnDepth h ≤ D) hs →
  ∀ n i st,
    l_onClear (getLink st l) = hs →
    length hs - i + D + 2 ≤ n →
    run prog n (KHooks l i c) st = Ok VUndef (hooksEffect (drop i hs) c st).
Proof.
  intros Hrep Hall. induction n as [|n IH]; intros i st Hhs Hn; [lia|].
  rewrite run_S. unfold step, hooks. rewrite Hhs.
  destruct (hs !! i) as [h|] eqn:Hh.
  - rewrite (drop_S _ _ _ Hh). rewrite hooksEffect_cons.
    apply lookup_lt_Some in Hh as Hlt.
    rewrite Forall_forall in Hall.
    destruct (Hall h) as [Hq Hd]; [by eapply list_elem_of_lookup_2|].
    destruct n as [|n]; [lia|].
    destruct (quiet_call_effect h c Hq n (log (EHook h c) st)) as (v & Hrun); [lia|].
    rewrite Hrun. simpl andThen.
    apply IH; [|lia].
    destruct (quietRel_effect h c (log (EHook h c) st) Hq)
      as (_ & _ & _ & _ & _ & _ & _ & Hl).
    destruct (Hl l) as [Hsame _]. rewrite Hsame by congruence. done.
  - apply lookup_ge_None in Hh. by rewrite drop_ge.
Qed.

(** [clearAsync] on a live Link with quiet hooks and a destructor of the
    host returns in the state [cleared]. *)
Lemma clearAsync_effect n p p' l st D :
  resolveId p (getLocal (p_name p) (truthyStr (p_group p)) st) = Some p' →
  notNull (p_id p') = true →
  Map_get (p_id p') (links (getLocal (p_name p) (truthyStr (p_group p)) st)) = Some l →
  Forall (fun h => quietFn prog h = true ∧ fnDepth h ≤ D) (l_onClear (getLink st l)) →
  p_replacedBy p ≠ Some l →
  (∀ d, p_clearFn p = Some d → ∃ prim, d = DHost prim) →
  length (l_onClear (getLink st l)) + D + 2 ≤ n →
  run prog (S n) (KClearAsync p) st = Ok VUndef (cleared p' l st).
Proof.
  intros Hres Hnn Hget Hquiet Hrep Hcf Hn.
  destruct (resolveId_fields _ _ _ Hres) as (Hname & Hgroup & _ & Hcf' & Hrb & _).
  rewrite (clearAsync_live prog n p p' l st Hres Hnn Hget). cbv zeta.
  rewrite (hooks_effect (Ctx p' l "clearAsync") l (l_onClear (getLink st l)) D);
    [| simpl; by rewrite Hrb | done | done | lia].
  rewrite drop_0. unfold cleared. rewrite Hname, Hgroup. simpl andThen.
  destruct (p_clearFn p') as [d|] eqn:Hd; [|done].
  destruct (Hcf d) as [prim ->]; [congruence|]. done.
Qed.

End Effects.

(** ** Promise bridges: registration, firing, clearing *)

Section Bridges.

Variable prog : nat -> ufun.

Lemma andThen_Ok {A B : Type} (a : A) st (k : A → state → outcome B) :
  andThen (Ok a st) k = k a st.
Proof. reflexivity. Qed.

(** The wrapper of a single-shot task fires while the Link is registered. *)
Lemma fire_single_shot k cl l f args n st :
  closures st !! k = Some cl →
  c_interval cl = false →
  Map_get (c_id cl) (links (getLocal (c_name cl) (c_group cl) st)) = Some l →
  c_finalObj cl = VFn f →
  run prog (S n) (KCallFn (FWrapped k) args) st
  = let! (res, s) :=
      run prog n (KCallFn f args)
        (log (EPayload f args)
           (removed (c_name cl) (c_group cl) (Link (c_id cl) VUndef (c_label cl) [] []) st)) in
    let! (_, s') := run prog n (KExecTasks 0 l 0 args) s in
    Ok res s'.
Proof.
  intros Hcl Hint Hget Hfinal.
  rewrite run_S. unfold step, callFn. rewrite Hcl. unfold wrappedObj.
  rewrite Hget, Hint, Hfinal. done.
Qed.

Lemma lookup_settle q s st q' :
  promises (settle q s st) !! q'
  = if decide (q' = q) then
      match promises st !! q with
      | Some Pending => Some s
      | x => x
      end
    else promises st !! q'.
Proof.
  unfold settle. destruct (promises st !! q) as [[| |]|] eqn:Hq; simpl;
    case_decide as Hd; subst; try done.
  - apply list_lookup_insert_eq. by eapply lookup_lt_Some.
  - by apply list_lookup_insert_ne.
Qed.

Lemma getLink_settle q s st l : getLink (settle q s st) l = getLink st l.
Proof. unfold settle. by destruct (promises st !! q) as [[| |]|]. Qed.

(** [execTasks()] over the [onComplete] list of forwarded bridges. *)
Lemma execTasks_effect l qs args :
  ∀ n j st,
    l_onComplete (getLink st l) = resolvers qs →
    length qs - j + 2 ≤ n →
    run prog n (KExecTasks 0 l j args) st = Ok VUndef (execEffect (drop j qs) args st).
Proof.
  induction n as [|n IH]; intros j st Hqs Hn; [lia|].
  rewrite run_S. unfold step, execTasks. rewrite Hqs. unfold resolvers.
  rewrite list_lookup_fmap.
  destruct (qs !! j) as [q|] eqn:Hq; simpl.
  - rewrite (drop_S _ _ _ Hq). apply lookup_lt_Some in Hq as Hlt.
    destruct n as [|n]; [lia|].
    rewrite run_S. unfold step at 1. unfold callFn. simpl andThen.
    change (execEffect (q :: drop (S j) qs) args st)
      with (execEffect (drop (S j) qs) args
              (settle q (Resolved args) (log (EComplete (FResolve q) args) st))).
    apply IH; [|lia]. by rewrite getLink_settle.
  - apply lookup_ge_None in Hq. by rewrite drop_ge.
Qed.

Lemma promises_execEffect qs args :
  ∀ st q,
    promises (execEffect qs args st) !! q
    = if decide (q ∈ qs) then
        match promises st !! q with
        | Some Pending => Some (Resolved args)
        | x => x
        end
      else promises st !! q.
Proof.
  induction qs as [|q0 qs IH]; intros st q.
  - change (execEffect [] args st) with st.
    destruct (decide (q ∈ [])) as [H|_]; [by apply elem_of_nil in H | done].
  - change (execEffect (q0 :: qs) args st)
      with (execEffect qs args
              (settle q0 (Resolved args) (log (EComplete (FResolve q0) args) st))).
    rewrite IH, lookup_settle.
    change (promises (log (EComplete (FResolve q0) args) st)) with (promises st).
    destruct (decide (q = q0)) as [->|Hne].
    + rewrite (decide_True (P := q0 ∈ q0 :: qs)) by left.
      destruct (promises st !! q0) as [[| |]|]; by case_decide.
    + destruct (decide (q ∈ qs)) as [Hin|Hnin].
      * rewrite decide_True by (by right). done.
      * rewrite decide_False; [done|].
        intros Hin. apply elem_of_cons in Hin as [?|?]; done.
Qed.

Lemma cache_execEffect qs args : ∀ st, cache (execEffect qs args st) = cache st.
Proof.
  induction qs as [|q0 qs IH]; intros st; [done|].
  change (execEffect (q0 :: qs) args st)
    with (execEffect qs args
            (settle q0 (Resolved args) (log (EComplete (FResolve q0) args) st))).
  rewrite IH. unfold settle. by destruct (promises _ !! q0) as [[| |]|].
Qed.

(** The wrapper of a bridge fires. *)
Lemma bridge_fire name g lab id l k pr qs hs args n st :
  holdsBridge name g lab id l k pr qs hs st →
  length qs + 2 ≤ n →
  ∃ st',
    run prog (S n) (KCallFn (FWrapped k) args) st = Ok VUndef st'
    ∧ Map_get id (links (getLocal name g st')) = None
    ∧ ∀ q, promises st' !! q
           = if decide (q ∈ pr :: qs) then
               match promises st !! q with
               | Some Pending => Some (Resolved args)
               | x => x
               end
             else promises st !! q.
Proof.
  intros (Hcl & Hget & Hwf & Hl & Hlink & _ & _) Hn.
  rewrite (fire_single_shot k _ l (FResolve pr) args n st Hcl eq_refl Hget eq_refl).
  simpl c_name. simpl c_group. simpl c_id. simpl c_label.
  set (gone := Link id VUndef lab [] []).
  destruct n as [|n]; [lia|].
  set (s1 := settle pr (Resolved args)
               (log (EPayload (FResolve pr) args) (removed name g gone st))).
  assert (Hpay : run prog (S n) (KCallFn (FResolve pr) args)
                   (log (EPayload (FResolve pr) args) (removed name g gone st))
                 = Ok VUndef s1) by reflexivity.
  rewrite Hpay, andThen_Ok.
  rewrite (execTasks_effect l qs args (S n) 0 s1);
    [| unfold s1; rewrite getLink_settle;
       change (getLink (log _ (removed name g gone st)) l) with (getLink st l);
       by rewrite Hlink | lia].
  rewrite drop_0, andThen_Ok. eexists. split; [reflexivity|]. split.
  - rewrite (getLocal_cache _ (removed name g gone st)).
    + by apply (removed_absent name g gone st).
    + rewrite cache_execEffect. unfold s1, settle.
      by destruct (promises _ !! pr) as [[| |]|].
  - intros q. rewrite promises_execEffect. unfold s1. rewrite lookup_settle.
    change (promises (log _ (removed name g gone st))) with (promises st).
    destruct (decide (q = pr)) as [->|Hne].
    + rewrite (decide_True (P := pr ∈ pr :: qs)) by left.
      destruct (promises st !! pr) as [[| |]|]; by case_decide.
    + destruct (decide (q ∈ qs)) as [Hin|Hnin].
      * rewrite (decide_True (P := q ∈ pr :: qs)) by (by right). done.
      * rewrite (decide_False (P := q ∈ pr :: qs)); [done|].
        intros Hin. apply elem_of_cons in Hin as [?|?]; done.
Qed.

End Bridges.

Section BridgeStart.

Variable prog : nat -> ufun.

Lemma startPrimitive_oneShot p w cb f st :
  p_wrapper p = Some w →
  w ≠ WThen →
  p_linkByWrapper p = true →
  truthy cb = true →
  (0 < next_handle st)%Z →
  ∃ id st1,
    startPrimitive p cb f st = Ok id st1
    ∧ truthy id = true
    ∧ cache st1 = cache st
    ∧ heap st1 = heap st
    ∧ closures st1 = closures st
    ∧ promises st1 = promises st
    ∧ (0 < next_handle st1)%Z.
Proof.
  intros Hw HwT Hlbw Hcb Hh. unfold startPrimitive. rewrite Hw, Hlbw.
  destruct w as [prim| |]; [|done|].
  - eexists _, _. split; [reflexivity|]. simpl. repeat split; try done; [|lia].
    apply negb_true_iff, Z.eqb_neq. lia.
  - eexists _, _. split; [reflexivity|]. done.
Qed.

(** A bridge on a vacant label: the promise is pending and the registry
    holds its task. *)
Lemma bridge_vacant n mk o st :
  let pr := length (promises st) in
  let name := p_name (mk VUndef noOpts) in
  let g := truthyStr (o_group o) in
  oneShot mk →
  truthy (labels_get (getLocal name g st) (labelKey (o_label o))) = false →
  Map_wf (links (getLocal name g st)) →
  (0 < next_handle st)%Z →
  ∃ id st1,
    bridge prog (S n) mk o st = Ok pr st1
    ∧ holdsBridge name g (o_label o) id (length (heap st)) (length (closures st)) pr
        [] [promiseClear pr] st1
    ∧ promises st1 = promises st ++ [Pending]
    ∧ length (heap st1) = S (length (heap st))
    ∧ length (closures st1) = S (length (closures st))
    ∧ (0 < next_handle st1)%Z.
Proof.
  intros pr name g Hone Hvac Hwf Hh.
  set (p := mk (VFn (FResolve pr)) (bridgeOpts o pr)).
  destruct (Hone (VFn (FResolve pr)) (bridgeOpts o pr))
    as (Hname & Hobj & Hjoin & Hlab & Hgrp & Hoc & Hint & Hnc & Hlbw & Hid & Hrb
        & (w & Hw & HwT) & Hcf).
  fold p in Hname, Hobj, Hjoin, Hlab, Hgrp, Hoc, Hint, Hnc, Hlbw, Hid, Hrb, Hw, Hcf.
  simpl in Hjoin, Hlab, Hgrp, Hoc. fold name in Hname.
  set (stP := set_promises (promises st ++ [Pending]) st).
  destruct (prepared_frame p stP) as (Hh0 & Hc0 & _ & Hp0 & _ & Hn0 & _ & Hloc0).
  assert (Hwrapped : isWrapped p (p_obj p) = true).
  { unfold isWrapped. by rewrite Hint. }
  destruct (startPrimitive_oneShot p w (wrapperRef p (p_obj p) (prepared p stP))
              (p_obj p) (prepared p stP))
    as (id & st1 & Hstart & Htruthy & Hc1 & Hh1 & Hcl1 & Hp1 & Hn1); try done.
  { unfold wrapperRef. by rewrite Hwrapped. }
  { by rewrite Hn0. }
  assert (Hloc1 : ∀ name' g', getLocal name' g' st1 = getLocal name' g' st).
  { intros name' g'. rewrite (getLocal_cache st1 (prepared p stP)) by done.
    rewrite Hloc0. by apply getLocal_cache. }
  assert (Hset : run prog (S n) (KSetAsync p) stP = Ok id (registered p id st1)).
  { apply setAsync_vacant; try done.
    - rewrite Hname, Hgrp, Hlab. fold g.
      by rewrite (getLocal_cache stP st).
    - by left.
    - by rewrite Hobj. }
  exists id, (registered p id st1).
  assert (Hlen1 : length (heap st1) = length (heap st)).
  { rewrite Hh1, Hh0. done. }
  split; [|split; [|split; [|split; [|split]]]].
  - unfold bridge. fold pr stP p. by rewrite Hset.
  - split; [|split; [|split; [|split; [|split; [|split]]]]].
    + rewrite closures_registered, Hwrapped, Hcl1, Hc0.
      change (closures stP) with (closures st).
      rewrite lookup_app_r by lia. rewrite Nat.sub_diag. simpl.
      by rewrite Hname, Hgrp, Hlab, Hint, Hobj.
    + rewrite <- Hname. unfold g. rewrite <- Hgrp.
      rewrite links_registered, Hlen1. apply Map_get_set_eq.
    + rewrite <- Hname. unfold g. rewrite <- Hgrp.
      rewrite links_registered. apply Map_wf_set.
      rewrite Hloc1, Hname, Hgrp. exact Hwf.
    + rewrite heap_registered, length_app, Hlen1. simpl. lia.
    + rewrite <- Hlen1, getLink_registered_new.
      by rewrite Hobj, Hlab, Hoc.
    + exact Htruthy.
    + intros key Hkey. rewrite <- Hname. unfold g. rewrite <- Hgrp.
      apply labels_registered. by rewrite Hlab.
  - by rewrite promises_registered, Hp1, Hp0.
  - rewrite heap_registered, length_app, Hlen1. simpl. lia.
  - rewrite closures_registered, Hwrapped, length_app, Hcl1, Hc0. simpl.
    change (closures stP) with (closures st). lia.
  - unfold registered, install, allocClosure.
    by destruct (truthyStr (p_label p)); destruct (isWrapped p (p_obj p)).
Qed.

End BridgeStart.

(** X8. A promise bridge ([sleep], [nextTick], [idle], [animationFrame])
    called on a vacant label returns a pending promise and
    registers one task; when the host fires the wrapper with [args], the
    promise is resolved with [args], every other promise is left as it
    was, and the task is out of the registry. *)
Theorem bridge_resolves_when_fired prog n m mk o args st :
  let pr := length (promises st) in
  let name := p_name (mk VUndef noOpts) in
  let g := truthyStr (o_group o) in
  oneShot mk →
  truthy (labels_get (getLocal name g st) (labelKey (o_label o))) = false →
  Map_wf (links (getLocal name g st)) →
  (0 < next_handle st)%Z →
  ∃ id st1 st2,
    bridge prog (S n) mk o st = Ok pr st1
    ∧ promises st1 !! pr = Some Pending
    ∧ Map_get id (links (getLocal name g st1)) = Some (length (heap st))
    ∧ run prog (S (S (S m))) (KCallFn (FWrapped (length (closures st))) args) st1
      = Ok VUndef st2
    ∧ promises st2 !! pr = Some (Resolved args)
    ∧ (∀ q, q ≠ pr → promises st2 !! q = promises st !! q)
    ∧ Map_get id (links (getLocal name g st2)) = None.
Proof.
  intros pr name g Hone Hvac Hwf Hh.
  destruct (bridge_vacant prog n mk o st Hone Hvac Hwf Hh)
    as (id & st1 & Hrun & Hholds & Hprom & _).
  fold pr name g in Hrun, Hholds.
  destruct (bridge_fire prog name g (o_label o) id (length (heap st))
              (length (closures st)) pr [] [promiseClear pr] args (S (S m)) st1 Hholds)
    as (st2 & Hfire & Habsent & Hps); [simpl; lia|].
  assert (Hpending : promises st1 !! pr = Some Pending).
  { rewrite Hprom. rewrite lookup_app_r by (unfold pr; lia).
    unfold pr. by rewrite Nat.sub_diag. }
  exists id, st1, st2. split; [exact Hrun|]. split; [exact Hpending|].
  split; [by destruct Hholds as (_ & ? & _)|]. split; [exact Hfire|].
  split; [|split; [|exact Habsent]].
  - rewrite Hps, decide_True by left. by rewrite Hpending.
  - intros q Hq. rewrite Hps, decide_False.
    + rewrite Hprom. destruct (decide (q < pr)) as [Hlt|Hge].
      * by rewrite lookup_app_l.
      * rewrite lookup_app_r by lia. unfold pr in *.
        rewrite (lookup_ge_None_2 (promises st)) by lia.
        destruct (q - length (promises st)) as [|[|x]] eqn:Hx; try done. lia.
    + intros Hin. apply list_elem_of_singleton in Hin. done.
Qed.

Section BridgeClear.

Variable prog : nat -> ufun.

(** A clear by id of the task of a bridge that was not replaced. *)
Lemma bridge_clear name g lab id l k pr n pc st :
  holdsBridge name g lab id l k pr [] [promiseClear pr] st →
  p_name pc = name →
  truthyStr (p_group pc) = g →
  truthyStr (p_label pc) = None →
  p_id pc = id →
  p_replacedBy pc = None →
  (∀ d, p_clearFn pc = Some d → ∃ prim, d = DHost prim) →
  promises st !! pr = Some Pending →
  4 ≤ n →
  ∃ st',
    run prog (S n) (KClearAsync pc) st = Ok VUndef st'
    ∧ promises st' !! pr = Some (Rejected [ACtx (Ctx pc l "clearAsync")])
    ∧ (∀ q, q ≠ pr → promises st' !! q = promises st !! q)
    ∧ Map_get id (links (getLocal name g st')) = None.
Proof.
  intros (Hcl & Hget & Hwf & Hl & Hlink & Htruthy & _) Hname Hgroup Hlabel Hid Hrb Hcf
    Hpending Hn.
  assert (Hres : resolveId pc (getLocal (p_name pc) (truthyStr (p_group pc)) st)
                 = Some pc).
  { unfold resolveId. by rewrite Hlabel. }
  rewrite (clearAsync_effect prog n pc pc l st 1 Hres).
  2:{ rewrite Hid. by apply truthy_notNull. }
  2:{ by rewrite Hname, Hgroup, Hid. }
  2:{ rewrite Hlink. simpl. apply Forall_singleton. split; [done | simpl; lia]. }
  2:{ by rewrite Hrb. }
  2:{ exact Hcf. }
  2:{ rewrite Hlink. simpl. lia. }
  eexists. split; [reflexivity|].
  set (c := Ctx pc l "clearAsync").
  set (base := labels_set (p_name pc) (truthyStr (p_group pc))
                 (labelKey (l_label (getLink st l))) VUndef
                 (links_delete (p_name pc) (truthyStr (p_group pc))
                    (l_id (getLink st l)) st)).
  assert (Hs : hooksEffect (l_onClear (getLink st l)) c base
               = settle pr (Rejected [ACtx c]) (log (EHook (promiseClear pr) c) base)).
  { rewrite Hlink. simpl l_onClear. rewrite hooksEffect_cons.
    change (hooksEffect [] c ?s) with s.
    unfold promiseClear. simpl quietEffect. by rewrite Hrb. }
  assert (Hprom : ∀ q, promises (cleared pc l st) !! q
                       = promises (settle pr (Rejected [ACtx c])
                                     (log (EHook (promiseClear pr) c) base)) !! q).
  { intros q. unfold cleared. fold c base. rewrite Hs.
    by destruct (p_clearFn pc). }
  split; [|split].
  - rewrite Hprom, lookup_settle, decide_True by done.
    change (promises (log _ base)) with (promises st). by rewrite Hpending.
  - intros q Hq. rewrite Hprom, lookup_settle, decide_False by done. done.
  - assert (Hc : cache (cleared pc l st) = cache base).
    { unfold cleared. fold c base. rewrite Hs.
      destruct (p_clearFn pc); simpl; unfold settle;
        by destruct (promises _ !! pr) as [[| |]|]. }
    rewrite (getLocal_cache _ base) by exact Hc. unfold base.
    rewrite Hname, Hgroup.
    apply (removed_absent name g (getLink st l) st); [done|]. by rewrite Hlink.
Qed.

End BridgeClear.

(** X9. The task of a promise bridge cleared by its id before it fires:
    the clear hook installed by the bridge rejects the promise with the
    cancel context of the clear (its [link] the cleared Link, its [type]
    ["clearAsync"]), every other promise is left as it was, and the task is
    out of the registry. *)
Theorem bridge_rejects_when_cleared prog objectKeys n m mk o d st :
  let pr := length (promises st) in
  let name := p_name (mk VUndef noOpts) in
  let g := truthyStr (o_group o) in
  oneShot mk →
  truthy (labels_get (getLocal name g st) (labelKey (o_label o))) = false →
  Map_wf (links (getLocal name g st)) →
  (0 < next_handle st)%Z →
  (∀ x, d = Some x → ∃ prim, x = DHost prim) →
  4 ≤ m →
  ∃ id st1 st2,
    bridge prog (S n) mk o st = Ok pr st1
    ∧ promises st1 !! pr = Some Pending
    ∧ clearBy prog (S m) objectKeys name d (ArgOptions id None (o_group o)) st1
      = Ok VUndef st2
    ∧ promises st2 !! pr
      = Some (Rejected [ACtx (Ctx (clearParams name d id None (o_group o))
                                (length (heap st)) "clearAsync")])
    ∧ (∀ q, q ≠ pr → promises st2 !! q = promises st1 !! q)
    ∧ Map_get id (links (getLocal name g st2)) = None.
Proof.
  intros pr name g Hone Hvac Hwf Hh Hd Hm.
  destruct (bridge_vacant prog n mk o st Hone Hvac Hwf Hh)
    as (id & st1 & Hrun & Hholds & Hprom & _).
  fold pr name g in Hrun, Hholds.
  assert (Hpending : promises st1 !! pr = Some Pending).
  { rewrite Hprom. rewrite lookup_app_r by (unfold pr; lia).
    unfold pr. by rewrite Nat.sub_diag. }
  assert (Htruthy : truthy id = true) by (by destruct Hholds as (_ & _ & _ & _ & _ & ? & _)).
  destruct (bridge_clear prog name g (o_label o) id (length (heap st))
              (length (closures st)) pr m (clearParams name d id None (o_group o)) st1)
    as (st2 & Hclear & Hrej & Hothers & Habsent); try done.
  exists id, st1, st2. split; [exact Hrun|]. split; [exact Hpending|].
  split; [|done].
  unfold clearBy, clearDescriptor. simpl getIfNotObject. unfold orElse.
  by rewrite Htruthy.
Qed.

Section Replace.

Variable prog : nat -> ufun.

(** [setAsync] on a label that holds a live task whose hooks are quiet:
    the prior holder is cleared, then the new Link is installed. *)
Lemma setAsync_replace n p key prior lp id st st1 D :
  let name := p_name p in
  let g := truthyStr (p_group p) in
  let lnew := length (heap st) in
  truthyStr (p_label p) = Some key →
  labels_get (getLocal name g st) key = prior →
  truthy prior = true →
  p_join p ≠ Some JoinTrue →
  p_id p = VUndef →
  Map_get prior (links (getLocal name g st)) = Some lp →
  lp < length (heap st) →
  usesPayload p →
  notNull (p_obj p) = true →
  (∀ d, p_clearFn p = Some d → ∃ prim, d = DHost prim) →
  startPrimitive p (wrapperRef p (p_obj p) st) (p_obj p) st = Ok id st1 →
  Forall (fun h => quietFn prog h = true ∧ fnDepth h ≤ D) (l_onClear (getLink st lp)) →
  length (l_onClear (getLink st lp)) + D + 2 ≤ n →
  run prog (S (S n)) (KSetAsync p) st
  = Ok id
      (install p id lnew
         (cleared (with_id (with_replacedBy p lnew) prior) lp
            (push_link (Link id (p_obj p) (p_label p) [] (p_onClear p))
               (allocClosure p g id (p_obj p) st1)))).
Proof.
  intros name g lnew Hkey Hprior Htruthy Hjoin Hid Hget Hlp Hpay Hobj Hcf Hstart
    Hquiet Hn.
  apply truthyStr_Some in Hkey as Hlabel.
  assert (Hinit : initGroup name g (initCache name st) = st).
  { apply (init_occupied _ _ _ key). rewrite Hprior. by apply truthy_notUndef. }
  pose proof (setAsync_unfold prog (S n) p st id st1) as Hu. cbv zeta in Hu.
  fold name g in Hu. rewrite Hinit, Hlabel in Hu.
  change (labelKey (Some key)) with key in Hu.
  rewrite Hprior, Htruthy in Hu.
  rewrite bool_decide_eq_false_2 in Hu by done.
  specialize (Hu eq_refl Hpay Hobj Hstart).
  destruct (startPrimitive_frame _ _ _ _ _ _ Hstart) as (Hc1 & Hh1 & _ & _ & _).
  rewrite Hh1 in Hu. fold lnew in Hu.
  set (stA := push_link (Link id (p_obj p) (Some key) [] (p_onClear p))
                (allocClosure p g id (p_obj p) st1)) in *.
  assert (HcA : cache stA = cache st)
    by (unfold stA; simpl; by rewrite cache_allocClosure).
  assert (HlocA : getLocal name g stA = getLocal name g st) by (by apply getLocal_cache).
  assert (HlinkA : getLink stA lp = getLink st lp).
  { unfold stA. rewrite getLink_push_link_old by (rewrite heap_allocClosure, Hh1; done).
    unfold getLink. by rewrite heap_allocClosure, Hh1. }
  rewrite (clearAsync_effect prog n (with_replacedBy p lnew)
             (with_id (with_replacedBy p lnew) prior) lp stA D) in Hu.
  - rewrite Hlabel. exact Hu.
  - unfold resolveId. simpl. rewrite Hlabel. simpl.
    destruct (decide (key = "")) as [->|]; [by rewrite Hlabel in Hkey|].
    fold name g. rewrite HlocA, Hprior, Hid. done.
  - simpl. by apply truthy_notNull.
  - simpl. fold name g. by rewrite HlocA.
  - by rewrite HlinkA.
  - simpl. intros [= Heq]. lia.
  - exact Hcf.
  - by rewrite HlinkA.
Qed.

End Replace.

Section BridgeHooks.

Variable prog : nat -> ufun.

Lemma hookOf_quiet bs :
  Forall (fun h => quietFn prog h = true ∧ fnDepth h ≤ 1) (hookOf <$> bs).
Proof.
  apply Forall_fmap, Forall_forall. intros [[|] q] _; simpl; split; try done; lia.
Qed.

(** The hooks of bridges run for a Link that [r] replaces: every handler
    forwards its bridge to [r], every bare [reject] rejects its promise. *)
Lemma bridgeHooks_effect c r hs :
  p_replacedBy (ctx_p c) = Some r →
  p_join (ctx_p c) = Some JoinReplace →
  r ≠ ctx_link c →
  length hs < MAX_PROMISE_DEPTH →
  ∀ bs st,
    l_onClear (getLink st (ctx_link c)) = hs →
    r < length (heap st) →
    getLink (hooksEffect (hookOf <$> bs) c st) r
    = Link (l_id (getLink st r)) (l_obj (getLink st r)) (l_label (getLink st r))
        (l_onComplete (getLink st r) ++ resolvers (qsOf bs))
        (l_onClear (getLink st r) ++ concat ((fun q => hs ++ [FReject q]) <$> qsOf bs))
    ∧ (∀ l, l ≠ r → getLink (hooksEffect (hookOf <$> bs) c st) l = getLink st l)
    ∧ cache (hooksEffect (hookOf <$> bs) c st) = cache st
    ∧ closures (hooksEffect (hookOf <$> bs) c st) = closures st
    ∧ length (heap (hooksEffect (hookOf <$> bs) c st)) = length (heap st)
    ∧ next_handle (hooksEffect (hookOf <$> bs) c st) = next_handle st
    ∧ length (promises (hooksEffect (hookOf <$> bs) c st)) = length (promises st)
    ∧ ∀ q, promises (hooksEffect (hookOf <$> bs) c st) !! q
           = if decide (q ∈ rejOf bs) then
               match promises st !! q with
               | Some Pending => Some (Rejected [ACtx c])
               | x => x
               end
             else promises st !! q.
Proof.
  intros Hrb Hjoin Hne Hlen.
  induction bs as [|[b q] bs IH]; intros st Hhs Hr.
  - change (hooksEffect (hookOf <$> []) c st) with st.
    split; [|repeat split; done].
    destruct (getLink st r); simpl. by rewrite !app_nil_r.
  - rewrite fmap_cons, hooksEffect_cons.
    set (st0 := log (EHook (hookOf (b, q)) c) st).
    destruct b.
    + (* a handler: the bridge is forwarded *)
      assert (Heff : quietEffect (hookOf (true, q)) c st0
                     = push_onClear r (hs ++ [FReject q])
                         (push_onComplete r (FResolve q, FReject q) st0)).
      { unfold hookOf, promiseClear. simpl. rewrite Hrb, Hjoin.
        rewrite bool_decide_eq_true_2 by done.
        change (getLink st0 (ctx_link c)) with (getLink st (ctx_link c)).
        rewrite Hhs. apply Nat.ltb_lt in Hlen as ->. simpl.
        rewrite getLink_push_onComplete.
        rewrite decide_False by (intros [? _]; congruence).
        change (getLink st0 (ctx_link c)) with (getLink st (ctx_link c)).
        by rewrite Hhs. }
      rewrite Heff.
      set (st1 := push_onClear r (hs ++ [FReject q])
                    (push_onComplete r (FResolve q, FReject q) st0)).
      assert (Hlink1 : getLink st1 r
                       = Link (l_id (getLink st r)) (l_obj (getLink st r))
                           (l_label (getLink st r))
                           (l_onComplete (getLink st r) ++ [(FResolve q, FReject q)])
                           (l_onClear (getLink st r) ++ hs ++ [FReject q])).
      { unfold st1. rewrite getLink_push_onClear, length_heap_push_onComplete.
        rewrite decide_True by done.
        rewrite getLink_push_onComplete, decide_True by done. done. }
      assert (Hother1 : ∀ l, l ≠ r → getLink st1 l = getLink st l).
      { intros l Hl. unfold st1. rewrite getLink_push_onClear.
        rewrite decide_False by (intros [? _]; done).
        rewrite getLink_push_onComplete.
        rewrite decide_False by (intros [? _]; done). done. }
      assert (Hlen1 : length (heap st1) = length (heap st)).
      { unfold st1. by rewrite length_heap_push_onClear, length_heap_push_onComplete. }
      destruct (IH st1) as (I1 & I2 & I3 & I4 & I5 & I6 & I7 & I8).
      { rewrite Hother1 by done. exact Hhs. }
      { lia. }
      split; [|split; [|repeat split]].
      * rewrite I1, Hlink1. simpl.
        change (qsOf ((true, q) :: bs)) with (q :: qsOf bs).
        change (resolvers (q :: qsOf bs))
          with ((FResolve q, FReject q) :: resolvers (qsOf bs)).
        f_equal; by rewrite <- !app_assoc.
      * intros l Hl. rewrite I2 by done. by apply Hother1.
      * by rewrite I3.
      * by rewrite I4.
      * lia.
      * by rewrite I6.
      * by rewrite I7.
      * intros q'. rewrite I8. done.
    + (* a bare reject *)
      assert (Heff : quietEffect (hookOf (false, q)) c st0
                     = settle q (Rejected [ACtx c]) st0) by reflexivity.
      rewrite Heff.
      set (st1 := settle q (Rejected [ACtx c]) st0).
      assert (Hlinks1 : ∀ l, getLink st1 l = getLink st l).
      { intros l. unfold st1. by rewrite getLink_settle. }
      assert (Hframe : cache st1 = cache st ∧ closures st1 = closures st
                       ∧ heap st1 = heap st ∧ next_handle st1 = next_handle st
                       ∧ length (promises st1) = length (promises st)).
      { unfold st1, settle. destruct (promises st0 !! q) as [[| |]|]; simpl;
          repeat split; try done. by rewrite length_insert. }
      destruct Hframe as (F1 & F2 & F3 & F4 & F5).
      destruct (IH st1) as (I1 & I2 & I3 & I4 & I5 & I6 & I7 & I8).
      { by rewrite Hlinks1. }
      { by rewrite F3. }
      split; [|split; [|repeat split]].
      * rewrite I1, !Hlinks1. done.
      * intros l Hl. rewrite I2 by done. apply Hlinks1.
      * by rewrite I3.
      * by rewrite I4.
      * by rewrite I5, F3.
      * by rewrite I6.
      * by rewrite I7.
      * intros q'. rewrite I8. unfold st1. rewrite !lookup_settle.
        change (promises st0) with (promises st).
        change (rejOf ((false, q) :: bs)) with (q :: rejOf bs).
        destruct (decide (q' = q)) as [->|Hq].
        -- rewrite (decide_True (P := q ∈ q :: rejOf bs)) by left.
           destruct (promises st !! q) as [[| |]|]; by case_decide.
        -- destruct (decide (q' ∈ rejOf bs)) as [Hin|Hnin].
           ++ rewrite (decide_True (P := q' ∈ q :: rejOf bs)) by (by right). done.
           ++ rewrite (decide_False (P := q' ∈ q :: rejOf bs)); [done|].
              intros Hin. apply elem_of_cons in Hin as [?|?]; done.
Qed.

End BridgeHooks.

Section BridgeReplace.

Variable prog : nat -> ufun.

Lemma hookOf_nextHooks pr bs :
  hookOf <$> nextHooks pr bs
  = promiseClear pr :: concat ((fun q => (hookOf <$> bs) ++ [FReject q]) <$> qsOf bs).
Proof.
  unfold nextHooks. rewrite fmap_cons. f_equal.
  induction (qsOf bs) as [|q qs IH]; [done|].
  rewrite !fmap_cons. simpl concat. rewrite fmap_app, IH. by rewrite fmap_app.
Qed.

Lemma install_frame p id l s :
  heap (install p id l s) = heap s
  ∧ closures (install p id l s) = closures s
  ∧ promises (install p id l s) = promises s
  ∧ next_handle (install p id l s) = next_handle s.
Proof. unfold install. by destruct (truthyStr (p_label p)). Qed.

Lemma links_install p id l s :
  links (getLocal (p_name p) (truthyStr (p_group p)) (install p id l s))
  = Map_set id l (links (getLocal (p_name p) (truthyStr (p_group p)) s)).
Proof.
  unfold install.
  destruct (truthyStr (p_label p)); by rewrite ?links_labels_set, links_links_set.
Qed.

Lemma labels_install p id l s key :
  truthyStr (p_label p) = Some key →
  labels_get (getLocal (p_name p) (truthyStr (p_group p)) (install p id l s)) key = id.
Proof.
  intros Hkey. unfold install. rewrite Hkey.
  rewrite labels_get_labels_set. by rewrite decide_True.
Qed.

Lemma cleared_frame pc l s :
  let c := Ctx pc l "clearAsync" in
  let base := removed (p_name pc) (truthyStr (p_group pc)) (getLink s l) s in
  let s' := hooksEffect (l_onClear (getLink s l)) c base in
  heap (cleared pc l s) = heap s'
  ∧ closures (cleared pc l s) = closures s'
  ∧ promises (cleared pc l s) = promises s'
  ∧ next_handle (cleared pc l s) = next_handle s'
  ∧ cache (cleared pc l s) = cache s'.
Proof. unfold cleared, removed. by destruct (p_clearFn pc). Qed.

(** A bridge with [join: "replace"] on a label that holds the task of an
    earlier bridge. *)
Lemma bridge_replace n mk o key id1 l1 k1 pr1 qs1 bs st :
  let pr := length (promises st) in
  let name := p_name (mk VUndef noOpts) in
  let g := truthyStr (o_group o) in
  let l2 := length (heap st) in
  let c := Ctx (with_id (with_replacedBy (mk (VFn (FResolve pr)) (bridgeOpts o pr)) l2) id1)
             l1 "clearAsync" in
  oneShot mk →
  o_join o = Some JoinReplace →
  truthyStr (o_label o) = Some key →
  holdsBridge name g (o_label o) id1 l1 k1 pr1 qs1 (hookOf <$> bs) st →
  length bs < MAX_PROMISE_DEPTH →
  (0 < next_handle st)%Z →
  length bs + 3 ≤ n →
  ∃ id2 st2,
    bridge prog (S (S n)) mk o st = Ok pr st2
    ∧ holdsBridge name g (o_label o) id2 l2 (length (closures st)) pr (qsOf bs)
        (hookOf <$> nextHooks pr bs) st2
    ∧ length (promises st2) = S (length (promises st))
    ∧ (∀ q, promises st2 !! q
            = if decide (q ∈ rejOf bs) then
                match (promises st ++ [Pending]) !! q with
                | Some Pending => Some (Rejected [ACtx c])
                | x => x
                end
              else (promises st ++ [Pending]) !! q)
    ∧ length (heap st2) = S l2
    ∧ length (closures st2) = S (length (closures st))
    ∧ (0 < next_handle st2)%Z.
Proof.
  intros pr name g l2 c Hone Hjoin Hkey
    (Hcl1 & Hget1 & Hwf & Hl1 & Hlink1 & Htruthy1 & Hlab1) Hlen Hh Hn.
  set (p := mk (VFn (FResolve pr)) (bridgeOpts o pr)) in *.
  destruct (Hone (VFn (FResolve pr)) (bridgeOpts o pr))
    as (Hname & Hobj & Hpjoin & Hlab & Hgrp & Hoc & Hint & Hnc & Hlbw & Hid & Hrb
        & (w & Hw & HwT) & Hcf).
  fold p in Hname, Hobj, Hpjoin, Hlab, Hgrp, Hoc, Hint, Hnc, Hlbw, Hid, Hrb, Hw, Hcf.
  simpl in Hpjoin, Hlab, Hgrp, Hoc. fold name in Hname.
  set (stP := set_promises (promises st ++ [Pending]) st).
  assert (Hwrapped : isWrapped p (p_obj p) = true).
  { unfold isWrapped. by rewrite Hint. }
  destruct (startPrimitive_oneShot p w (wrapperRef p (p_obj p) stP) (p_obj p) stP)
    as (id2 & st1 & Hstart & Htruthy2 & Hc1 & Hh1 & Hcls1 & Hp1 & Hn1); try done.
  { unfold wrapperRef. by rewrite Hwrapped. }
  assert (HlocP : ∀ name' g', getLocal name' g' stP = getLocal name' g' st).
  { intros name' g'. by apply getLocal_cache. }
  pose proof (setAsync_replace prog n p key id1 l1 id2 stP st1 1) as Hset.
  cbv zeta in Hset. rewrite Hname, Hgrp, Hlab in Hset. fold g in Hset.
  rewrite HlocP in Hset.
  change (heap stP) with (heap st) in Hset. fold l2 in Hset.
  change (getLink stP l1) with (getLink st l1) in Hset.
  rewrite Hlink1 in Hset. simpl l_onClear in Hset.
  specialize (Hset Hkey (Hlab1 key Hkey) Htruthy1).
  rewrite Hpjoin, Hjoin in Hset. specialize (Hset ltac:(done) Hid Hget1 Hl1).
  specialize (Hset (or_introl Hnc)). rewrite Hobj in Hset.
  specialize (Hset eq_refl Hcf).
  rewrite Hobj in Hstart. specialize (Hset Hstart (hookOf_quiet prog bs)).
  rewrite length_fmap in Hset. specialize (Hset ltac:(lia)).
  set (L2 := Link id2 (VFn (FResolve pr)) (o_label o) [] (p_onClear p)) in *.
  set (sA := push_link L2 (allocClosure p g id2 (VFn (FResolve pr)) st1)) in *.
  set (pc := with_id (with_replacedBy p l2) id1) in *.
  set (sC := cleared pc l1 sA) in *.
  (* the state in which the hooks of the prior holder have run *)
  assert (HlenA : length (heap sA) = S l2).
  { unfold sA. simpl. rewrite heap_allocClosure, Hh1, length_app. simpl.
    change (heap stP) with (heap st). unfold l2. lia. }
  assert (HlinkA1 : getLink sA l1 = getLink st l1).
  { unfold sA. rewrite getLink_push_link_old
      by (rewrite heap_allocClosure, Hh1; exact Hl1).
    unfold getLink. by rewrite heap_allocClosure, Hh1. }
  assert (HlinkA2 : getLink sA l2 = L2).
  { unfold sA, l2. change (heap st) with (heap stP). rewrite <- Hh1.
    rewrite <- (heap_allocClosure p g id2 (VFn (FResolve pr)) st1).
    apply getLink_push_link_new. }
  set (base := removed (p_name pc) (truthyStr (p_group pc)) (getLink sA l1) sA).
  destruct (cleared_frame pc l1 sA) as (F1 & F2 & F3 & F4 & F5).
  fold c base sC in F1, F2, F3, F4, F5.
  rewrite HlinkA1, Hlink1 in F1, F2, F3, F4, F5. simpl l_onClear in *.
  destruct (bridgeHooks_effect c l2 (hookOf <$> bs)) with (bs := bs) (st := base)
    as (E1 & E2 & E3 & E4 & E5 & E6 & E7 & E8).
  { done. }
  { simpl. by rewrite Hpjoin. }
  { simpl. lia. }
  { by rewrite length_fmap. }
  { change (getLink base (ctx_link c)) with (getLink sA l1).
    by rewrite HlinkA1, Hlink1. }
  { change (heap base) with (heap sA). lia. }
  change (getLink base l2) with (getLink sA l2) in E1. rewrite HlinkA2 in E1.
  simpl in E1. rewrite Hoc in E1. simpl in E1.
  assert (HlocC : ∀ name' g', getLocal name' g' sC = getLocal name' g' base).
  { intros name' g'. apply getLocal_cache. by rewrite F5, E3. }
  assert (HlinkC : ∀ l, getLink sC l = getLink (hooksEffect (hookOf <$> bs) c base) l).
  { intros l. unfold getLink. by rewrite F1. }
  destruct (install_frame p id2 l2 sC) as (G1 & G2 & G3 & G4).
  exists id2, (install p id2 l2 sC).
  split; [|split; [|split; [|split; [|split; [|split]]]]].
  - unfold bridge. fold pr stP p. by rewrite Hset.
  - split; [|split; [|split; [|split; [|split; [|split]]]]].
    + rewrite G2, F2, E4. change (closures base) with (closures sA).
      unfold sA. simpl. unfold allocClosure. rewrite Hobj in Hwrapped.
      rewrite Hwrapped. simpl. rewrite Hcls1. change (closures stP) with (closures st).
      rewrite lookup_app_r by lia. rewrite Nat.sub_diag. simpl.
      by rewrite Hname, Hlab, Hint.
    + rewrite <- Hname. unfold g. rewrite <- Hgrp.
      rewrite links_install. apply Map_get_set_eq.
    + rewrite <- Hname. unfold g. rewrite <- Hgrp.
      rewrite links_install. apply Map_wf_set.
      rewrite HlocC. unfold base, removed.
      rewrite links_labels_set, links_links_delete. apply Map_wf_delete.
      simpl p_name. simpl p_group.
      rewrite (getLocal_cache sA stP)
        by (unfold sA; simpl; by rewrite cache_allocClosure).
      rewrite HlocP, Hname, Hgrp. exact Hwf.
    + rewrite G1, F1, E5. change (heap base) with (heap sA). lia.
    + assert (Hg : getLink (install p id2 l2 sC) l2 = getLink sC l2)
        by (unfold getLink; by rewrite G1).
      rewrite Hg, HlinkC, E1, hookOf_nextHooks. done.
    + exact Htruthy2.
    + intros key' Hkey'. rewrite <- Hname. unfold g. rewrite <- Hgrp.
      apply labels_install. by rewrite Hlab.
  - rewrite G3, F3, E7. change (promises base) with (promises sA).
    unfold sA. simpl. unfold allocClosure.
    destruct (isWrapped p (VFn (FResolve pr))); simpl; rewrite Hp1; simpl;
      rewrite length_app; simpl; lia.
  - intros q. rewrite G3, F3, E8.
    assert (HpA : promises base = promises st ++ [Pending]).
    { change (promises base) with (promises sA). unfold sA. simpl. unfold allocClosure.
      by destruct (isWrapped p (VFn (FResolve pr))); simpl; rewrite Hp1. }
    by rewrite HpA.
  - rewrite G1, F1, E5. change (heap base) with (heap sA). lia.
  - rewrite G2, F2, E4. change (closures base) with (closures sA).
    unfold sA. simpl. unfold allocClosure. rewrite Hobj in Hwrapped.
    rewrite Hwrapped. simpl. rewrite length_app, Hcls1. simpl.
    change (closures stP) with (closures st). lia.
  - rewrite G4, F4, E6. change (next_handle base) with (next_handle sA).
    unfold sA. simpl. unfold allocClosure.
    by destruct (isWrapped p (VFn (FResolve pr))).
Qed.

End BridgeReplace.

(** X10. Two promise bridges called one after the other with the same
    label and [join: "replace"]: the second call clears the task of the
    first, whose handler forwards its bridge to the new Link instead of
    rejecting; when the wrapper of the second task fires with [args], both
    promises are resolved with [args]. *)
Theorem replace_forwards_to_successor prog f m mk o key args st :
  let pr := length (promises st) in
  let name := p_name (mk VUndef noOpts) in
  let g := truthyStr (o_group o) in
  oneShot mk →
  o_join o = Some JoinReplace →
  truthyStr (o_label o) = Some key →
  truthy (labels_get (getLocal name g st) (labelKey (o_label o))) = false →
  Map_wf (links (getLocal name g st)) →
  (0 < next_handle st)%Z →
  6 ≤ f →
  ∃ st1 st2 st3,
    bridge prog f mk o st = Ok pr st1
    ∧ bridge prog f mk o st1 = Ok (S pr) st2
    ∧ promises st2 !! pr = Some Pending
    ∧ promises st2 !! S pr = Some Pending
    ∧ run prog (S (S (S (S m)))) (KCallFn (FWrapped (S (length (closures st)))) args) st2
      = Ok VUndef st3
    ∧ promises st3 !! pr = Some (Resolved args)
    ∧ promises st3 !! S pr = Some (Resolved args).
Proof.
  intros pr name g Hone Hjoin Hkey Hvac Hwf Hh Hf.
  destruct f as [|[|n]]; [lia | lia |].
  destruct (bridge_vacant prog (S n) mk o st Hone Hvac Hwf Hh)
    as (id1 & st1 & Hrun1 & Hholds1 & Hprom1 & Hheap1 & Hcls1 & Hh1).
  fold pr name g in Hrun1, Hholds1.
  change [promiseClear pr] with (hookOf <$> [(true, pr)]) in Hholds1.
  destruct (bridge_replace prog n mk o key id1 (length (heap st)) (length (closures st))
              pr [] [(true, pr)] st1 Hone Hjoin Hkey Hholds1)
    as (id2 & st2 & Hrun2 & Hholds2 & _ & Hprom2 & _);
    [simpl; unfold MAX_PROMISE_DEPTH; lia | done | simpl; lia |].
  assert (Hlen1 : length (promises st1) = S pr).
  { rewrite Hprom1, length_app. simpl. unfold pr. lia. }
  rewrite Hlen1 in Hrun2. rewrite Hlen1, Hheap1, Hcls1 in Hholds2.
  assert (Hp2 : ∀ q, promises st2 !! q = (promises st ++ [Pending; Pending]) !! q).
  { intros q. rewrite Hprom2, Hprom1. rewrite <- app_assoc. done. }
  assert (Hpend1 : promises st2 !! pr = Some Pending).
  { rewrite Hp2, lookup_app_r by (unfold pr; lia). unfold pr. by rewrite Nat.sub_diag. }
  assert (Hpend2 : promises st2 !! S pr = Some Pending).
  { rewrite Hp2, lookup_app_r by (unfold pr; lia). unfold pr.
    by replace (S (length (promises st)) - length (promises st)) with 1 by lia. }
  destruct (bridge_fire prog name g (o_label o) id2 (S (length (heap st)))
              (S (length (closures st))) (S pr) (qsOf [(true, pr)])
              (hookOf <$> nextHooks (S pr) [(true, pr)]) args (S (S (S m))) st2 Hholds2)
    as (st3 & Hfire & _ & Hps); [simpl; lia|].
  exists st1, st2, st3. split; [exact Hrun1|]. split; [exact Hrun2|].
  split; [exact Hpend1|]. split; [exact Hpend2|]. split; [exact Hfire|]. split.
  - rewrite Hps, decide_True by (right; left). by rewrite Hpend1.
  - rewrite Hps, decide_True by left. by rewrite Hpend2.
Qed.

(** X11. Three promise bridges called one after the other with the same
    label and [join: "replace"]: the third call rejects the promise of the
    first.  The [reject] of the first bridge was appended as a clear hook
    to the second Link when the first was replaced, and the hooks of the
    second Link run when the third call replaces it.  The promises of the
    second and the third bridge stay pending, and are resolved when the
    wrapper of the third task fires; the first stays rejected. *)
Theorem third_replace_rejects_first prog f m mk o key args st :
  let pr := length (promises st) in
  let name := p_name (mk VUndef noOpts) in
  let g := truthyStr (o_group o) in
  oneShot mk →
  o_join o = Some JoinReplace →
  truthyStr (o_label o) = Some key →
  truthy (labels_get (getLocal name g st) (labelKey (o_label o))) = false →
  Map_wf (links (getLocal name g st)) →
  (0 < next_handle st)%Z →
  8 ≤ f →
  ∃ st1 st2 st3 st4 c,
    bridge prog f mk o st = Ok pr st1
    ∧ bridge prog f mk o st1 = Ok (S pr) st2
    ∧ promises st2 !! pr = Some Pending
    ∧ bridge prog f mk o st2 = Ok (S (S pr)) st3
    ∧ ctx_link c = S (length (heap st))
    ∧ p_replacedBy (ctx_p c) = Some (S (S (length (heap st))))
    ∧ promises st3 !! pr = Some (Rejected [ACtx c])
    ∧ promises st3 !! S pr = Some Pending
    ∧ promises st3 !! S (S pr) = Some Pending
    ∧ run prog (S (S (S (S (S m))))) (KCallFn (FWrapped (S (S (length (closures st))))) args)
        st3 = Ok VUndef st4
    ∧ promises st4 !! pr = Some (Rejected [ACtx c])
    ∧ promises st4 !! S pr = Some (Resolved args)
    ∧ promises st4 !! S (S pr) = Some (Resolved args).
Proof.
  intros pr name g Hone Hjoin Hkey Hvac Hwf Hh Hf.
  destruct f as [|[|n]]; [lia | lia |].
  destruct (bridge_vacant prog (S n) mk o st Hone Hvac Hwf Hh)
    as (id1 & st1 & Hrun1 & Hholds1 & Hprom1 & Hheap1 & Hcls1 & Hh1).
  fold pr name g in Hrun1, Hholds1.
  change [promiseClear pr] with (hookOf <$> [(true, pr)]) in Hholds1.
  destruct (bridge_replace prog n mk o key id1 (length (heap st)) (length (closures st))
              pr [] [(true, pr)] st1 Hone Hjoin Hkey Hholds1)
    as (id2 & st2 & Hrun2 & Hholds2 & Hlen2 & Hprom2 & Hheap2 & Hcls2 & Hh2);
    [simpl; unfold MAX_PROMISE_DEPTH; lia | done | simpl; lia |].
  assert (Hlen1 : length (promises st1) = S pr).
  { rewrite Hprom1, length_app. simpl. unfold pr. lia. }
  rewrite Hlen1 in Hrun2. rewrite Hlen1, Hheap1, Hcls1 in Hholds2.
  rewrite Hlen1 in Hlen2. rewrite Hheap1 in Hheap2. rewrite Hcls1 in Hcls2.
  assert (Hp2 : ∀ q, promises st2 !! q = (promises st ++ [Pending; Pending]) !! q).
  { intros q. rewrite Hprom2, Hprom1. rewrite <- app_assoc. done. }
  assert (Hpend1 : promises st2 !! pr = Some Pending).
  { rewrite Hp2, lookup_app_r by (unfold pr; lia). unfold pr. by rewrite Nat.sub_diag. }
  assert (Hpend2 : promises st2 !! S pr = Some Pending).
  { rewrite Hp2, lookup_app_r by (unfold pr; lia). unfold pr.
    by replace (S (length (promises st)) - length (promises st)) with 1 by lia. }
  destruct (bridge_replace prog n mk o key id2 (S (length (heap st)))
              (S (length (closures st))) (S pr) (qsOf [(true, pr)])
              (nextHooks (S pr) [(true, pr)]) st2 Hone Hjoin Hkey Hholds2)
    as (id3 & st3 & Hrun3 & Hholds3 & Hlen3 & Hprom3 & _);
    [simpl; unfold MAX_PROMISE_DEPTH; lia | done | simpl; lia |].
  rewrite Hlen2 in Hrun3. rewrite Hlen2, Hheap2, Hcls2 in Hholds3.
  rewrite Hlen2, Hheap2 in Hprom3.
  set (c := Ctx (with_id (with_replacedBy
                            (mk (VFn (FResolve (S (S pr)))) (bridgeOpts o (S (S pr))))
                            (S (S (length (heap st))))) id2)
              (S (length (heap st))) "clearAsync") in *.
  assert (Hrej : rejOf (nextHooks (S pr) [(true, pr)]) = [pr]) by reflexivity.
  assert (Hqs : qsOf (nextHooks (S pr) [(true, pr)]) = [S pr; pr]) by reflexivity.
  rewrite Hrej in Hprom3. rewrite Hqs in Hholds3.
  assert (Hp3a : promises st3 !! pr = Some (Rejected [ACtx c])).
  { rewrite Hprom3, decide_True by left.
    rewrite lookup_app_l by (rewrite Hlen2; lia). by rewrite Hpend1. }
  assert (Hp3b : promises st3 !! S pr = Some Pending).
  { rewrite Hprom3, decide_False by (intros H; apply list_elem_of_singleton in H; lia).
    rewrite lookup_app_l by (rewrite Hlen2; lia). exact Hpend2. }
  assert (Hp3c : promises st3 !! S (S pr) = Some Pending).
  { rewrite Hprom3, decide_False by (intros H; apply list_elem_of_singleton in H; lia).
    rewrite lookup_app_r by (rewrite Hlen2; lia). rewrite Hlen2.
    by rewrite Nat.sub_diag. }
  destruct (bridge_fire prog name g (o_label o) id3 (S (S (length (heap st))))
              (S (S (length (closures st)))) (S (S pr)) [S pr; pr]
              (hookOf <$> nextHooks (S (S pr)) (nextHooks (S pr) [(true, pr)]))
              args (S (S (S (S m)))) st3 Hholds3)
    as (st4 & Hfire & _ & Hps); [simpl; lia|].
  exists st1, st2, st3, st4, c.
  split; [exact Hrun1|]. split; [exact Hrun2|]. split; [exact Hpend1|].
  split; [exact Hrun3|]. split; [done|]. split; [done|].
  split; [exact Hp3a|]. split; [exact Hp3b|]. split; [exact Hp3c|].
  split; [exact Hfire|]. split; [|split].
  - rewrite Hps, decide_True by (right; right; left). by rewrite Hp3a.
  - rewrite Hps, decide_True by (right; left). by rewrite Hp3b.
  - rewrite Hps, decide_True by left. by rewrite Hp3c.
Qed.

(** The adapters under the promise bridges are single-shot. *)
Lemma oneShot_setTimeout : oneShot setTimeoutParams.
Proof.
  intros f o. repeat split; try done.
  - by exists (WHost "setTimeout").
  - intros d [= <-]. by eexists.
Qed.

Lemma oneShot_setImmediate : oneShot setImmediateParams.
Proof.
  intros f o. repeat split; try done.
  - by exists (WHost "setImmediate").
  - intros d [= <-]. by eexists.
Qed.

Lemma oneShot_requestIdleCallback : oneShot requestIdleCallbackParams.
Proof.
  intros f o. repeat split; try done.
  - by exists (WHost "requestIdleCallback").
  - intros d [= <-]. by eexists.
Qed.

Lemma oneShot_requestAnimationFrame : oneShot requestAnimationFrameParams.
Proof.
  intros f o. repeat split; try done.
  - by exists (WHost "requestAnimationFrame").
  - intros d [= <-]. by eexists.
Qed.


(** ** Bulk clears: one cache object, then all of a kind *)

Section BulkEffect.

Variable prog : nat -> ufun.

Lemma hooksEffect_rel c hs :
  Forall (fun h => quietFn prog h = true) hs →
  ∀ st, quietRel (p_replacedBy (ctx_p c)) st (hooksEffect hs c st).
Proof.
  induction hs as [|h hs IH]; intros Hall st.
  - apply quietRel_refl.
  - apply Forall_cons in Hall as [Hq Hall]. rewrite hooksEffect_cons.
    eapply quietRel_trans; [|by apply IH].
    eapply quietRel_trans;
      [|exact (proj2 (quietRel_effect prog h c (log (EHook h c) st) Hq))].
    unfold quietRel. repeat split; done.
Qed.

(** The state after a clear by id, when nothing replaces the Link: only
    the cache object of the Link has changed. *)
Lemma cleared_plain pc l st D :
  p_replacedBy pc = None →
  Forall (fun h => quietFn prog h = true ∧ fnDepth h ≤ D) (l_onClear (getLink st l)) →
  cache (cleared pc l st)
  = cache (removed (p_name pc) (truthyStr (p_group pc)) (getLink st l) st)
  ∧ ∀ l', getLink (cleared pc l st) l' = getLink st l'.
Proof.
  intros Hrb Hquiet.
  destruct (cleared_frame pc l st) as (F1 & _ & _ & _ & F5). cbv zeta in F1, F5.
  pose proof (hooksEffect_rel (Ctx pc l "clearAsync") (l_onClear (getLink st l))) as Hrel.
  specialize (Hrel ltac:(eapply Forall_impl; [exact Hquiet | by intros ? [? _]])
                (removed (p_name pc) (truthyStr (p_group pc)) (getLink st l) st)).
  simpl in Hrel. rewrite Hrb in Hrel.
  destruct Hrel as (Hc & _ & _ & _ & _ & _ & Hl). split.
  - by rewrite F5, Hc.
  - intros l'. destruct (Hl l') as [Hsame _].
    unfold getLink at 1. rewrite F1. fold (getLink
      (hooksEffect (l_onClear (getLink st l)) (Ctx pc l "clearAsync")
         (removed (p_name pc) (truthyStr (p_group pc)) (getLink st l) st)) l').
    by rewrite Hsame.
Qed.

(** The loop of a bulk clear over a Map whose Links have quiet hooks:
    [done] is the part of the entry list behind the iterator.  Only the
    cache object that is walked changes. *)
Lemma bulk_frame p D H :
  let name := p_name p in
  let g := truthyStr (p_group p) in
  truthyStr (p_label p) = None →
  p_replacedBy p = None →
  (∀ d, p_clearFn p = Some d → ∃ prim, d = DHost prim) →
  ∀ todo done n st,
    links (getLocal name g st) = done ++ todo →
    Map_wf (done ++ todo) →
    (∀ k l, Some (k, l) ∈ todo → quietLink prog D H st k l) →
    length todo + H + D + 3 ≤ n →
    ∃ st',
      run prog n (KBulk p (length done)) st = Ok VUndef st'
      ∧ Map_values (links (getLocal name g st')) = Map_values done
      ∧ length (links (getLocal name g st')) = length (done ++ todo)
      ∧ Map_wf (links (getLocal name g st'))
      ∧ (∀ l, getLink st' l = getLink st l)
      ∧ (∀ name' g', ¬ (name' = name ∧ g' = g) →
                     getLocal name' g' st' = getLocal name' g' st).
Proof.
  intros name g Hlabel Hrb Hcf.
  induction todo as [|[[k l]|] todo IH]; intros done n st Hm Hwf Hok Hn.
  - destruct n as [|n]; [lia|]. rewrite run_S. unfold step, bulk. fold name g.
    rewrite Hm, Map_next_end by (rewrite app_nil_r; lia).
    exists st. split; [done|]. rewrite Hm. split; [by rewrite app_nil_r|].
    repeat split; done.
  - destruct n as [|[|n]]; [lia | lia |].
    destruct (Hok k l) as (Hid & Hnn & Hq & Hlen); [left|].
    assert (Hget : Map_get k (links (getLocal name g st)) = Some l).
    { rewrite Hm. apply Map_get_middle. by eapply Map_wf_middle. }
    assert (Hrun1 : run prog (S n) (KClearAsync (with_id p k)) st
                    = Ok VUndef (cleared (with_id p k) l st)).
    { apply (clearAsync_effect prog n (with_id p k) (with_id p k) l st D); try done.
      - unfold resolveId. simpl. by rewrite Hlabel.
      - simpl. by rewrite Hrb.
      - simpl in Hn. lia. }
    destruct (cleared_plain (with_id p k) l st D) as (Hc & Hl); [done | done |].
    simpl p_name in Hc. simpl p_group in Hc. fold name g in Hc.
    set (sC := cleared (with_id p k) l st) in *.
    assert (HlocC : ∀ name' g',
      getLocal name' g' sC = getLocal name' g' (removed name g (getLink st l) st)).
    { intros name' g'. by apply getLocal_cache. }
    destruct (IH (done ++ [None]) (S n) sC) as (st' & Hrun' & Hvals & Hlen' & Hwf' & Hlinks & Hframe).
    { rewrite HlocC. unfold removed. rewrite links_labels_set, links_links_delete.
      rewrite Hm, Hid, Map_delete_middle by (by eapply Map_wf_middle).
      by rewrite <- app_assoc. }
    { rewrite <- app_assoc. by eapply Map_wf_emptied. }
    { intros k' l' Hin. apply (quietLink_ext prog D H st); [apply Hl|].
      apply Hok. by right. }
    { simpl in Hn. lia. }
    rewrite length_app in Hrun'. simpl in Hrun'. rewrite Nat.add_1_r in Hrun'.
    exists st'. split; [|split; [|split; [|split; [|split]]]].
    + rewrite run_S. unfold step, bulk. fold name g.
      rewrite Hm, Map_next_here, Hid.
      change (run prog (S n) (KClearAsync (with_id p k)) st)
        with (run prog (S n) (KClearAsync (with_id p k)) st).
      rewrite Hrun1. exact Hrun'.
    + rewrite Hvals, Map_values_app. simpl. by rewrite app_nil_r.
    + rewrite Hlen', !length_app. simpl. lia.
    + exact Hwf'.
    + intros l'. rewrite Hlinks. apply Hl.
    + intros name' g' Hne. rewrite Hframe by done. rewrite HlocC.
      unfold removed. rewrite getLocal_labels_set, decide_False by done.
      by rewrite getLocal_links_delete, decide_False.
  - destruct (IH (done ++ [None]) n st) as (st' & Hrun' & Hvals & Hlen' & Hwf' & Hlinks & Hframe).
    { by rewrite <- app_assoc. }
    { by rewrite <- app_assoc. }
    { intros k' l' Hin. apply Hok. by right. }
    { simpl in Hn. lia. }
    rewrite length_app in Hrun'. simpl in Hrun'. rewrite Nat.add_1_r in Hrun'.
    exists st'. split; [|split; [|split; [|split; [|split]]]]; try done.
    + rewrite bulk_skip; [done|]. fold name g. rewrite Hm. apply Map_next_skip.
    + rewrite Hvals, Map_values_app. simpl. by rewrite app_nil_r.
    + rewrite Hlen', !length_app. simpl. lia.
Qed.

(** [clearAsync] with neither id nor label on one cache object. *)
Lemma clearAsync_bulk n p st D H :
  let name := p_name p in
  let g := truthyStr (p_group p) in
  truthyStr (p_label p) = None →
  p_id p = VUndef →
  p_replacedBy p = None →
  (∀ d, p_clearFn p = Some d → ∃ prim, d = DHost prim) →
  Map_wf (links (getLocal name g st)) →
  (∀ k l, Some (k, l) ∈ links (getLocal name g st) → quietLink prog D H st k l) →
  length (links (getLocal name g st)) + H + D + 3 ≤ n →
  ∃ st',
    run prog (S n) (KClearAsync p) st = Ok VUndef st'
    ∧ Map_values (links (getLocal name g st')) = []
    ∧ length (links (getLocal name g st')) = length (links (getLocal name g st))
    ∧ Map_wf (links (getLocal name g st'))
    ∧ (∀ l, getLink st' l = getLink st l)
    ∧ (∀ name' g', ¬ (name' = name ∧ g' = g) →
                   getLocal name' g' st' = getLocal name' g' st).
Proof.
  intros name g Hlabel Hid Hrb Hcf Hwf Hok Hn.
  rewrite run_S. unfold step, clearAsync. fold name g.
  destruct (match g with
            | Some g' => hasGroup name g' (initCache name st)
            | None => true
            end) eqn:Hgrp.
  - unfold resolveId. rewrite Hlabel, Hid. simpl.
    destruct (bulk_frame p D H Hlabel Hrb Hcf (links (getLocal name g st)) [] n
                (initCache name st))
      as (st' & Hrun & Hvals & Hlen & Hwf' & Hlinks & Hframe).
    { by rewrite getLocal_initCache. }
    { done. }
    { intros k l Hin. apply (quietLink_ext prog D H st); [|by apply Hok].
      apply getLink_initCache. }
    { lia. }
    exists st'. split; [exact Hrun|]. split; [exact Hvals|]. split; [exact Hlen|].
    split; [exact Hwf'|]. split.
    + intros l. rewrite Hlinks. apply getLink_initCache.
    + intros name' g' Hne. rewrite Hframe by done. apply getLocal_initCache.
  - exists (initCache name st). split; [done|].
    assert (Hm : links (getLocal name g st) = []).
    { unfold getLocal. destruct g as [s|]; [|done].
      rewrite hasGroup_initCache in Hgrp. unfold hasGroup in Hgrp.
      destruct (cache st !! name) as [co|]; [|done].
      destruct (groups co !! s) eqn:Hs; [|done].
      apply bool_decide_eq_false_1 in Hgrp. exfalso. apply Hgrp. by eexists. }
    rewrite !getLocal_initCache, Hm. repeat split; try done.
    + unfold Map_wf. apply NoDup_nil_2.
    + intros l. apply getLink_initCache.
    + intros name' g' _. apply getLocal_initCache.
Qed.

End BulkEffect.

Section ClearAll.

Variable prog : nat -> ufun.
Variable name : string.
Variable d : option destructor_t.
Variables D H n : nat.
Variable st : state.

Hypothesis d_host : ∀ x, d = Some x → ∃ prim, x = DHost prim.
Hypothesis st_wf : ∀ g, Map_wf (links (getLocal name g st)).
Hypothesis st_quiet :
  ∀ g k l, Some (k, l) ∈ links (getLocal name g st) → quietLink prog D H st k l.
Hypothesis st_fuel : ∀ g, length (links (getLocal name g st)) + H + D + 3 ≤ n.

Lemma bulkInv_refl : bulkInv name st st.
Proof. split; [done|]. split; [done|]. intros g. by right. Qed.

Lemma bulkInv_initCache s : bulkInv name st s → bulkInv name st (initCache name s).
Proof.
  intros (I1 & I2 & I3). split; [|split].
  - intros l. rewrite getLink_initCache. apply I1.
  - intros name' g' Hne. rewrite getLocal_initCache. by apply I2.
  - intros g. rewrite !getLocal_initCache. apply I3.
Qed.

(** One cache object of the kind is cleared. *)
Lemma bulkInv_step s grp :
  bulkInv name st s →
  ∃ s',
    run prog (S n) (KClearAsync (clearParams name d VUndef None grp)) s = Ok VUndef s'
    ∧ bulkInv name st s'
    ∧ Map_values (links (getLocal name (truthyStr grp) s')) = []
    ∧ (∀ g, Map_values (links (getLocal name g s)) = [] →
            Map_values (links (getLocal name g s')) = [])
    ∧ (∀ g, g ≠ truthyStr grp → getLocal name g s' = getLocal name g s).
Proof.
  intros (I1 & I2 & I3).
  set (p := clearParams name d VUndef None grp).
  set (g := truthyStr grp).
  destruct (clearAsync_bulk prog n p s D H)
    as (s' & Hrun & Hvals & Hlen & Hwf & Hlinks & Hframe); try done.
  - simpl. destruct (I3 g) as [(_ & Hwf & _)|Heq]; [done|].
    fold g. rewrite Heq. apply st_wf.
  - simpl. fold g. intros k l Hin.
    destruct (I3 g) as [(Hnil & _)|Heq].
    + assert (Hl : l ∈ Map_values (links (getLocal name g s)))
        by (apply Map_values_entry; by exists k).
      rewrite Hnil in Hl. by apply elem_of_nil in Hl.
    + apply (quietLink_ext prog D H st); [apply I1|].
      apply (st_quiet g). by rewrite <- Heq.
  - simpl. fold g. destruct (I3 g) as [(_ & _ & Hl)|Heq].
    + rewrite Hl. apply st_fuel.
    + rewrite Heq. apply st_fuel.
  - simpl in Hvals, Hlen, Hwf, Hframe. fold g in Hvals, Hlen, Hwf, Hframe.
    exists s'. split; [exact Hrun|]. split; [|split; [exact Hvals|split]].
    + split; [|split].
      * intros l. rewrite Hlinks. apply I1.
      * intros name' g' Hne. rewrite Hframe by (intros [? _]; done). by apply I2.
      * intros g'. destruct (decide (g' = g)) as [->|Hg].
        -- left. split; [done|]. split; [done|]. rewrite Hlen.
           destruct (I3 g) as [(_ & _ & Hl)|Heq]; [done | by rewrite Heq].
        -- rewrite Hframe by (intros [_ ?]; done). apply I3.
    + intros g' Hnil. destruct (decide (g' = g)) as [->|Hg]; [done|].
      by rewrite Hframe by (intros [_ ?]; done).
    + intros g' Hg. by rewrite Hframe by (intros [_ ?]; done).
Qed.

(** The loop of [clearAllAsync] over the groups: the cache objects of the
    keys are emptied, the others are left as they are. *)
Lemma clearGroups_empties keys :
  ∀ s,
    bulkInv name st s →
    ∃ s',
      clearGroups prog (S n) (clearParams name d VUndef None None) keys s = Ok VUndef s'
      ∧ bulkInv name st s'
      ∧ (∀ k, k ∈ keys → Map_values (links (getLocal name (truthyStr (Some k)) s')) = [])
      ∧ (∀ g, Map_values (links (getLocal name g s)) = [] →
              Map_values (links (getLocal name g s')) = [])
      ∧ (∀ g, (∀ k, k ∈ keys → truthyStr (Some k) ≠ g) →
              getLocal name g s' = getLocal name g s).
Proof.
  induction keys as [|k keys IH]; intros s Hinv.
  - exists s. split; [done|]. split; [done|]. split; [|done].
    intros k Hk. by apply elem_of_nil in Hk.
  - destruct (bulkInv_step s (Some k) Hinv)
      as (s1 & Hrun1 & Hinv1 & Hnil1 & Hmono1 & Hframe1).
    destruct (IH s1 Hinv1) as (s' & Hrun' & Hinv' & Hkeys & Hmono' & Hframe').
    exists s'. split; [|split; [exact Hinv'|split; [|split]]].
    + change (clearGroups prog (S n) (clearParams name d VUndef None None) (k :: keys) s)
        with (let! (_, x) :=
                run prog (S n) (KClearAsync (clearParams name d VUndef None (Some k))) s in
              clearGroups prog (S n) (clearParams name d VUndef None None) keys x).
      rewrite Hrun1. exact Hrun'.
    + intros k' Hk'. apply elem_of_cons in Hk' as [->|Hk']; [|by apply Hkeys].
      by apply Hmono'.
    + intros g Hnil. by apply Hmono', Hmono1.
    + intros g Hg. rewrite Hframe'.
      * apply Hframe1. intros Heq. apply (Hg k); [left | done].
      * intros k' Hk'. apply Hg. by right.
Qed.

End ClearAll.

(** X12. A clear method called with no argument ([clearTimeout()],
    [terminateWorker()], ...) goes through [clearAllAsync]: the root cache
    object of the kind is cleared, then every group that [Object.keys]
    lists.  [Object.keys] lists the keys that are strings and leaves out
    the keys that are symbols, which the record of groups can hold as
    well; [listed] tells the two apart.  When the hooks of the Links are
    quiet and the destructor is a function of the host, no task of the
    kind is left in the root or in a listed group, while a group that is
    not listed keeps its tasks: it is as before the call.  The cache
    objects of the other kinds and the Links themselves are untouched. *)
Theorem clear_all_empties_the_kind prog objectKeys (listed : string → Prop)
    name d D H n st :
  (∀ m s, is_Some (m !! s) → listed s → s ∈ objectKeys m) →
  (∀ m s, s ∈ objectKeys m → listed s) →
  (∀ x, d = Some x → ∃ prim, x = DHost prim) →
  (∀ g, Map_wf (links (getLocal name g st))) →
  (∀ g k l, Some (k, l) ∈ links (getLocal name g st) → quietLink prog D H st k l) →
  (∀ g, length (links (getLocal name g st)) + H + D + 3 ≤ n) →
  ∃ st',
    clearBy prog (S n) objectKeys name d ArgUndefined st = Ok VUndef st'
    ∧ Map_values (links (getLocal name None st')) = []
    ∧ (∀ s, s ≠ "" → listed s → Map_values (links (getLocal name (Some s) st')) = [])
    ∧ (∀ s, s ≠ "" → ¬ listed s →
            getLocal name (Some s) st' = getLocal name (Some s) st)
    ∧ (∀ name' g', name' ≠ name → getLocal name' g' st' = getLocal name' g' st)
    ∧ (∀ l, getLink st' l = getLink st l).
Proof.
  intros Hkeys Hlisted Hd Hwf Hquiet Hfuel.
  set (p := clearParams name d VUndef None None).
  destruct (bulkInv_step prog name d D H n st Hd Hwf Hquiet Hfuel st None
              (bulkInv_refl name st))
    as (s1 & Hrun1 & Hinv1 & Hnil1 & _ & Hframe1).
  pose proof (bulkInv_initCache name st s1 Hinv1) as Hinv2.
  set (s2 := initCache name s1) in *.
  set (keys := objectKeys (groups (default emptyCache (cache s2 !! name)))).
  destruct (clearGroups_empties prog name d D H n st Hd Hwf Hquiet Hfuel keys s2 Hinv2)
    as (st' & Hrun' & (I1 & I2 & _) & Hcleared & Hmono & Hframe).
  assert (Hafter : afterClear p st = p) by reflexivity.
  exists st'. split; [|split; [|split; [|split; [|split; [exact I2 | exact I1]]]]].
  - unfold clearBy, clearAllAsync. unfold p in Hafter.
    rewrite Hrun1, andThen_Ok, Hafter. exact Hrun'.
  - apply Hmono. unfold s2. by rewrite getLocal_initCache.
  - intros s Hs Hl.
    assert (Hts : truthyStr (Some s) = Some s) by (simpl; by rewrite decide_False).
    destruct (groups (default emptyCache (cache s2 !! name)) !! s) as [lc|] eqn:Hg.
    + rewrite <- Hts. apply Hcleared. apply Hkeys; [by eexists | done].
    + apply Hmono. unfold getLocal.
      destruct (cache s2 !! name) as [co|]; [|done]. simpl in Hg. by rewrite Hg.
  - intros s Hs Hl. rewrite Hframe.
    + unfold s2. rewrite getLocal_initCache. by apply Hframe1.
    + intros k Hk Heq. apply Hl. simpl in Heq.
      destruct (decide (k = "")); [done|]. injection Heq as <-. exact (Hlisted _ k Hk).
Qed.

(** X13. A falsy id in the options of a clear method does not select a
    task: [clearTimeout({id: 0})] reads the id as missing and clears every
    task of the cache object, while [clearTimeout(0)] looks the id 0 up,
    finds no Link under it and clears nothing. *)
Theorem falsy_id_in_options_clears_all prog objectKeys name d id grp D H n st :
  let g := truthyStr grp in
  truthy id = false →
  notNull id = true →
  Map_get id (links (getLocal name None st)) = None →
  (∀ x, d = Some x → ∃ prim, x = DHost prim) →
  Map_wf (links (getLocal name g st)) →
  (∀ k l, Some (k, l) ∈ links (getLocal name g st) → quietLink prog D H st k l) →
  length (links (getLocal name g st)) + H + D + 3 ≤ n →
  (∃ st',
     clearBy prog (S n) objectKeys name d (ArgOptions id None grp) st = Ok VUndef st'
     ∧ Map_values (links (getLocal name g st')) = []
     ∧ (∀ name' g', ¬ (name' = name ∧ g' = g) →
                    getLocal name' g' st' = getLocal name' g' st))
  ∧ clearBy prog (S n) objectKeys name d (ArgValue id) st
    = Ok VUndef (initCache name st).
Proof.
  intros g Hfalsy Hnn Hroot Hd Hwf Hquiet Hn. split.
  - destruct (clearAsync_bulk prog n (clearParams name d VUndef None grp) st D H)
      as (st' & Hrun & Hvals & _ & _ & _ & Hframe); try done.
    exists st'. split; [|split; [exact Hvals | exact Hframe]].
    unfold clearBy, clearDescriptor. simpl getIfNotObject. unfold orElse.
    rewrite Hfalsy. exact Hrun.
  - unfold clearBy, clearDescriptor. simpl getIfNotObject.
    change (orElse VUndef id) with id.
    rewrite run_S. unfold step, clearAsync. simpl. unfold resolveId. simpl.
    by rewrite Hnn, getLocal_initCache, Hroot.
Qed.

Lemma hasGroup_exists name s st :
  cacheExists name (Some s) st → hasGroup name s st = true.
Proof.
  unfold cacheExists, hasGroup. destruct (cache st !! name); [|done].
  intros Hs. by apply bool_decide_eq_true_2.
Qed.

(** X15. A request registered with [request(req)] is stored under the
    request object itself.  When the request settles and the host calls the
    wrapper, the Link leaves the registry and the completion handlers are
    chained on the request with [then]; a later [cancelRequest] for it
    finds nothing: it changes nothing and [abort] is not called. *)
Theorem settled_request_is_not_aborted prog objectKeys n m r o args st :
  let g := truthyStr (o_group o) in
  let l := length (heap st) in
  o_promiseLike (getObject st r) = true →
  truthy (labels_get (getLocal "request" g st) (labelKey (o_label o))) = false →
  Map_wf (links (getLocal "request" g st)) →
  ∃ st1 st2,
    request prog (S n) (VObj r) o st = Ok (VObj r) st1
    ∧ Map_get (VObj r) (links (getLocal "request" g st1)) = Some l
    ∧ run prog (S m) (KCallFn (FWrapped (length (closures st))) args) st1
      = Ok (VObj r) st2
    ∧ trace st2
      = trace st1 ++ [ELinksDelete "request" g (VObj r); EThen (VObj r) l]
    ∧ Map_get (VObj r) (links (getLocal "request" g st2)) = None
    ∧ cancelRequest prog (S m) objectKeys (ArgOptions (VObj r) None (o_group o)) st2
      = Ok VUndef st2.
Proof.
  intros g l Hpl Hvac Hwf.
  set (p := requestParams (VObj r) o).
  destruct (prepared_frame p st) as (Hh0 & Hc0 & Ht0 & _ & Ho0 & _ & _ & Hloc0).
  set (st0 := prepared p st) in *.
  set (cb := wrapperRef p (p_obj p) st0).
  set (st1 := log (EStart WThen "request" cb (VObj (next_object st0)))
                (new_object (JsObj VUndef VUndef VUndef VUndef true false) st0)).
  assert (Hstart : startPrimitive p cb (p_obj p) st0 = Ok (VObj r) st1).
  { unfold startPrimitive, callWrapper. simpl.
    unfold getObject. rewrite Ho0. fold (getObject st r). by rewrite Hpl. }
  pose proof (setAsync_vacant prog n p st (VObj r) st1 Hvac (or_intror eq_refl)
                eq_refl Hstart) as Hset.
  set (sr := registered p (VObj r) st1) in *.
  assert (Hl1 : length (heap st1) = l) by (unfold st1; simpl; by rewrite Hh0).
  assert (Hloc1 : ∀ name' g', getLocal name' g' st1 = getLocal name' g' st).
  { intros name' g'. rewrite <- Hloc0. by apply getLocal_cache. }
  assert (Hlinks : links (getLocal "request" g sr)
                   = Map_set (VObj r) l (links (getLocal "request" g st))).
  { pose proof (links_registered p (VObj r) st1) as Hlr.
    change (links (getLocal "request" g sr)
            = Map_set (VObj r) (length (heap st1)) (links (getLocal "request" g st1)))
      in Hlr.
    by rewrite Hlr, Hl1, Hloc1. }
  assert (Hget : Map_get (VObj r) (links (getLocal "request" g sr)) = Some l).
  { rewrite Hlinks. apply Map_get_set_eq. }
  assert (Hcl : closures sr !! length (closures st)
                = Some (Closure "request" g (VObj r) (o_label o) false (VObj r))).
  { unfold sr. rewrite closures_registered. change (closures st1) with (closures st0).
    rewrite Hc0. simpl. rewrite lookup_app_r by lia. by rewrite Nat.sub_diag. }
  set (gone := Link (VObj r) VUndef (o_label o) [] []).
  set (sX := removed "request" g gone sr).
  assert (HplX : isPromiseLike sX (VObj r) = true).
  { unfold isPromiseLike, getObject.
    change (objects sX) with (objects sr).
    assert (Hobjs : objects sr
                    = <[next_object st0 := JsObj VUndef VUndef VUndef VUndef true false]>
                        (objects st0)).
    { unfold sr, registered, install, allocClosure.
      by destruct (truthyStr (p_label p)); destruct (isWrapped p (p_obj p)). }
    rewrite Hobjs. destruct (decide (next_object st0 = r)) as [->|Hne].
    - by rewrite lookup_insert_eq.
    - rewrite lookup_insert_ne by done. rewrite Ho0. exact Hpl. }
  assert (Habsent : Map_get (VObj r) (links (getLocal "request" g sX)) = None).
  { apply (removed_absent "request" g gone sr); [|done].
    rewrite Hlinks. by apply Map_wf_set. }
  exists sr, (log (EThen (VObj r) l) sX).
  split; [exact Hset|]. split; [exact Hget|]. split.
  { rewrite run_S. unfold step, callFn. rewrite Hcl. unfold wrappedObj.
    simpl c_name. simpl c_group. simpl c_id. rewrite Hget. simpl.
    change (o_promiseLike
              (getObject (labels_set "request" g (labelKey (o_label o)) VUndef
                            (links_delete "request" g (VObj r) sr)) r))
      with (isPromiseLike sX (VObj r)).
    by rewrite HplX. }
  split; [simpl; by rewrite <- app_assoc|]. split.
  { by rewrite (getLocal_cache _ sX). }
  unfold cancelRequest, clearBy, clearDescriptor. simpl getIfNotObject.
  change (orElse (VObj r) VUndef) with (VObj r).
  rewrite run_S. unfold step, clearAsync. simpl p_name. simpl p_group. fold g.
  assert (Hex : cacheExists "request" g (log (EThen (VObj r) l) sX)).
  { apply (cacheExists_cache "request" g sX); [done|]. apply cacheExists_removed. }
  rewrite (initCache_exists "request" g) by exact Hex.
  replace (match g with
           | Some g' => hasGroup "request" g' (log (EThen (VObj r) l) sX)
           | None => true
           end) with true
    by (destruct g; [symmetry; by apply hasGroup_exists | done]).
  unfold resolveId. simpl.
  rewrite (getLocal_cache _ sX) by done. by rewrite Habsent.
Qed.

Lemma labels_registered_none p id st1 :
  truthyStr (p_label p) = None →
  labels (getLocal (p_name p) (truthyStr (p_group p)) (registered p id st1))
  = labels (getLocal (p_name p) (truthyStr (p_group p)) st1).
Proof.
  intros Hnone. unfold registered, install. rewrite Hnone.
  by rewrite labels_links_set, getLocal_alloc.
Qed.

Lemma regOk_run prog fuel c st v st' :
  regOk st → run prog fuel c st = Ok v st' → regOk st'.
Proof.
  intros Hreg Hrun. pose proof (run_keeps prog fuel c st) as Hk.
  rewrite Hrun in Hk. by apply Hk.
Qed.

(** ** The same id registered twice *)

Section Twice.

Variable prog : nat -> ufun.

(** A registration on a vacant label that returns has started the
    primitive and installed a new Link. *)
Lemma setAsync_vacant_inv n p st id st1 :
  truthy (labels_get (getLocal (p_name p) (truthyStr (p_group p)) st)
            (labelKey (p_label p))) = false →
  usesPayload p →
  run prog n (KSetAsync p) st = Ok id st1 →
  ∃ sA,
    startPrimitive p (wrapperRef p (p_obj p) (prepared p st)) (p_obj p) (prepared p st)
    = Ok id sA
    ∧ notNull (p_obj p) = true
    ∧ st1 = registered p id sA.
Proof.
  intros Hvac Hpay Hrun. destruct n as [|n]; [done|].
  rewrite run_S in Hrun. unfold step, setAsync in Hrun.
  fold (prepared p st) in Hrun.
  destruct (prepared_frame p st) as (_ & _ & _ & _ & _ & _ & _ & Hloc).
  rewrite Hloc, Hvac in Hrun. simpl in Hrun.
  assert (Hfinal : match p_obj p with
                   | VFn f =>
                       if p_needCall p then run prog n (KCallFn f []) (prepared p st)
                       else Ok (p_obj p) (prepared p st)
                   | _ => Ok (p_obj p) (prepared p st)
                   end = Ok (p_obj p) (prepared p st)).
  { destruct Hpay as [Hnc|Hnf].
    - rewrite Hnc. by destruct (p_obj p).
    - by destruct (p_obj p). }
  rewrite Hfinal in Hrun. simpl in Hrun.
  destruct (startPrimitive p _ (p_obj p) (prepared p st)) as [id' sA|?|] eqn:Hstart;
    simpl in Hrun; try done.
  destruct (notNull (p_obj p)) eqn:Hnn; [|done].
  injection Hrun as <- <-. exists sA. split; [done|]. split; [done|]. unfold registered, install. simpl. rewrite ?heap_allocClosure. reflexivity.
Qed.

(** Two registrations without a label that yield the same id in the same
    cache object: the second [links.set] replaces the entry of the first,
    and the first Link, still holding its clear hooks, is in no Map. *)
Lemma registered_twice n1 n2 p1 p2 id st st1 st2 :
  let name := p_name p1 in
  let g := truthyStr (p_group p1) in
  let l1 := length (heap st) in
  regOk st →
  p_name p2 = name →
  truthyStr (p_group p2) = g →
  truthyStr (p_label p1) = None →
  truthyStr (p_label p2) = None →
  truthy (labels_get (getLocal name g st) (labelKey (p_label p1))) = false →
  truthy (labels_get (getLocal name g st) (labelKey (p_label p2))) = false →
  usesPayload p1 →
  usesPayload p2 →
  run prog n1 (KSetAsync p1) st = Ok id st1 →
  run prog n2 (KSetAsync p2) st1 = Ok id st2 →
  Map_get id (links (getLocal name g st1)) = Some l1
  ∧ getLink st1 l1 = Link id (p_obj p1) (p_label p1) [] (p_onClear p1)
  ∧ Map_get id (links (getLocal name g st2)) = Some (S l1)
  ∧ getLink st2 (S l1) = Link id (p_obj p2) (p_label p2) [] (p_onClear p2)
  ∧ getLink st2 l1 = Link id (p_obj p1) (p_label p1) [] (p_onClear p1)
  ∧ regOk st2
  ∧ lost l1 st2.
Proof.
  intros name g l1 Hreg Hname Hgroup Hlab1 Hlab2 Hvac1 Hvac2 Hpay1 Hpay2 Hrun1 Hrun2.
  assert (Hreg1 : regOk st1) by (by eapply regOk_run).
  assert (Hreg2 : regOk st2) by (by eapply regOk_run).
  destruct (setAsync_vacant_inv n1 p1 st id st1 Hvac1 Hpay1 Hrun1)
    as (sA & HstartA & Hnn1 & ->).
  destruct (prepared_frame p1 st) as (Hh0 & _ & _ & _ & _ & _ & _ & Hloc0).
  destruct (startPrimitive_frame _ _ _ _ _ _ HstartA) as (HcA & HhA & _).
  assert (HlocA : ∀ name' g', getLocal name' g' sA = getLocal name' g' st).
  { intros name' g'. rewrite <- Hloc0. by apply getLocal_cache. }
  assert (HlenA : length (heap sA) = l1) by (by rewrite HhA, Hh0).
  set (st1 := registered p1 id sA) in *.
  assert (Hlinks1 : links (getLocal name g st1) = Map_set id l1 (links (getLocal name g st))).
  { unfold st1, name, g. rewrite links_registered. by rewrite HlenA, HlocA. }
  assert (Hheap1 : heap st1 = heap st ++ [Link id (p_obj p1) (p_label p1) [] (p_onClear p1)]).
  { unfold st1. by rewrite heap_registered, HhA, Hh0. }
  assert (Hlen1 : length (heap st1) = S l1).
  { rewrite Hheap1, length_app. simpl. unfold l1. lia. }
  assert (Hvac2' : truthy (labels_get (getLocal (p_name p2) (truthyStr (p_group p2)) st1)
                             (labelKey (p_label p2))) = false).
  { rewrite Hname, Hgroup. unfold labels_get, st1, name, g.
    rewrite (labels_registered_none p1 id sA Hlab1). rewrite HlocA.
    exact Hvac2. }
  destruct (setAsync_vacant_inv n2 p2 st1 id st2 Hvac2' Hpay2 Hrun2)
    as (sB & HstartB & Hnn2 & ->).
  destruct (prepared_frame p2 st1) as (Hh1 & _ & _ & _ & _ & _ & _ & Hloc1).
  destruct (startPrimitive_frame _ _ _ _ _ _ HstartB) as (HcB & HhB & _).
  assert (HlocB : ∀ name' g', getLocal name' g' sB = getLocal name' g' st1).
  { intros name' g'. rewrite <- Hloc1. by apply getLocal_cache. }
  assert (HlenB : length (heap sB) = S l1) by (by rewrite HhB, Hh1).
  set (st2 := registered p2 id sB) in *.
  assert (Hlinks2 : links (getLocal name g st2)
                    = Map_set id (S l1) (links (getLocal name g st1))).
  { unfold st2. pose proof (links_registered p2 id sB) as Hlr.
    rewrite Hname, Hgroup in Hlr. by rewrite Hlr, HlenB, HlocB. }
  assert (Hlink1 : getLink st1 l1 = Link id (p_obj p1) (p_label p1) [] (p_onClear p1)).
  { unfold st1. rewrite <- HlenA. apply getLink_registered_new. }
  assert (Hlink : getLink st2 l1 = Link id (p_obj p1) (p_label p1) [] (p_onClear p1)).
  { unfold st2. rewrite getLink_registered_old by lia.
    unfold getLink. rewrite HhB, Hh1. exact Hlink1. }
  split; [rewrite Hlinks1; apply Map_get_set_eq|].
  split; [exact Hlink1|].
  split; [rewrite Hlinks2; apply Map_get_set_eq|].
  split; [unfold st2; rewrite <- HlenB; apply getLink_registered_new|].
  split; [exact Hlink|]. split; [exact Hreg2|].
  split.
  - unfold st2. rewrite heap_registered, length_app, HlenB. lia.
  - intros name' g' Hv. apply Map_values_entry in Hv as (k & Hin).
    destruct Hreg2 as (W2 & R2 & _).
    destruct (R2 name' g' k l1 Hin) as [_ Hk]. rewrite Hlink in Hk. simpl in Hk.
    subst k.
    destruct (decide (name' = name ∧ g' = g)) as [[-> ->]|Hne].
    + apply Map_wf_entry_get in Hin; [|apply W2].
      rewrite Hlinks2, Map_get_set_eq in Hin. injection Hin as Hin. lia.
    + unfold st2 in Hin. rewrite getLocal_registered_ne in Hin
        by (rewrite Hname, Hgroup; exact Hne).
      rewrite HlocB in Hin. unfold st1 in Hin.
      rewrite getLocal_registered_ne in Hin by exact Hne.
      rewrite HlocA in Hin.
      destruct Hreg as (_ & R0 & _).
      destruct (R0 name' g' _ l1 Hin) as [Hlt _]. unfold l1 in Hlt. lia.
Qed.

End Twice.



Lemma objects_registered p id st1 : objects (registered p id st1) = objects st1.
Proof.
  unfold registered, install, allocClosure.
  by destruct (truthyStr (p_label p)); destruct (isWrapped p (p_obj p)).
Qed.

(** X16. The same worker registered twice without a label, with the clear
    hooks [o1] and then [o2]: the worker object is the id of both
    registrations, so the second [links.set] replaces the entry of the
    first.  The first Link, which holds the hooks of [o1], is then in no
    Map.  The next [terminateWorker] for the worker removes the second
    Link, calls the hooks of [o2] in order and terminates the worker once;
    a hook given to the first registration only is not called, and no
    later call runs a hook or the destructor for the first Link. *)
Theorem same_worker_twice_loses_the_first prog objectKeys n r o1 o2 u D st :
  let g := truthyStr (o_group o1) in
  let l1 := length (heap st) in
  let c := Ctx (clearParams "worker" (Some DWorker) (VObj r) None (o_group o1))
             (S l1) "clearAsync" in
  regOk st →
  truthyStr (o_group o2) = g →
  truthyStr (o_label o1) = None →
  truthyStr (o_label o2) = None →
  truthy (labels_get (getLocal "worker" g st) (labelKey (o_label o1))) = false →
  truthy (labels_get (getLocal "worker" g st) (labelKey (o_label o2))) = false →
  workerMethod st (VObj r) = VFn (FUser u) →
  u_body (prog u) = [] →
  Forall (fun h => quietFn prog h = true ∧ fnDepth h ≤ D) (o_onClear o2) →
  length (o_onClear o2) + D + 2 ≤ n →
  ∃ st1 st2 st3,
    worker prog (S n) (VObj r) o1 st = Ok (VObj r) st1
    ∧ worker prog (S n) (VObj r) o2 st1 = Ok (VObj r) st2
    ∧ Map_get (VObj r) (links (getLocal "worker" g st2)) = Some (S l1)
    ∧ l_onClear (getLink st2 l1) = o_onClear o1
    ∧ l_onClear (getLink st2 (S l1)) = o_onClear o2
    ∧ lost l1 st2
    ∧ terminateWorkerBy prog (S n) objectKeys (ArgOptions (VObj r) None (o_group o1)) st2
      = Ok VUndef st3
    ∧ trace st3
      = trace st2
        ++ ELinksDelete "worker" g (VObj r)
           :: hookEvents c (o_onClear o2) ++ [EDestroy DWorker (VObj r) c]
    ∧ (∀ h c', h ∈ o_onClear o1 → h ∉ o_onClear o2 →
               EHook h c' ∉ drop (length (trace st2)) (trace st3))
    ∧ ∀ fuel cs st4,
        Forall (notClearing l1) cs →
        runAll prog fuel cs st3 = Some st4 →
        lost l1 st4 ∧ ∃ t, trace st4 = trace st2 ++ t ∧ Forall (notAbout l1) t.
Proof.
  intros g l1 c Hreg Hgroup Hlab1 Hlab2 Hvac1 Hvac2 Hmeth Hbody Hquiet Hn.
  set (p1 := workerParams (VObj r) o1).
  set (p2 := workerParams (VObj r) o2).
  assert (Hstart : ∀ p s, p_wrapper p = None →
    startPrimitive p (wrapperRef p (p_obj p) (prepared p s)) (p_obj p) (prepared p s)
    = Ok (p_obj p) (prepared p s)).
  { intros p s Hw. unfold startPrimitive. by rewrite Hw. }
  pose proof (setAsync_vacant prog n p1 st (VObj r) (prepared p1 st) Hvac1
                (or_introl eq_refl) eq_refl (Hstart p1 st eq_refl)) as Hset1.
  set (st1 := registered p1 (VObj r) (prepared p1 st)) in *.
  destruct (prepared_frame p1 st) as (Hh0 & _ & _ & _ & Ho0 & _ & _ & Hloc0).
  assert (Hvac2' : truthy (labels_get (getLocal (p_name p2) (truthyStr (p_group p2)) st1)
                             (labelKey (p_label p2))) = false).
  { pose proof (labels_registered_none p1 (VObj r) (prepared p1 st) Hlab1) as Hl.
    simpl p_name in Hl. simpl p_group in Hl. fold g st1 in Hl. rewrite Hloc0 in Hl.
    simpl p_name. simpl p_group. simpl p_label. rewrite Hgroup.
    unfold labels_get. rewrite Hl. exact Hvac2. }
  pose proof (setAsync_vacant prog n p2 st1 (VObj r) (prepared p2 st1) Hvac2'
                (or_introl eq_refl) eq_refl (Hstart p2 st1 eq_refl)) as Hset2.
  set (st2 := registered p2 (VObj r) (prepared p2 st1)) in *.
  destruct (registered_twice prog (S n) (S n) p1 p2 (VObj r) st st1 st2 Hreg eq_refl
              Hgroup Hlab1 Hlab2 Hvac1 Hvac2 (or_introl eq_refl) (or_introl eq_refl)
              Hset1 Hset2)
    as (H1 & H2 & H3 & H4 & H5 & Hreg2 & Hlost).
  simpl p_name in H1, H3. simpl p_group in H1, H3. fold g l1 in H1, H2, H3, H4, H5, Hlost.
  set (pc := clearParams "worker" (Some DWorker) (VObj r) None (o_group o1)).
  destruct (clearAsync_quiet prog n pc pc (S l1) st2 D) as (s & Htr & Hrel & Hrun).
  { done. }
  { done. }
  { exact H3. }
  { by rewrite H4. }
  { done. }
  { by rewrite H4. }
  rewrite H4 in Htr, Hrun. simpl l_id in Htr, Hrun. simpl l_onClear in Htr.
  change (p_name pc) with "worker" in Htr. change (p_clearFn pc) with (Some DWorker) in Hrun.
  change (truthyStr (p_group pc)) with g in Htr. fold c in Htr, Hrun. cbv iota in Hrun.
  destruct Hrel as (_ & _ & Hobjs & _).
  assert (Hobjs' : objects s = objects st2) by exact Hobjs.
  assert (Hobj2 : objects st2 = objects st).
  { destruct (prepared_frame p2 st1) as (_ & _ & _ & _ & Ho1 & _).
    unfold st2. rewrite objects_registered, Ho1. unfold st1.
    by rewrite objects_registered, Ho0. }
  set (st3 := log (EDestroy DWorker (VObj r) c) s).
  assert (Hm : workerMethod st3 (VObj r) = VFn (FUser u)).
  { rewrite <- Hmeth. unfold workerMethod, getObject. simpl.
    by rewrite Hobjs', Hobj2. }
  assert (Hrun3 : run prog (S n) (KClearAsync pc) st2 = Ok VUndef st3).
  { rewrite Hrun. unfold callDestructor, workerDestructor.
    change (log (EDestroy DWorker (VObj r) (Ctx pc (S l1) "clearAsync")) s) with st3.
    rewrite Hm.
    destruct n as [|n']; [lia|]. rewrite run_S. unfold step, callFn.
    by rewrite Hbody. }
  assert (Htr3 : trace st3
                 = trace st2 ++ ELinksDelete "worker" g (VObj r)
                                :: hookEvents c (o_onClear o2) ++ [EDestroy DWorker (VObj r) c]).
  { unfold st3. simpl. rewrite Htr. by rewrite <- app_assoc. }
  exists st1, st2, st3.
  split; [exact Hset1|]. split; [exact Hset2|]. split; [exact H3|].
  split; [by rewrite H5|]. split; [by rewrite H4|]. split; [exact Hlost|].
  split; [exact Hrun3|]. split; [exact Htr3|]. split.
  - intros h c' Hh1 Hh2 Hin. rewrite Htr3, drop_app_length in Hin.
    apply elem_of_cons in Hin as [Hin|Hin]; [done|].
    apply elem_of_app in Hin as [Hin|Hin].
    + unfold hookEvents in Hin. apply list_elem_of_fmap in Hin as (h' & Heq & Hh').
      injection Heq as -> _. done.
    + apply list_elem_of_singleton in Hin. done.
  - intros fuel cs st4 Hcs Hrun4.
    assert (Hall : runAll prog (S n) [KClearAsync pc] st2 = Some st3)
      by (by rewrite runAll_cons, Hrun3).
    pose proof (runAll_safe prog l1 (S n) [KClearAsync pc] st2 st3 Hlost
                  ltac:(by constructor) Hall) as Hs3.
    pose proof (runAll_safe prog l1 fuel cs st3 st4 (safe_lost _ _ _ Hs3) Hcs Hrun4)
      as Hs4.
    destruct (safe_trans l1 st2 st3 st4 Hs3 Hs4) as [Hl4 Ht4]. split; done.
Qed.

(** ** A promise whose settle functions nobody holds *)

Section Unheld.

Variable pr : nat.

Implicit Types (st : state).

Lemma unheld_heap_same st st' :
  heap st' = heap st → closures st' = closures st → objects st' = objects st →
  promises st' = promises st →
  unheld pr st → unheld pr st'.
Proof.
  intros Hh Hc Ho Hp (U1 & U2 & U3 & U4). split; [|split; [|split]].
  - intros l. unfold getLink. rewrite Hh. apply U1.
  - intros k cl. rewrite Hc. apply U2.
  - intros r. unfold getObject. rewrite Ho. apply U3.
  - by rewrite Hp.
Qed.

Lemma unheld_issue_handle st : unheld pr st → unheld pr (issue_handle st).
Proof. by apply unheld_heap_same. Qed.

Lemma unheld_new_object st :
  unheld pr st → unheld pr (new_object (JsObj VUndef VUndef VUndef VUndef true false) st).
Proof.
  intros (U1 & U2 & U3 & U4). split; [done|]. split; [done|]. split; [|done].
  intros r. unfold getObject. simpl.
  destruct (decide (r = next_object st)) as [->|Hne].
  - by rewrite lookup_insert_eq.
  - rewrite lookup_insert_ne by done. apply U3.
Qed.

Lemma unheld_log e st : unheld pr st → unheld pr (log e st).
Proof. by apply unheld_heap_same. Qed.

Lemma unheld_initCache name st : unheld pr st → unheld pr (initCache name st).
Proof.
  apply unheld_heap_same; unfold initCache; by destruct (cache st !! name).
Qed.

Lemma unheld_initGroup name g st : unheld pr st → unheld pr (initGroup name g st).
Proof.
  apply unheld_heap_same; unfold initGroup; destruct g as [s|]; try done;
    destruct (cache st !! name) as [co|]; try done; by destruct (groups co !! s).
Qed.

Lemma unheld_labels_set name g key v st :
  unheld pr st → unheld pr (labels_set name g key v st).
Proof. by apply unheld_heap_same. Qed.

Lemma unheld_links_delete name g id st :
  unheld pr st → unheld pr (links_delete name g id st).
Proof. by apply unheld_heap_same. Qed.

Lemma unheld_links_set name g id l st :
  unheld pr st → unheld pr (links_set name g id l st).
Proof. by apply unheld_heap_same. Qed.

Lemma unheld_settle q s st : q ≠ pr → unheld pr st → unheld pr (settle q s st).
Proof.
  intros Hq (U1 & U2 & U3 & U4). split; [|split; [|split]].
  - intros l. rewrite getLink_settle. apply U1.
  - intros k cl. unfold settle. destruct (promises st !! q) as [[| |]|]; apply U2.
  - intros r. unfold settle. destruct (promises st !! q) as [[| |]|]; apply U3.
  - rewrite lookup_settle, decide_False by done. exact U4.
Qed.

Lemma unheld_push_closure cl st :
  valueMentions pr (c_finalObj cl) = false →
  unheld pr st → unheld pr (push_closure cl st).
Proof.
  intros Hcl (U1 & U2 & U3 & U4). split; [done|]. split; [|done].
  intros k cl'. simpl. intros Hk. apply lookup_app_Some in Hk as [Hk|[_ Hk]].
  - by eapply U2.
  - apply list_lookup_singleton_Some in Hk as [_ <-]. exact Hcl.
Qed.

Lemma unheld_allocClosure p g id f st :
  valueMentions pr f = false →
  unheld pr st → unheld pr (allocClosure p g id f st).
Proof.
  intros Hf Hu. unfold allocClosure. destruct (isWrapped p f); [|done].
  by apply unheld_push_closure.
Qed.

Lemma getLink_push_link k st l :
  getLink (push_link k st) l
  = if decide (l = length (heap st)) then k else getLink st l.
Proof.
  case_decide as Hl.
  - subst l. apply getLink_push_link_new.
  - unfold getLink, push_link. simpl.
    destruct (decide (l < length (heap st))) as [Hlt|Hge].
    + by rewrite lookup_app_l.
    + rewrite !lookup_ge_None_2; [done | lia | rewrite length_app; simpl; lia].
Qed.

Lemma unheld_push_link k st :
  linkClean pr k → unheld pr st → unheld pr (push_link k st).
Proof.
  intros Hk (U1 & U2 & U3 & U4). split; [|done].
  intros l. rewrite getLink_push_link. case_decide; [done | apply U1].
Qed.

Lemma unheld_push_onComplete r resolve reject st :
  mentions pr resolve = false → mentions pr reject = false →
  unheld pr st → unheld pr (push_onComplete r (resolve, reject) st).
Proof.
  intros Hr Hj (U1 & U2 & U3 & U4). split; [|done].
  intros l. rewrite getLink_push_onComplete. case_decide as Hd; [|apply U1].
  destruct (U1 r) as (L1 & L2 & L3). split; [done|]. split; [|done].
  simpl. apply Forall_app. split; [done|]. by apply Forall_singleton.
Qed.

Lemma unheld_push_onClear r fs st :
  Forall (fun h => mentions pr h = false) fs →
  unheld pr st → unheld pr (push_onClear r fs st).
Proof.
  intros Hfs (U1 & U2 & U3 & U4). split; [|done].
  intros l. rewrite getLink_push_onClear. case_decide as Hd; [|apply U1].
  destruct (U1 r) as (L1 & L2 & L3). split; [done|]. split; [done|].
  simpl. by apply Forall_app.
Qed.

Lemma ounheld_bind c c' o k :
  ounheld pr c' o →
  (∀ v st, unheld pr st →
           match c' with KCallFn _ _ => valueMentions pr v = false | _ => True end →
           ounheld pr c (k v st)) →
  ounheld pr c (andThen o k).
Proof.
  intros Ho Hk. destruct o as [v st|e st|]; simpl in *; try done.
  destruct Ho as [Hu Hv]. by apply Hk.
Qed.

End Unheld.

Section UnheldStep.

Variable pr : nat.
Variable prog : nat -> ufun.
Variable rec : call -> state -> outcome value.

Hypothesis prog_clean : progClean pr prog.
Hypothesis rec_unheld :
  ∀ c st, unheld pr st → callClean pr c → ounheld pr c (rec c st).

Ltac unheld_prims :=
  repeat lazymatch goal with
    | H : unheld ?p ?b |- unheld ?p ?b => exact H
    | |- unheld _ (labels_set _ _ _ _ _) => apply unheld_labels_set
    | |- unheld _ (links_delete _ _ _ _) => apply unheld_links_delete
    | |- unheld _ (links_set _ _ _ _ _) => apply unheld_links_set
    | |- unheld _ (initCache _ _) => apply unheld_initCache
    | |- unheld _ (initGroup _ _ _) => apply unheld_initGroup
    | |- unheld _ (log _ _) => apply unheld_log
    | |- unheld _ (issue_handle _) => apply unheld_issue_handle
    | |- unheld _ (new_object _ _) => apply unheld_new_object
    end.

(** The result of a call, the value aside. *)
Lemma ounheld_any c c' o :
  ounheld pr c' o →
  match c with KCallFn _ _ => False | _ => True end → ounheld pr c o.
Proof.
  intros Ho Hc. destruct o as [v st|e st|]; simpl in *; try done.
  destruct Ho as [Hu _]. split; [done|]. by destruct c.
Qed.

Lemma startPrimitive_unheld c p w f st :
  match c with KCallFn _ _ => False | _ => True end →
  unheld pr st → ounheld pr c (startPrimitive p w f st).
Proof.
  intros Hc Hu. unfold startPrimitive, callWrapper.
  destruct (p_wrapper p) as [[prim| |]|]; simpl.
  - split; [unheld_prims | by destruct c].
  - destruct (if p_needCall p then Some f else None) as [[| |r|]|]; try done.
    destruct (o_promiseLike (getObject st r) || o_then (getObject st r)); [|done].
    simpl. split; [unheld_prims | by destruct c].
  - split; [done | by destruct c].
  - split; [done | by destruct c].
Qed.

Lemma setAsync_unheld p st :
  unheld pr st → paramsClean pr p → ounheld pr (KSetAsync p) (setAsync rec p st).
Proof.
  intros Hu [Hobj Hoc]. unfold setAsync.
  set (g := truthyStr (p_group p)).
  set (st0 := initGroup (p_name p) g (initCache (p_name p) st)).
  assert (H0 : unheld pr st0) by (unfold st0; unheld_prims).
  destruct (truthy _ && _); [done|].
  apply (ounheld_bind pr _ (KCallFn (FUser 0) [])).
  { destruct (p_obj p) as [| | |f] eqn:Hp; try done.
    destruct (p_needCall p); [|done].
    assert (Hr : ounheld pr (KCallFn f []) (rec (KCallFn f []) st0))
      by (by apply rec_unheld).
    by destruct (rec (KCallFn f []) st0). }
  intros finalObj st1 Hu1 Hfinal.
  apply (ounheld_bind pr _ (KSetAsync p)); [by apply startPrimitive_unheld|].
  intros id st2 Hu2 _.
  assert (H2 : unheld pr (allocClosure p g id finalObj st2))
    by (by apply unheld_allocClosure).
  destruct (notNull (p_obj p)); [|done].
  set (st3 := push_link (Link id (p_obj p) (p_label p) [] (p_onClear p))
                (allocClosure p g id finalObj st2)).
  assert (H3 : unheld pr st3).
  { unfold st3. apply unheld_push_link; [by repeat split | done]. }
  apply (ounheld_bind pr _ (KClearAsync p)).
  { destruct (truthy _); [|done].
    assert (Hr : ounheld pr (KClearAsync (with_replacedBy p (length
                   (heap (allocClosure p g id finalObj st2)))))
                   (rec (KClearAsync (with_replacedBy p (length
                   (heap (allocClosure p g id finalObj st2))))) st3))
      by (by apply rec_unheld).
    exact Hr. }
  intros v st4 Hu4 _. cbv zeta.
  split; [|done]. destruct (truthyStr (p_label p)); unheld_prims.
Qed.

Lemma callDestructor_unheld c d id ctx st :
  match c with KCallFn _ _ => False | _ => True end →
  unheld pr st → ounheld pr c (callDestructor rec d id ctx st).
Proof.
  intros Hc Hu. unfold callDestructor.
  assert (Hlog : unheld pr (log (EDestroy d id ctx) st)) by unheld_prims.
  destruct d as [prim| |]; simpl.
  - split; [done | by destruct c].
  - unfold workerDestructor.
    destruct (workerMethod _ id) as [| | |f] eqn:Hm; try done.
    apply (ounheld_any c (KCallFn f [])); [|done].
    apply rec_unheld; [done|]. simpl.
    unfold workerMethod in Hm. destruct id as [| |r|]; try done.
    destruct Hlog as (_ & _ & U3 & _). destruct (U3 r) as (O1 & O2 & O3 & O4).
    unfold orElse in Hm.
    destruct (truthy (o_terminate _)); [by rewrite Hm in O1|].
    destruct (truthy (o_destroy _)); [by rewrite Hm in O2 | by rewrite Hm in O3].
  - unfold requestDestructor.
    destruct (match id with VObj r => _ | _ => _ end) as [| | |f] eqn:Hm; try done.
    eapply (ounheld_any c (KCallFn f _)); [|done].
    apply rec_unheld; [done|]. simpl.
    destruct id as [| |r|]; try done.
    destruct Hlog as (_ & _ & U3 & _). destruct (U3 r) as (O1 & O2 & O3 & O4).
    by rewrite Hm in O4.
Qed.

Lemma clearAsync_unheld p st :
  unheld pr st → ounheld pr (KClearAsync p) (clearAsync rec p st).
Proof.
  intros Hu. unfold clearAsync.
  set (st0 := initCache (p_name p) st).
  assert (H0 : unheld pr st0) by (unfold st0; unheld_prims).
  destruct (match truthyStr (p_group p) with Some _ => _ | None => _ end); [|done].
  destruct (resolveId p _) as [p'|]; [|done].
  destruct (notNull (p_id p')).
  2:{ apply (ounheld_any _ (KBulk p' 0)); [|done]. by apply rec_unheld. }
  destruct (Map_get _ _) as [l|] eqn:Hget; [|done].
  apply (ounheld_bind pr _ (KHooks l 0 (Ctx p' l "clearAsync"))).
  { apply rec_unheld; [unheld_prims | done]. }
  intros v st2 Hu2 _. destruct (p_clearFn p') as [d|]; [|done].
  apply (ounheld_bind pr _ (KClearAsync p)); [by apply callDestructor_unheld|].
  done.
Qed.

Lemma bulk_unheld p i st : unheld pr st → ounheld pr (KBulk p i) (bulk rec p i st).
Proof.
  intros Hu. unfold bulk. destruct (Map_next _ _) as [[l j]|]; [|done].
  apply (ounheld_bind pr _ (KClearAsync p)).
  { apply (ounheld_any _ (KClearAsync (with_id p (l_id (getLink st l))))); [|done].
    by apply rec_unheld. }
  intros v st2 Hu2 _.
  apply (ounheld_any _ (KBulk p j)); [by apply rec_unheld | done].
Qed.

Lemma hooks_unheld l i c st :
  unheld pr st → ounheld pr (KHooks l i c) (hooks rec l i c st).
Proof.
  intros Hu. unfold hooks. destruct (_ !! i) as [h|] eqn:Hh; [|done].
  apply (ounheld_bind pr _ (KCallFn h [ACtx c])).
  { apply rec_unheld; [unheld_prims|]. simpl.
    destruct Hu as (U1 & _). destruct (U1 l) as (_ & _ & L3).
    rewrite Forall_forall in L3. apply L3. by eapply list_elem_of_lookup_2. }
  intros v st2 Hu2 _.
  apply (ounheld_any _ (KHooks l (S i) c)); [by apply rec_unheld | done].
Qed.

Lemma execTasks_unheld i l j args st :
  unheld pr st → ounheld pr (KExecTasks i l j args) (execTasks rec i l j args st).
Proof.
  intros Hu. unfold execTasks.
  destruct (_ !! j) as [[resolve reject]|] eqn:Hj; [|done].
  apply (ounheld_bind pr _ (KCallFn (match i with O => resolve | S _ => reject end) args)).
  { apply rec_unheld; [unheld_prims|]. simpl.
    destruct Hu as (U1 & _). destruct (U1 l) as (_ & L2 & _).
    rewrite Forall_forall in L2.
    destruct (L2 (resolve, reject)) as [Hr Hj']; [by eapply list_elem_of_lookup_2|].
    by destruct i. }
  intros v st2 Hu2 _.
  apply (ounheld_any _ (KExecTasks i l (S j) args)); [by apply rec_unheld | done].
Qed.

Lemma onPromiseClear_unheld f resolve reject args st :
  mentions pr resolve = false → mentions pr reject = false →
  unheld pr st →
  ounheld pr (KCallFn f args) (onPromiseClear rec resolve reject args st).
Proof.
  intros Hr Hj Hu. unfold onPromiseClear.
  assert (Hrej : ∀ a, ounheld pr (KCallFn f args) (rec (KCallFn reject [a]) st)).
  { intros a. pose proof (rec_unheld (KCallFn reject [a]) st Hu Hj) as H.
    by destruct (rec (KCallFn reject [a]) st). }
  destruct args as [|[v|c|e] args]; try done.
  - destruct v; try done; apply Hrej.
  - destruct (p_replacedBy (ctx_p c)) as [r|]; [|apply Hrej].
    destruct (_ && _); [|apply Hrej].
    split; [|done].
    assert (H1 : unheld pr (push_onComplete r (resolve, reject) st))
      by (by apply unheld_push_onComplete).
    apply unheld_push_onClear; [|done].
    apply Forall_app. split; [|by apply Forall_singleton].
    destruct H1 as (U1 & _). by destruct (U1 (ctx_link c)) as (_ & _ & ?).
Qed.

Lemma wrappedObj_unheld f cl args st :
  valueMentions pr (c_finalObj cl) = false →
  unheld pr st →
  ounheld pr (KCallFn f args) (wrappedObj rec cl args st).
Proof.
  intros Hcl Hu. unfold wrappedObj. destruct (Map_get _ _) as [l|]; [|done].
  set (st1 := if c_interval cl then st else _).
  assert (H1 : unheld pr st1) by (unfold st1; destruct (c_interval cl); unheld_prims).
  apply (ounheld_bind pr _ (KCallFn f args)).
  { destruct (c_finalObj cl) as [| | |f'] eqn:Hf; try done.
    pose proof (rec_unheld (KCallFn f' args) (log (EPayload f' args) st1)) as H.
    specialize (H ltac:(unheld_prims) Hcl).
    by destruct (rec (KCallFn f' args) _). }
  intros res st2 Hu2 Hres. destruct (isPromiseLike st2 _).
  - split; [unheld_prims | done].
  - apply (ounheld_bind pr _ (KExecTasks 0 l 0 args)); [by apply rec_unheld|].
    intros v st3 Hu3 _. done.
Qed.

Lemma runScript_unheld cs :
  Forall (cmdClean pr) cs →
  ∀ st, unheld pr st → ounheld pr (KClearAsync (clearParams "" None VUndef None None))
                         (runScript rec cs st).
Proof.
  induction cs as [|c cs IH]; intros Hcs st Hu; simpl; [done|].
  apply Forall_cons in Hcs as [Hc Hcs].
  apply (ounheld_bind pr _ (KClearAsync (clearParams "" None VUndef None None))).
  - destruct c as [p|p|e]; simpl; try done.
    + apply (ounheld_any _ (KSetAsync p)); [|done]. by apply rec_unheld.
    + apply (ounheld_any _ (KClearAsync p)); [|done]. by apply rec_unheld.
  - intros v st2 Hu2 _. by apply IH.
Qed.

Lemma callFn_unheld f args st :
  mentions pr f = false →
  unheld pr st → ounheld pr (KCallFn f args) (callFn prog rec f args st).
Proof.
  intros Hf Hu. unfold callFn. destruct f as [u|q|q|resolve reject|k]; simpl in Hf.
  - destruct (prog_clean u) as [Hbody Hret].
    apply (ounheld_bind pr _ (KClearAsync (clearParams "" None VUndef None None)));
      [by apply runScript_unheld|].
    intros v st2 Hu2 _. done.
  - apply bool_decide_eq_false_1 in Hf. split; [by apply unheld_settle | done].
  - apply bool_decide_eq_false_1 in Hf. split; [by apply unheld_settle | done].
  - apply orb_false_iff in Hf as [Hr Hj]. by apply onPromiseClear_unheld.
  - destruct (closures st !! k) as [cl|] eqn:Hk; [|done].
    apply wrappedObj_unheld; [|done]. destruct Hu as (_ & U2 & _). by eapply U2.
Qed.

Lemma step_unheld c st :
  unheld pr st → callClean pr c → ounheld pr c (step prog rec c st).
Proof.
  intros Hu Hc. destruct c; simpl.
  - by apply setAsync_unheld.
  - by apply clearAsync_unheld.
  - by apply bulk_unheld.
  - by apply hooks_unheld.
  - by apply callFn_unheld.
  - by apply execTasks_unheld.
Qed.

End UnheldStep.

Lemma run_unheld pr prog fuel :
  progClean pr prog →
  ∀ c st, unheld pr st → callClean pr c → ounheld pr c (run prog fuel c st).
Proof.
  intros Hprog. induction fuel as [|n IH]; intros c st Hu Hc; [done|].
  rewrite run_S. by apply step_unheld.
Qed.

Lemma runAll_unheld pr prog fuel cs :
  progClean pr prog →
  ∀ st st', unheld pr st → Forall (callClean pr) cs →
    runAll prog fuel cs st = Some st' → unheld pr st'.
Proof.
  intros Hprog. induction cs as [|c cs IH]; intros st st' Hu Hcs; simpl.
  - by intros [= <-].
  - apply Forall_cons in Hcs as [Hc Hcs].
    pose proof (run_unheld pr prog fuel Hprog c st Hu Hc) as Hrun.
    destruct (run prog fuel c st) as [v b|e b|]; simpl in Hrun; [| |done].
    + intros Hall. apply (IH b); [by destruct Hrun | done | done].
    + intros Hall. by apply (IH b).
Qed.

(** X14. A promise bridge called with [join: true] on a label that holds a
    live task: [setAsync] returns the id of that task at once, so the
    [resolve] and [reject] of the new promise are handed to nobody: no
    Link, closure or host object holds them.  Whatever is called
    afterwards (the firing or the clearing of the task that holds the
    label included), the promise stays pending. *)
Theorem joined_bridge_never_settles prog n fuel mk o st cs st' :
  let pr := length (promises st) in
  let name := p_name (mk VUndef noOpts) in
  let g := truthyStr (o_group o) in
  let st1 := set_promises (promises st ++ [Pending]) st in
  oneShot mk →
  o_join o = Some JoinTrue →
  truthy (labels_get (getLocal name g st) (labelKey (o_label o))) = true →
  progClean pr prog →
  (∀ l, linkClean pr (getLink st l)) →
  (∀ k cl, closures st !! k = Some cl → valueMentions pr (c_finalObj cl) = false) →
  (∀ r, objClean pr (getObject st r)) →
  Forall (callClean pr) cs →
  bridge prog (S n) mk o st = Ok pr st1
  ∧ (runAll prog fuel cs st1 = Some st' → promises st' !! pr = Some Pending).
Proof.
  intros pr name g st1 Hone Hjoin Hocc Hprog Hlinks Hcls Hobjs Hcs.
  set (p := mk (VFn (FResolve pr)) (bridgeOpts o pr)).
  destruct (Hone (VFn (FResolve pr)) (bridgeOpts o pr))
    as (Hname & _ & Hpjoin & Hlab & Hgrp & _).
  fold p in Hname, Hpjoin, Hlab, Hgrp. simpl in Hpjoin, Hlab, Hgrp. fold name in Hname.
  split.
  - unfold bridge. fold pr st1 p.
    rewrite run_S. unfold step, setAsync. rewrite Hname, Hgrp, Hlab. fold g.
    rewrite (init_occupied name g st1 (labelKey (o_label o)))
      by (rewrite (getLocal_cache st1 st) by done; by apply truthy_notUndef).
    rewrite (getLocal_cache st1 st) by done.
    rewrite Hocc, Hpjoin, Hjoin. by rewrite bool_decide_eq_true_2.
  - intros Hrun.
    assert (Hu : unheld pr st1).
    { split; [done|]. split; [done|]. split; [done|].
      unfold st1. simpl. rewrite lookup_app_r by (unfold pr; lia).
      unfold pr. by rewrite Nat.sub_diag. }
    by destruct (runAll_unheld pr prog fuel cs Hprog st1 st' Hu Hcs Hrun) as (_ & _ & _ & ?).
Qed.

(** X17. The wrapper of a single-shot task runs its payload once: the
    first call removes the Link and calls the payload, every later call
    finds no Link and returns at once.  Called [N + 1] times, it adds one
    removal and one payload call to the trace. *)
Theorem single_shot_payload_runs_once prog fuel k cl l u args N st :
  closures st !! k = Some cl →
  c_interval cl = false →
  Map_get (c_id cl) (links (getLocal (c_name cl) (c_group cl) st)) = Some l →
  Map_wf (links (getLocal (c_name cl) (c_group cl) st)) →
  c_finalObj cl = VFn (FUser u) →
  u_body (prog u) = [] →
  l_onComplete (getLink st l) = [] →
  2 ≤ fuel →
  ∃ st',
    runAll prog fuel (replicate (S N) (KCallFn (FWrapped k) args)) st = Some st'
    ∧ trace st'
      = trace st ++ [ELinksDelete (c_name cl) (c_group cl) (c_id cl);
                     EPayload (FUser u) args]
    ∧ Map_get (c_id cl) (links (getLocal (c_name cl) (c_group cl) st')) = None.
Proof.
  intros Hcl Hint Hget Hwf Hfinal Hbody Hdone Hfuel.
  destruct fuel as [|[|m]]; [lia | lia |].
  set (gone := Link (c_id cl) VUndef (c_label cl) [] []).
  set (st1 := log (EPayload (FUser u) args)
                (removed (c_name cl) (c_group cl) gone st)).
  assert (Hfire : run prog (S (S m)) (KCallFn (FWrapped k) args) st
                  = Ok (u_ret (prog u)) st1).
  { rewrite (fire_single_shot prog k cl l (FUser u) args (S m) st Hcl Hint Hget Hfinal).
    fold gone. fold st1.
    assert (Hpay : run prog (S m) (KCallFn (FUser u) args) st1 = Ok (u_ret (prog u)) st1).
    { rewrite run_S. unfold step, callFn. by rewrite Hbody. }
    rewrite Hpay, andThen_Ok.
    assert (Hexec : run prog (S m) (KExecTasks 0 l 0 args) st1 = Ok VUndef st1).
    { rewrite run_S. unfold step, execTasks.
      change (getLink st1 l) with (getLink st l). by rewrite Hdone. }
    by rewrite Hexec. }
  assert (Habsent : Map_get (c_id cl) (links (getLocal (c_name cl) (c_group cl) st1))
                    = None).
  { rewrite (getLocal_cache st1 (removed (c_name cl) (c_group cl) gone st)) by done.
    by apply (removed_absent (c_name cl) (c_group cl) gone st). }
  assert (Hagain : run prog (S (S m)) (KCallFn (FWrapped k) args) st1 = Ok VUndef st1).
  { rewrite run_S. unfold step, callFn.
    change (closures st1) with (closures st). rewrite Hcl.
    unfold wrappedObj. by rewrite Habsent. }
  assert (Hrest : ∀ M, runAll prog (S (S m)) (replicate M (KCallFn (FWrapped k) args)) st1
                       = Some st1).
  { induction M as [|M IH]; [done|].
    change (replicate (S M) (KCallFn (FWrapped k) args))
      with (KCallFn (FWrapped k) args :: replicate M (KCallFn (FWrapped k) args)).
    by rewrite runAll_cons, Hagain. }
  exists st1. split; [|split; [|exact Habsent]].
  - change (replicate (S N) (KCallFn (FWrapped k) args))
      with (KCallFn (FWrapped k) args :: replicate N (KCallFn (FWrapped k) args)).
    by rewrite runAll_cons, Hfire.
  - unfold st1. simpl. by rewrite <- app_assoc.
Qed.

Section HookTrace.

Variable prog : nat -> ufun.

Lemma trace_hooksEffect c hs :
  Forall (fun h => quietFn prog h = true) hs →
  ∀ st, trace (hooksEffect hs c st) = trace st ++ hookEvents c hs.
Proof.
  induction hs as [|h hs IH]; intros Hall st.
  - simpl. by rewrite app_nil_r.
  - apply Forall_cons in Hall as [Hq Hall]. rewrite hooksEffect_cons, IH by done.
    rewrite (proj1 (quietRel_effect prog h c (log (EHook h c) st) Hq)).
    simpl. by rewrite <- app_assoc.
Qed.

End HookTrace.

(** X18. A clear method called with a label and no id clears the task that
    the label names: the Link is removed, its hooks and the destructor are
    called with the id that the label resolved to, and the label is
    vacant afterwards.  Called with a label and an id that is not the one
    the label names, it clears nothing, whether or not that id names a
    live task. *)
Theorem clear_by_label_clears_the_holder prog objectKeys name d key grp id l D n st :
  let g := truthyStr grp in
  let c := Ctx (clearParams name d id (Some key) grp) l "clearAsync" in
  key ≠ "" →
  labels_get (getLocal name g st) key = id →
  notNull id = true →
  Map_get id (links (getLocal name g st)) = Some l →
  l_id (getLink st l) = id →
  l_label (getLink st l) = Some key →
  Map_wf (links (getLocal name g st)) →
  Forall (fun h => quietFn prog h = true ∧ fnDepth h ≤ D) (l_onClear (getLink st l)) →
  (∀ x, d = Some x → ∃ prim, x = DHost prim) →
  length (l_onClear (getLink st l)) + D + 2 ≤ n →
  (∃ st',
     clearBy prog (S n) objectKeys name d (ArgOptions VUndef (Some key) grp) st
     = Ok VUndef st'
     ∧ trace st'
       = trace st ++ ELinksDelete name g id
                     :: hookEvents c (l_onClear (getLink st l)) ++ destroyEvents d id c
     ∧ Map_get id (links (getLocal name g st')) = None
     ∧ labels_get (getLocal name g st') key = VUndef)
  ∧ ∀ id', truthy id' = true → id' ≠ id →
      clearBy prog (S n) objectKeys name d (ArgOptions id' (Some key) grp) st
      = Ok VUndef (initCache name st).
Proof.
  intros g c Hkey Hlab Hnn Hget Hid Hlabel Hwf Hquiet Hd Hn.
  assert (Htr : truthyStr (Some key) = Some key).
  { unfold truthyStr. by rewrite decide_False. }
  split.
  - set (p := clearParams name d VUndef (Some key) grp).
    assert (Hres : resolveId p (getLocal (p_name p) (truthyStr (p_group p)) st)
                   = Some (clearParams name d id (Some key) grp)).
    { unfold resolveId. simpl p_label. rewrite Htr. simpl.
      fold g. by rewrite Hlab. }
    pose proof (clearAsync_effect prog n p (clearParams name d id (Some key) grp) l st D
                  Hres Hnn Hget Hquiet ltac:(done) Hd Hn) as Hrun.
    destruct (cleared_plain prog (clearParams name d id (Some key) grp) l st D eq_refl Hquiet)
      as (Hc & _).
    simpl p_name in Hc. simpl p_group in Hc. fold g in Hc.
    exists (cleared (clearParams name d id (Some key) grp) l st).
    split; [exact Hrun|]. split; [|split].
    + unfold cleared. simpl p_name. simpl p_group. simpl p_clearFn. fold g c.
      rewrite Hid.
      assert (Hq : Forall (fun h => quietFn prog h = true) (l_onClear (getLink st l)))
        by (eapply Forall_impl; [exact Hquiet | by intros ? [? _]]).
      destruct d as [x|]; simpl.
      * rewrite (trace_hooksEffect prog c _ Hq). simpl.
        rewrite <- !app_assoc. done.
      * rewrite (trace_hooksEffect prog c _ Hq). simpl.
        rewrite <- !app_assoc. simpl. by rewrite app_nil_r.
    + rewrite (getLocal_cache _ (removed name g (getLink st l) st)) by exact Hc.
      by apply removed_absent.
    + rewrite (getLocal_cache _ (removed name g (getLink st l) st)) by exact Hc.
      pose proof (removed_label name g (getLink st l) st) as Hrl.
      by rewrite Hlabel in Hrl.
  - intros id' Htruthy Hne.
    unfold clearBy, clearDescriptor. simpl getIfNotObject. unfold orElse.
    rewrite Htruthy, run_S. unfold step, clearAsync. simpl p_name. simpl p_group. fold g.
    destruct (match g with Some _ => _ | None => _ end); [|done].
    unfold resolveId. simpl p_label. rewrite Htr. simpl p_id.
    rewrite (truthy_notNull id' Htruthy), getLocal_initCache, Hlab.
    by rewrite bool_decide_eq_false_2.
Qed.

(** X19. [setAsync] for a descriptor without a payload ([obj] is
    [undefined]) fails only when it builds the Link, after the wrapper has
    started the primitive: the call throws a [TypeError], the host holds a
    started timer, and the registry is as before, so the timer cannot be
    cleared through the coordinator; when it fires, the wrapper finds no
    Link and does nothing. *)
Theorem missing_payload_leaks_the_primitive prog n p prim st :
  let name := p_name p in
  let g := truthyStr (p_group p) in
  let id := VNum (next_handle st) in
  let k := length (closures st) in
  p_obj p = VUndef →
  p_wrapper p = Some (WHost prim) →
  p_linkByWrapper p = true →
  p_interval p = false →
  truthy (labels_get (getLocal name g st) (labelKey (p_label p)))
  && bool_decide (p_join p = Some JoinTrue) = false →
  Map_get id (links (getLocal name g st)) = None →
  ∃ st',
    run prog (S n) (KSetAsync p) st
    = Throw (TypeError "Cannot read property 'name' of undefined") st'
    ∧ trace st' = trace st ++ [EStart (WHost prim) name (VFn (FWrapped k)) id]
    ∧ heap st' = heap st
    ∧ (∀ name' g', getLocal name' g' st' = getLocal name' g' st)
    ∧ ∀ m args, run prog (S m) (KCallFn (FWrapped k) args) st' = Ok VUndef st'.
Proof.
  intros name g id k Hobj Hw Hlbw Hint Hjoin Hfresh.
  destruct (prepared_frame p st) as (Hh0 & Hc0 & Ht0 & _ & _ & Hn0 & _ & Hloc0).
  set (st0 := prepared p st) in *.
  set (cl := Closure name g id (p_label p) false VUndef).
  set (st' := push_closure cl
                (log (EStart (WHost prim) name (VFn (FWrapped k)) id) (issue_handle st0))).
  assert (Hrun : run prog (S n) (KSetAsync p) st
                 = Throw (TypeError "Cannot read property 'name' of undefined") st').
  { rewrite run_S. unfold step, setAsync. fold name g. fold (prepared p st). fold st0.
    rewrite Hloc0, Hjoin, Hobj. simpl andThen.
    unfold startPrimitive, callWrapper. rewrite Hw, Hlbw. simpl andThen.
    unfold wrapperRef, allocClosure, isWrapped. rewrite Hint. simpl.
    change (initGroup name g (initCache name st)) with st0.
    rewrite Hc0, Hn0. done. }
  exists st'. split; [exact Hrun|]. split; [|split; [|split]].
  - unfold st'. simpl. by rewrite Ht0.
  - unfold st'. simpl. exact Hh0.
  - intros name' g'. rewrite <- Hloc0. by apply getLocal_cache.
  - intros m args. rewrite run_S. unfold step, callFn.
    assert (Hcl : closures st' !! k = Some cl).
    { unfold st'. simpl. rewrite Hc0. rewrite lookup_app_r by (unfold k; lia).
      unfold k. by rewrite Nat.sub_diag. }
    rewrite Hcl. unfold wrappedObj. simpl c_name. simpl c_group. simpl c_id.
    rewrite (getLocal_cache st' st0) by done. rewrite Hloc0, Hfresh. done.
Qed.

(** ** The destructor is called once *)

Section DestroyOnce.

Variable prog : nat -> ufun.
Variable l : nat.

Lemma destroyCount_app t1 t2 :
  destroyCount l (t1 ++ t2) = destroyCount l t1 + destroyCount l t2.
Proof. induction t1 as [|e t1 IH]; simpl; [done|]. rewrite IH. lia. Qed.

Lemma destroyCount_notAbout t : Forall (notAbout l) t → destroyCount l t = 0.
Proof.
  induction 1 as [|e t He _ IH]; simpl; [done|]. rewrite IH.
  destruct e; simpl in *; try done. by rewrite bool_decide_eq_false_2.
Qed.

Lemma osafe_odestroys st o : osafe l st o → odestroys l 0 st o.
Proof.
  destruct o as [v s|e s|]; simpl; try done;
    intros [Hlost (t & Ht & Hf)]; (split; [done|]); exists t;
    (split; [done|]); by apply destroyCount_notAbout.
Qed.

Lemma odestroys_bind st o k j j' :
  odestroys l j st o →
  (∀ v s, lost l s → odestroys l j' s (k v s)) →
  match andThen o k with
  | Ok _ _ => odestroys l (j + j') st (andThen o k)
  | Throw _ s => lost l s ∧ ∃ t, trace s = trace st ++ t ∧ destroyCount l t ≤ j + j'
  | OutOfFuel => True
  end.
Proof.
  intros Ho Hk. destruct o as [v s|e s|]; simpl in *; try done.
  - destruct Ho as [Hlost (t & Ht & Hc)]. specialize (Hk v s Hlost).
    destruct (k v s) as [v' s'|e' s'|]; simpl in *; try done.
    + destruct Hk as [Hlost' (t' & Ht' & Hc')]. split; [done|].
      exists (t ++ t'). rewrite Ht', Ht, app_assoc, destroyCount_app. split; [done | lia].
    + destruct Hk as [Hlost' (t' & Ht' & Hc')]. split; [done|].
      exists (t ++ t'). rewrite Ht', Ht, app_assoc, destroyCount_app. split; [done | lia].
  - destruct Ho as [Hlost (t & Ht & Hc)]. split; [done|]. exists t. split; [done | lia].
Qed.

(** The loop over the clear hooks of a Link that has left the registry
    calls no destructor for it. *)
Lemma hooks_no_destroy c n :
  ∀ i st, lost l st → odestroys l 0 st (run prog n (KHooks l i c) st).
Proof.
  induction n as [|n IH]; intros i st Hlost; [done|].
  rewrite run_S. unfold step, hooks.
  destruct (l_onClear (getLink st l) !! i) as [h|].
  2:{ split; [done|]. exists []. by rewrite app_nil_r. }
  pose proof (run_safe prog l n (KCallFn h [ACtx c]) (log (EHook h c) st)
                ltac:(done) I) as Hs.
  destruct (run prog n (KCallFn h [ACtx c]) (log (EHook h c) st)) as [v s|e s|];
    simpl in *; try done.
  - destruct Hs as [Hlost1 (t1 & Ht1 & Hf1)].
    specialize (IH (S i) s Hlost1).
    destruct (run prog n (KHooks l (S i) c) s) as [v' s'|e' s'|]; simpl in *; try done.
    + destruct IH as [Hlost2 (t2 & Ht2 & Hc2)]. split; [done|].
      exists ([EHook h c] ++ t1 ++ t2). rewrite Ht2, Ht1. simpl.
      rewrite <- !app_assoc. split; [done|].
      rewrite destroyCount_app, Hc2, (destroyCount_notAbout t1 Hf1). done.
    + destruct IH as [Hlost2 (t2 & Ht2 & Hc2)]. split; [done|].
      exists ([EHook h c] ++ t1 ++ t2). rewrite Ht2, Ht1. simpl.
      rewrite <- !app_assoc. split; [done|].
      rewrite destroyCount_app, Hc2, (destroyCount_notAbout t1 Hf1). done.
  - destruct Hs as [Hlost1 (t1 & Ht1 & Hf1)]. split; [done|].
    exists ([EHook h c] ++ t1). rewrite Ht1. simpl. rewrite <- !app_assoc.
    split; [done|]. by apply destroyCount_notAbout.
Qed.

(** The destructor call of the clear of [l]. *)
Lemma callDestructor_once n d id c st :
  ctx_link c = l →
  lost l st → odestroys l 1 st (callDestructor (run prog n) d id c st).
Proof.
  intros Hc Hlost. unfold callDestructor.
  assert (Hone : destroyCount l [EDestroy d id c] = 1).
  { simpl. by rewrite bool_decide_eq_true_2. }
  assert (Hnest : ∀ f args,
    odestroys l 1 st (run prog n (KCallFn f args) (log (EDestroy d id c) st))).
  { intros f args.
    pose proof (run_safe prog l n (KCallFn f args) (log (EDestroy d id c) st)
                  ltac:(done) I) as Hs.
    destruct (run prog n (KCallFn f args) _) as [v s|e s|]; simpl in *; try done;
      destruct Hs as [Hlost1 (t1 & Ht1 & Hf1)]; (split; [done|]);
      exists ([EDestroy d id c] ++ t1); rewrite Ht1; simpl; rewrite <- !app_assoc;
      (split; [done|]); rewrite bool_decide_eq_true_2 by done;
      by rewrite (destroyCount_notAbout t1 Hf1). }
  assert (Hhere : lost l (log (EDestroy d id c) st)
                  ∧ ∃ t, trace (log (EDestroy d id c) st) = trace st ++ t
                         ∧ destroyCount l t = 1).
  { split; [done|]. by exists [EDestroy d id c]. }
  destruct d as [prim| |]; simpl.
  - exact Hhere.
  - unfold workerDestructor. destruct (workerMethod _ id); try exact Hhere. apply Hnest.
  - unfold requestDestructor.
    destruct (match id with VObj r => _ | _ => _ end); try exact Hhere. apply Hnest.
Qed.

End DestroyOnce.

(** X20. One [clearAsync] of a live Link with a destructor in its
    descriptor calls the destructor for that Link once when the call
    returns, and at most once when it throws; without a destructor in the
    descriptor none is called.  The Link is removed before its hooks run,
    so a hook or destructor that calls back into the coordinator, whatever
    it does, cannot bring a second destructor call for that Link about. *)
Theorem destructor_is_called_once prog fuel p p' l st :
  regOk st →
  resolveId p (getLocal (p_name p) (truthyStr (p_group p)) st) = Some p' →
  notNull (p_id p') = true →
  Map_get (p_id p') (links (getLocal (p_name p) (truthyStr (p_group p)) st)) = Some l →
  match run prog fuel (KClearAsync p) st with
  | Ok _ st' =>
      ∃ t, trace st' = trace st ++ t
           ∧ destroyCount l t = match p_clearFn p with Some _ => 1 | None => 0 end
  | Throw _ st' => ∃ t, trace st' = trace st ++ t ∧ destroyCount l t ≤ 1
  | OutOfFuel => True
  end.
Proof.
  intros Hreg Hres Hnn Hget. destruct fuel as [|n]; [done|].
  destruct (resolveId_fields _ _ _ Hres) as (_ & _ & _ & Hcf & _).
  rewrite (clearAsync_live prog n p p' l st Hres Hnn Hget). cbv zeta.
  set (st1 := removed (p_name p) (truthyStr (p_group p)) (getLink st l) st).
  set (c := Ctx p' l "clearAsync").
  assert (Hlost : lost l st1).
  { apply (lost_removed _ _ (p_id p')); try done.
    destruct Hreg as (_ & R2 & _). apply Map_get_entry in Hget.
    by destruct (R2 _ _ _ _ Hget). }
  assert (Htr1 : trace st1 = trace st ++ [ELinksDelete (p_name p) (truthyStr (p_group p))
                                           (l_id (getLink st l))]) by done.
  pose proof (hooks_no_destroy prog l c n 0 st1 Hlost) as Hh.
  destruct (run prog n (KHooks l 0 c) st1) as [v s|e s|]; simpl in Hh |- *; try done.
  - destruct Hh as [Hlost2 (t2 & Ht2 & Hc2)]. rewrite <- Hcf.
    destruct (p_clearFn p') as [d|].
    + pose proof (callDestructor_once prog l n d (l_id (getLink st l)) c s eq_refl Hlost2)
        as Hd.
      destruct (callDestructor (run prog n) d _ c s) as [v' s'|e' s'|]; simpl in Hd |- *;
        try done; destruct Hd as [_ (t3 & Ht3 & Hc3)];
        exists ([ELinksDelete (p_name p) (truthyStr (p_group p)) (l_id (getLink st l))]
                ++ t2 ++ t3);
        (split; [rewrite Ht3, Ht2, ?Htr1; by rewrite <- !app_assoc|]);
        rewrite !destroyCount_app, Hc2, Hc3; simpl; lia.
    + exists ([ELinksDelete (p_name p) (truthyStr (p_group p)) (l_id (getLink st l))]
              ++ t2).
      rewrite Ht2, ?Htr1, <- !app_assoc. split; [done|].
      rewrite destroyCount_app, Hc2. done.
  - destruct Hh as [Hlost2 (t2 & Ht2 & Hc2)].
    exists ([ELinksDelete (p_name p) (truthyStr (p_group p)) (l_id (getLink st l))]
            ++ t2).
    rewrite Ht2, ?Htr1, <- !app_assoc. split; [done|].
    rewrite destroyCount_app, Hc2. simpl. lia.
Qed.

(** ** Relations that every call preserves *)

Section Preserved.

Variable R : state → state → Prop.

Hypothesis R_refl : ∀ a, R a a.
Hypothesis R_trans : ∀ a b c, R a b → R b c → R a c.
Hypothesis R_labels_set : ∀ name g key v b, R b (labels_set name g key v b).
Hypothesis R_links_delete : ∀ name g id b, R b (links_delete name g id b).
Hypothesis R_links_set : ∀ name g id l b, R b (links_set name g id l b).
Hypothesis R_initCache : ∀ name b, R b (initCache name b).
Hypothesis R_initGroup : ∀ name g b, R b (initGroup name g b).
Hypothesis R_settle : ∀ p s b, R b (settle p s b).
Hypothesis R_allocClosure : ∀ p g id f b, R b (allocClosure p g id f b).
Hypothesis R_push_link : ∀ k b, R b (push_link k b).
Hypothesis R_push_onComplete : ∀ r pair b, R b (push_onComplete r pair b).
Hypothesis R_push_onClear : ∀ r fs b, R b (push_onClear r fs b).
Hypothesis R_log : ∀ e b, R b (log e b).
Hypothesis R_issue_handle : ∀ b, R b (issue_handle b).
Hypothesis R_new_object : ∀ o b, R b (new_object o b).

Lemma opreserved_bind a o k :
  opreserved R a o →
  (∀ v b, R a b → opreserved R a (k v b)) →
  opreserved R a (andThen o k).
Proof.
  intros Ho Hk. destruct o as [v b|e b|]; simpl in *; try done. by apply Hk.
Qed.

Lemma opreserved_weaken a b o : R a b → opreserved R b o → opreserved R a o.
Proof.
  intros Hab Ho. destruct o as [v b'|e b'|]; simpl in *; try done;
    by eapply R_trans.
Qed.

Section PreservedStep.

Variable prog : nat -> ufun.
Variable rec : call -> state -> outcome value.

Hypothesis rec_preserved : ∀ c st, opreserved R st (rec c st).

Ltac preserved_prims :=
  unfold opreserved;
  repeat lazymatch goal with
    | H : R ?a ?b |- R ?a ?b => exact H
    | |- R ?a (labels_set ?n ?g ?k ?v ?b) =>
        apply (R_trans a b); [|apply R_labels_set]
    | |- R ?a (links_delete ?n ?g ?i ?b) =>
        apply (R_trans a b); [|apply R_links_delete]
    | |- R ?a (links_set ?n ?g ?i ?l ?b) =>
        apply (R_trans a b); [|apply R_links_set]
    | |- R ?a (initCache ?n ?b) =>
        apply (R_trans a b); [|apply R_initCache]
    | |- R ?a (initGroup ?n ?g ?b) =>
        apply (R_trans a b); [|apply R_initGroup]
    | |- R ?a (settle ?p ?s ?b) =>
        apply (R_trans a b); [|apply R_settle]
    | |- R ?a (allocClosure ?p ?g ?i ?f ?b) =>
        apply (R_trans a b); [|apply R_allocClosure]
    | |- R ?a (push_link ?k ?b) =>
        apply (R_trans a b); [|apply R_push_link]
    | |- R ?a (push_onComplete ?r ?x ?b) =>
        apply (R_trans a b); [|apply R_push_onComplete]
    | |- R ?a (push_onClear ?r ?x ?b) =>
        apply (R_trans a b); [|apply R_push_onClear]
    | |- R ?a (log ?e ?b) =>
        apply (R_trans a b); [|apply R_log]
    | |- R ?a (issue_handle ?b) =>
        apply (R_trans a b); [|apply R_issue_handle]
    | |- R ?a (new_object ?o ?b) =>
        apply (R_trans a b); [|apply R_new_object]
    end.

Lemma rec_preserved_from a b c : R a b → opreserved R a (rec c b).
Proof. intros Hab. apply (opreserved_weaken a b); [done | apply rec_preserved]. Qed.

Lemma callWrapper_preserved a b w name cb req :
  R a b → opreserved R a (callWrapper w name cb req b).
Proof.
  intros Hab. unfold callWrapper. destruct w as [prim| |]; simpl.
  - preserved_prims.
  - destruct req as [[| |r|]|]; try done.
    destruct (o_promiseLike (getObject b r) || o_then (getObject b r)); [|done]. simpl.
    preserved_prims.
  - done.
Qed.

Lemma startPrimitive_preserved a b p w f :
  R a b → opreserved R a (startPrimitive p w f b).
Proof.
  intros Hab. unfold startPrimitive. destruct (p_wrapper p) as [w'|]; [|done].
  apply opreserved_bind; [by apply callWrapper_preserved|]. intros v b' Hb'. done.
Qed.

Lemma setAsync_preserved a b p : R a b → opreserved R a (setAsync rec p b).
Proof.
  intros Hab. unfold setAsync.
  set (g := truthyStr (p_group p)).
  set (st0 := initGroup (p_name p) g (initCache (p_name p) b)).
  assert (H0 : R a st0) by (unfold st0; preserved_prims).
  destruct (truthy _ && _); [done|].
  apply opreserved_bind.
  { destruct (p_obj p); try done. destruct (p_needCall p); [|done].
    by apply rec_preserved_from. }
  intros finalObj b1 Hb1. apply opreserved_bind; [by apply startPrimitive_preserved|].
  intros id b2 Hb2.
  destruct (notNull (p_obj p)); [|simpl; preserved_prims].
  apply opreserved_bind.
  { destruct (truthy _); [apply rec_preserved_from|]; preserved_prims. }
  intros v b4 Hb4. cbv zeta.
  destruct (truthyStr (p_label p)); preserved_prims.
Qed.

Lemma callDestructor_preserved a b d id c :
  R a b → opreserved R a (callDestructor rec d id c b).
Proof.
  intros Hab. unfold callDestructor.
  assert (Hlog : R a (log (EDestroy d id c) b)) by preserved_prims.
  destruct d as [prim| |]; simpl.
  - done.
  - unfold workerDestructor. destruct (workerMethod _ id); try done.
    by apply rec_preserved_from.
  - unfold requestDestructor.
    destruct (match id with VObj r => _ | _ => _ end); try done.
    by apply rec_preserved_from.
Qed.

Lemma clearAsync_preserved a b p : R a b → opreserved R a (clearAsync rec p b).
Proof.
  intros Hab. unfold clearAsync.
  set (st0 := initCache (p_name p) b).
  assert (H0 : R a st0) by (unfold st0; preserved_prims).
  destruct (match truthyStr (p_group p) with Some _ => _ | None => _ end); [|done].
  destruct (resolveId p _) as [p'|]; [|done].
  destruct (notNull (p_id p')); [|by apply rec_preserved_from].
  destruct (Map_get _ _) as [l|] eqn:Hget; [|done].
  apply opreserved_bind.
  { apply rec_preserved_from. preserved_prims. }
  intros v b2 Hb2. destruct (p_clearFn p') as [d|]; [|done].
  apply opreserved_bind; [by apply callDestructor_preserved|]. done.
Qed.

Lemma bulk_preserved a b p i : R a b → opreserved R a (bulk rec p i b).
Proof.
  intros Hab. unfold bulk. destruct (Map_next _ _) as [[l j]|]; [|done].
  apply opreserved_bind; [by apply rec_preserved_from|].
  intros v b2 Hb2. by apply rec_preserved_from.
Qed.

Lemma hooks_preserved a b l i c : R a b → opreserved R a (hooks rec l i c b).
Proof.
  intros Hab. unfold hooks. destruct (_ !! i) as [h|]; [|done].
  apply opreserved_bind.
  { apply rec_preserved_from. preserved_prims. }
  intros v b2 Hb2. by apply rec_preserved_from.
Qed.

Lemma execTasks_preserved a b i l j args :
  R a b → opreserved R a (execTasks rec i l j args b).
Proof.
  intros Hab. unfold execTasks. destruct (_ !! j) as [[resolve reject]|]; [|done].
  apply opreserved_bind.
  { apply rec_preserved_from. preserved_prims. }
  intros v b2 Hb2. by apply rec_preserved_from.
Qed.

Lemma onPromiseClear_preserved a b resolve reject args :
  R a b → opreserved R a (onPromiseClear rec resolve reject args b).
Proof.
  intros Hab. unfold onPromiseClear.
  destruct args as [|[v|c|e] args]; try done.
  - destruct v; try done; by apply rec_preserved_from.
  - destruct (p_replacedBy (ctx_p c)) as [r|]; [|by apply rec_preserved_from].
    destruct (_ && _); [|by apply rec_preserved_from].
    preserved_prims.
  - by apply rec_preserved_from.
Qed.

Lemma wrappedObj_preserved a b cl args :
  R a b → opreserved R a (wrappedObj rec cl args b).
Proof.
  intros Hab. unfold wrappedObj. destruct (Map_get _ _) as [l|]; [|done].
  set (b1 := if c_interval cl then b else _).
  assert (H1 : R a b1) by (unfold b1; destruct (c_interval cl); preserved_prims).
  apply opreserved_bind.
  { destruct (c_finalObj cl); try done.
    apply rec_preserved_from. preserved_prims. }
  intros res b2 Hb2. destruct (isPromiseLike b2 _).
  - preserved_prims.
  - apply opreserved_bind; [by apply rec_preserved_from|]. done.
Qed.

Lemma runScript_preserved cs : ∀ a b, R a b → opreserved R a (runScript rec cs b).
Proof.
  induction cs as [|c cs IH]; intros a b Hab; simpl; [done|].
  apply opreserved_bind.
  - destruct c; simpl; try done; by apply rec_preserved_from.
  - intros v b2 Hb2. by apply IH.
Qed.

Lemma callFn_preserved a b f args :
  R a b → opreserved R a (callFn prog rec f args b).
Proof.
  intros Hab. unfold callFn. destruct f as [u|p|p|resolve reject|k].
  - apply opreserved_bind; [by apply runScript_preserved|]. done.
  - preserved_prims.
  - preserved_prims.
  - by apply onPromiseClear_preserved.
  - destruct (closures b !! k); [|done]. by apply wrappedObj_preserved.
Qed.

Lemma step_preserved c st : opreserved R st (step prog rec c st).
Proof.
  pose proof (R_refl st) as Hrefl. destruct c; simpl.
  - by apply setAsync_preserved.
  - by apply clearAsync_preserved.
  - by apply bulk_preserved.
  - by apply hooks_preserved.
  - by apply callFn_preserved.
  - by apply execTasks_preserved.
Qed.

End PreservedStep.

Lemma run_preserved prog fuel : ∀ c st, opreserved R st (run prog fuel c st).
Proof.
  induction fuel as [|n IH]; intros c st; [done|].
  rewrite run_S. by apply step_preserved.
Qed.

Lemma callDestructor_run_preserved prog n d id c st :
  opreserved R st (callDestructor (run prog n) d id c st).
Proof. apply callDestructor_preserved; [apply run_preserved | apply R_refl]. Qed.

End Preserved.

(** ** Clear hooks are only appended *)

Section Appends.

Lemma appends_refl a : appends a a.
Proof. by intros l. Qed.

Lemma appends_trans a b c : appends a b → appends b c → appends a c.
Proof. intros Hab Hbc l. etrans; [apply Hab | apply Hbc]. Qed.

Lemma appends_heap a b : heap b = heap a → appends a b.
Proof. intros Hh l. unfold getLink. by rewrite Hh. Qed.

Lemma appends_push_link k b : appends b (push_link k b).
Proof.
  intros l. destruct (decide (l < length (heap b))) as [Hlt|Hge].
  - by rewrite getLink_push_link_old.
  - unfold getLink at 1. rewrite lookup_ge_None_2 by lia. simpl. apply prefix_nil.
Qed.

Lemma appends_push_onComplete r pair b : appends b (push_onComplete r pair b).
Proof.
  intros l. rewrite getLink_push_onComplete. case_decide as Hd; [|done].
  destruct Hd as [-> _]. done.
Qed.

Lemma appends_push_onClear r fs b : appends b (push_onClear r fs b).
Proof.
  intros l. rewrite getLink_push_onClear. case_decide as Hd; [|done].
  destruct Hd as [-> _]. simpl. by apply prefix_app_r.
Qed.

Lemma heap_settle p s b : heap (settle p s b) = heap b.
Proof. unfold settle. by destruct (promises b !! p) as [[| |]|]. Qed.

Lemma run_appends prog fuel c st : oappends st (run prog fuel c st).
Proof.
  apply (run_preserved appends);
    first [ apply appends_refl | apply appends_trans | apply appends_push_link
          | apply appends_push_onComplete | apply appends_push_onClear
          | intros; apply appends_heap;
            first [ apply heap_initCache | apply heap_initGroup | apply heap_settle
                  | apply heap_allocClosure | reflexivity ] ].
Qed.

End Appends.

(** ** The calls of one clear, in order *)

Section ClearOrder.

Variable prog : nat -> ufun.
Variable l : nat.

Lemma aboutOf_app t1 t2 : aboutOf l (t1 ++ t2) = aboutOf l t1 ++ aboutOf l t2.
Proof.
  induction t1 as [|e t1 IH]; simpl; [done|]. rewrite IH.
  by destruct (isAbout l e).
Qed.

Lemma aboutOf_notAbout t : Forall (notAbout l) t → aboutOf l t = [].
Proof.
  induction 1 as [|e t He _ IH]; simpl; [done|]. rewrite IH.
  destruct e; simpl in *; try done; by rewrite bool_decide_eq_false_2.
Qed.

Lemma aboutOf_hook h c t :
  ctx_link c = l → aboutOf l (EHook h c :: t) = EHook h c :: aboutOf l t.
Proof. intros Hc. simpl. by rewrite bool_decide_eq_true_2. Qed.

Lemma aboutOf_destroy d id c t :
  ctx_link c = l → aboutOf l (EDestroy d id c :: t) = EDestroy d id c :: aboutOf l t.
Proof. intros Hc. simpl. by rewrite bool_decide_eq_true_2. Qed.

Lemma lost_log e st : lost l st → lost l (log e st).
Proof. apply lost_ext; done. Qed.

(** The hook loop of the clear of a Link that has left the registry, from
    index [i]: the hooks called for the Link are those of its [onClear]
    list from [i] on, in order, hooks appended meanwhile included; when a
    hook throws, the first of them. *)
Lemma hooks_order c n :
  ctx_link c = l →
  ∀ i st, lost l st →
    match run prog n (KHooks l i c) st with
    | Ok _ s =>
        lost l s ∧ appends st s
        ∧ ∃ t, trace s = trace st ++ t
               ∧ aboutOf l t = hookEvents c (drop i (l_onClear (getLink s l)))
    | Throw _ s =>
        lost l s ∧ appends st s
        ∧ ∃ t, trace s = trace st ++ t
               ∧ aboutOf l t `prefix_of` hookEvents c (drop i (l_onClear (getLink s l)))
    | OutOfFuel => True
    end.
Proof.
  intros Hc. induction n as [|n IH]; intros i st Hlost; [done|].
  rewrite run_S. unfold step, hooks.
  destruct (l_onClear (getLink st l) !! i) as [h|] eqn:Hh.
  2:{ split; [done|]. split; [apply appends_refl|]. exists [].
      rewrite app_nil_r. split; [done|].
      apply lookup_ge_None_1 in Hh. by rewrite drop_ge. }
  pose proof (run_safe prog l n (KCallFn h [ACtx c]) (log (EHook h c) st)
                (lost_log _ _ Hlost) I) as Hs.
  pose proof (run_appends prog n (KCallFn h [ACtx c]) (log (EHook h c) st)) as Ha.
  destruct (run prog n (KCallFn h [ACtx c]) (log (EHook h c) st)) as [v s1|e s1|];
    simpl in Hs, Ha |- *; try done.
  - destruct Hs as [Hlost1 (t1 & Ht1 & Hf1)].
    assert (Ha1 : appends st s1).
    { eapply appends_trans; [|exact Ha]. by apply appends_heap. }
    specialize (IH (S i) s1 Hlost1).
    destruct (run prog n (KHooks l (S i) c) s1) as [v' s2|e' s2|]; try done;
      destruct IH as (Hlost2 & Ha2 & t2 & Ht2 & Hab);
      (split; [done|]); (split; [by eapply appends_trans|]);
      exists (EHook h c :: t1 ++ t2);
      (split; [rewrite Ht2, Ht1; simpl; by rewrite <- !app_assoc|]);
      assert (Hh2 : l_onClear (getLink s2 l) !! i = Some h)
        by (eapply prefix_lookup_Some; [exact Hh|];
            etrans; [apply Ha1 | apply Ha2]);
      rewrite (drop_S _ _ _ Hh2); simpl hookEvents;
      rewrite (aboutOf_hook _ _ _ Hc), aboutOf_app, (aboutOf_notAbout t1 Hf1); simpl.
    + by rewrite Hab.
    + by apply prefix_cons.
  - destruct Hs as [Hlost1 (t1 & Ht1 & Hf1)].
    assert (Ha1 : appends st s1).
    { eapply appends_trans; [|exact Ha]. by apply appends_heap. }
    split; [done|]. split; [done|].
    exists (EHook h c :: t1). split; [rewrite Ht1; simpl; by rewrite <- !app_assoc|].
    assert (Hh1 : l_onClear (getLink s1 l) !! i = Some h)
      by (eapply prefix_lookup_Some; [exact Hh | apply Ha1]).
    rewrite (drop_S _ _ _ Hh1). simpl hookEvents.
    rewrite (aboutOf_hook _ _ _ Hc), (aboutOf_notAbout t1 Hf1).
    apply prefix_cons, prefix_nil.
Qed.

(** The destructor call of the clear. *)
Lemma callDestructor_order n d id c st :
  ctx_link c = l →
  lost l st →
  match callDestructor (run prog n) d id c st with
  | Ok _ s | Throw _ s =>
      lost l s ∧ appends st s
      ∧ ∃ t, trace s = trace st ++ t ∧ aboutOf l t = [EDestroy d id c]
  | OutOfFuel => True
  end.
Proof.
  intros Hc Hlost. unfold callDestructor.
  assert (Hhere : lost l (log (EDestroy d id c) st)
                  ∧ appends st (log (EDestroy d id c) st)
                  ∧ ∃ t, trace (log (EDestroy d id c) st) = trace st ++ t
                         ∧ aboutOf l t = [EDestroy d id c]).
  { split; [by apply lost_log|]. split; [by apply appends_heap|].
    exists [EDestroy d id c]. split; [done|]. by rewrite (aboutOf_destroy _ _ _ _ Hc). }
  assert (Hnest : ∀ f args,
    match run prog n (KCallFn f args) (log (EDestroy d id c) st) with
    | Ok _ s | Throw _ s =>
        lost l s ∧ appends st s
        ∧ ∃ t, trace s = trace st ++ t ∧ aboutOf l t = [EDestroy d id c]
    | OutOfFuel => True
    end).
  { intros f args.
    pose proof (run_safe prog l n (KCallFn f args) (log (EDestroy d id c) st)
                  (lost_log _ _ Hlost) I) as Hs.
    pose proof (run_appends prog n (KCallFn f args) (log (EDestroy d id c) st)) as Ha.
    destruct (run prog n (KCallFn f args) _) as [v s|e s|]; simpl in Hs, Ha |- *;
      try done; destruct Hs as [Hlost1 (t1 & Ht1 & Hf1)]; (split; [done|]);
      (split; [eapply appends_trans; [|exact Ha]; by apply appends_heap|]);
      exists (EDestroy d id c :: t1);
      (split; [rewrite Ht1; simpl; by rewrite <- !app_assoc|]);
      by rewrite (aboutOf_destroy _ _ _ _ Hc), (aboutOf_notAbout t1 Hf1). }
  destruct d as [prim| |]; simpl.
  - exact Hhere.
  - unfold workerDestructor. destruct (workerMethod _ id); try exact Hhere. apply Hnest.
  - unfold requestDestructor.
    destruct (match id with VObj r => _ | _ => _ end); try exact Hhere. apply Hnest.
Qed.

(** One [clearAsync] of a live Link, whatever its hooks and destructor
    do. *)
Lemma clearAsync_order n p p' st :
  regOk st →
  resolveId p (getLocal (p_name p) (truthyStr (p_group p)) st) = Some p' →
  notNull (p_id p') = true →
  Map_get (p_id p') (links (getLocal (p_name p) (truthyStr (p_group p)) st)) = Some l →
  let st1 := removed (p_name p) (truthyStr (p_group p)) (getLink st l) st in
  let c := Ctx p' l "clearAsync" in
  match run prog (S n) (KClearAsync p) st with
  | Ok _ s =>
      clearedIn true l c (l_onClear (getLink st l)) (p_clearFn p) (p_id p') st1 s
  | Throw _ s =>
      clearedIn false l c (l_onClear (getLink st l)) (p_clearFn p) (p_id p') st1 s
  | OutOfFuel => True
  end.
Proof.
  intros Hreg Hres Hnn Hget st1 c.
  destruct (resolveId_fields _ _ _ Hres) as (_ & _ & _ & Hcf & _).
  assert (Hid : l_id (getLink st l) = p_id p').
  { destruct Hreg as (_ & R2 & _). apply Map_get_entry in Hget.
    by destruct (R2 _ _ _ _ Hget). }
  assert (Hlost : lost l st1) by (by apply (lost_removed _ _ (p_id p'))).
  assert (Hsame : l_onClear (getLink st1 l) = l_onClear (getLink st l))
    by (unfold st1; by rewrite getLink_removed).
  rewrite (clearAsync_live prog n p p' l st Hres Hnn Hget). cbv zeta.
  fold st1 c. rewrite Hid, Hcf.
  pose proof (hooks_order c n eq_refl 0 st1 Hlost) as Hh.
  destruct (run prog n (KHooks l 0 c) st1) as [v s2|e s2|]; simpl; try done.
  - destruct Hh as (Hlost2 & Ha2 & t2 & Ht2 & Hab2). rewrite drop_0 in Hab2.
    assert (Hpre : l_onClear (getLink st l) `prefix_of` l_onClear (getLink s2 l))
      by (rewrite <- Hsame; apply Ha2).
    destruct (p_clearFn p) as [d|]; simpl.
    + pose proof (callDestructor_order n d (p_id p') c s2 eq_refl Hlost2) as Hd.
      destruct (callDestructor (run prog n) d (p_id p') c s2) as [v' s3|e' s3|];
        simpl; try done; destruct Hd as (Hlost3 & Ha3 & t3 & Ht3 & Hab3);
        (split; [done|]); exists (t2 ++ t3), (l_onClear (getLink s2 l));
        (split; [rewrite Ht3, Ht2; by rewrite <- !app_assoc|]);
        (split; [done|]); (split; [apply Ha3|]);
        rewrite aboutOf_app, Hab2, Hab3; done.
    + split; [done|]. exists t2, (l_onClear (getLink s2 l)).
      split; [done|]. split; [done|]. split; [done|]. by rewrite Hab2, app_nil_r.
  - destruct Hh as (Hlost2 & Ha2 & t2 & Ht2 & Hab2). rewrite drop_0 in Hab2.
    split; [done|]. exists t2, (l_onClear (getLink s2 l)).
    split; [done|]. split; [rewrite <- Hsame; apply Ha2|]. split; [done|].
    etrans; [exact Hab2|]. by apply prefix_app_r.
Qed.

End ClearOrder.

(** C6 (as the code has it). A [clearAsync] call that resolves to a live
    Link first deletes the Link from [links] and sets [labels[link.label]]
    to [undefined]: the hook loop starts in the state [st1] where both are
    done.  It then calls the clear hooks of the Link in registration order
    with the context [{...p, link, type: "clearAsync"}] (hooks appended to
    the Link while they run are called after them), and when all have
    returned it calls the destructor with the id and that context.  A hook
    that throws ends the call there: the calls made for the Link are then
    the first of that sequence, without the destructor.  This holds
    whatever the hooks and the destructor do, calls back into the
    coordinator included, and the Link is out of every [links] Map in
    every case: also when a hook throws, and when the destructor fails, as
    [workerDestructor] does with its [ReferenceError] on a worker that has
    none of [terminate], [destroy], [close]. *)
Theorem C6_clear_removes_then_hooks_then_destructor prog n p p' l st :
  let name := p_name p in
  let g := truthyStr (p_group p) in
  let link := getLink st l in
  let c := Ctx p' l "clearAsync" in
  let st1 := labels_set name g (labelKey (l_label link)) VUndef
               (links_delete name g (l_id link) st) in
  regOk st →
  resolveId p (getLocal name g st) = Some p' →
  notNull (p_id p') = true →
  Map_get (p_id p') (links (getLocal name g st)) = Some l →
  l_id link = p_id p'
  ∧ Map_get (p_id p') (links (getLocal name g st1)) = None
  ∧ labels_get (getLocal name g st1) (labelKey (l_label link)) = VUndef
  ∧ trace st1 = trace st ++ [ELinksDelete name g (p_id p')]
  ∧ run prog (S n) (KClearAsync p) st
    = (let! (_, s) := run prog n (KHooks l 0 c) st1 in
       match p_clearFn p with
       | Some d =>
           let! (_, s') := callDestructor (run prog n) d (p_id p') c s in
           Ok VUndef s'
       | None => Ok VUndef s
       end)
  ∧ match run prog (S n) (KClearAsync p) st with
    | Ok _ s =>
        lost l s
        ∧ ∃ t hs,
            trace s = trace st1 ++ t
            ∧ l_onClear link `prefix_of` hs
            ∧ aboutOf l t = hookEvents c hs ++ destroyEvents (p_clearFn p) (p_id p') c
    | Throw _ s =>
        lost l s
        ∧ ∃ t hs,
            trace s = trace st1 ++ t
            ∧ l_onClear link `prefix_of` hs
            ∧ aboutOf l t
              `prefix_of` hookEvents c hs ++ destroyEvents (p_clearFn p) (p_id p') c
    | OutOfFuel => True
    end
  ∧ (∀ D,
       Forall (fun h => quietFn prog h = true ∧ fnDepth h ≤ D) (l_onClear link) →
       p_replacedBy p ≠ Some l →
       length (l_onClear link) + D + 2 ≤ n →
       ∃ s, run prog n (KHooks l 0 c) st1 = Ok VUndef s
            ∧ trace s = trace st1 ++ hookEvents c (l_onClear link))
  ∧ (∀ v s,
       run prog n (KHooks l 0 c) st1 = Ok v s →
       p_clearFn p = Some DWorker →
       isFunction (workerMethod s (p_id p')) = false →
       run prog (S n) (KClearAsync p) st
       = Throw (ReferenceError "Destructor function for the worker is not defined")
           (log (EDestroy DWorker (p_id p') c) s)).
Proof.
  intros name g link c st1 Hreg Hres Hnn Hget.
  destruct (resolveId_fields _ _ _ Hres) as (_ & _ & _ & Hcf & Hrb & _).
  assert (Hid : l_id link = p_id p').
  { destruct Hreg as (_ & R2 & _). apply Map_get_entry in Hget.
    by destruct (R2 _ _ _ _ Hget). }
  assert (Hwf : Map_wf (links (getLocal name g st))) by apply Hreg.
  assert (Hrun : run prog (S n) (KClearAsync p) st
    = (let! (_, s) := run prog n (KHooks l 0 c) st1 in
       match p_clearFn p with
       | Some d =>
           let! (_, s') := callDestructor (run prog n) d (p_id p') c s in
           Ok VUndef s'
       | None => Ok VUndef s
       end)).
  { rewrite (clearAsync_live prog n p p' l st Hres Hnn Hget). cbv zeta.
    fold name g link. by rewrite Hcf, Hid. }
  split; [exact Hid|].
  split; [by apply (removed_absent name g link st)|].
  split; [apply (removed_label name g link st)|].
  split; [unfold st1; simpl; by rewrite Hid|].
  split; [exact Hrun|]. split; [|split].
  - pose proof (clearAsync_order prog l n p p' st Hreg Hres Hnn Hget) as Ho.
    cbv zeta in Ho. fold name g link c in Ho.
    destruct (run prog (S n) (KClearAsync p) st) as [v s|e s|]; [| |done];
      destruct Ho as (Hlost & t & hs & Ht & Hpre & _ & Hab);
      (split; [done|]); exists t, hs; done.
  - intros D Hquiet Hrep Hn.
    destruct (hooks_quiet prog c l (l_onClear link) D) with (n := n) (i := 0) (st := st1)
      as (s & Hs & Htr & _).
    + simpl. by rewrite Hrb.
    + done.
    + done.
    + lia.
    + exists s. split; [done|]. by rewrite drop_0 in Htr.
  - intros v s Hhooks Hd Hnf. rewrite Hrun, Hhooks, Hd. simpl.
    unfold workerDestructor.
    change (workerMethod (log (EDestroy DWorker (p_id p') c) s) (p_id p'))
      with (workerMethod s (p_id p')).
    by destruct (workerMethod s (p_id p')).
Qed.


(** C4 (as the code has it). A [setAsync] call on a label that holds a live
    task, with [join] other than [true], starts its primitive and builds
    the new Link, and then clears the prior holder of the label, with
    [replacedBy] naming the new Link.  When that clear starts, in [stA],
    the new Link is in no [links] Map and the label still names the prior
    holder.  Only when the clear has returned is the new Link put into
    [links] and [labels[label]] set to the new id: the removal of the
    prior holder and the calls of its hooks and destructor all come before
    [links.set].  When the clear throws, [setAsync] throws with it, and the
    new Link is never installed, although its primitive has been
    started.  This holds whatever the hooks of the prior holder do. *)
Theorem C4_prior_cleared_before_install prog n p key prior lp id st st1 :
  let name := p_name p in
  let g := truthyStr (p_group p) in
  let lnew := length (heap st) in
  let c := Ctx (with_id (with_replacedBy p lnew) prior) lp "clearAsync" in
  let stA := push_link (Link id (p_obj p) (p_label p) [] (p_onClear p))
               (allocClosure p g id (p_obj p) st1) in
  regOk st →
  truthyStr (p_label p) = Some key →
  labels_get (getLocal name g st) key = prior →
  truthy prior = true →
  p_join p ≠ Some JoinTrue →
  p_id p = VUndef →
  Map_get prior (links (getLocal name g st)) = Some lp →
  usesPayload p →
  notNull (p_obj p) = true →
  startPrimitive p (wrapperRef p (p_obj p) st) (p_obj p) st = Ok id st1 →
  lost lnew stA
  ∧ Map_get prior (links (getLocal name g stA)) = Some lp
  ∧ labels_get (getLocal name g stA) key = prior
  ∧ run prog (S (S n)) (KSetAsync p) st
    = (let! (_, s) := run prog (S n) (KClearAsync (with_replacedBy p lnew)) stA in
       Ok id (install p id lnew s))
  ∧ match run prog (S (S n)) (KSetAsync p) st with
    | Ok v st' =>
        v = id
        ∧ ∃ u s t hs,
            run prog (S n) (KClearAsync (with_replacedBy p lnew)) stA = Ok u s
            ∧ lost lnew s
            ∧ lost lp s
            ∧ trace s = trace st1 ++ ELinksDelete name g prior :: t
            ∧ l_onClear (getLink st lp) `prefix_of` hs
            ∧ aboutOf lp t = hookEvents c hs ++ destroyEvents (p_clearFn p) prior c
            ∧ trace st' = trace s ++ [ELinksSet name g id lnew]
            ∧ Map_get id (links (getLocal name g st')) = Some lnew
            ∧ labels_get (getLocal name g st') key = id
    | Throw e st' =>
        run prog (S n) (KClearAsync (with_replacedBy p lnew)) stA = Throw e st'
        ∧ lost lnew st'
        ∧ lost lp st'
        ∧ ∃ t hs,
            trace st' = trace st1 ++ ELinksDelete name g prior :: t
            ∧ l_onClear (getLink st lp) `prefix_of` hs
            ∧ aboutOf lp t
              `prefix_of` hookEvents c hs ++ destroyEvents (p_clearFn p) prior c
    | OutOfFuel => True
    end.
Proof.
  intros name g lnew c stA Hreg Hkey Hprior Htruthy Hjoin Hid Hget Hpay Hobj Hstart.
  apply truthyStr_Some in Hkey as Hlabel.
  assert (Hinit : initGroup name g (initCache name st) = st).
  { apply (init_occupied _ _ _ key). rewrite Hprior. by apply truthy_notUndef. }
  pose proof (setAsync_unfold prog (S n) p st id st1) as Hu. cbv zeta in Hu.
  fold name g in Hu. rewrite Hinit, Hlabel in Hu.
  change (labelKey (Some key)) with key in Hu.
  rewrite Hprior, Htruthy in Hu.
  rewrite bool_decide_eq_false_2 in Hu by done.
  specialize (Hu eq_refl Hpay Hobj Hstart).
  destruct (startPrimitive_frame _ _ _ _ _ _ Hstart) as (Hc1 & Hh1 & _ & _ & _).
  rewrite Hh1, <- Hlabel in Hu. fold lnew stA in Hu.
  assert (HcA : cache stA = cache st) by (unfold stA; simpl; by rewrite cache_allocClosure).
  assert (HlocA : ∀ name' g', getLocal name' g' stA = getLocal name' g' st)
    by (intros; by apply getLocal_cache).
  assert (HheapA : heap stA = heap st ++ [Link id (p_obj p) (p_label p) [] (p_onClear p)]).
  { unfold stA. simpl. by rewrite heap_allocClosure, Hh1. }
  assert (HtrA : trace stA = trace st1) by (unfold stA; simpl; by rewrite trace_allocClosure).
  assert (Hlp : lp < lnew).
  { destruct Hreg as (_ & R2 & _). apply Map_get_entry in Hget.
    by destruct (R2 _ _ _ _ Hget). }
  assert (HlinkA : getLink stA lp = getLink st lp).
  { unfold getLink. rewrite HheapA. by rewrite lookup_app_l by exact Hlp. }
  assert (HlostA : lost lnew stA).
  { split.
    - rewrite HheapA, length_app. simpl. unfold lnew. lia.
    - intros name' g' Hv. rewrite HlocA in Hv. apply Map_values_entry in Hv as (k & Hin).
      destruct Hreg as (_ & R2 & _). destruct (R2 _ _ _ _ Hin) as [Hlt _].
      unfold lnew in Hlt. lia. }
  assert (HregA : regOk stA).
  { pose proof (startPrimitive_keeps st st p (wrapperRef p (p_obj p) st) (p_obj p)
                  (keeps_refl st)) as Hk.
    rewrite Hstart in Hk. simpl in Hk.
    assert (HkA : keeps st stA).
    { unfold stA. eapply keeps_trans; [exact Hk|].
      eapply keeps_trans; [apply keeps_allocClosure | apply keeps_push_link]. }
    by apply HkA. }
  assert (Hres : resolveId (with_replacedBy p lnew)
                   (getLocal (p_name (with_replacedBy p lnew))
                      (truthyStr (p_group (with_replacedBy p lnew))) stA)
                 = Some (with_id (with_replacedBy p lnew) prior)).
  { unfold resolveId. simpl. rewrite Hlabel. simpl.
    destruct (decide (key = "")) as [->|]; [by rewrite Hlabel in Hkey|].
    fold name g. rewrite HlocA, Hprior, Hid. done. }
  split; [exact HlostA|]. split; [by rewrite HlocA|]. split; [by rewrite HlocA|].
  split; [exact Hu|].
  pose proof (clearAsync_order prog lp n (with_replacedBy p lnew)
                (with_id (with_replacedBy p lnew) prior) stA HregA Hres
                ltac:(by apply truthy_notNull)
                ltac:(simpl; fold name g; by rewrite HlocA)) as Ho.
  cbv zeta in Ho. simpl p_name in Ho. simpl p_group in Ho. simpl p_clearFn in Ho.
  simpl p_id in Ho. fold name g c in Ho. rewrite HlinkA in Ho.
  pose proof (run_safe prog lnew (S n) (KClearAsync (with_replacedBy p lnew)) stA
                HlostA I) as Hs.
  assert (Hprior_id : l_id (getLink st lp) = prior).
  { destruct Hreg as (_ & R2 & _). apply Map_get_entry in Hget.
    by destruct (R2 _ _ _ _ Hget). }
  assert (Htr1 : trace (removed name g (getLink st lp) stA)
                 = trace st1 ++ [ELinksDelete name g prior]).
  { rewrite trace_removed, HtrA. by rewrite Hprior_id. }
  rewrite Hu.
  destruct (run prog (S n) (KClearAsync (with_replacedBy p lnew)) stA) as [v s|e s|] eqn:E;
    simpl; [| |done].
  - destruct Ho as (Hlostp & t & hs & Ht & Hpre & _ & Hab).
    destruct Hs as [Hlostn _].
    split; [done|]. exists v, s, t, hs.
    split; [done|]. split; [done|]. split; [done|].
    split; [rewrite Ht, Htr1; by rewrite <- app_assoc|].
    split; [done|]. split; [done|].
    unfold install. fold name g. rewrite Hkey.
    split; [done|]. split.
    + rewrite links_labels_set, links_links_set. apply Map_get_set_eq.
    + rewrite labels_get_labels_set. by rewrite decide_True.
  - destruct Ho as (Hlostp & t & hs & Ht & Hpre & _ & Hab).
    destruct Hs as [Hlostn _].
    split; [done|]. split; [done|]. split; [done|]. exists t, hs.
    split; [rewrite Ht, Htr1; by rewrite <- app_assoc|]. done.
Qed.

(** ** Joined calls *)

Section Joined.

Variable prog : nat -> ufun.



End Joined.


(** ** A bulk clear over the live Map *)

Section Slots.

Implicit Types (m : JsMap) (k : value) (l i j x : nat).

Lemma Map_set_slot k l m x : m !! x = Some None → Map_set k l m !! x = Some None.
Proof.
  revert x. induction m as [|[[k' v']|] m IH]; intros x; simpl; [done| |].
  - case_decide; destruct x as [|x]; simpl; try done. apply IH.
  - destruct x as [|x]; simpl; [done|]. apply IH.
Qed.

Lemma Map_delete_slot k m x : m !! x = Some None → Map_delete k m !! x = Some None.
Proof.
  revert x. induction m as [|[[k' v']|] m IH]; intros x; simpl; [done| |].
  - case_decide; destruct x as [|x]; simpl; try done. apply IH.
  - destruct x as [|x]; simpl; [done|]. apply IH.
Qed.

Lemma Map_next_Some m i l j :
  Map_next i m = Some (l, j) →
  ∃ x k, j = S x ∧ i ≤ x ∧ m !! x = Some (Some (k, l))
         ∧ ∀ y, i ≤ y → y < x → m !! y = Some None.
Proof.
  revert i l j. induction m as [|e m IH]; intros i l j; simpl; [done|].
  destruct i as [|i].
  - destruct e as [[k v]|].
    + intros [= <- <-]. exists 0, k. split; [done|]. split; [lia|].
      split; [done|]. intros y _ Hy. lia.
    + destruct (Map_next 0 m) as [[v j']|] eqn:Hn; [|done].
      intros [= <- <-]. destruct (IH _ _ _ Hn) as (x & k & -> & _ & Hx & Hy).
      exists (S x), k. split; [done|]. split; [lia|]. split; [done|].
      intros [|y] _ Hlt; simpl; [done|]. apply Hy; lia.
  - destruct (Map_next i m) as [[v j']|] eqn:Hn; [|done].
    intros [= <- <-]. destruct (IH _ _ _ Hn) as (x & k & -> & Hix & Hx & Hy).
    exists (S x), k. split; [done|]. split; [lia|]. split; [done|].
    intros [|y] Hle Hlt; simpl; [lia|]. apply Hy; lia.
Qed.

Lemma Map_next_None m i :
  Map_next i m = None → ∀ y, i ≤ y → y < length m → m !! y = Some None.
Proof.
  revert i. induction m as [|e m IH]; intros i; simpl; [intros _ y _ Hy; lia|].
  destruct i as [|i].
  - destruct e as [[k v]|]; [done|].
    destruct (Map_next 0 m) as [[v j']|] eqn:Hn; [done|].
    intros _ [|y] _ Hlt; simpl; [done|]. apply (IH 0 Hn); lia.
  - destruct (Map_next i m) as [[v j']|] eqn:Hn; [done|].
    intros _ [|y] Hle Hlt; simpl; [lia|]. apply (IH i Hn); lia.
Qed.

Lemma Map_values_emptied m :
  (∀ y, y < length m → m !! y = Some None) → Map_values m = [].
Proof.
  unfold Map_values. induction m as [|e m IH]; intros Hall; simpl; [done|].
  pose proof (Hall 0 ltac:(simpl; lia)) as H0. simpl in H0. injection H0 as ->.
  simpl. apply IH. intros y Hy. apply (Hall (S y)). simpl. lia.
Qed.

Lemma Map_slot_split m x k l :
  m !! x = Some (Some (k, l)) →
  ∃ pre post, m = pre ++ Some (k, l) :: post ∧ length pre = x.
Proof.
  intros Hx. exists (take x m), (drop (S x) m). split.
  - by rewrite take_drop_middle.
  - apply length_take_le. apply lookup_lt_Some in Hx. lia.
Qed.

Lemma Map_get_slot m x k l :
  Map_wf m → m !! x = Some (Some (k, l)) → Map_get k m = Some l.
Proof.
  intros Hwf Hx. destruct (Map_slot_split m x k l Hx) as (pre & post & -> & _).
  apply Map_get_middle. by apply (Map_wf_middle _ k l post).
Qed.

Lemma Map_delete_at m x k l :
  Map_wf m → m !! x = Some (Some (k, l)) → Map_delete k m !! x = Some None.
Proof.
  intros Hwf Hx. destruct (Map_slot_split m x k l Hx) as (pre & post & -> & <-).
  rewrite Map_delete_middle by (by apply (Map_wf_middle _ k l post)).
  by apply list_lookup_middle.
Qed.

Lemma Map_set_length k l m : length m ≤ length (Map_set k l m).
Proof.
  induction m as [|[[k' v']|] m IH]; simpl; [lia| |lia].
  case_decide; simpl; lia.
Qed.

Lemma Map_delete_length k m : length (Map_delete k m) = length m.
Proof.
  induction m as [|[[k' v']|] m IH]; simpl; [done| |lia].
  case_decide; simpl; lia.
Qed.

Lemma Map_values_nil_slot m x : Map_values m = [] → x < length m → m !! x = Some None.
Proof.
  unfold Map_values. revert x. induction m as [|[[k v]|] m IH]; intros x; simpl.
  - lia.
  - done.
  - intros Hnil Hx. destruct x as [|x]; simpl; [done|]. apply IH; [done | lia].
Qed.

Lemma slotsKept_refl a : slotsKept a a.
Proof. by intros name g. Qed.

Lemma slotsKept_trans a b c : slotsKept a b → slotsKept b c → slotsKept a c.
Proof.
  intros Hab Hbc name g. destruct (Hab name g) as [H1 H2].
  destruct (Hbc name g) as [H3 H4]. split; [lia|]. intros j Hj. by apply H4, H2.
Qed.

Lemma slotsKept_local a b :
  (∀ name g, getLocal name g b = getLocal name g a) → slotsKept a b.
Proof. intros Hc name g. by rewrite Hc. Qed.

Lemma slotsKept_cache a b : cache b = cache a → slotsKept a b.
Proof. intros Hc. apply slotsKept_local. intros. by apply getLocal_cache. Qed.

Lemma slotsKept_labels_set name g key v b : slotsKept b (labels_set name g key v b).
Proof.
  intros name' g'. unfold labels_set. rewrite getLocal_putLocal.
  case_decide as Hd; [|done]. by destruct Hd as [-> ->].
Qed.

Lemma slotsKept_links_delete name g id b : slotsKept b (links_delete name g id b).
Proof.
  intros name' g'. unfold links_delete.
  rewrite (getLocal_cache (log _ _) (putLocal name g
    (LocalCache (labels (getLocal name g b)) (Map_delete id (links (getLocal name g b)))) b))
    by done.
  rewrite getLocal_putLocal.
  case_decide as Hd; [|done]. destruct Hd as [-> ->]. simpl.
  split; [by rewrite Map_delete_length | intros j; apply Map_delete_slot].
Qed.

Lemma slotsKept_links_set name g id l b : slotsKept b (links_set name g id l b).
Proof.
  intros name' g'. unfold links_set.
  rewrite (getLocal_cache (log _ _) (putLocal name g
    (LocalCache (labels (getLocal name g b)) (Map_set id l (links (getLocal name g b)))) b))
    by done.
  rewrite getLocal_putLocal.
  case_decide as Hd; [|done]. destruct Hd as [-> ->]. simpl.
  split; [apply Map_set_length | intros j; apply Map_set_slot].
Qed.

Lemma cache_settle p s b : cache (settle p s b) = cache b.
Proof. unfold settle. by destruct (promises b !! p) as [[| |]|]. Qed.

Ltac slots_prims :=
  first [ apply slotsKept_refl | apply slotsKept_trans | apply slotsKept_labels_set
        | apply slotsKept_links_delete | apply slotsKept_links_set
        | intros; apply slotsKept_local; intros;
          first [ apply getLocal_initCache | apply getLocal_initGroup ]
        | intros; apply slotsKept_cache;
          first [ apply cache_settle | apply cache_allocClosure | reflexivity ] ].

Lemma run_slotsKept prog fuel c st : opreserved slotsKept st (run prog fuel c st).
Proof. apply (run_preserved slotsKept); slots_prims. Qed.

Lemma callDestructor_slotsKept prog n d id c st :
  opreserved slotsKept st (callDestructor (run prog n) d id c st).
Proof. apply (callDestructor_run_preserved slotsKept); slots_prims. Qed.

End Slots.

Section BulkEmpties.

Variable prog : nat -> ufun.
Variable name : string.
Variable g : option string.

Lemma bulk_and_clear_empty n :
  (∀ p i st v st',
     p_name p = name → truthyStr (p_group p) = g → truthyStr (p_label p) = None →
     regOk st → emptiedBelow name g i st →
     run prog n (KBulk p i) st = Ok v st' →
     Map_values (links (getLocal name g st')) = [])
  ∧ (∀ p x l st v st',
     p_name p = name → truthyStr (p_group p) = g → truthyStr (p_label p) = None →
     regOk st → links (getLocal name g st) !! x = Some (Some (p_id p, l)) →
     run prog n (KClearAsync p) st = Ok v st' →
     links (getLocal name g st') !! x = Some None).
Proof.
  induction n as [|n [IHQ IHC]]; [by split|]. split.
  - intros p i st v st' Hn Hg Hl Hreg Hbelow. rewrite run_S. unfold step, bulk.
    rewrite Hn, Hg.
    destruct (Map_next i (links (getLocal name g st))) as [[l j]|] eqn:Hnext.
    + destruct (Map_next_Some _ _ _ _ Hnext) as (x & k & -> & Hix & Hx & Hgap).
      assert (Hk : l_id (getLink st l) = k).
      { destruct Hreg as (_ & Hheap & _).
        apply (Hheap name g k l). by apply list_elem_of_lookup_2 in Hx. }
      rewrite Hk.
      destruct (run prog n (KClearAsync (with_id p k)) st) as [v1 st1|e st1|] eqn:Hrun1;
        simpl; try done.
      intros Hrun2.
      pose proof (run_slotsKept prog n (KClearAsync (with_id p k)) st) as Hkept.
      rewrite Hrun1 in Hkept. simpl in Hkept. destruct (Hkept name g) as [_ Hnone].
      apply (IHQ p (S x) st1 v st'); try done.
      * by apply (regOk_run prog n (KClearAsync (with_id p k)) st v1).
      * intros y Hy. destruct (decide (y = x)) as [->|Hne].
        -- by apply (IHC (with_id p k) x l st v1 st1).
        -- apply Hnone. destruct (decide (y < i)); [by apply Hbelow|].
           apply Hgap; lia.
    + intros [= _ <-]. apply Map_values_emptied. intros y Hy.
      destruct (decide (y < i)); [by apply Hbelow|].
      apply (Map_next_None _ i Hnext); lia.
  - intros p x l st v st' Hn Hg Hl Hreg Hx.
    assert (Hne : links (getLocal name g st) ≠ []).
    { intros Hnil. by rewrite Hnil in Hx. }
    destruct (decide (notNull (p_id p) = true)) as [Hnn|Hnull].
    + assert (Hget : Map_get (p_id p) (links (getLocal name g st)) = Some l).
      { apply (Map_get_slot _ x); [apply Hreg | done]. }
      rewrite (clearAsync_live prog n p p l st);
        [| unfold resolveId; by rewrite Hl | done | by rewrite Hn, Hg].
      rewrite Hn, Hg. cbv zeta.
      set (st1 := removed name g (getLink st l) st).
      assert (H1 : links (getLocal name g st1) !! x = Some None).
      { unfold st1, removed. rewrite links_labels_set, links_links_delete.
        replace (l_id (getLink st l)) with (p_id p).
        - apply (Map_delete_at _ x _ l); [apply Hreg | done].
        - destruct Hreg as (_ & Hheap & _). symmetry.
          apply (Hheap name g (p_id p) l). by apply list_elem_of_lookup_2 in Hx. }
      pose proof (run_slotsKept prog n (KHooks l 0 (Ctx p l "clearAsync")) st1) as Hk2.
      destruct (run prog n (KHooks l 0 (Ctx p l "clearAsync")) st1)
        as [v2 st2|e st2|]; simpl; try done.
      simpl in Hk2. destruct (Hk2 name g) as [_ Hnone2].
      destruct (p_clearFn p) as [d|].
      * pose proof (callDestructor_slotsKept prog n d
                      (l_id (getLink st l)) (Ctx p l "clearAsync") st2) as Hk3.
        destruct (callDestructor _ d _ _ st2) as [v3 st3|e st3|]; simpl; try done.
        intros [= _ <-]. simpl in Hk3. destruct (Hk3 name g) as [_ Hnone3].
        by apply Hnone3, Hnone2.
      * intros [= _ <-]. by apply Hnone2.
    + rewrite run_S. unfold step, clearAsync. rewrite Hn, Hg.
      rewrite (links_nonempty_initCache _ _ _ Hne).
      pose proof (links_nonempty_group _ _ _ Hne) as Hgrp.
      replace (match g with
               | Some g' => hasGroup name g' st
               | None => true
               end) with true by (by destruct g).
      unfold resolveId. rewrite Hl.
      destruct (notNull (p_id p)); [done|].
      intros Hrun.
      pose proof (run_slotsKept prog n (KBulk p 0) st) as Hkept.
      rewrite Hrun in Hkept. simpl in Hkept. destruct (Hkept name g) as [Hlen _].
      apply Map_values_nil_slot.
      * apply (IHQ p 0 st v st'); try done. intros y Hy. lia.
      * apply lookup_lt_Some in Hx. lia.
Qed.

End BulkEmpties.

(** C7 (as the code has it). A bulk clear walks the live [links] Map with
    the iterator of [links.values()], in insertion order: there is no
    snapshot.  Whatever the clear hooks and the destructors do (register
    new tasks in the same Map, clear others, call back into the class), a
    bulk clear that returns leaves the Map without entries: a slot that the
    iterator has passed is empty and stays empty, and an entry that a hook
    adds is appended behind the iterator and is reached by it.  When the
    clear hooks add and remove no Link, the Links cleared are those present
    at the call: each is cleared in turn (removal, hooks, destructor), and
    the call returns. *)
Theorem C7_bulk_clear_walks_live_map prog n p st D H :
  let name := p_name p in
  let g := truthyStr (p_group p) in
  let m := links (getLocal name g st) in
  truthyStr (p_label p) = None →
  notNull (p_id p) = false →
  (regOk st →
   ∀ v st', run prog (S n) (KClearAsync p) st = Ok v st' →
            Map_values (links (getLocal name g st')) = [])
  ∧ (p_replacedBy p = None →
     (∀ d, p_clearFn p = Some d → ∃ prim, d = DHost prim) →
     Map_wf m →
     (∀ k l, Some (k, l) ∈ m → quietLink prog D H st k l) →
     length m + H + D + 3 ≤ n →
     ∃ st',
       run prog (S n) (KClearAsync p) st = Ok VUndef st'
       ∧ trace st' = trace st ++ concat (clearEvents name g p st <$> Map_values m)
       ∧ Map_values (links (getLocal name g st')) = []).
Proof.
  intros name g m Hlabel Hid. split.
  - intros Hreg v st'. rewrite run_S. unfold step, clearAsync. fold name g.
    destruct (match g with
              | Some g' => hasGroup name g' (initCache name st)
              | None => true
              end) eqn:Hgrp.
    + unfold resolveId. rewrite Hlabel, Hid. simpl. intros Hrun.
      destruct (bulk_and_clear_empty prog name g n) as [HQ _].
      apply (HQ p 0 (initCache name st) v st'); try done.
      * by apply keeps_initCache.
      * intros y Hy. lia.
    + intros [= _ <-]. rewrite getLocal_initCache.
      unfold getLocal. destruct g as [s|]; [|done].
      rewrite hasGroup_initCache in Hgrp. unfold hasGroup in Hgrp.
      destruct (cache st !! name) as [co|]; [|done].
      destruct (groups co !! s) eqn:Hs; [|done].
      apply bool_decide_eq_false_1 in Hgrp. exfalso. apply Hgrp. by eexists.
  - intros Hrb Hcf Hwf Hok Hn.
    rewrite run_S. unfold step, clearAsync. fold name g.
    destruct (match g with
              | Some g' => hasGroup name g' (initCache name st)
              | None => true
              end) eqn:Hgrp.
    + unfold resolveId. rewrite Hlabel, Hid. simpl.
      destruct (bulk_quiet prog p D H Hlabel Hrb Hcf m [] n (initCache name st))
        as (st' & Hrun & Htr & Hvals & _).
      { by rewrite getLocal_initCache. }
      { done. }
      { intros k l Hin. apply (quietLink_ext prog D H st); [|by apply Hok].
        apply getLink_initCache. }
      { lia. }
      exists st'. split; [exact Hrun|]. split; [|exact Hvals].
      rewrite Htr, trace_initCache. f_equal. f_equal.
      apply list_fmap_ext. intros ? l _. apply clearEvents_ext_helper.
      apply getLink_initCache.
    + exists (initCache name st). split; [done|].
      assert (Hm : m = []).
      { unfold m, getLocal. destruct g as [s|]; [|done].
        rewrite hasGroup_initCache in Hgrp. unfold hasGroup in Hgrp.
        destruct (cache st !! name) as [co|]; [|done].
        destruct (groups co !! s) eqn:Hs; [|done].
        apply bool_decide_eq_false_1 in Hgrp. exfalso. apply Hgrp. by eexists. }
      split.
      * rewrite trace_initCache, Hm. simpl. by rewrite app_nil_r.
      * rewrite getLocal_initCache. fold m. by rewrite Hm.
Qed.

(** ** The wrapper of a single-shot task *)

(** ** Instances of the further properties *)

Lemma regOk_oneTimeout : regOk oneTimeout.
Proof.
  refine (proj2 (runAll_keeps quietProg 1
                   [KSetAsync (setTimeoutParams (VFn (FUser 1)) (labelled "t" [FUser 7]))]
                   emptyState oneTimeout _) regOk_empty).
  vm_compute. reflexivity.
Qed.

Lemma registry_invariant_witness : regOk twoTimeouts.
Proof.
  refine (registry_invariant addingProg 1
            [KSetAsync (setTimeoutParams (VFn (FUser 7)) (hooked [FUser 1]));
             KSetAsync (setTimeoutParams (VFn (FUser 8)) noOpts)]
            emptyState twoTimeouts regOk_empty _).
  vm_compute. reflexivity.
Defined.

Lemma cleared_link_stays_cleared_witness :
  ∃ st' st'',
    runAll quietProg 5
      [KClearAsync (clearParams "timeout" (Some (DHost "clearTimeout")) (VNum 1) None None)]
      oneTimeout = Some st'
    ∧ runAll quietProg 5
        [KCallFn (FWrapped 0) [];
         KClearAsync (clearParams "timeout" (Some (DHost "clearTimeout")) VUndef None None)]
        st' = Some st''
    ∧ lost 0 st''.
Proof.
  eexists _, _. split; [vm_compute; reflexivity|]. split; [vm_compute; reflexivity|].
  refine (proj1 (proj2 (cleared_link_stays_cleared quietProg 5
    (clearParams "timeout" (Some (DHost "clearTimeout")) (VNum 1) None None)
    (clearParams "timeout" (Some (DHost "clearTimeout")) (VNum 1) None None)
    0 oneTimeout _
    [KCallFn (FWrapped 0) [];
     KClearAsync (clearParams "timeout" (Some (DHost "clearTimeout")) VUndef None None)]
    _ regOk_oneTimeout _ _ _ _ _ _))).
  - vm_compute. reflexivity.
  - reflexivity.
  - vm_compute. reflexivity.
  - vm_compute. reflexivity.
  - repeat constructor.
  - vm_compute. reflexivity.
Defined.

Lemma fired_task_is_never_cleared_witness :
  ∃ st',
    runAll quietProg 5
      [KCallFn (FWrapped 0) [];
       KClearAsync (clearParams "timeout" (Some (DHost "clearTimeout")) (VNum 1) None None)]
      oneTimeout = Some st'
    ∧ lost 0 st'.
Proof.
  eexists. split; [vm_compute; reflexivity|].
  refine (proj1 (fired_task_is_never_cleared quietProg 5 0
    (Closure "timeout" None (VNum 1) (Some "t") false (VFn (FUser 1)))
    0 [] oneTimeout
    [KClearAsync (clearParams "timeout" (Some (DHost "clearTimeout")) (VNum 1) None None)]
    _ regOk_oneTimeout _ _ _ _ _)).
  - reflexivity.
  - reflexivity.
  - vm_compute. reflexivity.
  - repeat constructor.
  - vm_compute. reflexivity.
Defined.

Lemma set_then_clear_round_trip_witness :
  ∃ st1 st2,
    run quietProg 4
      (KSetAsync (setTimeoutParams (VFn (FUser 1)) (Opts None (Some "t") (Some "G") [FUser 7])))
      emptyState = Ok (VNum 1) st1
    ∧ clearBy quietProg 4 (fun _ => []) "timeout" (Some (DHost "clearTimeout"))
        (ArgOptions (VNum 1) None (Some "G")) st1 = Ok VUndef st2
    ∧ labels_get (getLocal "timeout" (Some "G") st2) "t" = VUndef.
Proof.
  destruct (set_then_clear_round_trip quietProg (fun _ => []) 3
              (setTimeoutParams (VFn (FUser 1)) (Opts None (Some "t") (Some "G") [FUser 7]))
              "setTimeout" "clearTimeout" emptyState 0)
    as (st1 & st2 & Hset & _ & Hclear & _ & _ & Hlabel & _).
  - reflexivity.
  - reflexivity.
  - reflexivity.
  - reflexivity.
  - discriminate.
  - reflexivity.
  - unfold Map_wf. compute_done.
  - compute_done.
  - simpl. lia.
  - exists st1, st2. split; [exact Hset|]. split; [exact Hclear | exact Hlabel].
Defined.

Lemma grouped_task_ignores_bare_id_witness :
  ∃ st1,
    run quietProg 1
      (KSetAsync (setTimeoutParams (VFn (FUser 1)) (Opts None None (Some "G") [])))
      emptyState = Ok (VNum 1) st1
    ∧ Map_get (VNum 1) (links (getLocal "timeout" (Some "G") st1)) = Some 0
    ∧ clearBy quietProg 1 (fun _ => []) "timeout" (Some (DHost "clearTimeout"))
        (ArgValue (VNum 1)) st1 = Ok VUndef st1.
Proof.
  exact (grouped_task_ignores_bare_id quietProg (fun _ => []) 0 0
           (setTimeoutParams (VFn (FUser 1)) (Opts None None (Some "G") []))
           "setTimeout" (Some (DHost "clearTimeout")) "G" emptyState
           eq_refl eq_refl eq_refl eq_refl eq_refl eq_refl eq_refl).
Defined.

Lemma interval_task_stays_registered_witness :
  ∃ st',
    runAll quietProg 2 (replicate 3 (KCallFn (FWrapped 0) [])) oneInterval = Some st'
    ∧ cache st' = cache oneInterval
    ∧ trace st' = trace oneInterval ++ replicate 3 (EPayload (FUser 1) []).
Proof.
  destruct (interval_task_stays_registered quietProg 2 0
              (Closure "interval" None (VNum 1) None true (VFn (FUser 1)))
              0 1 [] 3 eq_refl eq_refl eq_refl (le_n 2) oneInterval)
    as (st' & Hrun & Hcache & _ & _ & Htrace).
  - reflexivity.
  - vm_compute. reflexivity.
  - vm_compute. reflexivity.
  - exists st'. split; [exact Hrun|]. split; [exact Hcache | exact Htrace].
Defined.

Lemma bridge_resolves_when_fired_witness :
  ∃ st1 st2,
    nextTick quietProg 1 noOpts emptyState = Ok 0 st1
    ∧ run quietProg 3 (KCallFn (FWrapped 0) [AVal (VNum 5)]) st1 = Ok VUndef st2
    ∧ promises st2 !! 0 = Some (Resolved [AVal (VNum 5)]).
Proof.
  destruct (bridge_resolves_when_fired quietProg 0 0 setImmediateParams noOpts
              [AVal (VNum 5)] emptyState oneShot_setImmediate)
    as (id & st1 & st2 & Hrun & _ & _ & Hfire & Hres & _).
  - reflexivity.
  - unfold Map_wf. compute_done.
  - reflexivity.
  - exists st1, st2. split; [exact Hrun|]. split; [exact Hfire | exact Hres].
Defined.

Lemma bridge_rejects_when_cleared_witness :
  ∃ id st1 st2,
    idle quietProg 1 (Opts None None (Some "G") []) emptyState = Ok 0 st1
    ∧ cancelIdleCallback quietProg 5 (fun _ => []) (ArgOptions id None (Some "G")) st1
      = Ok VUndef st2
    ∧ promises st2 !! 0
      = Some (Rejected [ACtx (Ctx (clearParams "idleCallback"
                                     (Some (DHost "cancelIdleCallback")) id None (Some "G"))
                                0 "clearAsync")]).
Proof.
  destruct (bridge_rejects_when_cleared quietProg (fun _ => []) 0 4
              requestIdleCallbackParams (Opts None None (Some "G") [])
              (Some (DHost "cancelIdleCallback")) emptyState
              oneShot_requestIdleCallback)
    as (id & st1 & st2 & Hrun & _ & Hclear & Hrej & _).
  - reflexivity.
  - unfold Map_wf. compute_done.
  - reflexivity.
  - intros x [= <-]. by eexists.
  - lia.
  - exists id, st1, st2. split; [exact Hrun|]. split; [exact Hclear | exact Hrej].
Defined.

Lemma replace_forwards_to_successor_witness :
  ∃ st1 st2 st3,
    sleep quietProg 6 (Opts (Some JoinReplace) (Some "s") None []) emptyState = Ok 0 st1
    ∧ sleep quietProg 6 (Opts (Some JoinReplace) (Some "s") None []) st1 = Ok 1 st2
    ∧ run quietProg 4 (KCallFn (FWrapped 1) []) st2 = Ok VUndef st3
    ∧ promises st3 !! 0 = Some (Resolved [])
    ∧ promises st3 !! 1 = Some (Resolved []).
Proof.
  destruct (replace_forwards_to_successor quietProg 6 0 setTimeoutParams
              (Opts (Some JoinReplace) (Some "s") None []) "s" [] emptyState
              oneShot_setTimeout eq_refl eq_refl)
    as (st1 & st2 & st3 & Hrun1 & Hrun2 & _ & _ & Hfire & Hres1 & Hres2).
  - reflexivity.
  - unfold Map_wf. compute_done.
  - reflexivity.
  - lia.
  - exists st1, st2, st3. split; [exact Hrun1|]. split; [exact Hrun2|].
    split; [exact Hfire|]. split; [exact Hres1 | exact Hres2].
Defined.

Lemma third_replace_rejects_first_witness :
  ∃ st1 st2 st3 c,
    animationFrame quietProg 8 (Opts (Some JoinReplace) (Some "s") None []) emptyState = Ok 0 st1
    ∧ animationFrame quietProg 8 (Opts (Some JoinReplace) (Some "s") None []) st1 = Ok 1 st2
    ∧ promises st2 !! 0 = Some Pending
    ∧ animationFrame quietProg 8 (Opts (Some JoinReplace) (Some "s") None []) st2 = Ok 2 st3
    ∧ promises st3 !! 0 = Some (Rejected [ACtx c]).
Proof.
  destruct (third_replace_rejects_first quietProg 8 0 requestAnimationFrameParams
              (Opts (Some JoinReplace) (Some "s") None []) "s" [] emptyState
              oneShot_requestAnimationFrame eq_refl eq_refl)
    as (st1 & st2 & st3 & st4 & c & Hrun1 & Hrun2 & Hpend & Hrun3 & _ & _ & Hrej & _).
  - reflexivity.
  - unfold Map_wf. compute_done.
  - reflexivity.
  - lia.
  - exists st1, st2, st3, c. split; [exact Hrun1|]. split; [exact Hrun2|].
    split; [exact Hpend|]. split; [exact Hrun3 | exact Hrej].
Defined.

Lemma keysOf_all (m : gmap string LocalCacheObject) s :
  is_Some (m !! s) → s ∈ keysOf m.
Proof.
  intros [lc Hs]. unfold keysOf. apply list_elem_of_fmap.
  exists (s, lc). split; [done|]. by apply elem_of_map_to_list.
Qed.

Lemma groupedTimeouts_reached :
  runAll quietProg 1
    [KSetAsync (setTimeoutParams (VFn (FUser 1)) (hooked [FUser 7]));
     KSetAsync (setTimeoutParams (VFn (FUser 2)) (Opts None None (Some "G") []))]
    emptyState = Some groupedTimeouts.
Proof. vm_compute. reflexivity. Qed.

Lemma groupedTimeouts_local g :
  getLocal "timeout" g groupedTimeouts
  = match g with
    | None => LocalCache ∅ [Some (VNum 1, 0)]
    | Some s => if decide (s = "G") then LocalCache ∅ [Some (VNum 2, 1)] else emptyLocal
    end.
Proof.
  unfold getLocal, groupedTimeouts. simpl cache. rewrite lookup_singleton_eq.
  destruct g as [s|]; [|done]. simpl groups.
  case_decide as Hs.
  - subst s. by rewrite lookup_singleton_eq.
  - by rewrite lookup_singleton_ne.
Qed.

Lemma symbolGrouped_reached :
  runAll quietProg 1
    [KSetAsync (setTimeoutParams (VFn (FUser 3)) (Opts None None (Some "Symbol(s)") []))]
    groupedTimeouts = Some symbolGrouped.
Proof. vm_compute. reflexivity. Qed.

Lemma symbolGrouped_local g :
  getLocal "timeout" g symbolGrouped
  = match g with
    | None => LocalCache ∅ [Some (VNum 1, 0)]
    | Some s =>
        if decide (s = "G") then LocalCache ∅ [Some (VNum 2, 1)]
        else if decide (s = "Symbol(s)") then LocalCache ∅ [Some (VNum 3, 2)]
        else emptyLocal
    end.
Proof.
  unfold getLocal, symbolGrouped. simpl cache. rewrite lookup_singleton_eq.
  destruct g as [s|]; [|done]. simpl groups.
  case_decide as Hs.
  - subst s. by rewrite lookup_insert_eq.
  - rewrite lookup_insert_ne by done. case_decide as Hs'.
    + subst s. by rewrite lookup_singleton_eq.
    + by rewrite lookup_singleton_ne.
Qed.

Lemma stringKeys_lists (m : gmap string LocalCacheObject) s :
  is_Some (m !! s) → s ≠ "Symbol(s)" → s ∈ stringKeys m.
Proof.
  intros Hs Hne. unfold stringKeys. apply list_elem_of_filter. split; [done|].
  by apply keysOf_all.
Qed.

Lemma stringKeys_listed (m : gmap string LocalCacheObject) s :
  s ∈ stringKeys m → s ≠ "Symbol(s)".
Proof. unfold stringKeys. intros Hin. by apply list_elem_of_filter in Hin as [? _]. Qed.

Lemma clear_all_empties_the_kind_witness :
  ∃ st',
    clearTimeoutBy quietProg 6 stringKeys ArgUndefined symbolGrouped = Ok VUndef st'
    ∧ Map_values (links (getLocal "timeout" None st')) = []
    ∧ Map_values (links (getLocal "timeout" (Some "G") st')) = []
    ∧ Map_values (links (getLocal "timeout" (Some "Symbol(s)") st')) = [2].
Proof.
  destruct (clear_all_empties_the_kind quietProg stringKeys (fun s => s ≠ "Symbol(s)")
              "timeout" (Some (DHost "clearTimeout")) 0 1 5 symbolGrouped
              stringKeys_lists stringKeys_listed)
    as (st' & Hrun & Hroot & Hlisted & Hrest & _).
  - intros x [= <-]. by eexists.
  - intros g. rewrite symbolGrouped_local. unfold Map_wf.
    destruct g as [s|]; [repeat case_decide|]; compute_done.
  - intros g k l. rewrite symbolGrouped_local.
    destruct g as [s|]; [repeat case_decide|]; simpl; intros Hin.
    + apply list_elem_of_singleton in Hin. injection Hin as -> ->.
      repeat split; try done; simpl; lia.
    + apply list_elem_of_singleton in Hin. injection Hin as -> ->.
      repeat split; try done; simpl; lia.
    + by apply elem_of_nil in Hin.
    + apply list_elem_of_singleton in Hin. injection Hin as -> ->.
      repeat split; try done. simpl.
      apply Forall_singleton. split; [done | simpl; lia].
  - intros g. rewrite symbolGrouped_local.
    destruct g as [s|]; [repeat case_decide|]; simpl; lia.
  - exists st'. split; [exact Hrun|]. split; [exact Hroot|]. split.
    + by apply Hlisted.
    + rewrite Hrest; [by rewrite symbolGrouped_local | done |].
      intros Hl. by apply Hl.
Defined.

Lemma falsy_id_in_options_clears_all_witness :
  ∃ st',
    clearTimeoutBy quietProg 6 keysOf (ArgOptions (VNum 0) None None) oneTimeout
    = Ok VUndef st'
    ∧ Map_values (links (getLocal "timeout" None st')) = [].
Proof.
  destruct (proj1 (falsy_id_in_options_clears_all quietProg keysOf "timeout"
                     (Some (DHost "clearTimeout")) (VNum 0) None 0 1 5 oneTimeout
                     eq_refl eq_refl
                     ltac:(vm_compute; reflexivity)
                     ltac:(intros x [= <-]; by eexists)
                     ltac:(unfold Map_wf; compute_done)
                     ltac:(intros k l Hin; vm_compute in Hin;
                           apply list_elem_of_singleton in Hin;
                           injection Hin as -> ->;
                           split; [vm_compute; reflexivity|];
                           split; [reflexivity|];
                           split; [compute_done | vm_compute; lia])
                     ltac:(vm_compute; lia)))
    as (st' & Hrun & Hvals & _).
  exists st'. split; [exact Hrun | exact Hvals].
Defined.

Lemma settled_request_is_not_aborted_witness :
  ∃ st1 st2,
    request quietProg 1 (VObj 0) noOpts withRequest = Ok (VObj 0) st1
    ∧ run quietProg 1 (KCallFn (FWrapped 0) []) st1 = Ok (VObj 0) st2
    ∧ cancelRequest quietProg 1 keysOf (ArgOptions (VObj 0) None None) st2 = Ok VUndef st2.
Proof.
  destruct (settled_request_is_not_aborted quietProg keysOf 0 0 0 noOpts [] withRequest)
    as (st1 & st2 & Hset & _ & Hfire & _ & _ & Hcancel).
  - reflexivity.
  - reflexivity.
  - unfold Map_wf. compute_done.
  - exists st1, st2. split; [exact Hset|]. split; [exact Hfire | exact Hcancel].
Defined.

Lemma regOk_nocache st : cache st = ∅ → regOk st.
Proof.
  intros Hc.
  assert (Hloc : ∀ name g, getLocal name g st = emptyLocal).
  { intros name g. unfold getLocal. by rewrite Hc, lookup_empty. }
  split; [|split].
  - intros name g. rewrite Hloc. unfold Map_wf. apply NoDup_nil_2.
  - intros name g k l Hin. rewrite Hloc in Hin. by apply elem_of_nil in Hin.
  - intros name g k name' g' k' l Hin. rewrite Hloc in Hin. by apply elem_of_nil in Hin.
Qed.

Lemma same_worker_twice_loses_the_first_witness :
  ∃ st1 st2 st3,
    worker quietProg 4 (VObj 0) (hooked [FUser 7]) withWorker = Ok (VObj 0) st1
    ∧ worker quietProg 4 (VObj 0) (hooked [FUser 8]) st1 = Ok (VObj 0) st2
    ∧ l_onClear (getLink st2 0) = [FUser 7]
    ∧ lost 0 st2
    ∧ terminateWorkerBy quietProg 4 keysOf (ArgOptions (VObj 0) None None) st2
      = Ok VUndef st3
    ∧ trace st3
      = trace st2
        ++ [ELinksDelete "worker" None (VObj 0);
            EHook (FUser 8)
              (Ctx (clearParams "worker" (Some DWorker) (VObj 0) None None) 1 "clearAsync");
            EDestroy DWorker (VObj 0)
              (Ctx (clearParams "worker" (Some DWorker) (VObj 0) None None) 1 "clearAsync")]
    ∧ ∀ c, EHook (FUser 7) c ∉ drop (length (trace st2)) (trace st3).
Proof.
  destruct (same_worker_twice_loses_the_first quietProg keysOf 3 0
              (hooked [FUser 7]) (hooked [FUser 8]) 5 0 withWorker
              (regOk_nocache withWorker eq_refl) eq_refl eq_refl eq_refl eq_refl eq_refl)
    as (st1 & st2 & st3 & Hset1 & Hset2 & _ & Hhooks & _ & Hlost & Hrun & Htr & Hnot & _).
  - vm_compute. reflexivity.
  - reflexivity.
  - apply Forall_singleton. split; [reflexivity | simpl; lia].
  - simpl. lia.
  - exists st1, st2, st3. split; [exact Hset1|]. split; [exact Hset2|].
    split; [exact Hhooks|]. split; [exact Hlost|]. split; [exact Hrun|].
    split; [exact Htr|]. intros c. apply Hnot.
    + apply list_elem_of_singleton. reflexivity.
    + intros Hin. apply list_elem_of_singleton in Hin. discriminate Hin.
Defined.

Lemma joined_bridge_never_settles_witness :
  sleep quietProg 1 (Opts (Some JoinTrue) (Some "s") None []) joinedOnce
  = Ok (length (promises joinedOnce)) joinedTwice
  ∧ promises joinedFired !! 0 = Some (Resolved [])
  ∧ promises joinedFired !! length (promises joinedOnce) = Some Pending.
Proof.
  destruct (joined_bridge_never_settles quietProg 0 3 setTimeoutParams
              (Opts (Some JoinTrue) (Some "s") None []) joinedOnce
              [KCallFn (FWrapped 0) []] joinedFired
              oneShot_setTimeout eq_refl)
    as [Hrun Hnever].
  - vm_compute. reflexivity.
  - intros u. split; [constructor | reflexivity].
  - intros [|l]; repeat split; try done; compute_done.
  - intros [|k] cl; [|done]. intros [= <-]. reflexivity.
  - intros r. unfold getObject. change (objects joinedOnce) with (∅ : gmap nat jsobj).
    by rewrite lookup_empty.
  - repeat constructor.
  - split; [exact Hrun|]. split; [vm_compute; reflexivity|].
    apply Hnever. vm_compute. reflexivity.
Defined.

Lemma single_shot_payload_runs_once_witness :
  ∃ st',
    runAll quietProg 2 (replicate 3 (KCallFn (FWrapped 0) [])) oneTimeout = Some st'
    ∧ trace st'
      = trace oneTimeout ++ [ELinksDelete "timeout" None (VNum 1); EPayload (FUser 1) []].
Proof.
  destruct (single_shot_payload_runs_once quietProg 2 0
              (Closure "timeout" None (VNum 1) (Some "t") false (VFn (FUser 1)))
              0 1 [] 2 oneTimeout)
    as (st' & Hrun & Htrace & _).
  - reflexivity.
  - reflexivity.
  - vm_compute. reflexivity.
  - unfold Map_wf. compute_done.
  - reflexivity.
  - reflexivity.
  - vm_compute. reflexivity.
  - lia.
  - exists st'. split; [exact Hrun | exact Htrace].
Defined.

Lemma clear_by_label_clears_the_holder_witness :
  ∃ st',
    clearTimeoutBy quietProg 4 keysOf (ArgOptions VUndef (Some "t") None) oneTimeout
    = Ok VUndef st'
    ∧ Map_get (VNum 1) (links (getLocal "timeout" None st')) = None
    ∧ labels_get (getLocal "timeout" None st') "t" = VUndef.
Proof.
  destruct (proj1 (clear_by_label_clears_the_holder quietProg keysOf "timeout"
                     (Some (DHost "clearTimeout")) "t" None (VNum 1) 0 0 3 oneTimeout
                     ltac:(discriminate)
                     ltac:(vm_compute; reflexivity)
                     eq_refl
                     ltac:(vm_compute; reflexivity)
                     ltac:(vm_compute; reflexivity)
                     ltac:(vm_compute; reflexivity)
                     ltac:(unfold Map_wf; compute_done)
                     ltac:(compute_done)
                     ltac:(intros x [= <-]; by eexists)
                     ltac:(vm_compute; lia)))
    as (st' & Hrun & _ & Habsent & Hlabel).
  exists st'. split; [exact Hrun|]. split; [exact Habsent | exact Hlabel].
Defined.

Lemma missing_payload_leaks_the_primitive_witness :
  ∃ st',
    run quietProg 1 (KSetAsync (setTimeoutParams VUndef noOpts)) emptyState
    = Throw (TypeError "Cannot read property 'name' of undefined") st'
    ∧ heap st' = []
    ∧ run quietProg 1 (KCallFn (FWrapped 0) []) st' = Ok VUndef st'.
Proof.
  destruct (missing_payload_leaks_the_primitive quietProg 0
              (setTimeoutParams VUndef noOpts) "setTimeout" emptyState
              eq_refl eq_refl eq_refl eq_refl eq_refl eq_refl)
    as (st' & Hrun & _ & Hheap & _ & Hfire).
  exists st'. split; [exact Hrun|]. split; [exact Hheap | exact (Hfire 0 [])].
Defined.

Lemma regOk_reentering : regOk reentering.
Proof.
  refine (proj2 (runAll_keeps reenteringProg 1
                   [KSetAsync (setTimeoutParams (VFn (FUser 7)) (hooked [FUser 1]))]
                   emptyState reentering _) regOk_empty).
  vm_compute. reflexivity.
Qed.

Lemma destructor_is_called_once_witness :
  ∃ st' t,
    run reenteringProg 6
      (KClearAsync (clearParams "timeout" (Some (DHost "clearTimeout")) (VNum 1) None None))
      reentering = Ok VUndef st'
    ∧ trace st' = trace reentering ++ t
    ∧ EHook (FUser 1)
        (Ctx (clearParams "timeout" (Some (DHost "clearTimeout")) (VNum 1) None None)
           0 "clearAsync") ∈ t
    ∧ destroyCount 0 t = 1.
Proof.
  pose proof (destructor_is_called_once reenteringProg 6
                (clearParams "timeout" (Some (DHost "clearTimeout")) (VNum 1) None None)
                (clearParams "timeout" (Some (DHost "clearTimeout")) (VNum 1) None None)
                0 reentering regOk_reentering) as H.
  destruct (run reenteringProg 6
              (KClearAsync (clearParams "timeout" (Some (DHost "clearTimeout")) (VNum 1)
                              None None)) reentering) as [v s|e s|] eqn:E;
    vm_compute in E; try discriminate E.
  destruct H as (t & Ht & Hc).
  - vm_compute. reflexivity.
  - reflexivity.
  - vm_compute. reflexivity.
  - injection E as <- <-. eexists _, t. split; [reflexivity|].
    split; [exact Ht|]. split; [|exact Hc].
    vm_compute in Ht. injection Ht as <-. compute_done.
Defined.

(** ** Instances of the later claims *)

Lemma regOk_rejoining : regOk rejoining.
Proof.
  refine (proj2 (runAll_keeps rejoinProg 1
                   [KSetAsync (setTimeoutParams (VFn (FUser 7)) (labelled "t" [FUser 1]))]
                   emptyState rejoining _) regOk_empty).
  vm_compute. reflexivity.
Qed.

Lemma C6_witness :
  ∃ st' t hs,
    run rejoinProg 6
      (KClearAsync (clearParams "timeout" (Some (DHost "clearTimeout")) (VNum 1) None None))
      rejoining = Ok VUndef st'
    ∧ trace st' = trace rejoining ++ ELinksDelete "timeout" None (VNum 1) :: t
    ∧ [FUser 1] `prefix_of` hs
    ∧ aboutOf 0 t
      = hookEvents
          (Ctx (clearParams "timeout" (Some (DHost "clearTimeout")) (VNum 1) None None)
             0 "clearAsync") hs
        ++ [EDestroy (DHost "clearTimeout") (VNum 1)
              (Ctx (clearParams "timeout" (Some (DHost "clearTimeout")) (VNum 1) None None)
                 0 "clearAsync")]
    ∧ Map_keys (links (getLocal "timeout" None st')) = [VNum 2]
    ∧ labels_get (getLocal "timeout" None st') "t" = VNum 2.
Proof.
  destruct (C6_clear_removes_then_hooks_then_destructor rejoinProg 5
              (clearParams "timeout" (Some (DHost "clearTimeout")) (VNum 1) None None)
              (clearParams "timeout" (Some (DHost "clearTimeout")) (VNum 1) None None)
              0 rejoining regOk_rejoining)
    as (_ & _ & _ & Htr1 & _ & H & _).
  - vm_compute. reflexivity.
  - reflexivity.
  - vm_compute. reflexivity.
  - destruct (run rejoinProg 6
                (KClearAsync (clearParams "timeout" (Some (DHost "clearTimeout")) (VNum 1)
                                None None)) rejoining) as [v s|e s|] eqn:E;
      vm_compute in E; try discriminate E.
    destruct H as (_ & t & hs & Ht & Hpre & Hab).
    injection E as <- <-. eexists _, t, hs. split; [reflexivity|].
    split; [rewrite Ht, Htr1; by rewrite <- app_assoc|].
    split; [exact Hpre|]. split; [exact Hab|].
    split; vm_compute; reflexivity.
Defined.

(** C6 as the specification states it fails: the first clear hook of the
    worker's Link throws, and [terminateWorker] ends there; the second
    hook and the destructor are not called, so the worker, which has a
    [terminate] method, is not terminated, while its Link is out of the
    registry. *)
Lemma C6_counterexample :
  ∃ st',
    Map_get (VObj 0) (links (getLocal "worker" None liveWorker)) = Some 0
    ∧ l_onClear (getLink liveWorker 0) = [FUser 1; FUser 2]
    ∧ workerMethod liveWorker (VObj 0) = VFn (FUser 5)
    ∧ terminateWorker throwingProg 5 (VObj 0) None None liveWorker
      = Throw (UserError "boom") st'
    ∧ (∀ c, EHook (FUser 2) c ∉ trace st')
    ∧ (∀ d id c, EDestroy d id c ∉ trace st')
    ∧ Map_get (VObj 0) (links (getLocal "worker" None st')) = None.
Proof.
  eexists. split; [vm_compute; reflexivity|]. split; [reflexivity|].
  split; [vm_compute; reflexivity|]. split; [vm_compute; reflexivity|].
  split; [|split].
  - intros c Hin. simpl in Hin.
    repeat (apply elem_of_cons in Hin as [Hin|Hin]; [discriminate Hin|]).
    by apply elem_of_nil in Hin.
  - intros d id c Hin. simpl in Hin.
    repeat (apply elem_of_cons in Hin as [Hin|Hin]; [discriminate Hin|]).
    by apply elem_of_nil in Hin.
  - vm_compute. reflexivity.
Qed.


Lemma C4_witness :
  ∃ st' s t,
    run quietProg 5 (KSetAsync (setTimeoutParams (VFn (FUser 2)) (labelled "t" []))) oneTimeout
    = Ok (VNum 2) st'
    ∧ trace s
      = trace oneTimeout
        ++ EStart (WHost "setTimeout") "timeout" (VFn (FWrapped 1)) (VNum 2)
           :: ELinksDelete "timeout" None (VNum 1) :: t
    ∧ trace st' = trace s ++ [ELinksSet "timeout" None (VNum 2) 1]
    ∧ Map_get (VNum 2) (links (getLocal "timeout" None st')) = Some 1
    ∧ labels_get (getLocal "timeout" None st') "t" = VNum 2.
Proof.
  destruct (C4_prior_cleared_before_install quietProg 3
              (setTimeoutParams (VFn (FUser 2)) (labelled "t" []))
              "t" (VNum 1) 0 (VNum 2) oneTimeout
              (log (EStart (WHost "setTimeout") "timeout" (VFn (FWrapped 1)) (VNum 2))
                 (issue_handle oneTimeout)) regOk_oneTimeout)
    as (_ & _ & _ & _ & H).
  - reflexivity.
  - vm_compute. reflexivity.
  - reflexivity.
  - discriminate.
  - reflexivity.
  - vm_compute. reflexivity.
  - left. reflexivity.
  - reflexivity.
  - vm_compute. reflexivity.
  - destruct (run quietProg 5
                (KSetAsync (setTimeoutParams (VFn (FUser 2)) (labelled "t" []))) oneTimeout)
      as [v st'|e st'|] eqn:E; vm_compute in E; try discriminate E.
    destruct H as (Hv & u & s & t & hs & _ & _ & _ & Ht & _ & _ & Ht' & Hlinks & Hlabels).
    exists st', s, t. subst v. split; [reflexivity|].
    split; [exact Ht|]. split; [exact Ht'|]. split; [exact Hlinks | exact Hlabels].
Defined.



Lemma regOk_twoTimeouts : regOk twoTimeouts.
Proof.
  refine (proj2 (runAll_keeps addingProg 1
                   [KSetAsync (setTimeoutParams (VFn (FUser 7)) (hooked [FUser 1]));
                    KSetAsync (setTimeoutParams (VFn (FUser 8)) noOpts)]
                   emptyState twoTimeouts _) regOk_empty).
  vm_compute. reflexivity.
Qed.

Lemma C7_witness :
  Map_keys (links (getLocal "timeout" None twoTimeouts)) = [VNum 1; VNum 2]
  ∧ ∃ st',
      run addingProg 10
        (KClearAsync (clearParams "timeout" (Some (DHost "clearTimeout")) VUndef None None))
        twoTimeouts = Ok VUndef st'
      ∧ ELinksSet "timeout" None (VNum 3) 2 ∈ trace st'
      ∧ Map_values (links (getLocal "timeout" None st')) = [].
Proof.
  split; [vm_compute; reflexivity|].
  destruct (C7_bulk_clear_walks_live_map addingProg 9
              (clearParams "timeout" (Some (DHost "clearTimeout")) VUndef None None)
              twoTimeouts 0 0) as [Hany _].
  - reflexivity.
  - reflexivity.
  - destruct (run addingProg 10
                (KClearAsync (clearParams "timeout" (Some (DHost "clearTimeout")) VUndef
                                None None)) twoTimeouts) as [v s|e s|] eqn:E;
      vm_compute in E; try discriminate E.
    pose proof (Hany regOk_twoTimeouts v s eq_refl) as Hvals.
    injection E as <- <-. eexists. split; [reflexivity|].
    split; [compute_done | exact Hvals].
Defined.



